(** * Voxceleron render pipeline: frame state machine and resource lifecycle

    A shallow embedding of [src/engine/vulkan/pipeline/Pipeline.cpp].  The
    C++ object [Pipeline] becomes a record, its methods become computations
    in a small state monad, and the Vulkan driver becomes an explicit world:
    the chronological list of calls made so far, from which the set of live
    objects, the status of every fence and the contents of every command
    recorder are computed, together with a tape of the results the driver is
    going to return. *)

From Stdlib Require Import ZArith String.
From stdpp Require Import base option list gmap strings.

Open Scope Z_scope.
Open Scope nat_scope.

(** ** Vulkan vocabulary *)

(** Non-dispatchable handles are opaque integers; zero is the null handle. *)
Definition Handle := nat.
Definition VK_NULL_HANDLE : Handle := 0.

(** [VkResult] is a C enumeration; the three values the pipeline tests for
    carry the numbers of [vulkan_core.h], the others are a few of the
    failures a driver can report. *)
Definition VkResult := Z.
Definition VK_SUCCESS : VkResult := 0%Z.
Definition VK_SUBOPTIMAL_KHR : VkResult := 1000001003%Z.
Definition VK_ERROR_OUT_OF_DATE_KHR : VkResult := (-1000001004)%Z.
Definition VK_ERROR_OUT_OF_HOST_MEMORY : VkResult := (-1)%Z.
Definition VK_ERROR_OUT_OF_DEVICE_MEMORY : VkResult := (-2)%Z.
Definition VK_ERROR_DEVICE_LOST : VkResult := (-4)%Z.
Definition VK_ERROR_SURFACE_LOST_KHR : VkResult := (-1000000000)%Z.

Definition VK_FENCE_CREATE_SIGNALED_BIT : Z := 1%Z.

Inductive ObjKind :=
| Buffer | DeviceMemory | DescriptorSetLayout | DescriptorPool | DescriptorSet
| Semaphore | Fence | CommandPool | CommandBuffer | Framebuffer
| GraphicsPipeline | PipelineLayout | RenderPass | ShaderModule.

Global Instance ObjKind_eq_dec : EqDecision ObjKind.
Proof. solve_decision. Defined.

(** Commands recorded into a command buffer between [beginFrame] and
    [endFrame]. *)
Inductive Cmd :=
| CmdBeginRenderPass (pass framebuffer : Handle) (width height : nat)
| CmdBindPipeline (pipeline : Handle)
| CmdBindDescriptorSets (layout set : Handle)
| CmdEndRenderPass.

Inductive FenceStatus := Signaled | Unsignaled | Pending.

Global Instance FenceStatus_eq_dec : EqDecision FenceStatus.
Proof. solve_decision. Defined.

(** One entry of the call log: the Vulkan entry point, the handles it was
    given, and what it returned. *)
Inductive Event :=
| EvCreate (k : ObjKind) (parent : Handle) (r : VkResult) (h : Handle)
| EvCreateFence (flags : Z) (r : VkResult) (h : Handle)
| EvAllocateDescriptorSets (pool : Handle) (r : VkResult) (hs : list Handle)
| EvDestroy (k : ObjKind) (h : Handle)
| EvGetBufferMemoryRequirements (buffer : Handle)
| EvBindBufferMemory (buffer memory : Handle) (r : VkResult)
| EvMapMemory (memory : Handle) (r : VkResult)
| EvUnmapMemory (memory : Handle)
| EvUpdateDescriptorSets (set buffer : Handle)
| EvDeviceWaitIdle
| EvWaitForFences (fence : Handle) (observed : option FenceStatus)
| EvAcquireNextImage (semaphore : Handle) (r : VkResult) (index : nat)
| EvResetFences (fence : Handle)
| EvResetCommandBuffer (cb : Handle)
| EvBeginCommandBuffer (cb : Handle) (r : VkResult)
| EvCmd (cb : Handle) (c : Cmd)
| EvEndCommandBuffer (cb : Handle) (r : VkResult)
| EvQueueSubmit (cb wait signal fence : Handle) (r : VkResult)
| EvQueuePresent (wait : Handle) (index : nat) (r : VkResult)
| EvWriteUniform (mapped : Handle) (width height : nat).

(** ** The pipeline object *)

(** [Pipeline.h] is not among the sources; the enumerators are the three
    the implementation assigns and tests. *)
Inductive State := UNINITIALIZED | READY | RECREATING.

Global Instance State_eq_dec : EqDecision State.
Proof. solve_decision. Defined.

Record Pipeline := {
  pipelineLayout : Handle;
  graphicsPipeline : Handle;
  renderPass : Handle;
  descriptorSetLayout : Handle;
  descriptorPool : Handle;
  vertexBuffer : Handle;
  vertexBufferMemory : Handle;
  framebuffers : list Handle;
  commandPools : list Handle;
  commandBuffers : list Handle;
  imageAvailableSemaphores : list Handle;
  renderFinishedSemaphores : list Handle;
  inFlightFences : list Handle;
  uniformBuffers : list Handle;
  uniformBuffersMemory : list Handle;
  uniformBuffersMapped : list Handle;
  descriptorSets : list Handle;
  currentFrame : nat;
  currentImageIndex : nat;
  state : State;
  lastError : string
}.

Definition set_pipelineLayout (v : Handle) (p : Pipeline) : Pipeline :=
  {| pipelineLayout := v; graphicsPipeline := graphicsPipeline p; renderPass := renderPass p;
     descriptorSetLayout := descriptorSetLayout p; descriptorPool := descriptorPool p;
     vertexBuffer := vertexBuffer p; vertexBufferMemory := vertexBufferMemory p;
     framebuffers := framebuffers p; commandPools := commandPools p;
     commandBuffers := commandBuffers p;
     imageAvailableSemaphores := imageAvailableSemaphores p;
     renderFinishedSemaphores := renderFinishedSemaphores p;
     inFlightFences := inFlightFences p; uniformBuffers := uniformBuffers p;
     uniformBuffersMemory := uniformBuffersMemory p;
     uniformBuffersMapped := uniformBuffersMapped p; descriptorSets := descriptorSets p;
     currentFrame := currentFrame p; currentImageIndex := currentImageIndex p;
     state := state p; lastError := lastError p |}.

Definition set_graphicsPipeline (v : Handle) (p : Pipeline) : Pipeline :=
  {| pipelineLayout := pipelineLayout p; graphicsPipeline := v; renderPass := renderPass p;
     descriptorSetLayout := descriptorSetLayout p; descriptorPool := descriptorPool p;
     vertexBuffer := vertexBuffer p; vertexBufferMemory := vertexBufferMemory p;
     framebuffers := framebuffers p; commandPools := commandPools p;
     commandBuffers := commandBuffers p;
     imageAvailableSemaphores := imageAvailableSemaphores p;
     renderFinishedSemaphores := renderFinishedSemaphores p;
     inFlightFences := inFlightFences p; uniformBuffers := uniformBuffers p;
     uniformBuffersMemory := uniformBuffersMemory p;
     uniformBuffersMapped := uniformBuffersMapped p; descriptorSets := descriptorSets p;
     currentFrame := currentFrame p; currentImageIndex := currentImageIndex p;
     state := state p; lastError := lastError p |}.

Definition set_renderPass (v : Handle) (p : Pipeline) : Pipeline :=
  {| pipelineLayout := pipelineLayout p; graphicsPipeline := graphicsPipeline p;
     renderPass := v; descriptorSetLayout := descriptorSetLayout p;
     descriptorPool := descriptorPool p; vertexBuffer := vertexBuffer p;
     vertexBufferMemory := vertexBufferMemory p; framebuffers := framebuffers p;
     commandPools := commandPools p; commandBuffers := commandBuffers p;
     imageAvailableSemaphores := imageAvailableSemaphores p;
     renderFinishedSemaphores := renderFinishedSemaphores p;
     inFlightFences := inFlightFences p; uniformBuffers := uniformBuffers p;
     uniformBuffersMemory := uniformBuffersMemory p;
     uniformBuffersMapped := uniformBuffersMapped p; descriptorSets := descriptorSets p;
     currentFrame := currentFrame p; currentImageIndex := currentImageIndex p;
     state := state p; lastError := lastError p |}.

Definition set_descriptorSetLayout (v : Handle) (p : Pipeline) : Pipeline :=
  {| pipelineLayout := pipelineLayout p; graphicsPipeline := graphicsPipeline p;
     renderPass := renderPass p; descriptorSetLayout := v; descriptorPool := descriptorPool p;
     vertexBuffer := vertexBuffer p; vertexBufferMemory := vertexBufferMemory p;
     framebuffers := framebuffers p; commandPools := commandPools p;
     commandBuffers := commandBuffers p;
     imageAvailableSemaphores := imageAvailableSemaphores p;
     renderFinishedSemaphores := renderFinishedSemaphores p;
     inFlightFences := inFlightFences p; uniformBuffers := uniformBuffers p;
     uniformBuffersMemory := uniformBuffersMemory p;
     uniformBuffersMapped := uniformBuffersMapped p; descriptorSets := descriptorSets p;
     currentFrame := currentFrame p; currentImageIndex := currentImageIndex p;
     state := state p; lastError := lastError p |}.

Definition set_descriptorPool (v : Handle) (p : Pipeline) : Pipeline :=
  {| pipelineLayout := pipelineLayout p; graphicsPipeline := graphicsPipeline p;
     renderPass := renderPass p; descriptorSetLayout := descriptorSetLayout p;
     descriptorPool := v; vertexBuffer := vertexBuffer p;
     vertexBufferMemory := vertexBufferMemory p; framebuffers := framebuffers p;
     commandPools := commandPools p; commandBuffers := commandBuffers p;
     imageAvailableSemaphores := imageAvailableSemaphores p;
     renderFinishedSemaphores := renderFinishedSemaphores p;
     inFlightFences := inFlightFences p; uniformBuffers := uniformBuffers p;
     uniformBuffersMemory := uniformBuffersMemory p;
     uniformBuffersMapped := uniformBuffersMapped p; descriptorSets := descriptorSets p;
     currentFrame := currentFrame p; currentImageIndex := currentImageIndex p;
     state := state p; lastError := lastError p |}.

Definition set_vertexBuffer (v : Handle) (p : Pipeline) : Pipeline :=
  {| pipelineLayout := pipelineLayout p; graphicsPipeline := graphicsPipeline p;
     renderPass := renderPass p; descriptorSetLayout := descriptorSetLayout p;
     descriptorPool := descriptorPool p; vertexBuffer := v;
     vertexBufferMemory := vertexBufferMemory p; framebuffers := framebuffers p;
     commandPools := commandPools p; commandBuffers := commandBuffers p;
     imageAvailableSemaphores := imageAvailableSemaphores p;
     renderFinishedSemaphores := renderFinishedSemaphores p;
     inFlightFences := inFlightFences p; uniformBuffers := uniformBuffers p;
     uniformBuffersMemory := uniformBuffersMemory p;
     uniformBuffersMapped := uniformBuffersMapped p; descriptorSets := descriptorSets p;
     currentFrame := currentFrame p; currentImageIndex := currentImageIndex p;
     state := state p; lastError := lastError p |}.

Definition set_vertexBufferMemory (v : Handle) (p : Pipeline) : Pipeline :=
  {| pipelineLayout := pipelineLayout p; graphicsPipeline := graphicsPipeline p;
     renderPass := renderPass p; descriptorSetLayout := descriptorSetLayout p;
     descriptorPool := descriptorPool p; vertexBuffer := vertexBuffer p;
     vertexBufferMemory := v; framebuffers := framebuffers p; commandPools := commandPools p;
     commandBuffers := commandBuffers p;
     imageAvailableSemaphores := imageAvailableSemaphores p;
     renderFinishedSemaphores := renderFinishedSemaphores p;
     inFlightFences := inFlightFences p; uniformBuffers := uniformBuffers p;
     uniformBuffersMemory := uniformBuffersMemory p;
     uniformBuffersMapped := uniformBuffersMapped p; descriptorSets := descriptorSets p;
     currentFrame := currentFrame p; currentImageIndex := currentImageIndex p;
     state := state p; lastError := lastError p |}.

Definition set_framebuffers (v : list Handle) (p : Pipeline) : Pipeline :=
  {| pipelineLayout := pipelineLayout p; graphicsPipeline := graphicsPipeline p;
     renderPass := renderPass p; descriptorSetLayout := descriptorSetLayout p;
     descriptorPool := descriptorPool p; vertexBuffer := vertexBuffer p;
     vertexBufferMemory := vertexBufferMemory p; framebuffers := v;
     commandPools := commandPools p; commandBuffers := commandBuffers p;
     imageAvailableSemaphores := imageAvailableSemaphores p;
     renderFinishedSemaphores := renderFinishedSemaphores p;
     inFlightFences := inFlightFences p; uniformBuffers := uniformBuffers p;
     uniformBuffersMemory := uniformBuffersMemory p;
     uniformBuffersMapped := uniformBuffersMapped p; descriptorSets := descriptorSets p;
     currentFrame := currentFrame p; currentImageIndex := currentImageIndex p;
     state := state p; lastError := lastError p |}.

Definition set_commandPools (v : list Handle) (p : Pipeline) : Pipeline :=
  {| pipelineLayout := pipelineLayout p; graphicsPipeline := graphicsPipeline p;
     renderPass := renderPass p; descriptorSetLayout := descriptorSetLayout p;
     descriptorPool := descriptorPool p; vertexBuffer := vertexBuffer p;
     vertexBufferMemory := vertexBufferMemory p; framebuffers := framebuffers p;
     commandPools := v; commandBuffers := commandBuffers p;
     imageAvailableSemaphores := imageAvailableSemaphores p;
     renderFinishedSemaphores := renderFinishedSemaphores p;
     inFlightFences := inFlightFences p; uniformBuffers := uniformBuffers p;
     uniformBuffersMemory := uniformBuffersMemory p;
     uniformBuffersMapped := uniformBuffersMapped p; descriptorSets := descriptorSets p;
     currentFrame := currentFrame p; currentImageIndex := currentImageIndex p;
     state := state p; lastError := lastError p |}.

Definition set_commandBuffers (v : list Handle) (p : Pipeline) : Pipeline :=
  {| pipelineLayout := pipelineLayout p; graphicsPipeline := graphicsPipeline p;
     renderPass := renderPass p; descriptorSetLayout := descriptorSetLayout p;
     descriptorPool := descriptorPool p; vertexBuffer := vertexBuffer p;
     vertexBufferMemory := vertexBufferMemory p; framebuffers := framebuffers p;
     commandPools := commandPools p; commandBuffers := v;
     imageAvailableSemaphores := imageAvailableSemaphores p;
     renderFinishedSemaphores := renderFinishedSemaphores p;
     inFlightFences := inFlightFences p; uniformBuffers := uniformBuffers p;
     uniformBuffersMemory := uniformBuffersMemory p;
     uniformBuffersMapped := uniformBuffersMapped p; descriptorSets := descriptorSets p;
     currentFrame := currentFrame p; currentImageIndex := currentImageIndex p;
     state := state p; lastError := lastError p |}.

Definition set_imageAvailableSemaphores (v : list Handle) (p : Pipeline) : Pipeline :=
  {| pipelineLayout := pipelineLayout p; graphicsPipeline := graphicsPipeline p;
     renderPass := renderPass p; descriptorSetLayout := descriptorSetLayout p;
     descriptorPool := descriptorPool p; vertexBuffer := vertexBuffer p;
     vertexBufferMemory := vertexBufferMemory p; framebuffers := framebuffers p;
     commandPools := commandPools p; commandBuffers := commandBuffers p;
     imageAvailableSemaphores := v; renderFinishedSemaphores := renderFinishedSemaphores p;
     inFlightFences := inFlightFences p; uniformBuffers := uniformBuffers p;
     uniformBuffersMemory := uniformBuffersMemory p;
     uniformBuffersMapped := uniformBuffersMapped p; descriptorSets := descriptorSets p;
     currentFrame := currentFrame p; currentImageIndex := currentImageIndex p;
     state := state p; lastError := lastError p |}.

Definition set_renderFinishedSemaphores (v : list Handle) (p : Pipeline) : Pipeline :=
  {| pipelineLayout := pipelineLayout p; graphicsPipeline := graphicsPipeline p;
     renderPass := renderPass p; descriptorSetLayout := descriptorSetLayout p;
     descriptorPool := descriptorPool p; vertexBuffer := vertexBuffer p;
     vertexBufferMemory := vertexBufferMemory p; framebuffers := framebuffers p;
     commandPools := commandPools p; commandBuffers := commandBuffers p;
     imageAvailableSemaphores := imageAvailableSemaphores p; renderFinishedSemaphores := v;
     inFlightFences := inFlightFences p; uniformBuffers := uniformBuffers p;
     uniformBuffersMemory := uniformBuffersMemory p;
     uniformBuffersMapped := uniformBuffersMapped p; descriptorSets := descriptorSets p;
     currentFrame := currentFrame p; currentImageIndex := currentImageIndex p;
     state := state p; lastError := lastError p |}.

Definition set_inFlightFences (v : list Handle) (p : Pipeline) : Pipeline :=
  {| pipelineLayout := pipelineLayout p; graphicsPipeline := graphicsPipeline p;
     renderPass := renderPass p; descriptorSetLayout := descriptorSetLayout p;
     descriptorPool := descriptorPool p; vertexBuffer := vertexBuffer p;
     vertexBufferMemory := vertexBufferMemory p; framebuffers := framebuffers p;
     commandPools := commandPools p; commandBuffers := commandBuffers p;
     imageAvailableSemaphores := imageAvailableSemaphores p;
     renderFinishedSemaphores := renderFinishedSemaphores p; inFlightFences := v;
     uniformBuffers := uniformBuffers p; uniformBuffersMemory := uniformBuffersMemory p;
     uniformBuffersMapped := uniformBuffersMapped p; descriptorSets := descriptorSets p;
     currentFrame := currentFrame p; currentImageIndex := currentImageIndex p;
     state := state p; lastError := lastError p |}.

Definition set_uniformBuffers (v : list Handle) (p : Pipeline) : Pipeline :=
  {| pipelineLayout := pipelineLayout p; graphicsPipeline := graphicsPipeline p;
     renderPass := renderPass p; descriptorSetLayout := descriptorSetLayout p;
     descriptorPool := descriptorPool p; vertexBuffer := vertexBuffer p;
     vertexBufferMemory := vertexBufferMemory p; framebuffers := framebuffers p;
     commandPools := commandPools p; commandBuffers := commandBuffers p;
     imageAvailableSemaphores := imageAvailableSemaphores p;
     renderFinishedSemaphores := renderFinishedSemaphores p;
     inFlightFences := inFlightFences p; uniformBuffers := v;
     uniformBuffersMemory := uniformBuffersMemory p;
     uniformBuffersMapped := uniformBuffersMapped p; descriptorSets := descriptorSets p;
     currentFrame := currentFrame p; currentImageIndex := currentImageIndex p;
     state := state p; lastError := lastError p |}.

Definition set_uniformBuffersMemory (v : list Handle) (p : Pipeline) : Pipeline :=
  {| pipelineLayout := pipelineLayout p; graphicsPipeline := graphicsPipeline p;
     renderPass := renderPass p; descriptorSetLayout := descriptorSetLayout p;
     descriptorPool := descriptorPool p; vertexBuffer := vertexBuffer p;
     vertexBufferMemory := vertexBufferMemory p; framebuffers := framebuffers p;
     commandPools := commandPools p; commandBuffers := commandBuffers p;
     imageAvailableSemaphores := imageAvailableSemaphores p;
     renderFinishedSemaphores := renderFinishedSemaphores p;
     inFlightFences := inFlightFences p; uniformBuffers := uniformBuffers p;
     uniformBuffersMemory := v; uniformBuffersMapped := uniformBuffersMapped p;
     descriptorSets := descriptorSets p; currentFrame := currentFrame p;
     currentImageIndex := currentImageIndex p; state := state p; lastError := lastError p |}.

Definition set_uniformBuffersMapped (v : list Handle) (p : Pipeline) : Pipeline :=
  {| pipelineLayout := pipelineLayout p; graphicsPipeline := graphicsPipeline p;
     renderPass := renderPass p; descriptorSetLayout := descriptorSetLayout p;
     descriptorPool := descriptorPool p; vertexBuffer := vertexBuffer p;
     vertexBufferMemory := vertexBufferMemory p; framebuffers := framebuffers p;
     commandPools := commandPools p; commandBuffers := commandBuffers p;
     imageAvailableSemaphores := imageAvailableSemaphores p;
     renderFinishedSemaphores := renderFinishedSemaphores p;
     inFlightFences := inFlightFences p; uniformBuffers := uniformBuffers p;
     uniformBuffersMemory := uniformBuffersMemory p; uniformBuffersMapped := v;
     descriptorSets := descriptorSets p; currentFrame := currentFrame p;
     currentImageIndex := currentImageIndex p; state := state p; lastError := lastError p |}.

Definition set_descriptorSets (v : list Handle) (p : Pipeline) : Pipeline :=
  {| pipelineLayout := pipelineLayout p; graphicsPipeline := graphicsPipeline p;
     renderPass := renderPass p; descriptorSetLayout := descriptorSetLayout p;
     descriptorPool := descriptorPool p; vertexBuffer := vertexBuffer p;
     vertexBufferMemory := vertexBufferMemory p; framebuffers := framebuffers p;
     commandPools := commandPools p; commandBuffers := commandBuffers p;
     imageAvailableSemaphores := imageAvailableSemaphores p;
     renderFinishedSemaphores := renderFinishedSemaphores p;
     inFlightFences := inFlightFences p; uniformBuffers := uniformBuffers p;
     uniformBuffersMemory := uniformBuffersMemory p;
     uniformBuffersMapped := uniformBuffersMapped p; descriptorSets := v;
     currentFrame := currentFrame p; currentImageIndex := currentImageIndex p;
     state := state p; lastError := lastError p |}.

Definition set_currentFrame (v : nat) (p : Pipeline) : Pipeline :=
  {| pipelineLayout := pipelineLayout p; graphicsPipeline := graphicsPipeline p;
     renderPass := renderPass p; descriptorSetLayout := descriptorSetLayout p;
     descriptorPool := descriptorPool p; vertexBuffer := vertexBuffer p;
     vertexBufferMemory := vertexBufferMemory p; framebuffers := framebuffers p;
     commandPools := commandPools p; commandBuffers := commandBuffers p;
     imageAvailableSemaphores := imageAvailableSemaphores p;
     renderFinishedSemaphores := renderFinishedSemaphores p;
     inFlightFences := inFlightFences p; uniformBuffers := uniformBuffers p;
     uniformBuffersMemory := uniformBuffersMemory p;
     uniformBuffersMapped := uniformBuffersMapped p; descriptorSets := descriptorSets p;
     currentFrame := v; currentImageIndex := currentImageIndex p; state := state p;
     lastError := lastError p |}.

Definition set_currentImageIndex (v : nat) (p : Pipeline) : Pipeline :=
  {| pipelineLayout := pipelineLayout p; graphicsPipeline := graphicsPipeline p;
     renderPass := renderPass p; descriptorSetLayout := descriptorSetLayout p;
     descriptorPool := descriptorPool p; vertexBuffer := vertexBuffer p;
     vertexBufferMemory := vertexBufferMemory p; framebuffers := framebuffers p;
     commandPools := commandPools p; commandBuffers := commandBuffers p;
     imageAvailableSemaphores := imageAvailableSemaphores p;
     renderFinishedSemaphores := renderFinishedSemaphores p;
     inFlightFences := inFlightFences p; uniformBuffers := uniformBuffers p;
     uniformBuffersMemory := uniformBuffersMemory p;
     uniformBuffersMapped := uniformBuffersMapped p; descriptorSets := descriptorSets p;
     currentFrame := currentFrame p; currentImageIndex := v; state := state p;
     lastError := lastError p |}.

Definition set_state (v : State) (p : Pipeline) : Pipeline :=
  {| pipelineLayout := pipelineLayout p; graphicsPipeline := graphicsPipeline p;
     renderPass := renderPass p; descriptorSetLayout := descriptorSetLayout p;
     descriptorPool := descriptorPool p; vertexBuffer := vertexBuffer p;
     vertexBufferMemory := vertexBufferMemory p; framebuffers := framebuffers p;
     commandPools := commandPools p; commandBuffers := commandBuffers p;
     imageAvailableSemaphores := imageAvailableSemaphores p;
     renderFinishedSemaphores := renderFinishedSemaphores p;
     inFlightFences := inFlightFences p; uniformBuffers := uniformBuffers p;
     uniformBuffersMemory := uniformBuffersMemory p;
     uniformBuffersMapped := uniformBuffersMapped p; descriptorSets := descriptorSets p;
     currentFrame := currentFrame p; currentImageIndex := currentImageIndex p; state := v;
     lastError := lastError p |}.

Definition set_lastError (v : string) (p : Pipeline) : Pipeline :=
  {| pipelineLayout := pipelineLayout p; graphicsPipeline := graphicsPipeline p;
     renderPass := renderPass p; descriptorSetLayout := descriptorSetLayout p;
     descriptorPool := descriptorPool p; vertexBuffer := vertexBuffer p;
     vertexBufferMemory := vertexBufferMemory p; framebuffers := framebuffers p;
     commandPools := commandPools p; commandBuffers := commandBuffers p;
     imageAvailableSemaphores := imageAvailableSemaphores p;
     renderFinishedSemaphores := renderFinishedSemaphores p;
     inFlightFences := inFlightFences p; uniformBuffers := uniformBuffers p;
     uniformBuffersMemory := uniformBuffersMemory p;
     uniformBuffersMapped := uniformBuffersMapped p; descriptorSets := descriptorSets p;
     currentFrame := currentFrame p; currentImageIndex := currentImageIndex p;
     state := state p; lastError := v |}.

(** The object as the constructor leaves it.  The four handles the
    constructor's initialiser list does not mention are tested against
    [VK_NULL_HANDLE] by [cleanup], which the destructor runs on a pipeline
    that was never initialised; they start out null. *)
Definition Pipeline_new : Pipeline :=
  {| pipelineLayout := VK_NULL_HANDLE; graphicsPipeline := VK_NULL_HANDLE;
     renderPass := VK_NULL_HANDLE; descriptorSetLayout := VK_NULL_HANDLE;
     descriptorPool := VK_NULL_HANDLE; vertexBuffer := VK_NULL_HANDLE;
     vertexBufferMemory := VK_NULL_HANDLE;
     framebuffers := []; commandPools := []; commandBuffers := [];
     imageAvailableSemaphores := []; renderFinishedSemaphores := [];
     inFlightFences := []; uniformBuffers := []; uniformBuffersMemory := [];
     uniformBuffersMapped := []; descriptorSets := [];
     currentFrame := 0; currentImageIndex := 0;
     state := UNINITIALIZED; lastError := "" |}.

(** [v[i]] on a [std::vector]; reading past the end is undefined in C++ and
    yields the null handle here. *)
Definition vec_at (v : list Handle) (i : nat) : Handle :=
  default VK_NULL_HANDLE (v !! i).

(** ** The world outside the object *)

(** The collaborators the pipeline only reads: the swapchain (images, their
    views, extent), the logical device of the context, and the shader files
    on disk. *)
Record SwapChain := {
  sc_handle : Handle;
  sc_images : list Handle;
  sc_imageViews : list Handle;
  sc_width : nat;
  sc_height : nat
}.

Record Env := {
  device : Handle;
  swapChain : SwapChain;
  files : string -> option (list Byte.byte)
}.

(** What a command buffer holds. *)
Inductive Phase := RecInitial | RecRecording | RecExecutable.

Record Recorder := {
  rec_pool : Handle;
  rec_phase : Phase;
  rec_cmds : list Cmd
}.

(** The whole machine: the object, the log of Vulkan calls in the order they
    were made, and the answers the driver has in store ([answers] for the
    next fallible calls, [images] for the next acquisitions; an exhausted
    tape answers [VK_SUCCESS], respectively image 0). *)
Record St := {
  self : Pipeline;
  calls : list Event;
  answers : list VkResult;
  images : list nat
}.

Definition with_self (f : Pipeline -> Pipeline) (s : St) : St :=
  {| self := f (self s); calls := calls s; answers := answers s; images := images s |}.

Definition log (e : Event) (s : St) : St :=
  {| self := self s; calls := calls s ++ [e]; answers := answers s; images := images s |}.

Definition next_answer (s : St) : VkResult :=
  match answers s with [] => VK_SUCCESS | r :: _ => r end.

Definition pop_answer (s : St) : St :=
  {| self := self s; calls := calls s; answers := tail (answers s); images := images s |}.

Definition next_image (s : St) : nat :=
  match images s with [] => 0 | i :: _ => i end.

Definition pop_image (s : St) : St :=
  {| self := self s; calls := calls s; answers := answers s; images := tail (images s) |}.

(** ** What the call log says about the device *)

Definition is_success (r : VkResult) : bool := (r =? VK_SUCCESS)%Z.
Definition failed (r : VkResult) : bool := negb (r =? VK_SUCCESS)%Z.

(** Handles created by one call. *)
Definition created_by (e : Event) : list Handle :=
  match e with
  | EvCreate _ _ r h => if is_success r then [h] else []
  | EvCreateFence _ r h => if is_success r then [h] else []
  | EvAllocateDescriptorSets _ r hs => if is_success r then hs else []
  | _ => []
  end.

(** Number of handles handed out so far; the driver numbers its objects
    consecutively and never reuses a number. *)
Definition issued (tr : list Event) : nat :=
  foldl (fun n e => n + length (created_by e)) 0 tr.

(** Live objects, each with its kind and the pool it was allocated from
    (null when it has none).  Destroying a pool frees what was allocated
    from it; destroying the null handle is ignored, as Vulkan specifies. *)
Definition live_step (m : gmap Handle (ObjKind * Handle)) (e : Event)
  : gmap Handle (ObjKind * Handle) :=
  match e with
  | EvCreate k parent r h => if is_success r then <[h := (k, parent)]> m else m
  | EvCreateFence _ r h => if is_success r then <[h := (Fence, VK_NULL_HANDLE)]> m else m
  | EvAllocateDescriptorSets pool r hs =>
      if is_success r then foldr (fun h acc => <[h := (DescriptorSet, pool)]> acc) m hs else m
  | EvDestroy _ h =>
      if decide (h = VK_NULL_HANDLE) then m
      else filter (fun kv => kv.1 ≠ h ∧ kv.2.2 ≠ h) m
  | _ => m
  end.

Definition live (tr : list Event) : gmap Handle (ObjKind * Handle) :=
  foldl live_step ∅ tr.

Definition gpu_done (st : FenceStatus) : FenceStatus :=
  match st with Pending => Signaled | _ => st end.

(** Status of every fence.  A fence is born signaled when its creation flags
    carry [VK_FENCE_CREATE_SIGNALED_BIT]; it is unsignaled by a reset, handed
    to the GPU by a successful submission, and signaled once the GPU is known
    to have finished (a wait on it returned, or the device went idle). *)
Definition fence_step (m : gmap Handle FenceStatus) (e : Event) : gmap Handle FenceStatus :=
  match e with
  | EvCreateFence flags r h =>
      if is_success r
      then <[h := if (Z.land flags VK_FENCE_CREATE_SIGNALED_BIT =? 0)%Z
                  then Unsignaled else Signaled]> m
      else m
  | EvResetFences f => alter (fun _ => Unsignaled) f m
  | EvQueueSubmit _ _ _ f r => if is_success r then alter (fun _ => Pending) f m else m
  | EvWaitForFences f _ => alter gpu_done f m
  | EvDeviceWaitIdle => gpu_done <$> m
  | EvDestroy Fence f => delete f m
  | _ => m
  end.

Definition fence_status (tr : list Event) : gmap Handle FenceStatus :=
  foldl fence_step ∅ tr.

Definition rec_reset (r : Recorder) : Recorder :=
  {| rec_pool := rec_pool r; rec_phase := RecInitial; rec_cmds := [] |}.

Definition rec_begin (r : Recorder) : Recorder :=
  {| rec_pool := rec_pool r; rec_phase := RecRecording; rec_cmds := [] |}.

Definition rec_append (c : Cmd) (r : Recorder) : Recorder :=
  match rec_phase r with
  | RecRecording =>
      {| rec_pool := rec_pool r; rec_phase := RecRecording; rec_cmds := rec_cmds r ++ [c] |}
  | _ => r
  end.

Definition rec_end (r : Recorder) : Recorder :=
  match rec_phase r with
  | RecRecording =>
      {| rec_pool := rec_pool r; rec_phase := RecExecutable; rec_cmds := rec_cmds r |}
  | _ => r
  end.

(** Contents of every command recorder. *)
Definition recorder_step (m : gmap Handle Recorder) (e : Event) : gmap Handle Recorder :=
  match e with
  | EvCreate CommandBuffer pool r h =>
      if is_success r
      then <[h := {| rec_pool := pool; rec_phase := RecInitial; rec_cmds := [] |}]> m
      else m
  | EvResetCommandBuffer cb => alter rec_reset cb m
  | EvBeginCommandBuffer cb r => if is_success r then alter rec_begin cb m else m
  | EvCmd cb c => alter (rec_append c) cb m
  | EvEndCommandBuffer cb r => if is_success r then alter rec_end cb m else m
  | EvDestroy CommandPool pool =>
      if decide (pool = VK_NULL_HANDLE) then m
      else filter (fun kv => rec_pool kv.2 ≠ pool) m
  | _ => m
  end.

Definition recorders (tr : list Event) : gmap Handle Recorder :=
  foldl recorder_step ∅ tr.

(** ** Computations *)

(** A method either returns, or leaves the calling thread blocked for ever
    inside a wait with no timeout, or ends the program by writing through a
    null pointer (undefined behaviour in C++, a segmentation fault in
    practice).  [Blocks] and [Faults] carry the machine as it was left. *)
Inductive Outcome (A : Type) :=
| Returns (a : A) (s : St)
| Blocks (s : St)
| Faults (s : St).
Arguments Returns {A} a s.
Arguments Blocks {A} s.
Arguments Faults {A} s.

Definition M (A : Type) : Type := St -> Outcome A.

Definition ret {A} (a : A) : M A := fun s => Returns a s.

Definition bind {A B} (c : M A) (k : A -> M B) : M B :=
  fun s => match c s with
           | Returns a s' => k a s'
           | Blocks s' => Blocks s'
           | Faults s' => Faults s'
           end.

Notation "x <- c ;; k" := (bind c (fun x => k))
  (at level 100, c at next level, right associativity).
Notation "c ;; k" := (bind c (fun _ => k))
  (at level 100, right associativity).

Definition final {A} (o : Outcome A) : St :=
  match o with Returns _ s => s | Blocks s => s | Faults s => s end.

Definition this : M Pipeline := fun s => Returns (self s) s.
Definition modify (f : Pipeline -> Pipeline) : M unit := fun s => Returns tt (with_self f s).
Definition emit (e : Event) : M unit := fun s => Returns tt (log e s).
Definition answer : M VkResult := fun s => Returns (next_answer s) (pop_answer s).
Definition fresh : M Handle := fun s => Returns (S (issued (calls s))) s.
Definition fault {A} : M A := fun s => Faults s.

(** [for (i = first; i < first + count; i++) if (!body(i)) return false;
    return true;] *)
Fixpoint for_upto (count first : nat) (body : nat -> M bool) : M bool :=
  match count with
  | 0 => ret true
  | S c => ok <- body first ;; if ok : bool then for_upto c (S first) body else ret false
  end.

(** The same loop with a body that cannot leave the function. *)
Fixpoint for_each (count first : nat) (body : nat -> M unit) : M unit :=
  match count with
  | 0 => ret tt
  | S c => body first ;; for_each c (S first) body
  end.

(** [a() && b()] with C++ short-circuit evaluation. *)
Definition and_then (a b : M bool) : M bool :=
  ok <- a ;; if ok : bool then b else ret false.
Infix "&&>" := and_then (at level 85, right associativity).

(** *** The driver's entry points *)

(** [vkCreate*] and the single-object [vkAllocate*]: on success a new handle
    is returned through the out-parameter, on failure nothing is written. *)
Definition vkCreate (k : ObjKind) (parent : Handle) : M (VkResult * Handle) :=
  r <- answer ;;
  if is_success r
  then h <- fresh ;; emit (EvCreate k parent r h) ;; ret (r, h)
  else emit (EvCreate k parent r VK_NULL_HANDLE) ;; ret (r, VK_NULL_HANDLE).

(** The same with the out-parameter pointing into the object. *)
Definition vkCreateInto (k : ObjKind) (parent : Handle)
    (out : Handle -> Pipeline -> Pipeline) : M VkResult :=
  rh <- vkCreate k parent ;;
  (if is_success rh.1 then modify (out rh.2) else ret tt) ;;
  ret rh.1.

Definition vkCreateFenceInto (flags : Z) (out : Handle -> Pipeline -> Pipeline) : M VkResult :=
  r <- answer ;;
  if is_success r
  then h <- fresh ;; emit (EvCreateFence flags r h) ;; modify (out h) ;; ret r
  else emit (EvCreateFence flags r VK_NULL_HANDLE) ;; ret r.

Definition vkDestroy (k : ObjKind) (h : Handle) : M unit := emit (EvDestroy k h).

Definition vkDeviceWaitIdle : M unit := emit EvDeviceWaitIdle.

(** [vkWaitForFences(..., VK_TRUE, UINT64_MAX)]: returns at once on a
    signaled fence, returns when the GPU gets there on a submitted one, and
    never returns on a fence that was reset and not submitted again.  A
    handle that is no live fence is outside valid usage; the call is logged
    and returns. *)
Definition vkWaitForFences (f : Handle) : M unit :=
  fun s =>
    let observed := fence_status (calls s) !! f in
    match observed with
    | Some Unsignaled => Blocks (log (EvWaitForFences f observed) s)
    | _ => Returns tt (log (EvWaitForFences f observed) s)
    end.

(** The image index is written only when an image was acquired. *)
Definition vkAcquireNextImageKHR (semaphore : Handle) : M VkResult :=
  r <- answer ;;
  if (r =? VK_SUCCESS)%Z || (r =? VK_SUBOPTIMAL_KHR)%Z
  then fun s =>
         let i := next_image s in
         Returns r (log (EvAcquireNextImage semaphore r i)
                        (with_self (set_currentImageIndex i) (pop_image s)))
  else emit (EvAcquireNextImage semaphore r 0) ;; ret r.

Definition vkCall (mk : VkResult -> Event) : M VkResult :=
  r <- answer ;; emit (mk r) ;; ret r.

Definition nonnull (h : Handle) : bool := negb (Nat.eqb h VK_NULL_HANDLE).

(** [if (cond) { ... }] without an else branch. *)
Definition when (b : bool) (c : M unit) : M unit := if b then c else ret tt.

(** ** The methods of [Pipeline] *)

Section PipelineMethods.

(** [MAX_FRAMES_IN_FLIGHT] is a constant of [Pipeline.h]; the proofs hold
    for any value of it. *)
Variable MAX_FRAMES_IN_FLIGHT : nat.
Variable env : Env.

(** Modelled from the spec: [setError] is declared in [Pipeline.h], which is
    not among the sources; failures are surfaced "as a boolean/result plus a
    retrievable last-error message", so it records the message. *)
Definition setError (msg : string) : M unit := modify (set_lastError msg).

Definition waitIdle : M unit :=
  when (nonnull (device env)) vkDeviceWaitIdle.

Definition createUniformBuffers : M bool :=
  modify (fun p => set_uniformBuffers
                     (resize MAX_FRAMES_IN_FLIGHT VK_NULL_HANDLE (uniformBuffers p)) p) ;;
  modify (fun p => set_uniformBuffersMemory
                     (resize MAX_FRAMES_IN_FLIGHT VK_NULL_HANDLE (uniformBuffersMemory p)) p) ;;
  modify (fun p => set_uniformBuffersMapped
                     (resize MAX_FRAMES_IN_FLIGHT VK_NULL_HANDLE (uniformBuffersMapped p)) p) ;;
  for_upto MAX_FRAMES_IN_FLIGHT 0 (fun i =>
    r <- vkCreateInto Buffer VK_NULL_HANDLE
           (fun h p => set_uniformBuffers (<[i := h]> (uniformBuffers p)) p) ;;
    if failed r then setError "Failed to create uniform buffer" ;; ret false else
    p <- this ;;
    emit (EvGetBufferMemoryRequirements (vec_at (uniformBuffers p) i)) ;;
    r <- vkCreateInto DeviceMemory VK_NULL_HANDLE
           (fun h p => set_uniformBuffersMemory (<[i := h]> (uniformBuffersMemory p)) p) ;;
    if failed r then setError "Failed to allocate uniform buffer memory" ;; ret false else
    p <- this ;;
    _ <- vkCall (EvBindBufferMemory (vec_at (uniformBuffers p) i)
                                    (vec_at (uniformBuffersMemory p) i)) ;;
    (* Map the memory persistently *)
    r <- vkCall (EvMapMemory (vec_at (uniformBuffersMemory p) i)) ;;
    when (is_success r)
      (modify (fun q => set_uniformBuffersMapped
                          (<[i := vec_at (uniformBuffersMemory p) i]> (uniformBuffersMapped q)) q)) ;;
    ret true).

Definition createDescriptorSetLayout : M bool :=
  r <- vkCreateInto DescriptorSetLayout VK_NULL_HANDLE set_descriptorSetLayout ;;
  if failed r then setError "Failed to create descriptor set layout" ;; ret false else
  ret true.

Definition cleanup : M unit :=
  waitIdle ;;
  (* Clean up uniform buffers *)
  p <- this ;;
  for_each (length (uniformBuffers p)) 0 (fun i =>
    p <- this ;;
    when (nonnull (vec_at (uniformBuffersMapped p) i))
      (emit (EvUnmapMemory (vec_at (uniformBuffersMemory p) i))) ;;
    when (nonnull (vec_at (uniformBuffers p) i))
      (vkDestroy Buffer (vec_at (uniformBuffers p) i)) ;;
    when (nonnull (vec_at (uniformBuffersMemory p) i))
      (vkDestroy DeviceMemory (vec_at (uniformBuffersMemory p) i))) ;;
  modify (set_uniformBuffers []) ;;
  modify (set_uniformBuffersMemory []) ;;
  modify (set_uniformBuffersMapped []) ;;
  (* Clean up descriptor resources *)
  p <- this ;;
  when (nonnull (descriptorPool p))
    (vkDestroy DescriptorPool (descriptorPool p) ;;
     modify (set_descriptorPool VK_NULL_HANDLE)) ;;
  when (nonnull (descriptorSetLayout p))
    (vkDestroy DescriptorSetLayout (descriptorSetLayout p) ;;
     modify (set_descriptorSetLayout VK_NULL_HANDLE)) ;;
  when (nonnull (vertexBuffer p))
    (vkDestroy Buffer (vertexBuffer p) ;;
     modify (set_vertexBuffer VK_NULL_HANDLE)) ;;
  when (nonnull (vertexBufferMemory p))
    (vkDestroy DeviceMemory (vertexBufferMemory p) ;;
     modify (set_vertexBufferMemory VK_NULL_HANDLE)) ;;
  (* Clean up synchronization objects *)
  for_each MAX_FRAMES_IN_FLIGHT 0 (fun i =>
    p <- this ;;
    when (Nat.ltb i (length (imageAvailableSemaphores p)))
      (vkDestroy Semaphore (vec_at (imageAvailableSemaphores p) i)) ;;
    when (Nat.ltb i (length (renderFinishedSemaphores p)))
      (vkDestroy Semaphore (vec_at (renderFinishedSemaphores p) i)) ;;
    when (Nat.ltb i (length (inFlightFences p)))
      (vkDestroy Fence (vec_at (inFlightFences p) i))) ;;
  (* Clean up command buffers and pools *)
  for_each (length (commandPools p)) 0 (fun i =>
    p <- this ;;
    when (nonnull (vec_at (commandPools p) i))
      (vkDestroy CommandPool (vec_at (commandPools p) i))) ;;
  (* Clean up framebuffers first *)
  for_each (length (framebuffers p)) 0 (fun i =>
    p <- this ;;
    when (nonnull (vec_at (framebuffers p) i))
      (vkDestroy Framebuffer (vec_at (framebuffers p) i) ;;
       modify (fun q => set_framebuffers (<[i := VK_NULL_HANDLE]> (framebuffers q)) q))) ;;
  modify (set_framebuffers []) ;;
  p <- this ;;
  when (nonnull (graphicsPipeline p))
    (vkDestroy GraphicsPipeline (graphicsPipeline p) ;;
     modify (set_graphicsPipeline VK_NULL_HANDLE)) ;;
  when (nonnull (pipelineLayout p))
    (vkDestroy PipelineLayout (pipelineLayout p) ;;
     modify (set_pipelineLayout VK_NULL_HANDLE)) ;;
  when (nonnull (renderPass p))
    (vkDestroy RenderPass (renderPass p) ;;
     modify (set_renderPass VK_NULL_HANDLE)) ;;
  modify (set_imageAvailableSemaphores []) ;;
  modify (set_renderFinishedSemaphores []) ;;
  modify (set_inFlightFences []) ;;
  modify (set_commandBuffers []) ;;
  modify (set_commandPools []) ;;
  modify (set_descriptorSets []) ;;
  modify (set_state UNINITIALIZED).

(** The matrices are computed from the clock and the extent, then
    [memcpy(uniformBuffersMapped[currentImage], &ubo, sizeof(ubo))] runs
    unconditionally.  The pointer is the one [vkMapMemory] gave; it is still
    null when the mapping failed, since [createUniformBuffers] does not look
    at that result, and the copy to a null pointer ends the program. *)
Definition updateUniformBuffer (currentImage : nat) : M unit :=
  p <- this ;;
  if nonnull (vec_at (uniformBuffersMapped p) currentImage)
  then emit (EvWriteUniform (vec_at (uniformBuffersMapped p) currentImage)
                            (sc_width (swapChain env)) (sc_height (swapChain env)))
  else fault.

Definition beginFrame : M bool :=
  p <- this ;;
  if negb (bool_decide (state p = READY))
  then setError "Pipeline is not in ready state" ;; ret false else
  (* Wait for previous frame *)
  vkWaitForFences (vec_at (inFlightFences p) (currentFrame p)) ;;
  (* Acquire next image *)
  result <- vkAcquireNextImageKHR (vec_at (imageAvailableSemaphores p) (currentFrame p)) ;;
  if (result =? VK_ERROR_OUT_OF_DATE_KHR)%Z
  then modify (set_state RECREATING) ;; ret false
  else if negb (result =? VK_SUCCESS)%Z && negb (result =? VK_SUBOPTIMAL_KHR)%Z
  then setError "Failed to acquire swap chain image" ;; ret false else
  (* Reset fence only if we are submitting work *)
  emit (EvResetFences (vec_at (inFlightFences p) (currentFrame p))) ;;
  (* Reset command buffer *)
  emit (EvResetCommandBuffer (vec_at (commandBuffers p) (currentFrame p))) ;;
  (* Begin command buffer *)
  r <- vkCall (EvBeginCommandBuffer (vec_at (commandBuffers p) (currentFrame p))) ;;
  if failed r then setError "Failed to begin recording command buffer" ;; ret false else
  (* Begin render pass *)
  p <- this ;;
  emit (EvCmd (vec_at (commandBuffers p) (currentFrame p))
              (CmdBeginRenderPass (renderPass p)
                                  (vec_at (framebuffers p) (currentImageIndex p))
                                  (sc_width (swapChain env)) (sc_height (swapChain env)))) ;;
  (* Bind the graphics pipeline *)
  emit (EvCmd (vec_at (commandBuffers p) (currentFrame p))
              (CmdBindPipeline (graphicsPipeline p))) ;;
  (* Update and bind uniform buffer *)
  updateUniformBuffer (currentFrame p) ;;
  (* Bind descriptor set *)
  emit (EvCmd (vec_at (commandBuffers p) (currentFrame p))
              (CmdBindDescriptorSets (pipelineLayout p)
                                     (vec_at (descriptorSets p) (currentFrame p)))) ;;
  ret true.

Definition endFrame : M bool :=
  p <- this ;;
  if negb (bool_decide (state p = READY))
  then setError "Pipeline is not in ready state" ;; ret false else
  emit (EvCmd (vec_at (commandBuffers p) (currentFrame p)) CmdEndRenderPass) ;;
  r <- vkCall (EvEndCommandBuffer (vec_at (commandBuffers p) (currentFrame p))) ;;
  if failed r then setError "Failed to record command buffer" ;; ret false else
  (* Submit command buffer *)
  r <- vkCall (EvQueueSubmit (vec_at (commandBuffers p) (currentFrame p))
                             (vec_at (imageAvailableSemaphores p) (currentFrame p))
                             (vec_at (renderFinishedSemaphores p) (currentFrame p))
                             (vec_at (inFlightFences p) (currentFrame p))) ;;
  if failed r then setError "Failed to submit draw command buffer" ;; ret false else
  (* Present *)
  result <- vkCall (EvQueuePresent (vec_at (renderFinishedSemaphores p) (currentFrame p))
                                   (currentImageIndex p)) ;;
  if (result =? VK_ERROR_OUT_OF_DATE_KHR)%Z || (result =? VK_SUBOPTIMAL_KHR)%Z
  then modify (set_state RECREATING) ;;
       modify (fun q => set_currentFrame ((currentFrame q + 1) `mod` MAX_FRAMES_IN_FLIGHT) q) ;;
       ret true
  else if negb (result =? VK_SUCCESS)%Z
  then setError "Failed to present swap chain image" ;; ret false else
  modify (fun q => set_currentFrame ((currentFrame q + 1) `mod` MAX_FRAMES_IN_FLIGHT) q) ;;
  ret true.

Definition getCurrentCommandBuffer (p : Pipeline) : Handle :=
  vec_at (commandBuffers p) (currentFrame p).

Definition createRenderPass : M bool :=
  r <- vkCreateInto RenderPass VK_NULL_HANDLE set_renderPass ;;
  if failed r then setError "Failed to create render pass" ;; ret false else
  ret true.

Definition readFile (filename : string) : M (list Byte.byte) :=
  match files env filename with
  | None => setError ("Failed to open file: " +:+ filename) ;; ret []
  | Some buffer => ret buffer
  end.

Definition createShaderModule (code : list Byte.byte) : M Handle :=
  rh <- vkCreate ShaderModule VK_NULL_HANDLE ;;
  if failed rh.1 then ret VK_NULL_HANDLE else ret rh.2.

Definition createGraphicsPipeline : M bool :=
  (* Load shader code *)
  vertShaderCode <- readFile "shaders/basic.vert.spv" ;;
  fragShaderCode <- readFile "shaders/basic.frag.spv" ;;
  vertShaderModule <- createShaderModule vertShaderCode ;;
  fragShaderModule <- createShaderModule fragShaderCode ;;
  if Nat.eqb vertShaderModule VK_NULL_HANDLE || Nat.eqb fragShaderModule VK_NULL_HANDLE
  then setError "Failed to create shader modules" ;; ret false else
  r <- vkCreateInto PipelineLayout VK_NULL_HANDLE set_pipelineLayout ;;
  if failed r then setError "Failed to create pipeline layout" ;; ret false else
  r <- vkCreateInto GraphicsPipeline VK_NULL_HANDLE set_graphicsPipeline ;;
  if failed r
  then setError "Failed to create graphics pipeline" ;;
       vkDestroy ShaderModule fragShaderModule ;;
       vkDestroy ShaderModule vertShaderModule ;;
       ret false
  else
  (* Clean up shader modules *)
  vkDestroy ShaderModule fragShaderModule ;;
  vkDestroy ShaderModule vertShaderModule ;;
  ret true.

Definition createFramebuffers : M bool :=
  let swapChainImages := sc_images (swapChain env) in
  let swapChainImageViews := sc_imageViews (swapChain env) in
  (* Create a framebuffer for each swap chain image view *)
  modify (fun p => set_framebuffers
                     (resize (length swapChainImages) VK_NULL_HANDLE (framebuffers p)) p) ;;
  for_upto (length swapChainImages) 0 (fun i =>
    r <- vkCreateInto Framebuffer VK_NULL_HANDLE
           (fun h p => set_framebuffers (<[i := h]> (framebuffers p)) p) ;;
    if failed r then setError "Failed to create framebuffer" ;; ret false else
    ret true).

Definition createCommandPools : M bool :=
  (* Create a command pool for each frame in flight *)
  modify (fun p => set_commandPools
                     (resize MAX_FRAMES_IN_FLIGHT VK_NULL_HANDLE (commandPools p)) p) ;;
  for_upto MAX_FRAMES_IN_FLIGHT 0 (fun i =>
    r <- vkCreateInto CommandPool VK_NULL_HANDLE
           (fun h p => set_commandPools (<[i := h]> (commandPools p)) p) ;;
    if failed r then setError "Failed to create command pool" ;; ret false else
    ret true).

Definition createCommandBuffers : M bool :=
  (* Create a command buffer for each frame in flight *)
  modify (fun p => set_commandBuffers
                     (resize MAX_FRAMES_IN_FLIGHT VK_NULL_HANDLE (commandBuffers p)) p) ;;
  for_upto MAX_FRAMES_IN_FLIGHT 0 (fun i =>
    p <- this ;;
    r <- vkCreateInto CommandBuffer (vec_at (commandPools p) i)
           (fun h p => set_commandBuffers (<[i := h]> (commandBuffers p)) p) ;;
    if failed r then setError "Failed to allocate command buffers" ;; ret false else
    ret true).

Definition createSyncObjects : M bool :=
  (* Resize vectors to hold sync objects for each frame in flight *)
  modify (fun p => set_imageAvailableSemaphores
                     (resize MAX_FRAMES_IN_FLIGHT VK_NULL_HANDLE (imageAvailableSemaphores p)) p) ;;
  modify (fun p => set_renderFinishedSemaphores
                     (resize MAX_FRAMES_IN_FLIGHT VK_NULL_HANDLE (renderFinishedSemaphores p)) p) ;;
  modify (fun p => set_inFlightFences
                     (resize MAX_FRAMES_IN_FLIGHT VK_NULL_HANDLE (inFlightFences p)) p) ;;
  for_upto MAX_FRAMES_IN_FLIGHT 0 (fun i =>
    r <- vkCreateInto Semaphore VK_NULL_HANDLE
           (fun h p => set_imageAvailableSemaphores (<[i := h]> (imageAvailableSemaphores p)) p) ;;
    if failed r
    then setError "Failed to create synchronization objects" ;; ret false else
    r <- vkCreateInto Semaphore VK_NULL_HANDLE
           (fun h p => set_renderFinishedSemaphores (<[i := h]> (renderFinishedSemaphores p)) p) ;;
    if failed r
    then setError "Failed to create synchronization objects" ;; ret false else
    r <- vkCreateFenceInto VK_FENCE_CREATE_SIGNALED_BIT
           (fun h p => set_inFlightFences (<[i := h]> (inFlightFences p)) p) ;;
    if failed r
    then setError "Failed to create synchronization objects" ;; ret false else
    ret true).

Definition createVertexBuffer : M bool :=
  (* Vertex buffer creation is now handled by World class *)
  ret true.

Definition createDescriptorPool : M bool :=
  r <- vkCreateInto DescriptorPool VK_NULL_HANDLE set_descriptorPool ;;
  if failed r then setError "Failed to create descriptor pool" ;; ret false else
  ret true.

(** One call allocates [count] sets and writes them to the front of the
    array it is given. *)
Definition vkAllocateDescriptorSets (pool : Handle) (count : nat) : M VkResult :=
  r <- answer ;;
  if is_success r
  then h <- fresh ;;
       emit (EvAllocateDescriptorSets pool r (seq h count)) ;;
       modify (fun p => set_descriptorSets
                          (seq h count ++ drop count (descriptorSets p)) p) ;;
       ret r
  else emit (EvAllocateDescriptorSets pool r []) ;; ret r.

Definition createDescriptorSets : M bool :=
  (* Resize descriptor sets vector *)
  modify (fun p => set_descriptorSets
                     (resize MAX_FRAMES_IN_FLIGHT VK_NULL_HANDLE (descriptorSets p)) p) ;;
  p <- this ;;
  (* Allocate descriptor sets *)
  r <- vkAllocateDescriptorSets (descriptorPool p) MAX_FRAMES_IN_FLIGHT ;;
  if failed r then setError "Failed to allocate descriptor sets" ;; ret false else
  (* Update descriptor sets with uniform buffer info *)
  for_each MAX_FRAMES_IN_FLIGHT 0 (fun i =>
    p <- this ;;
    emit (EvUpdateDescriptorSets (vec_at (descriptorSets p) i) (vec_at (uniformBuffers p) i))) ;;
  ret true.

Definition initialize : M bool :=
  p <- this ;;
  if negb (bool_decide (state p = UNINITIALIZED))
  then setError "Pipeline is already initialized" ;; ret false else
  ok <- (createDescriptorSetLayout &&>
         createRenderPass &&>
         createGraphicsPipeline &&>
         createFramebuffers &&>
         createCommandPools &&>
         createCommandBuffers &&>
         createUniformBuffers &&>
         createDescriptorPool &&>
         createDescriptorSets &&>
         createSyncObjects &&>
         createVertexBuffer) ;;
  if negb ok then ret false else
  modify (set_state READY) ;;
  ret true.

Definition recreateIfNeeded : M bool :=
  p <- this ;;
  if negb (bool_decide (state p = RECREATING)) then ret true else
  (* Wait for device to be idle before cleanup *)
  waitIdle ;;
  (* Store old framebuffers for cleanup *)
  p <- this ;;
  let oldFramebuffers := framebuffers p in
  modify (set_framebuffers []) ;;
  (* Clean up old framebuffers explicitly *)
  for_each (length oldFramebuffers) 0 (fun i =>
    when (nonnull (vec_at oldFramebuffers i))
      (vkDestroy Framebuffer (vec_at oldFramebuffers i))) ;;
  (* Perform full cleanup and reinitialize *)
  cleanup ;;
  result <- initialize ;;
  ret result.

End PipelineMethods.

(** * The vocabulary of the specification *)

(** ** Reasoning about computations *)

(** [post c Q B s]: started in [s], the computation [c] either returns a
    value and state satisfying [Q], or does not return (it blocks, or it
    faults) and leaves a state satisfying [B]. *)
Definition post {A} (c : M A) (Q : A -> St -> Prop) (B : St -> Prop) (s : St) : Prop :=
  match c s with
  | Returns a s' => Q a s'
  | Blocks s' => B s'
  | Faults s' => B s'
  end.

(** [wp c Q s]: started in [s], the computation [c] returns, and [Q] holds
    of what it returns. *)
Definition wp {A} (c : M A) (Q : A -> St -> Prop) (s : St) : Prop :=
  post c Q (fun _ => False) s.

(** ** What the build steps of [initialize] may do *)

(** The calls a build step makes: creations, the bookkeeping around uniform
    memory and descriptor sets, and the release of the two transient shader
    modules.  Fences are only ever created signaled. *)
Definition build_event (e : Event) : bool :=
  match e with
  | EvCreate _ _ _ _ | EvAllocateDescriptorSets _ _ _
  | EvGetBufferMemoryRequirements _ | EvBindBufferMemory _ _ _
  | EvMapMemory _ _ | EvUpdateDescriptorSets _ _ => true
  | EvCreateFence flags _ _ => (flags =? VK_FENCE_CREATE_SIGNALED_BIT)%Z
  | EvDestroy ShaderModule _ => true
  | _ => false
  end.

(** [s'] continues [s] by calls that all satisfy [P]. *)
Definition extends (P : Event -> bool) (s s' : St) : Prop :=
  exists new, calls s' = calls s ++ new /\ Forall (fun e => P e = true) new.

(** The slot vectors are in step: the three vectors of the uniform blocks
    have one length, as [cleanup] indexes all three by the first, and no
    vector of synchronisation objects outgrows the number of slots.  This
    holds of every object reachable from [Pipeline_new]. *)
Definition slots_consistent (MAX_FRAMES_IN_FLIGHT : nat) (p : Pipeline) : Prop :=
  length (uniformBuffersMemory p) = length (uniformBuffers p) /\
  length (uniformBuffersMapped p) = length (uniformBuffers p) /\
  length (imageAvailableSemaphores p) <= MAX_FRAMES_IN_FLIGHT /\
  length (renderFinishedSemaphores p) <= MAX_FRAMES_IN_FLIGHT /\
  length (inFlightFences p) <= MAX_FRAMES_IN_FLIGHT.

(** Every slot-indexed collection has one entry per slot. *)
Definition slots_sized (MAX_FRAMES_IN_FLIGHT : nat) (p : Pipeline) : Prop :=
  length (commandPools p) = MAX_FRAMES_IN_FLIGHT /\
  length (commandBuffers p) = MAX_FRAMES_IN_FLIGHT /\
  length (inFlightFences p) = MAX_FRAMES_IN_FLIGHT /\
  length (imageAvailableSemaphores p) = MAX_FRAMES_IN_FLIGHT /\
  length (renderFinishedSemaphores p) = MAX_FRAMES_IN_FLIGHT /\
  length (uniformBuffers p) = MAX_FRAMES_IN_FLIGHT /\
  length (uniformBuffersMemory p) = MAX_FRAMES_IN_FLIGHT /\
  length (uniformBuffersMapped p) = MAX_FRAMES_IN_FLIGHT /\
  length (descriptorSets p) = MAX_FRAMES_IN_FLIGHT.

(** What a build step leaves alone, and which size facts it keeps. *)
Definition same_shape (MAX_FRAMES_IN_FLIGHT : nat) (env : Env) (p p' : Pipeline) : Prop :=
  state p' = state p /\
  currentFrame p' = currentFrame p /\
  currentImageIndex p' = currentImageIndex p /\
  vertexBuffer p' = vertexBuffer p /\
  vertexBufferMemory p' = vertexBufferMemory p /\
  (slots_consistent MAX_FRAMES_IN_FLIGHT p -> slots_consistent MAX_FRAMES_IN_FLIGHT p') /\
  (length (framebuffers p) = length (sc_images (swapChain env)) ->
   length (framebuffers p') = length (sc_images (swapChain env))) /\
  (length (commandPools p) = MAX_FRAMES_IN_FLIGHT ->
   length (commandPools p') = MAX_FRAMES_IN_FLIGHT) /\
  (length (commandBuffers p) = MAX_FRAMES_IN_FLIGHT ->
   length (commandBuffers p') = MAX_FRAMES_IN_FLIGHT) /\
  (length (inFlightFences p) = MAX_FRAMES_IN_FLIGHT ->
   length (inFlightFences p') = MAX_FRAMES_IN_FLIGHT) /\
  (length (imageAvailableSemaphores p) = MAX_FRAMES_IN_FLIGHT ->
   length (imageAvailableSemaphores p') = MAX_FRAMES_IN_FLIGHT) /\
  (length (renderFinishedSemaphores p) = MAX_FRAMES_IN_FLIGHT ->
   length (renderFinishedSemaphores p') = MAX_FRAMES_IN_FLIGHT) /\
  (length (uniformBuffers p) = MAX_FRAMES_IN_FLIGHT ->
   length (uniformBuffers p') = MAX_FRAMES_IN_FLIGHT) /\
  (length (uniformBuffersMemory p) = MAX_FRAMES_IN_FLIGHT ->
   length (uniformBuffersMemory p') = MAX_FRAMES_IN_FLIGHT) /\
  (length (uniformBuffersMapped p) = MAX_FRAMES_IN_FLIGHT ->
   length (uniformBuffersMapped p') = MAX_FRAMES_IN_FLIGHT) /\
  (length (descriptorSets p) = MAX_FRAMES_IN_FLIGHT ->
   length (descriptorSets p') = MAX_FRAMES_IN_FLIGHT).

Definition builds (MAX_FRAMES_IN_FLIGHT : nat) (env : Env) (s s' : St) : Prop :=
  same_shape MAX_FRAMES_IN_FLIGHT env (self s) (self s') /\ extends build_event s s'.

(** [c] is a build step: from wherever it starts it returns, having only
    built. *)
Definition Builds (MAX_FRAMES_IN_FLIGHT : nat) (env : Env) {A} (c : M A) : Prop :=
  forall s0 s, builds MAX_FRAMES_IN_FLIGHT env s0 s ->
    wp c (fun _ s' => builds MAX_FRAMES_IN_FLIGHT env s0 s') s.

(** A property of the object alone that every build step keeps. *)
Definition kept (MAX_FRAMES_IN_FLIGHT : nat) (env : Env) (P : Pipeline -> Prop) : Prop :=
  forall p p', same_shape MAX_FRAMES_IN_FLIGHT env p p' -> P p -> P p'.

Definition uniforms_sized (MAX_FRAMES_IN_FLIGHT : nat) (p : Pipeline) : Prop :=
  length (uniformBuffers p) = MAX_FRAMES_IN_FLIGHT /\
  length (uniformBuffersMemory p) = MAX_FRAMES_IN_FLIGHT /\
  length (uniformBuffersMapped p) = MAX_FRAMES_IN_FLIGHT.

Definition sync_sized (MAX_FRAMES_IN_FLIGHT : nat) (p : Pipeline) : Prop :=
  length (inFlightFences p) = MAX_FRAMES_IN_FLIGHT /\
  length (imageAvailableSemaphores p) = MAX_FRAMES_IN_FLIGHT /\
  length (renderFinishedSemaphores p) = MAX_FRAMES_IN_FLIGHT.

(** The build sequence of [initialize]. *)
Definition build_all (MAX_FRAMES_IN_FLIGHT : nat) (env : Env) : M bool :=
  createDescriptorSetLayout &&>
  createRenderPass &&>
  createGraphicsPipeline env &&>
  createFramebuffers env &&>
  createCommandPools MAX_FRAMES_IN_FLIGHT &&>
  createCommandBuffers MAX_FRAMES_IN_FLIGHT &&>
  createUniformBuffers MAX_FRAMES_IN_FLIGHT &&>
  createDescriptorPool &&>
  createDescriptorSets MAX_FRAMES_IN_FLIGHT &&>
  createSyncObjects MAX_FRAMES_IN_FLIGHT &&>
  createVertexBuffer.


(** ** [cleanup] as a whole *)

Definition log_all (es : list Event) (s : St) : St :=
  {| self := self s; calls := calls s ++ es; answers := answers s; images := images s |}.

(** The destroy call guarded by [if (h != VK_NULL_HANDLE)]. *)
Definition release (k : ObjKind) (h : Handle) : list Event :=
  if nonnull h then [EvDestroy k h] else [].

Definition uniform_release (p : Pipeline) (i : nat) : list Event :=
  (if nonnull (vec_at (uniformBuffersMapped p) i)
   then [EvUnmapMemory (vec_at (uniformBuffersMemory p) i)] else []) ++
  release Buffer (vec_at (uniformBuffers p) i) ++
  release DeviceMemory (vec_at (uniformBuffersMemory p) i).

Definition sync_release (p : Pipeline) (i : nat) : list Event :=
  (if Nat.ltb i (length (imageAvailableSemaphores p))
   then [EvDestroy Semaphore (vec_at (imageAvailableSemaphores p) i)] else []) ++
  (if Nat.ltb i (length (renderFinishedSemaphores p))
   then [EvDestroy Semaphore (vec_at (renderFinishedSemaphores p) i)] else []) ++
  (if Nat.ltb i (length (inFlightFences p))
   then [EvDestroy Fence (vec_at (inFlightFences p) i)] else []).

Definition release_each (k : ObjKind) (v : list Handle) : list Event :=
  flat_map (fun i => release k (vec_at v i)) (seq 0 (length v)).

Definition uniforms_release (p : Pipeline) : list Event :=
  flat_map (uniform_release p) (seq 0 (length (uniformBuffers p))).

Definition syncs_release (n : nat) (p : Pipeline) : list Event :=
  flat_map (sync_release p) (seq 0 n).

(** The calls of [cleanup] after the idle wait, in order. *)
Definition cleanup_calls (n : nat) (p : Pipeline) : list Event :=
  uniforms_release p ++
  release DescriptorPool (descriptorPool p) ++
  release DescriptorSetLayout (descriptorSetLayout p) ++
  release Buffer (vertexBuffer p) ++
  release DeviceMemory (vertexBufferMemory p) ++
  syncs_release n p ++
  release_each CommandPool (commandPools p) ++
  release_each Framebuffer (framebuffers p) ++
  release GraphicsPipeline (graphicsPipeline p) ++
  release PipelineLayout (pipelineLayout p) ++
  release RenderPass (renderPass p).

Definition idle_wait (env : Env) : list Event :=
  if nonnull (device env) then [EvDeviceWaitIdle] else [].

(** The object [cleanup] leaves behind. *)
Definition cleared (p : Pipeline) : Pipeline :=
  {| pipelineLayout := VK_NULL_HANDLE; graphicsPipeline := VK_NULL_HANDLE;
     renderPass := VK_NULL_HANDLE; descriptorSetLayout := VK_NULL_HANDLE;
     descriptorPool := VK_NULL_HANDLE; vertexBuffer := VK_NULL_HANDLE;
     vertexBufferMemory := VK_NULL_HANDLE;
     framebuffers := []; commandPools := []; commandBuffers := [];
     imageAvailableSemaphores := []; renderFinishedSemaphores := [];
     inFlightFences := []; uniformBuffers := []; uniformBuffersMemory := [];
     uniformBuffersMapped := []; descriptorSets := [];
     currentFrame := currentFrame p; currentImageIndex := currentImageIndex p;
     state := UNINITIALIZED; lastError := lastError p |}.

Definition nulls (get : Pipeline -> Handle) (set : Handle -> Pipeline -> Pipeline) : Prop :=
  forall p, get p = VK_NULL_HANDLE -> set VK_NULL_HANDLE p = p.


(** ** Order of release and liveness *)

(** Some occurrence of [a] comes before some occurrence of [b]. *)
Definition precedes (a b : Event) (tr : list Event) : Prop :=
  exists l1 l2, tr = l1 ++ l2 /\ In a l1 /\ In b l2.

(** The handles the object holds, with their kinds.  Command buffers and
    descriptor sets are not listed: they are freed with their pools. *)
Definition owned (p : Pipeline) : list (ObjKind * Handle) :=
  [ (DescriptorPool, descriptorPool p); (DescriptorSetLayout, descriptorSetLayout p);
    (Buffer, vertexBuffer p); (DeviceMemory, vertexBufferMemory p);
    (GraphicsPipeline, graphicsPipeline p); (PipelineLayout, pipelineLayout p);
    (RenderPass, renderPass p) ] ++
  map (pair Buffer) (uniformBuffers p) ++
  map (pair DeviceMemory) (uniformBuffersMemory p) ++
  map (pair Semaphore) (imageAvailableSemaphores p) ++
  map (pair Semaphore) (renderFinishedSemaphores p) ++
  map (pair Fence) (inFlightFences p) ++
  map (pair CommandPool) (commandPools p) ++
  map (pair Framebuffer) (framebuffers p).

Definition creates_nothing (e : Event) : Prop := created_by e = [].

(** [x] is the object [h] or was allocated from it, if it is alive at all. *)
Definition tied (h x : Handle) (m : gmap Handle (ObjKind * Handle)) : Prop :=
  x = h \/ m !! x = None \/ exists k, m !! x = Some (k, h).

(** A synchronisation object of slot [i]. *)
Definition sync_of (p : Pipeline) (i : nat) (k : ObjKind) (h : Handle) : Prop :=
  (k = Semaphore /\ imageAvailableSemaphores p !! i = Some h) \/
  (k = Semaphore /\ renderFinishedSemaphores p !! i = Some h) \/
  (k = Fence /\ inFlightFences p !! i = Some h).

(** The first [i] slots have their fence: a handle the driver has issued,
    signaled, and different from the fences of the other slots. *)
Definition fences_upto (MAX_FRAMES_IN_FLIGHT : nat) (i : nat) (s : St) : Prop :=
  length (inFlightFences (self s)) = MAX_FRAMES_IN_FLIGHT /\
  NoDup (take i (inFlightFences (self s))) /\
  forall f, In f (take i (inFlightFences (self s))) ->
    f <= issued (calls s) /\ fence_status (calls s) !! f = Some Signaled.

Definition fences_ready (MAX_FRAMES_IN_FLIGHT : nat) (s : St) : Prop :=
  length (inFlightFences (self s)) = MAX_FRAMES_IN_FLIGHT /\
  NoDup (inFlightFences (self s)) /\
  forall f, In f (inFlightFences (self s)) -> fence_status (calls s) !! f = Some Signaled.


(** ** Frames *)

(** What the first wait on fence [f] in a log found the fence to be. *)
Fixpoint first_wait (f : Handle) (tr : list Event) : option (option FenceStatus) :=
  match tr with
  | [] => None
  | EvWaitForFences f' observed :: rest =>
      if Nat.eqb f' f then Some observed else first_wait f rest
  | _ :: rest => first_wait f rest
  end.

(** Calls that make no wait and change the status of no fence but [f]. *)
Definition spares_other_fences (f : Handle) (e : Event) : bool :=
  match e with
  | EvResetFences f' | EvQueueSubmit _ _ _ f' _ => Nat.eqb f' f
  | EvWaitForFences _ _ | EvCreateFence _ _ _ | EvDeviceWaitIdle | EvDestroy _ _ => false
  | _ => true
  end.

(** The members an image acquisition leaves alone: all but the image index. *)
Definition same_members (p p' : Pipeline) : Prop :=
  set_currentImageIndex (currentImageIndex p) p' = p.

(** Modelled from the spec: the caller's loop, which is not part of the
    sources.  The caller drives [beginFrame] and [endFrame] in turn, and
    after a failed [beginFrame] it "must not record draws or call
    [endFrame]". *)
Definition frame (MAX_FRAMES_IN_FLIGHT : nat) (env : Env) : M unit :=
  ok <- beginFrame env ;;
  if ok : bool then _ <- endFrame MAX_FRAMES_IN_FLIGHT ;; ret tt else ret tt.

Fixpoint frames (MAX_FRAMES_IN_FLIGHT : nat) (env : Env) (n : nat) : M unit :=
  match n with
  | 0 => ret tt
  | S k => frame MAX_FRAMES_IN_FLIGHT env ;; frames MAX_FRAMES_IN_FLIGHT env k
  end.

(** Since [s0], no fence of [fences] was found unsignaled or pending by the
    first wait on it, and a fence not yet waited on is still signaled. *)
Definition first_waits_signaled (fences : list Handle) (s0 s : St) : Prop :=
  inFlightFences (self s) = fences /\
  exists new,
    calls s = calls s0 ++ new /\
    forall f, In f fences ->
      match first_wait f new with
      | None => fence_status (calls s) !! f = Some Signaled
      | Some observed => observed = Some Signaled
      end.

(** ** The objects the slots hold *)

(** The handles a call returns are the next ones the driver has to give. *)
Definition numbered (tr : list Event) (e : Event) : Prop :=
  created_by e = seq (S (issued tr)) (length (created_by e)).

Definition no_destroy (e : Event) : bool :=
  match e with EvDestroy _ _ => false | _ => true end.

(** Calls that follow the log [tr], destroy nothing, and return handles in
    the driver's order. *)
Fixpoint grown (tr new : list Event) : Prop :=
  match new with
  | [] => True
  | e :: rest => numbered tr e /\ no_destroy e = true /\ grown (tr ++ [e]) rest
  end.

Definition grows (s s' : St) : Prop :=
  exists new, calls s' = calls s ++ new /\ grown (calls s) new.

(** The handles of [v] are distinct, were issued by the driver, and each is
    alive as an object of kind [k]. *)
Definition held (k : ObjKind) (v : list Handle) (tr : list Event) : Prop :=
  NoDup v /\
  forall h, In h v -> h <= issued tr /\ exists parent, live tr !! h = Some (k, parent).

(** [s'] follows [s] by calls that destroy nothing, and the vectors [fs]
    of the object are as they were. *)
Definition settled (fs : list (Pipeline -> list Handle)) (s s' : St) : Prop :=
  grows s s' /\ Forall (fun f => f (self s') = f (self s)) fs.

Definition Settles (fs : list (Pipeline -> list Handle)) {A} (c : M A) : Prop :=
  forall s0 s, settled fs s0 s -> wp c (fun _ s' => settled fs s0 s') s.

(** Where the build sequence stands once the uniform blocks exist. *)
Definition uniforms_held (s : St) : Prop :=
  held CommandBuffer (commandBuffers (self s)) (calls s) /\
  held Buffer (uniformBuffers (self s)) (calls s) /\
  held DeviceMemory (uniformBuffersMemory (self s)) (calls s).

(** What the slots hold after a successful [initialize]: one command
    buffer, one uniform buffer with its memory, one descriptor set, two
    semaphores and one fence each. *)
Definition slots_held (p : Pipeline) (tr : list Event) : Prop :=
  held CommandBuffer (commandBuffers p) tr /\
  held Buffer (uniformBuffers p) tr /\
  held DeviceMemory (uniformBuffersMemory p) tr /\
  held DescriptorSet (descriptorSets p) tr /\
  held Semaphore (imageAvailableSemaphores p ++ renderFinishedSemaphores p) tr /\
  held Fence (inFlightFences p) tr.

(** ** The guards of the public operations *)

(** The operations that begin by checking the state. *)
Inductive Guarded := GInitialize | GBeginFrame | GEndFrame.

Definition required_state (g : Guarded) : State :=
  match g with
  | GInitialize => UNINITIALIZED
  | GBeginFrame | GEndFrame => READY
  end.

Definition usage_error (g : Guarded) : string :=
  match g with
  | GInitialize => "Pipeline is already initialized"
  | GBeginFrame | GEndFrame => "Pipeline is not in ready state"
  end.

Definition guarded_call (MAX_FRAMES_IN_FLIGHT : nat) (env : Env) (g : Guarded) : M bool :=
  match g with
  | GInitialize => initialize MAX_FRAMES_IN_FLIGHT env
  | GBeginFrame => beginFrame env
  | GEndFrame => endFrame MAX_FRAMES_IN_FLIGHT
  end.

(** ** Driver results and the state machine *)

(** The result the driver gives to the [k]-th of the coming calls that
    report one. *)
Definition answer_at (k : nat) (s : St) : VkResult := default VK_SUCCESS (answers s !! k).

(** The two results by which the driver reports a surface that no longer
    matches the swapchain. *)
Definition stale_surface (r : VkResult) : bool :=
  (r =? VK_ERROR_OUT_OF_DATE_KHR)%Z || (r =? VK_SUBOPTIMAL_KHR)%Z.

(** [endFrame] reports success: the state is [READY], recording ends,
    submission succeeds, and presentation answers success or a stale
    surface. *)
Definition endFrame_succeeds (s : St) : bool :=
  bool_decide (state (self s) = READY) &&
  is_success (answer_at 0 s) && is_success (answer_at 1 s) &&
  (is_success (answer_at 2 s) || stale_surface (answer_at 2 s)).

(** The operations of the object that change it or talk to the device. *)
Inductive Op :=
  OpInitialize | OpCleanup | OpBeginFrame | OpEndFrame | OpRecreateIfNeeded | OpWaitIdle.

(** The machine after one operation, whether it returned, blocked or
    faulted. *)
Definition run_op (MAX_FRAMES_IN_FLIGHT : nat) (env : Env) (op : Op) (s : St) : St :=
  match op with
  | OpInitialize => final (initialize MAX_FRAMES_IN_FLIGHT env s)
  | OpCleanup => final (cleanup MAX_FRAMES_IN_FLIGHT env s)
  | OpBeginFrame => final (beginFrame env s)
  | OpEndFrame => final (endFrame MAX_FRAMES_IN_FLIGHT s)
  | OpRecreateIfNeeded => final (recreateIfNeeded MAX_FRAMES_IN_FLIGHT env s)
  | OpWaitIdle => final (waitIdle env s)
  end.

(** The call on which an operation may decide to recreate: an acquisition
    answered out-of-date in [beginFrame], a presentation answered
    out-of-date or suboptimal in [endFrame]. *)
Definition stale_report (op : Op) (e : Event) : Prop :=
  match op, e with
  | OpBeginFrame, EvAcquireNextImage _ r _ => r = VK_ERROR_OUT_OF_DATE_KHR
  | OpEndFrame, EvQueuePresent _ _ r => stale_surface r = true
  | _, _ => False
  end.

(** Either the state is as it was, or the last call made was a stale
    report. *)
Definition recreating_by (op : Op) (s s' : St) : Prop :=
  state (self s') = state (self s) \/
  exists earlier e, calls s' = calls s ++ earlier ++ [e] /\ stale_report op e.

(** ** A sample run *)

(** A swapchain of three images at 1920x1080, a device, and shader files
    that can be read. *)
Definition sample_swapChain : SwapChain :=
  {| sc_handle := 101; sc_images := [102; 103; 104]; sc_imageViews := [105; 106; 107];
     sc_width := 1920; sc_height := 1080 |}.

Definition sample_env : Env :=
  {| device := 100; swapChain := sample_swapChain; files := fun _ => Some [] |}.

(** A new object facing a driver that will give the results [rs]. *)
Definition machine (rs : list VkResult) : St :=
  {| self := Pipeline_new; calls := []; answers := rs; images := [] |}.

(** The driver fails its call number [k] (from 0) and no other. *)
Definition failing_at (k : nat) : list VkResult :=
  replicate k VK_SUCCESS ++ [VK_ERROR_OUT_OF_DEVICE_MEMORY].

(** The same machine, with other results to come. *)
Definition with_answers (rs : list VkResult) (s : St) : St :=
  {| self := self s; calls := calls s; answers := rs; images := images s |}.

(** Two slots, initialised with a driver that never fails. *)
Definition ready_machine : St := final (initialize 2 sample_env (machine [])).

(** ** Frames, one call at a time *)

(** An acquisition that hands out an image. *)
Definition acquired (r : VkResult) : bool :=
  (r =? VK_SUCCESS)%Z || (r =? VK_SUBOPTIMAL_KHR)%Z.

(** What [beginFrame] records into the command buffer of the slot before it
    returns: the render pass is begun on the framebuffer of the acquired
    image, over the whole extent of the swapchain, and the pipeline and the
    descriptor set of the slot are bound. *)
Definition frame_prologue (env : Env) (p : Pipeline) (image : nat) : list Cmd :=
  [ CmdBeginRenderPass (renderPass p) (vec_at (framebuffers p) image)
                       (sc_width (swapChain env)) (sc_height (swapChain env));
    CmdBindPipeline (graphicsPipeline p);
    CmdBindDescriptorSets (pipelineLayout p) (vec_at (descriptorSets p) (currentFrame p)) ].

(** How a frame call that returned failure has reported it: [bad] is the
    last call it made, [p] the object before and [p'] after. *)
Definition beginFrame_report (bad : option Event) (p p' : Pipeline) : Prop :=
  match bad with
  | None =>
      state p <> READY /\ p' = set_lastError "Pipeline is not in ready state" p
  | Some (EvAcquireNextImage _ r _) =>
      state p = READY /\
      if (r =? VK_ERROR_OUT_OF_DATE_KHR)%Z
      then p' = set_state RECREATING p
      else acquired r = false /\
           p' = set_lastError "Failed to acquire swap chain image" p
  | Some (EvBeginCommandBuffer _ r) =>
      state p = READY /\ is_success r = false /\
      exists image,
        p' = set_lastError "Failed to begin recording command buffer"
               (set_currentImageIndex image p)
  | Some _ => False
  end.

Definition endFrame_report (bad : option Event) (p p' : Pipeline) : Prop :=
  match bad with
  | None =>
      state p <> READY /\ p' = set_lastError "Pipeline is not in ready state" p
  | Some (EvEndCommandBuffer _ r) =>
      state p = READY /\ is_success r = false /\
      p' = set_lastError "Failed to record command buffer" p
  | Some (EvQueueSubmit _ _ _ _ r) =>
      state p = READY /\ is_success r = false /\
      p' = set_lastError "Failed to submit draw command buffer" p
  | Some (EvQueuePresent _ _ r) =>
      state p = READY /\ is_success r = false /\ stale_surface r = false /\
      p' = set_lastError "Failed to present swap chain image" p
  | Some _ => False
  end.

(** The calls of [s'] are those of [s] followed by new ones, the last of
    which is [bad]; no new call when [bad] is [None]. *)
Definition last_call (bad : option Event) (s s' : St) : Prop :=
  match bad with
  | None => calls s' = calls s
  | Some e => exists earlier, calls s' = calls s ++ earlier ++ [e]
  end.

(** ** Sequences of operations *)

(** The slot index is within the number of slots, and unless the object is
    uninitialised every collection indexed by slot has one entry per slot:
    [commandBuffers[currentFrame]] and its like are within range. *)
Definition in_bounds (MAX_FRAMES_IN_FLIGHT : nat) (p : Pipeline) : Prop :=
  currentFrame p < MAX_FRAMES_IN_FLIGHT /\
  (state p <> UNINITIALIZED -> slots_sized MAX_FRAMES_IN_FLIGHT p).

(** [p'] is [p] but for the slot index, the image index, the state and the
    error message. *)
Definition same_slots (p p' : Pipeline) : Prop :=
  set_currentFrame (currentFrame p)
    (set_currentImageIndex (currentImageIndex p)
       (set_state (state p) (set_lastError (lastError p) p'))) = p.

(** Operations in turn, each with the swapchain and device of its time. *)
Definition run_ops (MAX_FRAMES_IN_FLIGHT : nat) (ops : list (Env * Op)) (s : St) : St :=
  foldl (fun s eo => run_op MAX_FRAMES_IN_FLIGHT eo.1 eo.2 s) s ops.

(** ** How [initialize] reports a failure *)

(** The calls whose result the build steps test: the creations and
    allocations of objects.  The results of binding and mapping the memory
    of a uniform buffer are not looked at. *)
Definition creation_failed (e : Event) : bool :=
  match e with
  | EvCreate _ _ r _ | EvCreateFence _ r _ | EvAllocateDescriptorSets _ r _ => failed r
  | _ => false
  end.

(** The message a build step sets when the call [e] has failed. *)
Definition build_error (e : Event) : string :=
  match e with
  | EvCreate DescriptorSetLayout _ _ _ => "Failed to create descriptor set layout"
  | EvCreate RenderPass _ _ _ => "Failed to create render pass"
  | EvCreate ShaderModule _ _ _ => "Failed to create shader modules"
  | EvCreate PipelineLayout _ _ _ => "Failed to create pipeline layout"
  | EvCreate GraphicsPipeline _ _ _ => "Failed to create graphics pipeline"
  | EvCreate Framebuffer _ _ _ => "Failed to create framebuffer"
  | EvCreate CommandPool _ _ _ => "Failed to create command pool"
  | EvCreate CommandBuffer _ _ _ => "Failed to allocate command buffers"
  | EvCreate Buffer _ _ _ => "Failed to create uniform buffer"
  | EvCreate DeviceMemory _ _ _ => "Failed to allocate uniform buffer memory"
  | EvCreate DescriptorPool _ _ _ => "Failed to create descriptor pool"
  | EvAllocateDescriptorSets _ _ _ => "Failed to allocate descriptor sets"
  | EvCreate Semaphore _ _ _ | EvCreateFence _ _ _ => "Failed to create synchronization objects"
  | _ => ""
  end.

(** A build step that returned [ok], having taken [s] to [s']: it said
    [true] when none of its creations failed, and [false] with the message
    of the first that did. *)
Definition build_outcome (ok : bool) (s s' : St) : Prop :=
  exists new,
    calls s' = calls s ++ new /\
    match find creation_failed new with
    | None => ok = true
    | Some e => ok = false /\ lastError (self s') = build_error e
    end.

Definition Reports (c : M bool) : Prop :=
  forall s, wp c (fun ok s' => build_outcome ok s s') s.

(** ** What the slots are wired to *)

(** The call [e] was made between [s] and [s']. *)
Definition since (s s' : St) (e : Event) : Prop :=
  exists new, calls s' = calls s ++ new /\ In e new.

(** Between [s] and [s'] calls were made, and the vectors [fs] of the
    object are as they were. *)
Definition carried (fs : list (Pipeline -> list Handle)) (s s' : St) : Prop :=
  (exists new, calls s' = calls s ++ new) /\
  Forall (fun f => f (self s') = f (self s)) fs.

(** The command buffer of each of the first [n] slots is alive and was
    allocated from the command pool of the same slot. *)
Definition buffers_paired (n : nat) (s : St) : Prop :=
  forall i, i < n ->
    vec_at (commandBuffers (self s)) i <= issued (calls s) /\
    live (calls s) !! vec_at (commandBuffers (self s)) i
      = Some (CommandBuffer, vec_at (commandPools (self s)) i).

(** The uniform buffer of slot [i] was bound to the memory of the slot, and
    that memory was mapped once: the pointer kept for the slot is the
    mapping when the driver gave one, and what it was in [p0] when the
    driver refused. *)
Definition uniform_bound (p0 : Pipeline) (s s' : St) (i : nat) : Prop :=
  (exists r, since s s' (EvBindBufferMemory (vec_at (uniformBuffers (self s')) i)
                                            (vec_at (uniformBuffersMemory (self s')) i) r)) /\
  (exists r, since s s' (EvMapMemory (vec_at (uniformBuffersMemory (self s')) i) r) /\
             vec_at (uniformBuffersMapped (self s')) i =
               if is_success r then vec_at (uniformBuffersMemory (self s')) i
               else vec_at (uniformBuffersMapped p0) i).

(** The descriptor set of slot [i] was written to refer to the uniform
    buffer of the slot. *)
Definition descriptor_written (s s' : St) (i : nat) : Prop :=
  since s s' (EvUpdateDescriptorSets (vec_at (descriptorSets (self s')) i)
                                     (vec_at (uniformBuffers (self s')) i)).

(** Slot [i] after the calls made since [s]. *)
Definition slot_wired (s s' : St) (i : nat) : Prop :=
  live (calls s') !! vec_at (commandBuffers (self s')) i
    = Some (CommandBuffer, vec_at (commandPools (self s')) i) /\
  descriptor_written s s' i /\
  uniform_bound (self s) s s' i.

(** ** A render loop that keeps going *)

(** The object can draw: it is [READY], the slot index is in range, no
    fence of a slot is left unsignaled with nothing submitted on it, and the
    uniform block of every slot is mapped, so that [updateUniformBuffer] has
    somewhere to write. *)
Definition can_draw (MAX_FRAMES_IN_FLIGHT : nat) (s : St) : Prop :=
  state (self s) = READY /\
  currentFrame (self s) < MAX_FRAMES_IN_FLIGHT /\
  (forall i, i < MAX_FRAMES_IN_FLIGHT ->
     exists st, fence_status (calls s) !! vec_at (inFlightFences (self s)) i = Some st /\
                st <> Unsignaled) /\
  (forall i, i < MAX_FRAMES_IN_FLIGHT ->
     nonnull (vec_at (uniformBuffersMapped (self s)) i) = true).

(** The driver will fail no call. *)
Definition never_fails (s : St) : Prop := forall k, answer_at k s = VK_SUCCESS.

(** The image the driver hands out at the [k]-th of the coming
    acquisitions. *)
Definition image_at (k : nat) (s : St) : nat := default 0 (images s !! k).

(** Every image the driver will hand out has its framebuffer. *)
Definition images_in_range (s : St) : Prop :=
  forall k, image_at k s < length (framebuffers (self s)).
(** ** What [initialize] leaves for [cleanup] *)

(** Every object alive after the calls [tr] was alive after [tr0] already,
    or has been issued since and is accounted for: the object holds it, or
    it was allocated from a pool the object got since, or it is one of
    [shaders]. *)
Definition accounted (tr0 : list Event) (shaders : list Handle) (p : Pipeline)
    (tr : list Event) : Prop :=
  issued tr0 <= issued tr /\
  forall h k parent, live tr !! h = Some (k, parent) ->
    live tr0 !! h = Some (k, parent) \/
    (issued tr0 < h /\
     (In (k, h) (owned p) \/
      (exists kp, In (kp, parent) (owned p) /\ issued tr0 < parent) \/
      (k = ShaderModule /\ In h shaders))).

(** The members [initialize] assigns, in the order of the build steps. *)
Definition to_write : list (Pipeline -> list Handle) :=
  [ (fun p => [descriptorSetLayout p]); (fun p => [renderPass p]);
    (fun p => [pipelineLayout p]); (fun p => [graphicsPipeline p]);
    framebuffers; commandPools; uniformBuffers; uniformBuffersMemory;
    (fun p => [descriptorPool p]);
    imageAvailableSemaphores; renderFinishedSemaphores; inFlightFences ].

(** The members [fs] hold nothing issued after [tr0]. *)
Definition unwritten (tr0 : list Event) (fs : list (Pipeline -> list Handle))
    (p : Pipeline) : Prop :=
  Forall (fun f => Forall (fun h => h <= issued tr0) (f p)) fs.

(** What [p] holds of the handles issued after [tr0], [p'] holds too. *)
Definition keeps_fresh (tr0 : list Event) (p p' : Pipeline) : Prop :=
  forall k h, In (k, h) (owned p) -> issued tr0 < h -> In (k, h) (owned p').

(** In [s] everything issued after [tr0] is accounted for without any
    shader module, and the members [fs] are still to be assigned. *)
Definition in_hand (tr0 : list Event) (fs : list (Pipeline -> list Handle)) (s : St)
  : Prop :=
  accounted tr0 [] (self s) (calls s) /\ unwritten tr0 fs (self s).

(** What a build step leaves: on success as [in_hand] says, on failure
    perhaps with some shader modules. *)
Definition accounts (tr0 : list Event) (fs : list (Pipeline -> list Handle))
    (ok : bool) (s : St) : Prop :=
  if ok then in_hand tr0 fs s
  else exists shaders, accounted tr0 shaders (self s) (calls s).

(** ** Objects the pipeline holds, and the destroy calls it makes *)

(** The objects behind the handles of the pipeline: its handles that are
    not null, each with the kind of object the member is for. *)
Definition held_objects (p : Pipeline) : list (ObjKind * Handle) :=
  filter (fun kh => kh.2 <> VK_NULL_HANDLE) (owned p).

(** No object is held twice, and each is alive after the calls [tr], of the
    kind of its member, created on the device itself. *)
Definition well_held (p : Pipeline) (tr : list Event) : Prop :=
  NoDup (held_objects p) /\
  forall k h, In (k, h) (held_objects p) ->
    h <= issued tr /\ live tr !! h = Some (k, VK_NULL_HANDLE).

(** Every destroy call of [tr] is given the null handle or an object of
    the kind it destroys that is alive when the call is made. *)
Definition valid_destroys (tr : list Event) : Prop :=
  forall before k h rest, tr = before ++ EvDestroy k h :: rest ->
    h = VK_NULL_HANDLE \/ live before !! h = Some (k, VK_NULL_HANDLE).

Definition sound (s : St) : Prop :=
  well_held (self s) (calls s) /\ valid_destroys (calls s).

(** The objects that the calls [evs] destroy, in order. *)
Definition targets (evs : list Event) : list (ObjKind * Handle) :=
  omap (fun e => match e with
                 | EvDestroy k h => if nonnull h then Some (k, h) else None
                 | _ => None
                 end) evs.

(** The handles [v] are distinct objects of kind [k], created on the device
    itself and alive after the calls [tr]. *)
Definition rooted (k : ObjKind) (v : list Handle) (tr : list Event) : Prop :=
  NoDup v /\
  forall h, In h v ->
    h <> VK_NULL_HANDLE /\ h <= issued tr /\ live tr !! h = Some (k, VK_NULL_HANDLE).

(** * The Vulkan context *)

(** [VulkanContext.cpp] creates what the pipeline is given: the instance,
    the surface, the choice of a GPU and the logical device.  Its header is
    not among the sources: the members are those the constructor
    initialises, and the constants [enableValidationLayers] and
    [deviceExtensions] and the test [QueueFamilyIndices::isComplete], which
    the header defines, are parameters of the methods below. *)

Declare Scope context_scope.
Delimit Scope context_scope with context.

Module VulkanContext.

(** The two values of [vulkan_core.h] the methods test for. *)
Definition VK_PHYSICAL_DEVICE_TYPE_DISCRETE_GPU : Z := 2%Z.
Definition VK_QUEUE_GRAPHICS_BIT : Z := 1%Z.

(** Two [std::optional<uint32_t>]. *)
Record QueueFamilyIndices := {
  graphicsFamily : option nat;
  presentFamily : option nat
}.

Record Context := {
  instance : Handle;
  debugMessenger : Handle;
  physicalDevice : Handle;
  device : Handle;
  graphicsQueue : Handle;
  presentQueue : Handle;
  surface : Handle;
  queueFamilyIndices : QueueFamilyIndices
}.

Definition set_instance (h : Handle) (c : Context) : Context :=
  {| instance := h; debugMessenger := debugMessenger c;
     physicalDevice := physicalDevice c; device := device c;
     graphicsQueue := graphicsQueue c; presentQueue := presentQueue c;
     surface := surface c; queueFamilyIndices := queueFamilyIndices c |}.

Definition set_debugMessenger (h : Handle) (c : Context) : Context :=
  {| instance := instance c; debugMessenger := h;
     physicalDevice := physicalDevice c; device := device c;
     graphicsQueue := graphicsQueue c; presentQueue := presentQueue c;
     surface := surface c; queueFamilyIndices := queueFamilyIndices c |}.

Definition set_physicalDevice (h : Handle) (c : Context) : Context :=
  {| instance := instance c; debugMessenger := debugMessenger c;
     physicalDevice := h; device := device c;
     graphicsQueue := graphicsQueue c; presentQueue := presentQueue c;
     surface := surface c; queueFamilyIndices := queueFamilyIndices c |}.

Definition set_device (h : Handle) (c : Context) : Context :=
  {| instance := instance c; debugMessenger := debugMessenger c;
     physicalDevice := physicalDevice c; device := h;
     graphicsQueue := graphicsQueue c; presentQueue := presentQueue c;
     surface := surface c; queueFamilyIndices := queueFamilyIndices c |}.

Definition set_graphicsQueue (h : Handle) (c : Context) : Context :=
  {| instance := instance c; debugMessenger := debugMessenger c;
     physicalDevice := physicalDevice c; device := device c;
     graphicsQueue := h; presentQueue := presentQueue c;
     surface := surface c; queueFamilyIndices := queueFamilyIndices c |}.

Definition set_presentQueue (h : Handle) (c : Context) : Context :=
  {| instance := instance c; debugMessenger := debugMessenger c;
     physicalDevice := physicalDevice c; device := device c;
     graphicsQueue := graphicsQueue c; presentQueue := h;
     surface := surface c; queueFamilyIndices := queueFamilyIndices c |}.

Definition set_surface (h : Handle) (c : Context) : Context :=
  {| instance := instance c; debugMessenger := debugMessenger c;
     physicalDevice := physicalDevice c; device := device c;
     graphicsQueue := graphicsQueue c; presentQueue := presentQueue c;
     surface := h; queueFamilyIndices := queueFamilyIndices c |}.

Definition set_queueFamilyIndices (q : QueueFamilyIndices) (c : Context) : Context :=
  {| instance := instance c; debugMessenger := debugMessenger c;
     physicalDevice := physicalDevice c; device := device c;
     graphicsQueue := graphicsQueue c; presentQueue := presentQueue c;
     surface := surface c; queueFamilyIndices := q |}.

(** [VulkanContext::VulkanContext()]. *)
Definition VulkanContext_new : Context :=
  {| instance := VK_NULL_HANDLE; debugMessenger := VK_NULL_HANDLE;
     physicalDevice := VK_NULL_HANDLE; device := VK_NULL_HANDLE;
     graphicsQueue := VK_NULL_HANDLE; presentQueue := VK_NULL_HANDLE;
     surface := VK_NULL_HANDLE;
     queueFamilyIndices := {| graphicsFamily := None; presentFamily := None |} |}.

(** ** The machine the context runs on *)

(** What [vkGetPhysicalDeviceProperties] and
    [vkEnumerateDeviceExtensionProperties] say of one GPU. *)
Record PhysicalDeviceInfo := {
  pd_handle : Handle;
  deviceType : Z;
  availableExtensions : list string
}.

(** What the context asks and does not change: the GPUs an instance
    enumerates, the queue flags of the families of a GPU, whether a family
    of a GPU can present to a surface, the queue a device has for a family,
    and whether the loader knows an instance-level function. *)
Record Host := {
  enumeratePhysicalDevices : Handle -> list PhysicalDeviceInfo;
  queueFamilyProperties : Handle -> list Z;
  surfaceSupport : Handle -> nat -> Handle -> bool;
  deviceQueue : Handle -> nat -> Handle;
  instanceProcAddr : Handle -> string -> bool
}.

(** The calls that create and destroy, and the two queue lookups. *)
Inductive Call :=
| VkCreateInstance (r : VkResult) (h : Handle)
| VkCreateDebugUtilsMessengerEXT (inst : Handle) (r : VkResult) (h : Handle)
| GlfwCreateWindowSurface (inst : Handle) (r : VkResult) (h : Handle)
| VkCreateDevice (gpu : Handle) (families : list nat) (r : VkResult) (h : Handle)
| VkGetDeviceQueue (dev : Handle) (family : nat)
| VkDestroyDevice (h : Handle)
| VkDestroySurfaceKHR (inst : Handle) (h : Handle)
| VkDestroyDebugUtilsMessengerEXT (inst : Handle) (h : Handle)
| VkDestroyInstance (h : Handle).

Record World := {
  self : Context;
  calls : list Call;
  answers : list VkResult
}.

Definition with_self (f : Context -> Context) (w : World) : World :=
  {| self := f (self w); calls := calls w; answers := answers w |}.

Definition log (e : Call) (w : World) : World :=
  {| self := self w; calls := calls w ++ [e]; answers := answers w |}.

(** The handle a call has created. *)
Definition created (e : Call) : option Handle :=
  match e with
  | VkCreateInstance r h | VkCreateDebugUtilsMessengerEXT _ r h
  | GlfwCreateWindowSurface _ r h | VkCreateDevice _ _ r h =>
      if is_success r then Some h else None
  | _ => None
  end.

Definition destroyed (e : Call) : option Handle :=
  match e with
  | VkDestroyDevice h | VkDestroySurfaceKHR _ h
  | VkDestroyDebugUtilsMessengerEXT _ h | VkDestroyInstance h => Some h
  | _ => None
  end.

(** Handles are numbered in the order of creation, as for the pipeline. *)
Definition issued (tr : list Call) : nat := length (omap created tr).

(** The objects created and not destroyed since. *)
Definition alive_step (m : gset Handle) (e : Call) : gset Handle :=
  match created e, destroyed e with
  | Some h, _ => m ∪ {[h]}
  | None, Some h => m ∖ {[h]}
  | None, None => m
  end.

Definition alive (tr : list Call) : gset Handle := foldl alive_step ∅ tr.

(** ** Computations *)

(** A method returns, or leaves by the exception [std::bad_optional_access]
    that [std::optional::value] throws and nothing here catches. *)
Inductive Result (A : Type) :=
| Returned (a : A) (w : World)
| Threw (w : World).
Arguments Returned {A} a w.
Arguments Threw {A} w.

Definition C (A : Type) : Type := World -> Result A.

Definition ret {A} (a : A) : C A := fun w => Returned a w.

Definition bind {A B} (c : C A) (k : A -> C B) : C B :=
  fun w => match c w with
           | Returned a w' => k a w'
           | Threw w' => Threw w'
           end.

Notation "x <- c ;; k" := (bind c (fun x => k))
  (at level 100, c at next level, right associativity) : context_scope.
Notation "c ;; k" := (bind c (fun _ => k))
  (at level 100, right associativity) : context_scope.

Local Open Scope context_scope.

Definition final {A} (o : Result A) : World :=
  match o with Returned _ w => w | Threw w => w end.

Definition this : C Context := fun w => Returned (self w) w.
Definition modify (f : Context -> Context) : C unit := fun w => Returned tt (with_self f w).
Definition emit (e : Call) : C unit := fun w => Returned tt (log e w).
Definition throw {A} : C A := fun w => Threw w.

Definition answer : C VkResult :=
  fun w => Returned (match answers w with [] => VK_SUCCESS | r :: _ => r end)
                    {| self := self w; calls := calls w; answers := tail (answers w) |}.

Definition fresh : C Handle := fun w => Returned (S (issued (calls w))) w.

(** A creation: on success the new handle is written through the
    out-parameter, on failure nothing is written. *)
Definition vkCreate (mk : VkResult -> Handle -> Call) (out : Handle -> Context -> Context)
  : C VkResult :=
  r <- answer ;;
  if is_success r
  then h <- fresh ;; emit (mk r h) ;; modify (out h) ;; ret r
  else emit (mk r VK_NULL_HANDLE) ;; ret r.

(** [std::optional::value]. *)
Definition value {A} (o : option A) : C A :=
  match o with Some a => ret a | None => throw end.

Definition when (b : bool) (c : C unit) : C unit := if b then c else ret tt.

(** ** The methods of [VulkanContext] *)

Section Methods.

Variable enableValidationLayers : bool.
Variable deviceExtensions : list string.
Variable isComplete : QueueFamilyIndices -> bool.
Variable host : Host.

Definition createInstance : C bool :=
  r <- vkCreate VkCreateInstance set_instance ;;
  if failed r then ret false else ret true.

Definition setupDebugMessenger : C bool :=
  if negb enableValidationLayers then ret true else
  c <- this ;;
  let func := instanceProcAddr host (instance c) "vkCreateDebugUtilsMessengerEXT" in
  if negb func then ret false else
  r <- vkCreate (VkCreateDebugUtilsMessengerEXT (instance c)) set_debugMessenger ;;
  if failed r then ret false else ret true.

Definition createSurface : C bool :=
  c <- this ;;
  r <- vkCreate (GlfwCreateWindowSurface (instance c)) set_surface ;;
  if failed r then ret false else ret true.

(** The required extensions a GPU does not have: a [std::set] of the
    required names, from which every available name is erased. *)
Definition missingExtensions (gpu : PhysicalDeviceInfo) : gset string :=
  foldl (fun requiredExtensions extension => requiredExtensions ∖ {[extension]})
        (list_to_set deviceExtensions) (availableExtensions gpu).

(** The loop over the GPUs: one that misses an extension is skipped, the
    first discrete one among the others is taken and ends the loop. *)
Fixpoint pickLoop (devices : list PhysicalDeviceInfo) (physicalDevice : Handle) : Handle :=
  match devices with
  | [] => physicalDevice
  | gpu :: rest =>
      if negb (bool_decide (missingExtensions gpu = ∅)) then pickLoop rest physicalDevice
      else if (deviceType gpu =? VK_PHYSICAL_DEVICE_TYPE_DISCRETE_GPU)%Z then pd_handle gpu
      else pickLoop rest physicalDevice
  end.

Definition pickPhysicalDevice : C bool :=
  c <- this ;;
  let devices := enumeratePhysicalDevices host (instance c) in
  if Nat.eqb (length devices) 0 then ret false else
  (* Pick first suitable device *)
  modify (set_physicalDevice (pickLoop devices (physicalDevice c))) ;;
  c <- this ;;
  when (Nat.eqb (physicalDevice c) VK_NULL_HANDLE)
    (modify (set_physicalDevice
               (match devices with gpu :: _ => pd_handle gpu | [] => VK_NULL_HANDLE end))) ;;
  c <- this ;;
  ret (negb (Nat.eqb (physicalDevice c) VK_NULL_HANDLE)).

(** The loop over the queue families, from family [i] on. *)
Fixpoint findQueueFamilies (gpu surf : Handle) (i : nat) (queueFamilies : list Z)
    (q : QueueFamilyIndices) : QueueFamilyIndices :=
  match queueFamilies with
  | [] => q
  | queueFlags :: rest =>
      let q := if negb (Z.land queueFlags VK_QUEUE_GRAPHICS_BIT =? 0)%Z
               then {| graphicsFamily := Some i; presentFamily := presentFamily q |}
               else q in
      let q := if surfaceSupport host gpu i surf
               then {| graphicsFamily := graphicsFamily q; presentFamily := Some i |}
               else q in
      if isComplete q then q else findQueueFamilies gpu surf (S i) rest q
  end.

(** The elements of [std::set<uint32_t>{g, p}], in the order of the set. *)
Definition uniqueQueueFamilies (g p : nat) : list nat :=
  if Nat.eqb g p then [g] else if Nat.ltb g p then [g; p] else [p; g].

Definition createLogicalDevice : C bool :=
  c <- this ;;
  (* Find graphics queue family *)
  modify (set_queueFamilyIndices
            (findQueueFamilies (physicalDevice c) (surface c) 0
               (queueFamilyProperties host (physicalDevice c)) (queueFamilyIndices c))) ;;
  (* Create logical device *)
  c <- this ;;
  g <- value (graphicsFamily (queueFamilyIndices c)) ;;
  p <- value (presentFamily (queueFamilyIndices c)) ;;
  r <- vkCreate (VkCreateDevice (physicalDevice c) (uniqueQueueFamilies g p)) set_device ;;
  if failed r then ret false else
  (* Get queue handles *)
  c <- this ;;
  g <- value (graphicsFamily (queueFamilyIndices c)) ;;
  emit (VkGetDeviceQueue (device c) g) ;;
  modify (set_graphicsQueue (deviceQueue host (device c) g)) ;;
  p <- value (presentFamily (queueFamilyIndices c)) ;;
  emit (VkGetDeviceQueue (device c) p) ;;
  modify (set_presentQueue (deviceQueue host (device c) p)) ;;
  ret true.

Definition initialize : C bool :=
  ok <- createInstance ;;
  if negb ok then ret false else
  ok <- (if enableValidationLayers then setupDebugMessenger else ret true) ;;
  if negb ok then ret false else
  ok <- createSurface ;;
  if negb ok then ret false else
  ok <- pickPhysicalDevice ;;
  if negb ok then ret false else
  ok <- createLogicalDevice ;;
  if negb ok then ret false else
  ret true.

Definition cleanup : C unit :=
  c <- this ;;
  when (negb (Nat.eqb (device c) VK_NULL_HANDLE))
    (emit (VkDestroyDevice (device c)) ;;
     modify (set_device VK_NULL_HANDLE)) ;;
  c <- this ;;
  when (negb (Nat.eqb (surface c) VK_NULL_HANDLE))
    (emit (VkDestroySurfaceKHR (instance c) (surface c)) ;;
     modify (set_surface VK_NULL_HANDLE)) ;;
  c <- this ;;
  when (enableValidationLayers && negb (Nat.eqb (debugMessenger c) VK_NULL_HANDLE))
    (let func := instanceProcAddr host (instance c) "vkDestroyDebugUtilsMessengerEXT" in
     when func (emit (VkDestroyDebugUtilsMessengerEXT (instance c) (debugMessenger c))) ;;
     modify (set_debugMessenger VK_NULL_HANDLE)) ;;
  c <- this ;;
  when (negb (Nat.eqb (instance c) VK_NULL_HANDLE))
    (emit (VkDestroyInstance (instance c)) ;;
     modify (set_instance VK_NULL_HANDLE)).

End Methods.

End VulkanContext.

(** ** The choice of a GPU, said without the loops *)

(** A GPU has every required extension and is a discrete one. *)
Definition suitable (deviceExtensions : list string) (gpu : VulkanContext.PhysicalDeviceInfo)
  : bool :=
  forallb (fun required =>
             existsb (String.eqb required) (VulkanContext.availableExtensions gpu))
          deviceExtensions &&
  (VulkanContext.deviceType gpu =? VulkanContext.VK_PHYSICAL_DEVICE_TYPE_DISCRETE_GPU)%Z.

(** Family [i] of the GPU has graphics queues; it can present to the
    surface. *)
Definition has_graphics (host : VulkanContext.Host) (gpu : Handle) (i : nat) : bool :=
  match VulkanContext.queueFamilyProperties host gpu !! i with
  | Some queueFlags => negb (Z.land queueFlags VulkanContext.VK_QUEUE_GRAPHICS_BIT =? 0)%Z
  | None => false
  end.

Definition can_present (host : VulkanContext.Host) (gpu surf : Handle) (i : nat) : bool :=
  bool_decide (i < length (VulkanContext.queueFamilyProperties host gpu)) &&
  VulkanContext.surfaceSupport host gpu i surf.

(** The test of the header as it is everywhere written: both indices have
    a value. *)
Definition both_found (q : VulkanContext.QueueFamilyIndices) : bool :=
  bool_decide (is_Some (VulkanContext.graphicsFamily q)) &&
  bool_decide (is_Some (VulkanContext.presentFamily q)).

(** ** A sample machine for the context *)

(** An integrated GPU and a discrete one, both with the swapchain
    extension; one family of queues for graphics that can present, one for
    transfers. *)
Definition sample_host : VulkanContext.Host :=
  {| VulkanContext.enumeratePhysicalDevices := fun _ =>
       [ {| VulkanContext.pd_handle := 201; VulkanContext.deviceType := 1%Z;
            VulkanContext.availableExtensions := ["VK_KHR_swapchain"%string] |};
         {| VulkanContext.pd_handle := 202; VulkanContext.deviceType := 2%Z;
            VulkanContext.availableExtensions :=
              ["VK_KHR_maintenance1"%string; "VK_KHR_swapchain"%string] |} ];
     VulkanContext.queueFamilyProperties := fun _ => [3%Z; 4%Z];
     VulkanContext.surfaceSupport := fun _ i _ => Nat.eqb i 0;
     VulkanContext.deviceQueue := fun _ i => 300 + i;
     VulkanContext.instanceProcAddr := fun _ _ => true |}.

(** A new context facing a driver that will give the results [rs]. *)
Definition new_context (rs : list VkResult) : VulkanContext.World :=
  {| VulkanContext.self := VulkanContext.VulkanContext_new;
     VulkanContext.calls := [];
     VulkanContext.answers := rs |}.

(** * Proofs *)

(** ** The rules of [post] and [wp] *)

Lemma post_ret {A} (a : A) Q B s : Q a s -> post (ret a) Q B s.
Proof. exact id. Qed.

Lemma post_bind {A C} (c : M A) (k : A -> M C) Q B s :
  post c (fun a s' => post (k a) Q B s') B s -> post (bind c k) Q B s.
Proof. unfold post, bind. destruct (c s); auto. Qed.

Lemma post_mono {A} (c : M A) (Q Q' : A -> St -> Prop) (B B' : St -> Prop) s :
  post c Q B s ->
  (forall a s', Q a s' -> Q' a s') -> (forall s', B s' -> B' s') ->
  post c Q' B' s.
Proof. unfold post. destruct (c s); auto. Qed.

Lemma wp_post {A} (c : M A) Q B s : wp c Q s -> post c Q B s.
Proof. intros H. eapply post_mono; [exact H | auto | contradiction]. Qed.

Lemma wp_mono {A} (c : M A) (Q Q' : A -> St -> Prop) s :
  wp c Q s -> (forall a s', Q a s' -> Q' a s') -> wp c Q' s.
Proof. intros H HQ. eapply post_mono; [exact H | exact HQ | auto]. Qed.

Lemma wp_returns {A} (c : M A) Q s :
  wp c Q s <-> exists a s', c s = Returns a s' /\ Q a s'.
Proof.
  unfold wp, post. destruct (c s) as [a s'|s'|s'].
  - split; [eauto |]. intros (a' & s'' & Heq & HQ). by inversion Heq; subst.
  - split; [contradiction |]. intros (a' & s'' & Heq & _). discriminate.
  - split; [contradiction |]. intros (a' & s'' & Heq & _). discriminate.
Qed.

Lemma wp_conj {A} (c : M A) (Q1 Q2 : A -> St -> Prop) s :
  wp c Q1 s -> wp c Q2 s -> wp c (fun a s' => Q1 a s' /\ Q2 a s') s.
Proof. unfold wp, post. destruct (c s); auto. Qed.

Lemma post_this Q B s : Q (self s) s -> post this Q B s.
Proof. exact id. Qed.

Lemma post_modify f Q B s : Q tt (with_self f s) -> post (modify f) Q B s.
Proof. exact id. Qed.

Lemma post_emit e Q B s : Q tt (log e s) -> post (emit e) Q B s.
Proof. exact id. Qed.

Lemma post_answer Q B s : Q (next_answer s) (pop_answer s) -> post answer Q B s.
Proof. exact id. Qed.

Lemma post_fresh Q B s : Q (S (issued (calls s))) s -> post fresh Q B s.
Proof. exact id. Qed.

Lemma post_fault {A} (Q : A -> St -> Prop) B s : B s -> post fault Q B s.
Proof. exact id. Qed.

(** Loops: an invariant indexed by the loop counter; a body that says
    [false] leaves the function with [F]. *)
Lemma post_for_upto (I : nat -> St -> Prop) (F : St -> Prop) B body :
  forall count first s,
    I first s ->
    (forall i s, first <= i < first + count -> I i s ->
       post (body i) (fun b s' => if b : bool then I (S i) s' else F s') B s) ->
    post (for_upto count first body)
         (fun b s' => if b : bool then I (first + count) s' else F s') B s.
Proof.
  induction count as [|c IH]; intros first s HI Hbody; simpl.
  - apply post_ret. by rewrite Nat.add_0_r.
  - apply post_bind.
    eapply post_mono; [apply Hbody; [lia | exact HI] | | auto].
    intros [|] s' H; simpl in H.
    + replace (first + S c) with (S first + c) by lia.
      apply IH; [exact H |]. intros i s0 Hi. apply Hbody. lia.
    + apply post_ret. exact H.
Qed.

Lemma post_for_each (I : nat -> St -> Prop) B body :
  forall count first s,
    I first s ->
    (forall i s, first <= i < first + count -> I i s ->
       post (body i) (fun _ s' => I (S i) s') B s) ->
    post (for_each count first body) (fun _ s' => I (first + count) s') B s.
Proof.
  induction count as [|c IH]; intros first s HI Hbody; simpl.
  - apply post_ret. by rewrite Nat.add_0_r.
  - apply post_bind.
    eapply post_mono; [apply Hbody; [lia | exact HI] | | auto].
    intros [] s' H; simpl in H.
    replace (first + S c) with (S first + c) by lia.
    apply IH; [exact H |]. intros i s0 Hi. apply Hbody. lia.
Qed.

(** The views after one more call. *)
Lemma issued_snoc tr e : issued (tr ++ [e]) = issued tr + length (created_by e).
Proof. unfold issued. by rewrite foldl_app. Qed.

Lemma live_snoc tr e : live (tr ++ [e]) = live_step (live tr) e.
Proof. unfold live. by rewrite foldl_app. Qed.

Lemma fence_status_snoc tr e : fence_status (tr ++ [e]) = fence_step (fence_status tr) e.
Proof. unfold fence_status. by rewrite foldl_app. Qed.

Lemma recorders_snoc tr e : recorders (tr ++ [e]) = recorder_step (recorders tr) e.
Proof. unfold recorders. by rewrite foldl_app. Qed.

Lemma fence_status_app tr tr' :
  fence_status (tr ++ tr') = foldl fence_step (fence_status tr) tr'.
Proof. unfold fence_status. by rewrite foldl_app. Qed.

Lemma recorders_app tr tr' :
  recorders (tr ++ tr') = foldl recorder_step (recorders tr) tr'.
Proof. unfold recorders. by rewrite foldl_app. Qed.

Lemma live_app tr tr' : live (tr ++ tr') = foldl live_step (live tr) tr'.
Proof. unfold live. by rewrite foldl_app. Qed.

(** A call summarised by an invariant it maintains. *)
Lemma post_call (I : St -> Prop) {A C} (c : M A) (k : A -> M C) Q B s :
  wp c (fun _ s' => I s') s ->
  (forall a s', I s' -> post (k a) Q B s') ->
  post (bind c k) Q B s.
Proof.
  intros Hc Hk. apply post_bind.
  eapply post_mono; [apply (wp_post _ _ B _ Hc) | | auto].
  intros a s' H. apply Hk, H.
Qed.

Lemma failed_spec r : failed r = negb (is_success r).
Proof. reflexivity. Qed.

(** Symbolic execution of straight-line code. *)
Ltac unfold_calls :=
  unfold and_then, waitIdle, createShaderModule, updateUniformBuffer, setError,
         vkCreateInto, vkCreateFenceInto, vkAllocateDescriptorSets, vkCall,
         vkDestroy, vkDeviceWaitIdle, vkCreate.

Ltac case_success r :=
  first [ match goal with E : is_success r = _ |- _ => rewrite E end
        | destruct (is_success r) eqn:? ];
  cbn [negb].

Ltac post_step :=
  cbn [fst snd];
  lazymatch goal with
  | |- wp _ _ _ => unfold wp
  | |- post (bind _ _) _ _ _ => apply post_bind
  | |- post (ret _) _ _ _ => apply post_ret
  | |- post this _ _ _ => apply post_this
  | |- post (modify _) _ _ _ => apply post_modify
  | |- post (emit _) _ _ _ => apply post_emit
  | |- post answer _ _ _ => apply post_answer
  | |- post fresh _ _ _ => apply post_fresh
  | |- post fault _ _ _ => apply post_fault
  | |- post (when ?b _) _ _ _ => unfold when
  | |- post (if failed ?r then _ else _) _ _ _ => rewrite (failed_spec r); case_success r
  | |- post (if is_success ?r then _ else _) _ _ _ => case_success r
  | |- post (if ?b then _ else _) _ _ _ => destruct b eqn:?
  | |- post (match ?o with Some _ => _ | None => _ end) _ _ _ => destruct o eqn:?
  end.

Ltac post_run := unfold_calls; repeat post_step.


Lemma post_for_upto_inv (I : St -> Prop) {C} (k : bool -> M C) Q B body count first s :
  I s ->
  (forall i s, I s -> post (body i) (fun _ s' => I s') B s) ->
  (forall b s', I s' -> post (k b) Q B s') ->
  post (bind (for_upto count first body) k) Q B s.
Proof.
  intros HI Hbody Hk. apply post_bind.
  eapply post_mono;
    [apply (post_for_upto (fun _ => I) I B body count first s HI) | | auto].
  - intros i s0 _ H0. eapply post_mono; [apply Hbody, H0 | | auto].
    by intros [|] s'.
  - intros [|] s' H; apply Hk, H.
Qed.

Lemma post_for_each_inv (I : St -> Prop) {C} (k : unit -> M C) Q B body count first s :
  I s ->
  (forall i s, I s -> post (body i) (fun _ s' => I s') B s) ->
  (forall s', I s' -> post (k tt) Q B s') ->
  post (bind (for_each count first body) k) Q B s.
Proof.
  intros HI Hbody Hk. apply post_bind.
  eapply post_mono;
    [apply (post_for_each (fun _ => I) B body count first s HI) | | auto].
  - intros i s0 _ H0. apply Hbody, H0.
  - intros [] s' H. apply Hk, H.
Qed.

Lemma post_for_upto_tail (I : St -> Prop) (Q : bool -> St -> Prop) B body count first s :
  I s ->
  (forall i s, I s -> post (body i) (fun _ s' => I s') B s) ->
  (forall b s', I s' -> Q b s') ->
  post (for_upto count first body) Q B s.
Proof.
  intros HI Hbody HQ.
  eapply post_mono;
    [apply (post_for_upto (fun _ => I) I B body count first s HI) | | auto].
  - intros i s0 _ H0. eapply post_mono; [apply Hbody, H0 | | auto].
    by intros [|] s'.
  - intros [|] s' H; apply HQ, H.
Qed.

Lemma post_for_each_tail (I : St -> Prop) (Q : unit -> St -> Prop) B body count first s :
  I s ->
  (forall i s, I s -> post (body i) (fun _ s' => I s') B s) ->
  (forall s', I s' -> Q tt s') ->
  post (for_each count first body) Q B s.
Proof.
  intros HI Hbody HQ.
  eapply post_mono;
    [apply (post_for_each (fun _ => I) B body count first s HI) | | auto].
  - intros i s0 _ H0. apply Hbody, H0.
  - intros [] s' H. apply HQ, H.
Qed.

(** ** Build steps *)

Lemma extends_refl P s : extends P s s.
Proof. exists []. by rewrite app_nil_r. Qed.

Lemma extends_log P s s' e : extends P s s' -> P e = true -> extends P s (log e s').
Proof.
  intros (new & Hc & Hall) He. exists (new ++ [e]). simpl. rewrite Hc, app_assoc.
  split; [done |]. apply Forall_app; auto.
Qed.

Lemma extends_with_self P s s' f : extends P s s' -> extends P s (with_self f s').
Proof. exact id. Qed.

Lemma extends_pop_answer P s s' : extends P s s' -> extends P s (pop_answer s').
Proof. exact id. Qed.

Lemma extends_pop_image P s s' : extends P s s' -> extends P s (pop_image s').
Proof. exact id. Qed.

Lemma extends_trans P s1 s2 s3 : extends P s1 s2 -> extends P s2 s3 -> extends P s1 s3.
Proof.
  intros (n1 & H1 & A1) (n2 & H2 & A2). exists (n1 ++ n2).
  rewrite H2, H1, app_assoc. split; [done | by apply Forall_app].
Qed.

Create HintDb builds.

#[global] Hint Resolve extends_refl extends_log extends_with_self extends_pop_answer
  extends_pop_image : builds.

#[global] Hint Extern 1 (build_event _ = true) => reflexivity : builds.

Create HintDb build_steps.

(** [extends P s t] where [t] is [s'] with further updates and calls. *)
Ltac extends_tac :=
  repeat lazymatch goal with
    | |- extends _ _ (with_self _ _) => apply extends_with_self
    | |- extends _ _ (pop_answer _) => apply extends_pop_answer
    | |- extends _ _ (pop_image _) => apply extends_pop_image
    | |- extends _ _ (log _ _) =>
        apply extends_log; [| solve [ cbn; rewrite ?Nat.eqb_refl; reflexivity ] ]
    | |- extends _ ?s ?s => apply extends_refl
    | |- extends _ _ _ => eassumption
    end.

(** Running a computation under an invariant [I]: loops are cut with [I],
    calls listed by [call] are replaced by their summary, everything else is
    executed, and [leaf] closes what is left. *)
Ltac inv_loop I leaf :=
  idtac;
  lazymatch goal with
  | |- post (bind (for_upto _ _ _) _) _ _ _ =>
      apply (post_for_upto_inv I); [leaf | intros ? ? ? | intros ? ? ?]
  | |- post (bind (for_each _ _ _) _) _ _ _ =>
      apply (post_for_each_inv I); [leaf | intros ? ? ? | intros ? ?]
  | |- post (for_upto _ _ _) _ _ _ =>
      apply (post_for_upto_tail I); [leaf | intros ? ? ? | intros ? ? ?]
  | |- post (for_each _ _ _) _ _ _ =>
      apply (post_for_each_tail I); [leaf | intros ? ? ? | intros ? ?]
  end.

Ltac inv_run I leaf call :=
  unfold_calls; repeat first [inv_loop I leaf | call | post_step]; try leaf.

Ltac rewrite_lengths :=
  repeat first [ rewrite length_app | rewrite length_seq | rewrite length_drop
               | rewrite length_insert | rewrite length_resize ].

Ltac sizes_leaf := idtac; simpl in *; rewrite_lengths; intuition (auto; lia).

Ltac no_call := idtac; fail.

Section BuildSteps.

Variable MAX_FRAMES_IN_FLIGHT : nat.

Variable env : Env.

Lemma same_shape_refl p : same_shape MAX_FRAMES_IN_FLIGHT env p p.
Proof. unfold same_shape. tauto. Qed.

Lemma builds_refl s : builds MAX_FRAMES_IN_FLIGHT env s s.
Proof. split; [apply same_shape_refl | apply extends_refl]. Qed.

Lemma Builds_apply {A} (c : M A) s0 s :
  Builds MAX_FRAMES_IN_FLIGHT env c -> builds MAX_FRAMES_IN_FLIGHT env s0 s -> wp c (fun _ s' => builds MAX_FRAMES_IN_FLIGHT env s0 s') s.
Proof. intros Hc. apply Hc. Qed.

End BuildSteps.

Ltac shape_conjunct :=
  first
    [ assumption
    | let Hp := fresh "Hp" in
      intros Hp;
      repeat match goal with
             | Hk : ?P -> _, Hq : ?P |- _ => specialize (Hk Hq)
             end;
      repeat match goal with Hk : _ -> _ |- _ => clear Hk end;
      first [assumption | lia] ].

Ltac shape_leaf :=
  idtac;
  lazymatch goal with
  | H : same_shape _ _ ?p0 _ |- same_shape _ _ ?p0 _ =>
      unfold same_shape, slots_consistent in H |- *;
      destruct H as (?&?&?&?&?&?&?&?&?&?&?&?&?&?&?&?);
      simpl; rewrite_lengths;
      repeat apply conj; shape_conjunct
  end.

Ltac builds_leaf :=
  idtac;
  lazymatch goal with
  | H : builds _ _ ?s0 ?s1 |- builds _ _ ?s0 ?t =>
      lazymatch t with
      | context [s1] => destruct H as [? ?]; split; [shape_leaf | solve [extends_tac]]
      end
  end.

Ltac builds_call :=
  idtac;
  lazymatch goal with
  | H : builds ?n ?e ?s0 ?s |- post (bind _ _) _ _ ?s =>
      apply (post_call (builds n e s0));
      [ apply Builds_apply; [solve [eauto with build_steps] | exact H]
      | clear H; intros ? ? H ]
  end.

Ltac builds_run :=
  idtac;
  lazymatch goal with
  | H : builds ?n ?e ?s0 _ |- _ => inv_run (builds n e s0) builds_leaf builds_call
  end.

Section BuildStepLemmas.

Variable MAX_FRAMES_IN_FLIGHT : nat.

Variable env : Env.

Lemma readFile_builds fn : Builds MAX_FRAMES_IN_FLIGHT env (readFile env fn).
Proof. intros s0 s H. unfold readFile. builds_run. Qed.

Lemma createShaderModule_builds code :
  Builds MAX_FRAMES_IN_FLIGHT env (createShaderModule code).
Proof. intros s0 s H. unfold createShaderModule. builds_run. Qed.

Hint Resolve readFile_builds createShaderModule_builds : build_steps.

Lemma createDescriptorSetLayout_builds :
  Builds MAX_FRAMES_IN_FLIGHT env createDescriptorSetLayout.
Proof. intros s0 s H. unfold createDescriptorSetLayout. builds_run. Qed.

Lemma createRenderPass_builds : Builds MAX_FRAMES_IN_FLIGHT env createRenderPass.
Proof. intros s0 s H. unfold createRenderPass. builds_run. Qed.

Lemma createGraphicsPipeline_builds :
  Builds MAX_FRAMES_IN_FLIGHT env (createGraphicsPipeline env).
Proof. intros s0 s H. unfold createGraphicsPipeline. builds_run. Qed.

Lemma createFramebuffers_builds : Builds MAX_FRAMES_IN_FLIGHT env (createFramebuffers env).
Proof. intros s0 s H. unfold createFramebuffers. builds_run. Qed.

Lemma createCommandPools_builds :
  Builds MAX_FRAMES_IN_FLIGHT env (createCommandPools MAX_FRAMES_IN_FLIGHT).
Proof. intros s0 s H. unfold createCommandPools. builds_run. Qed.

Lemma createCommandBuffers_builds :
  Builds MAX_FRAMES_IN_FLIGHT env (createCommandBuffers MAX_FRAMES_IN_FLIGHT).
Proof. intros s0 s H. unfold createCommandBuffers. builds_run. Qed.

Lemma createUniformBuffers_builds :
  Builds MAX_FRAMES_IN_FLIGHT env (createUniformBuffers MAX_FRAMES_IN_FLIGHT).
Proof. intros s0 s H. unfold createUniformBuffers. builds_run. Qed.

Lemma createDescriptorPool_builds : Builds MAX_FRAMES_IN_FLIGHT env createDescriptorPool.
Proof. intros s0 s H. unfold createDescriptorPool. builds_run. Qed.

Lemma createDescriptorSets_builds :
  Builds MAX_FRAMES_IN_FLIGHT env (createDescriptorSets MAX_FRAMES_IN_FLIGHT).
Proof. intros s0 s H. unfold createDescriptorSets. builds_run. Qed.

Lemma createSyncObjects_builds :
  Builds MAX_FRAMES_IN_FLIGHT env (createSyncObjects MAX_FRAMES_IN_FLIGHT).
Proof. intros s0 s H. unfold createSyncObjects. builds_run. Qed.

Lemma createVertexBuffer_builds : Builds MAX_FRAMES_IN_FLIGHT env createVertexBuffer.
Proof. intros s0 s H. unfold createVertexBuffer. builds_run. Qed.

Lemma and_then_builds a b :
  Builds MAX_FRAMES_IN_FLIGHT env a -> Builds MAX_FRAMES_IN_FLIGHT env b ->
  Builds MAX_FRAMES_IN_FLIGHT env (a &&> b).
Proof.
  intros Ha Hb s0 s H. unfold and_then, wp.
  apply (post_call (builds MAX_FRAMES_IN_FLIGHT env s0)).
  - by apply Ha.
  - intros [|] s' H'; [by apply Hb | by apply post_ret].
Qed.

(** A build step always returns. *)
Lemma builds_returns {A} (c : M A) :
  Builds MAX_FRAMES_IN_FLIGHT env c -> forall s, wp c (fun _ _ => True) s.
Proof.
  intros Hc s. eapply wp_mono; [apply (Hc s s), builds_refl | auto].
Qed.

Lemma builds_keeps {A} (c : M A) P :
  Builds MAX_FRAMES_IN_FLIGHT env c -> kept MAX_FRAMES_IN_FLIGHT env P ->
  forall s, P (self s) -> wp c (fun _ s' => P (self s')) s.
Proof.
  intros Hc HP s Hs. eapply wp_mono; [apply (Hc s s), builds_refl |].
  intros a s' [Hshape _]. exact (HP _ _ Hshape Hs).
Qed.

(** In a chain [a() && b()], a fact that [a] establishes and [b] keeps holds
    when the chain succeeds; so does a fact that [b] establishes, provided
    [a] returns. *)
Lemma and_then_left (P : St -> Prop) (a b : M bool) s :
  wp a (fun _ s' => P s') s ->
  (forall s', P s' -> wp b (fun _ s'' => P s'') s') ->
  wp (a &&> b) (fun ok s' => ok = true -> P s') s.
Proof.
  intros Ha Hb. unfold and_then, wp. apply (post_call P); [exact Ha |].
  intros [|] s' H'.
  - eapply post_mono; [apply Hb, H' | auto | auto].
  - by apply post_ret.
Qed.

Lemma and_then_right (P : St -> Prop) (a b : M bool) s :
  wp a (fun _ _ => True) s ->
  (forall s', wp b (fun ok s'' => ok = true -> P s'') s') ->
  wp (a &&> b) (fun ok s' => ok = true -> P s') s.
Proof.
  intros Ha Hb. unfold and_then, wp. apply (post_call (fun _ => True)); [exact Ha |].
  intros [|] s' _; [apply Hb | by apply post_ret].
Qed.

End BuildStepLemmas.

#[global] Hint Resolve readFile_builds createShaderModule_builds
  createDescriptorSetLayout_builds createRenderPass_builds
  createGraphicsPipeline_builds createFramebuffers_builds createCommandPools_builds
  createCommandBuffers_builds createUniformBuffers_builds createDescriptorPool_builds
  createDescriptorSets_builds createSyncObjects_builds createVertexBuffer_builds
  and_then_builds : build_steps.


(** ** [initialize] as a whole *)

Section Initialize.

Variable MAX_FRAMES_IN_FLIGHT : nat.

Variable env : Env.

Lemma createFramebuffers_sized s :
  wp (createFramebuffers env)
     (fun _ s' => length (framebuffers (self s')) = length (sc_images (swapChain env))) s.
Proof.
  unfold createFramebuffers.
  inv_run (fun s' => length (framebuffers (self s')) = length (sc_images (swapChain env)))
          sizes_leaf no_call.
Qed.

Lemma createCommandPools_sized s :
  wp (createCommandPools MAX_FRAMES_IN_FLIGHT)
     (fun _ s' => length (commandPools (self s')) = MAX_FRAMES_IN_FLIGHT) s.
Proof.
  unfold createCommandPools.
  inv_run (fun s' => length (commandPools (self s')) = MAX_FRAMES_IN_FLIGHT)
          sizes_leaf no_call.
Qed.

Lemma createCommandBuffers_sized s :
  wp (createCommandBuffers MAX_FRAMES_IN_FLIGHT)
     (fun _ s' => length (commandBuffers (self s')) = MAX_FRAMES_IN_FLIGHT) s.
Proof.
  unfold createCommandBuffers.
  inv_run (fun s' => length (commandBuffers (self s')) = MAX_FRAMES_IN_FLIGHT)
          sizes_leaf no_call.
Qed.

Lemma createUniformBuffers_sized s :
  wp (createUniformBuffers MAX_FRAMES_IN_FLIGHT) (fun _ s' => uniforms_sized MAX_FRAMES_IN_FLIGHT (self s')) s.
Proof.
  unfold createUniformBuffers, uniforms_sized.
  inv_run (fun s' => uniforms_sized MAX_FRAMES_IN_FLIGHT (self s')) ltac:(idtac; unfold uniforms_sized in *; sizes_leaf) no_call.
Qed.

Lemma createDescriptorSets_sized s :
  wp (createDescriptorSets MAX_FRAMES_IN_FLIGHT)
     (fun _ s' => length (descriptorSets (self s')) = MAX_FRAMES_IN_FLIGHT) s.
Proof.
  unfold createDescriptorSets.
  inv_run (fun s' => length (descriptorSets (self s')) = MAX_FRAMES_IN_FLIGHT)
          sizes_leaf no_call.
Qed.

Lemma createSyncObjects_sized s :
  wp (createSyncObjects MAX_FRAMES_IN_FLIGHT) (fun _ s' => sync_sized MAX_FRAMES_IN_FLIGHT (self s')) s.
Proof.
  unfold createSyncObjects.
  inv_run (fun s' => sync_sized MAX_FRAMES_IN_FLIGHT (self s')) ltac:(idtac; unfold sync_sized in *; sizes_leaf) no_call.
Qed.

Lemma initialize_unfold :
  initialize MAX_FRAMES_IN_FLIGHT env =
  (p <- this ;;
   if negb (bool_decide (state p = UNINITIALIZED))
   then setError "Pipeline is already initialized" ;; ret false else
   ok <- (build_all MAX_FRAMES_IN_FLIGHT env) ;;
   if negb ok then ret false else
   modify (set_state READY) ;;
   ret true).
Proof. reflexivity. Qed.

Lemma build_all_builds : Builds MAX_FRAMES_IN_FLIGHT env (build_all MAX_FRAMES_IN_FLIGHT env).
Proof. unfold build_all. eauto 20 with build_steps. Qed.

Ltac kept_tac :=
  let H := fresh in
  intros ? ? H ?; unfold same_shape, uniforms_sized, sync_sized in *;
  destruct H as (?&?&?&?&?&?&?&?&?&?&?&?&?&?&?&?); intuition.

Ltac chain_skip :=
  apply and_then_right;
  [ apply (builds_returns MAX_FRAMES_IN_FLIGHT env); eauto with build_steps | intros ? ].

Ltac chain_here P est :=
  apply (and_then_left (fun s' => P (self s')));
  [ apply est
  | intros ? ?;
    apply (builds_keeps MAX_FRAMES_IN_FLIGHT env _ P);
    [ eauto 20 with build_steps | kept_tac | assumption ] ].

Lemma build_all_sized s :
  wp (build_all MAX_FRAMES_IN_FLIGHT env)
     (fun ok s' => ok = true ->
        slots_sized MAX_FRAMES_IN_FLIGHT (self s') /\
        length (framebuffers (self s')) = length (sc_images (swapChain env))) s.
Proof.
  assert (Hfb : wp (build_all MAX_FRAMES_IN_FLIGHT env) (fun ok s' => ok = true ->
            length (framebuffers (self s')) = length (sc_images (swapChain env))) s).
  { unfold build_all. do 3 chain_skip. chain_here (fun p => length (framebuffers p) = length (sc_images (swapChain env)))
      createFramebuffers_sized. }
  assert (Hcp : wp (build_all MAX_FRAMES_IN_FLIGHT env) (fun ok s' => ok = true ->
            length (commandPools (self s')) = MAX_FRAMES_IN_FLIGHT) s).
  { unfold build_all. do 4 chain_skip. chain_here (fun p => length (commandPools p) = MAX_FRAMES_IN_FLIGHT)
      createCommandPools_sized. }
  assert (Hcb : wp (build_all MAX_FRAMES_IN_FLIGHT env) (fun ok s' => ok = true ->
            length (commandBuffers (self s')) = MAX_FRAMES_IN_FLIGHT) s).
  { unfold build_all. do 5 chain_skip. chain_here (fun p => length (commandBuffers p) = MAX_FRAMES_IN_FLIGHT)
      createCommandBuffers_sized. }
  assert (Hub : wp (build_all MAX_FRAMES_IN_FLIGHT env) (fun ok s' => ok = true -> uniforms_sized MAX_FRAMES_IN_FLIGHT (self s')) s).
  { unfold build_all. do 6 chain_skip. chain_here (uniforms_sized MAX_FRAMES_IN_FLIGHT) createUniformBuffers_sized. }
  assert (Hds : wp (build_all MAX_FRAMES_IN_FLIGHT env) (fun ok s' => ok = true ->
            length (descriptorSets (self s')) = MAX_FRAMES_IN_FLIGHT) s).
  { unfold build_all. do 8 chain_skip. chain_here (fun p => length (descriptorSets p) = MAX_FRAMES_IN_FLIGHT)
      createDescriptorSets_sized. }
  assert (Hso : wp (build_all MAX_FRAMES_IN_FLIGHT env) (fun ok s' => ok = true -> sync_sized MAX_FRAMES_IN_FLIGHT (self s')) s).
  { unfold build_all. do 9 chain_skip. chain_here (sync_sized MAX_FRAMES_IN_FLIGHT) createSyncObjects_sized. }
  pose proof (wp_conj _ _ _ _ Hfb (wp_conj _ _ _ _ Hcp (wp_conj _ _ _ _ Hcb
    (wp_conj _ _ _ _ Hub (wp_conj _ _ _ _ Hds Hso))))) as Hall.
  eapply wp_mono; [exact Hall |]. simpl.
  intros ok s' (H1 & H2 & H3 & H4 & H5 & H6) Hok.
  unfold slots_sized, uniforms_sized, sync_sized in *. intuition.
Qed.

(** [initialize] from [UNINITIALIZED]: it returns; it only builds; it moves
    to [READY] exactly when every step succeeded, and then every collection
    has its size. *)
Lemma initialize_summary s :
  state (self s) = UNINITIALIZED ->
  wp (initialize MAX_FRAMES_IN_FLIGHT env)
     (fun ok s' =>
        exists s1,
          builds MAX_FRAMES_IN_FLIGHT env s s1 /\
          s' = (if ok then with_self (set_state READY) s1 else s1) /\
          (ok = true ->
             slots_sized MAX_FRAMES_IN_FLIGHT (self s1) /\
             length (framebuffers (self s1)) = length (sc_images (swapChain env)))) s.
Proof.
  intros Hst. rewrite initialize_unfold. unfold wp.
  apply post_bind, post_this. rewrite bool_decide_true by exact Hst. cbn [negb].
  apply post_bind.
  eapply post_mono;
    [ apply wp_conj;
        [apply (build_all_builds s s), builds_refl | apply build_all_sized]
    | | auto ].
  intros [|] s1 [Hb Hs]; cbn [negb].
  - apply post_bind, post_modify, post_ret. exists s1. split; [done |]. split; [done |].
    intros _. by apply Hs.
  - apply post_ret. exists s1. split; [done |]. split; [done |]. discriminate.
Qed.

End Initialize.

(** ** The calls of [cleanup] *)

Lemma St_eq (a b : St) :
  self a = self b -> calls a = calls b -> answers a = answers b -> images a = images b ->
  a = b.
Proof. destruct a, b; simpl; congruence. Qed.

Lemma bind_returns {A C} (c : M A) (k : A -> M C) s a s' :
  c s = Returns a s' -> bind c k s = k a s'.
Proof. unfold bind. by intros ->. Qed.

Lemma log_all_nil s : log_all [] s = s.
Proof. destruct s. unfold log_all. simpl. by rewrite app_nil_r. Qed.

Lemma log_all_app es es' s : log_all es' (log_all es s) = log_all (es ++ es') s.
Proof. unfold log_all. simpl. by rewrite app_assoc. Qed.

(** A loop whose body only makes calls, chosen by looking at the object. *)
Lemma for_each_emits (ev : Pipeline -> nat -> list Event) body :
  (forall i s, body i s = Returns tt (log_all (ev (self s) i) s)) ->
  forall count first s,
    for_each count first body s =
    Returns tt (log_all (flat_map (ev (self s)) (seq first count)) s).
Proof.
  intros Hbody. induction count as [|c IH]; intros first s; simpl.
  - by rewrite log_all_nil.
  - rewrite (bind_returns _ _ _ _ _ (Hbody first s)), IH. simpl.
    by rewrite log_all_app.
Qed.

Lemma when_release k h f s :
  when (nonnull h) (vkDestroy k h ;; modify f) s =
  Returns tt (with_self (if nonnull h then f else id) (log_all (release k h) s)).
Proof.
  unfold release. destruct (nonnull h); simpl; [reflexivity |].
  by rewrite log_all_nil; destruct s.
Qed.

Lemma nonnull_false h : nonnull h = false -> h = VK_NULL_HANDLE.
Proof. unfold nonnull. by destruct h. Qed.

(** [if (h != VK_NULL_HANDLE) { destroy(h); h = VK_NULL_HANDLE; }] on a
    member [h]: either way the member is null afterwards. *)
Lemma when_release_null k get set h s :
  nulls get set -> get (self s) = h ->
  when (nonnull h) (vkDestroy k h ;; modify (set VK_NULL_HANDLE)) s =
  Returns tt (with_self (set VK_NULL_HANDLE) (log_all (release k h) s)).
Proof.
  intros Hn Hget. rewrite when_release. destruct (nonnull h) eqn:E; [done |].
  unfold with_self at 2. simpl. rewrite Hn by (rewrite Hget; by apply nonnull_false).
  by destruct s.
Qed.

Lemma when_emit (b : bool) e s :
  when b (emit e) s = Returns tt (log_all (if b then [e] else []) s).
Proof. destruct b; simpl; [reflexivity | by rewrite log_all_nil]. Qed.

(** The framebuffer loop overwrites each handle it destroys; entries not yet
    visited are as they were. *)
Lemma framebuffer_loop (v : list Handle) :
  forall count first s,
    (forall j, first <= j -> vec_at (framebuffers (self s)) j = vec_at v j) ->
    exists fbs,
      for_each count first (fun i =>
        p <- this ;;
        when (nonnull (vec_at (framebuffers p) i))
          (vkDestroy Framebuffer (vec_at (framebuffers p) i) ;;
           modify (fun q => set_framebuffers (<[i := VK_NULL_HANDLE]> (framebuffers q)) q))) s
      = Returns tt (with_self (set_framebuffers fbs)
                      (log_all (flat_map (fun i => release Framebuffer (vec_at v i))
                                         (seq first count)) s)).
Proof.
  induction count as [|c IH]; intros first s Hv; cbn [for_each seq flat_map].
  - exists (framebuffers (self s)). rewrite log_all_nil. by destruct s as [[] ? ? ?].
  - erewrite bind_returns;
      [| rewrite (bind_returns this _ s (self s) s eq_refl); apply when_release].
    rewrite Hv by lia.
    set (s1 := with_self _ _).
    destruct (IH (S first) s1) as [fbs Hfbs].
    { intros j Hj. subst s1. simpl. rewrite <- (Hv j) by lia.
      destruct (nonnull (vec_at v first)); simpl; [| done].
      unfold vec_at. by rewrite list_lookup_insert_ne by lia. }
    exists fbs. rewrite Hfbs. subst s1. f_equal.
    unfold with_self, log_all; simpl. rewrite <- app_assoc. f_equal.
    by destruct (nonnull (vec_at v first)).
Qed.

(** Projections of updated records. *)
Ltac proj_simpl :=
  cbn [self calls answers images with_self log log_all pop_answer pop_image pipelineLayout
       graphicsPipeline renderPass descriptorSetLayout descriptorPool vertexBuffer
       vertexBufferMemory framebuffers commandPools commandBuffers imageAvailableSemaphores
       renderFinishedSemaphores inFlightFences uniformBuffers uniformBuffersMemory
       uniformBuffersMapped descriptorSets currentFrame currentImageIndex state lastError
       set_pipelineLayout set_graphicsPipeline set_renderPass set_descriptorSetLayout
       set_descriptorPool set_vertexBuffer set_vertexBufferMemory set_framebuffers
       set_commandPools set_commandBuffers set_imageAvailableSemaphores
       set_renderFinishedSemaphores set_inFlightFences set_uniformBuffers
       set_uniformBuffersMemory set_uniformBuffersMapped set_descriptorSets
       set_currentFrame set_currentImageIndex set_state set_lastError].

(** The same in the hypotheses left by the test of [updateUniformBuffer]. *)
Ltac mapped_simpl :=
  repeat match goal with
    | H : nonnull (vec_at (uniformBuffersMapped _) _) = _ |- _ =>
        progress
          cbn [self calls answers images with_self log log_all pop_answer pop_image
               uniformBuffersMapped currentFrame currentImageIndex
               set_currentFrame set_currentImageIndex set_state set_lastError] in H
    end.

(** One step of a computation whose first part is known to return. *)
Ltac step_by tac := erewrite bind_returns by tac; cbv beta; proj_simpl.
Ltac step := erewrite bind_returns by reflexivity; cbv beta; proj_simpl.

Section Cleanup.

Variable MAX_FRAMES_IN_FLIGHT : nat.

Variable env : Env.

Lemma waitIdle_spec s : waitIdle env s = Returns tt (log_all (idle_wait env) s).
Proof. unfold waitIdle, vkDeviceWaitIdle, idle_wait. apply when_emit. Qed.



Lemma uniform_body_spec i s :
  (p <- this ;;
   when (nonnull (vec_at (uniformBuffersMapped p) i))
     (emit (EvUnmapMemory (vec_at (uniformBuffersMemory p) i))) ;;
   when (nonnull (vec_at (uniformBuffers p) i))
     (vkDestroy Buffer (vec_at (uniformBuffers p) i)) ;;
   when (nonnull (vec_at (uniformBuffersMemory p) i))
     (vkDestroy DeviceMemory (vec_at (uniformBuffersMemory p) i))) s
  = Returns tt (log_all (uniform_release (self s) i) s).
Proof.
  step. unfold vkDestroy. step_by ltac:(apply when_emit). step_by ltac:(apply when_emit).
  rewrite when_emit, !log_all_app. reflexivity.
Qed.

Lemma sync_body_spec i s :
  (p <- this ;;
   when (Nat.ltb i (length (imageAvailableSemaphores p)))
     (vkDestroy Semaphore (vec_at (imageAvailableSemaphores p) i)) ;;
   when (Nat.ltb i (length (renderFinishedSemaphores p)))
     (vkDestroy Semaphore (vec_at (renderFinishedSemaphores p) i)) ;;
   when (Nat.ltb i (length (inFlightFences p)))
     (vkDestroy Fence (vec_at (inFlightFences p) i))) s
  = Returns tt (log_all (sync_release (self s) i) s).
Proof.
  step. unfold vkDestroy. step_by ltac:(apply when_emit). step_by ltac:(apply when_emit).
  rewrite when_emit, !log_all_app. reflexivity.
Qed.

Lemma pool_body_spec i s :
  (p <- this ;;
   when (nonnull (vec_at (commandPools p) i))
     (vkDestroy CommandPool (vec_at (commandPools p) i))) s
  = Returns tt (log_all (release CommandPool (vec_at (commandPools (self s)) i)) s).
Proof. step. unfold vkDestroy. by rewrite when_emit. Qed.

Ltac nulls_tac := intros [] E; simpl in E |- *; by rewrite E.

Ltac release_member get :=
  step_by ltac:(apply (when_release_null _ get); [nulls_tac | reflexivity]).

(** [cleanup] returns, having made exactly the calls of [cleanup_calls]
    after the idle wait, and leaves the object cleared. *)
Lemma cleanup_spec s :
  cleanup MAX_FRAMES_IN_FLIGHT env s =
  Returns tt {| self := cleared (self s);
                calls := calls s ++ idle_wait env ++
                         cleanup_calls MAX_FRAMES_IN_FLIGHT (self s);
                answers := answers s; images := images s |}.
Proof.
  destruct s as [p tr ans img]. unfold cleanup. proj_simpl.
  step_by ltac:(apply waitIdle_spec). step.
  step_by ltac:(apply (for_each_emits uniform_release); intros; apply uniform_body_spec).
  do 4 step.
  release_member descriptorPool. release_member descriptorSetLayout.
  release_member vertexBuffer. release_member vertexBufferMemory.
  step_by ltac:(apply (for_each_emits sync_release); intros; apply sync_body_spec).
  step_by ltac:(apply (for_each_emits
                  (fun p i => release CommandPool (vec_at (commandPools p) i)));
                intros; apply pool_body_spec).
  match goal with
  | |- bind (for_each ?n ?f _) _ ?s0 = _ =>
      destruct (framebuffer_loop (framebuffers p) n f s0) as [fbs Hfbs];
      [ intros; reflexivity | ]
  end.
  step_by ltac:(exact Hfbs). clear Hfbs.
  do 2 step.
  release_member graphicsPipeline. release_member pipelineLayout.
  release_member renderPass.
  do 6 step.
  unfold modify. f_equal.
  unfold cleared, cleanup_calls, uniforms_release, syncs_release, release_each.
  apply St_eq; proj_simpl; [by destruct p | by rewrite <- !app_assoc | done | done].
Qed.

End Cleanup.

(** ** Order of release *)

Lemma precedes_app_head a b l1 l2 : In a l1 -> In b l2 -> precedes a b (l1 ++ l2).
Proof. intros Ha Hb. by exists l1, l2. Qed.

Lemma precedes_app_tail a b l1 l2 : precedes a b l2 -> precedes a b (l1 ++ l2).
Proof.
  intros (k1 & k2 & -> & Ha & Hb). exists (l1 ++ k1), k2.
  rewrite app_assoc. split; [done |]. split; [| done]. apply in_app_iff. by right.
Qed.

Lemma precedes_cons a b e l : precedes a b l -> precedes a b (e :: l).
Proof. apply (precedes_app_tail a b [e]). Qed.

Lemma nonnull_true h : h <> VK_NULL_HANDLE -> nonnull h = true.
Proof. unfold nonnull, VK_NULL_HANDLE. by destruct h. Qed.

Lemma in_release k h : h <> VK_NULL_HANDLE -> In (EvDestroy k h) (release k h).
Proof. intros H. unfold release. rewrite nonnull_true by done. by left. Qed.

Lemma vec_at_lookup (v : list Handle) i h : v !! i = Some h -> vec_at v i = h.
Proof. unfold vec_at. by intros ->. Qed.

Lemma in_vector (v : list Handle) h :
  In h v -> exists i, i < length v /\ vec_at v i = h.
Proof.
  intros H. apply list_elem_of_In, list_elem_of_lookup in H as [i Hi].
  exists i. split; [by eapply lookup_lt_Some | by apply vec_at_lookup].
Qed.

Lemma in_release_each k v h :
  In h v -> h <> VK_NULL_HANDLE -> In (EvDestroy k h) (release_each k v).
Proof.
  intros Hin Hh. destruct (in_vector _ _ Hin) as (i & Hi & <-).
  apply in_flat_map. exists i. split; [apply in_seq; lia | by apply in_release].
Qed.

Lemma in_uniforms_release_buffer p h :
  In h (uniformBuffers p) -> h <> VK_NULL_HANDLE ->
  In (EvDestroy Buffer h) (uniforms_release p).
Proof.
  intros Hin Hh. destruct (in_vector _ _ Hin) as (i & Hi & <-).
  apply in_flat_map. exists i. split; [apply in_seq; lia |].
  unfold uniform_release. rewrite !in_app_iff. right. left. by apply in_release.
Qed.

Lemma in_uniforms_release_memory p h :
  length (uniformBuffersMemory p) <= length (uniformBuffers p) ->
  In h (uniformBuffersMemory p) -> h <> VK_NULL_HANDLE ->
  In (EvDestroy DeviceMemory h) (uniforms_release p).
Proof.
  intros Hlen Hin Hh. destruct (in_vector _ _ Hin) as (i & Hi & <-).
  apply in_flat_map. exists i. split; [apply in_seq; lia |].
  unfold uniform_release. rewrite !in_app_iff. right. right. by apply in_release.
Qed.

Lemma ltb_true i n : i < n -> Nat.ltb i n = true.
Proof. intros H. by apply Nat.ltb_lt. Qed.

Lemma in_syncs_release n p i :
  i < n ->
  (i < length (imageAvailableSemaphores p) ->
   In (EvDestroy Semaphore (vec_at (imageAvailableSemaphores p) i)) (syncs_release n p)) /\
  (i < length (renderFinishedSemaphores p) ->
   In (EvDestroy Semaphore (vec_at (renderFinishedSemaphores p) i)) (syncs_release n p)) /\
  (i < length (inFlightFences p) ->
   In (EvDestroy Fence (vec_at (inFlightFences p) i)) (syncs_release n p)).
Proof.
  intros Hi. repeat split; intros Hlen; apply in_flat_map; exists i;
    (split; [apply in_seq; lia |]); unfold sync_release; rewrite !in_app_iff.
  - left. rewrite ltb_true by done. by left.
  - right. left. rewrite ltb_true by done. by left.
  - right. right. rewrite ltb_true by done. by left.
Qed.

(** Every handle the object holds is destroyed by [cleanup]. *)
Lemma owned_released n p k h :
  slots_consistent n p -> In (k, h) (owned p) -> h <> VK_NULL_HANDLE ->
  In (EvDestroy k h) (cleanup_calls n p).
Proof.
  intros (Hmem & _ & Hia & Hrf & Hif) Hin Hh. unfold owned in Hin. unfold cleanup_calls.
  rewrite !in_app_iff in Hin. rewrite !in_app_iff.
  destruct Hin as [Hin | [Hin | [Hin | [Hin | [Hin | [Hin | [Hin | Hin]]]]]]].
  - simpl in Hin.
    destruct Hin as [[= <- <-] | [[= <- <-] | [[= <- <-] | [[= <- <-] |
                    [[= <- <-] | [[= <- <-] | [[= <- <-] | []]]]]]]];
      auto 20 using in_release.
  - apply in_map_iff in Hin as (? & [= <- <-] & Hin).
    left. by apply in_uniforms_release_buffer.
  - apply in_map_iff in Hin as (? & [= <- <-] & Hin).
    left. apply in_uniforms_release_memory; [lia | done | done].
  - apply in_map_iff in Hin as (? & [= <- <-] & Hin).
    destruct (in_vector _ _ Hin) as (i & Hi & <-).
    do 5 right. left. apply in_syncs_release; lia.
  - apply in_map_iff in Hin as (? & [= <- <-] & Hin).
    destruct (in_vector _ _ Hin) as (i & Hi & <-).
    do 5 right. left. apply in_syncs_release; lia.
  - apply in_map_iff in Hin as (? & [= <- <-] & Hin).
    destruct (in_vector _ _ Hin) as (i & Hi & <-).
    do 5 right. left. apply in_syncs_release; lia.
  - apply in_map_iff in Hin as (? & [= <- <-] & Hin).
    do 6 right. left. by apply in_release_each.
  - apply in_map_iff in Hin as (? & [= <- <-] & Hin).
    do 7 right. left. by apply in_release_each.
Qed.

Lemma release_creates_nothing k h : Forall creates_nothing (release k h).
Proof. unfold release. destruct (nonnull h); by repeat constructor. Qed.

Lemma Forall_flat_map' {A B} (P : B -> Prop) (f : A -> list B) l :
  (forall x, Forall P (f x)) -> Forall P (flat_map f l).
Proof.
  intros H. induction l as [|x l IH]; simpl; [constructor | apply Forall_app; auto].
Qed.

Lemma cleanup_creates_nothing n p : Forall creates_nothing (cleanup_calls n p).
Proof.
  unfold cleanup_calls, uniforms_release, syncs_release, release_each.
  repeat apply Forall_app_2;
    try apply release_creates_nothing;
    apply Forall_flat_map'; intros i.
  - unfold uniform_release. repeat apply Forall_app_2;
      try apply release_creates_nothing.
    destruct (nonnull _); by repeat constructor.
  - unfold sync_release.
    repeat apply Forall_app_2; destruct (Nat.ltb _ _); by repeat constructor.
  - apply release_creates_nothing.
  - apply release_creates_nothing.
Qed.

Lemma live_step_None m e x :
  creates_nothing e -> m !! x = None -> live_step m e !! x = None.
Proof.
  unfold creates_nothing. intros He Hx.
  destruct e; cbn [live_step created_by] in *; try done;
    try (destruct (is_success r); [subst |]; done).
  case_decide; [done |]. apply map_lookup_filter_None. by left.
Qed.

Lemma live_step_tied m e h x :
  creates_nothing e -> tied h x m -> tied h x (live_step m e).
Proof.
  unfold creates_nothing. intros He [-> | [Hx | [k Hx]]]; [by left | |].
  - right. left. by apply live_step_None.
  - right. destruct e; cbn [live_step created_by] in *; eauto;
      try (destruct (is_success r); [try discriminate; subst |]; by eauto).
    case_decide; [by eauto |].
    destruct (filter _ m !! x) as [[k' par]|] eqn:E; [| by left].
    apply map_lookup_filter_Some in E as [E _]. right. exists k. congruence.
Qed.

Lemma live_step_destroy m k h x :
  h <> VK_NULL_HANDLE -> tied h x m -> live_step m (EvDestroy k h) !! x = None.
Proof.
  intros Hh Ht. cbn [live_step]. rewrite decide_False by done.
  apply map_lookup_filter_None.
  destruct Ht as [-> | [Hx | [k' Hx]]]; [| by left |].
  - right. intros y _ [Hne _]. by apply Hne.
  - right. intros y Hy [_ Hne]. rewrite Hx in Hy. injection Hy as <-. by apply Hne.
Qed.

Lemma foldl_live_None new : forall m x,
  Forall creates_nothing new -> m !! x = None -> foldl live_step m new !! x = None.
Proof.
  induction new as [|e new IH]; intros m x Hall Hx; simpl; [done |].
  inversion Hall; subst. apply IH; [done |]. by apply live_step_None.
Qed.

(** Once [h] is destroyed by calls that create nothing, neither it nor what
    was allocated from it is alive. *)
Lemma foldl_live_released new : forall m h x k,
  h <> VK_NULL_HANDLE -> Forall creates_nothing new -> tied h x m ->
  In (EvDestroy k h) new ->
  foldl live_step m new !! x = None.
Proof.
  induction new as [|e new IH]; intros m h x k Hh Hall Ht Hin; simpl; [done |].
  inversion Hall; subst. destruct Hin as [-> | Hin].
  - apply foldl_live_None; [done |]. by apply live_step_destroy.
  - eapply IH; eauto. by apply live_step_tied.
Qed.

Lemma cleanup_calls_cleared n p : cleanup_calls n (cleared p) = [].
Proof.
  unfold cleanup_calls, uniforms_release, syncs_release, release_each. simpl.
  assert (H : flat_map (sync_release (cleared p)) (seq 0 n) = []).
  { generalize 0. induction n as [|n IH]; intros k; simpl; [done |]. by rewrite IH. }
  by rewrite H.
Qed.

Lemma sync_of_released n p i k h :
  i < n -> sync_of p i k h -> In (EvDestroy k h) (syncs_release n p).
Proof.
  intros Hi [[-> H] | [[-> H] | [-> H]]];
    rewrite <- (vec_at_lookup _ _ _ H); apply in_syncs_release; try done;
    by eapply lookup_lt_Some.
Qed.

Lemma in_lookup (v : list Handle) i h : v !! i = Some h -> In h v.
Proof. intros H. apply list_elem_of_In, list_elem_of_lookup. eauto. Qed.



(** ** The fences of the slots *)

(** Creation calls, with the state after them described by equations. *)
Lemma post_vkCreateInto k parent out (Q : VkResult -> St -> Prop) B s :
  (forall r s', is_success r = true ->
     calls s' = calls s ++ [EvCreate k parent r (S (issued (calls s)))] ->
     self s' = out (S (issued (calls s))) (self s) ->
     Q r s') ->
  (forall r s', is_success r = false ->
     calls s' = calls s ++ [EvCreate k parent r VK_NULL_HANDLE] ->
     self s' = self s ->
     Q r s') ->
  post (vkCreateInto k parent out) Q B s.
Proof.
  intros Hok Hfail. unfold vkCreateInto, vkCreate.
  repeat post_step; [by apply Hok | by apply Hfail].
Qed.

Lemma post_vkCreateFenceInto flags out (Q : VkResult -> St -> Prop) B s :
  (forall r s', is_success r = true ->
     calls s' = calls s ++ [EvCreateFence flags r (S (issued (calls s)))] ->
     self s' = out (S (issued (calls s))) (self s) ->
     Q r s') ->
  (forall r s', is_success r = false ->
     calls s' = calls s ++ [EvCreateFence flags r VK_NULL_HANDLE] ->
     self s' = self s ->
     Q r s') ->
  post (vkCreateFenceInto flags out) Q B s.
Proof.
  intros Hok Hfail. unfold vkCreateFenceInto.
  repeat post_step; [by apply Hok | by apply Hfail].
Qed.

Section Fences.

Variable MAX_FRAMES_IN_FLIGHT : nat.

Variable env : Env.

Lemma fence_status_create tr k parent r h :
  fence_status (tr ++ [EvCreate k parent r h]) = fence_status tr.
Proof. rewrite fence_status_snoc. by destruct k. Qed.

Lemma issued_create tr k parent r h :
  is_success r = true -> issued (tr ++ [EvCreate k parent r h]) = S (issued tr).
Proof. intros Hr. rewrite issued_snoc. simpl. rewrite Hr. simpl. lia. Qed.

Lemma createSyncObjects_fences s :
  wp (createSyncObjects MAX_FRAMES_IN_FLIGHT)
     (fun ok s' => ok = true -> fences_ready MAX_FRAMES_IN_FLIGHT s') s.
Proof.
  unfold createSyncObjects, wp. do 3 (apply post_bind, post_modify).
  eapply post_mono;
    [ apply (post_for_upto (fences_upto MAX_FRAMES_IN_FLIGHT) (fun _ => True) (fun _ => False)) | | auto ].
  - split; [simpl; by rewrite length_resize |].
    split; [rewrite take_0; constructor | rewrite take_0; by intros ? []].
  - intros i s1 Hi (Hlen & Hnd & Hold).
    apply post_bind, post_vkCreateInto; intros r1 s2 Hr1 Hc2 Hp2;
      [| by post_run].
    post_step.
    apply post_bind, post_vkCreateInto; intros r2 s3 Hr2 Hc3 Hp3;
      [| by post_run].
    post_step.
    apply post_bind, post_vkCreateFenceInto; intros r3 s4 Hr3 Hc4 Hp4;
      [| by post_run].
    post_step. apply post_ret.
    assert (Hiss : issued (calls s3) = issued (calls s1) + 2).
    { rewrite Hc3, Hc2, !issued_create by done. lia. }
    assert (Hfs : fence_status (calls s3) = fence_status (calls s1)).
    { by rewrite Hc3, Hc2, !fence_status_create. }
    assert (Hfences : inFlightFences (self s3) = inFlightFences (self s1)).
    { by rewrite Hp3, Hp2. }
    remember (S (issued (calls s3))) as h eqn:Hh.
    unfold fences_upto. rewrite Hp4, Hc4. proj_simpl. rewrite Hfences.
    unfold Handle in *.
    split; [by rewrite length_insert |].
    rewrite (take_S_r _ _ h) by (apply list_lookup_insert_eq; lia).
    rewrite take_insert_ge by lia.
    split.
    + apply NoDup_app. split; [done |]. split; [| apply NoDup_singleton].
      intros f Hf. apply list_elem_of_In, Hold in Hf as [Hf _].
      intros Hc%list_elem_of_In. destruct Hc as [Hc | []]. lia.
    + intros f Hf. apply in_app_iff in Hf.
      rewrite issued_snoc, fence_status_snoc. cbn [created_by fence_step].
      rewrite Hr3, Hfs. simpl length.
      destruct Hf as [Hf | [<- | []]].
      * destruct (Hold f Hf) as [Hle Hst]. split; [lia |].
        rewrite lookup_insert_ne; [done |]. lia.
      * split; [lia |]. by rewrite lookup_insert_eq.
  - intros [|] s' H; [| done]. intros _. destruct H as (Hlen & Hnd & Hall).
    simpl in Hlen, Hnd, Hall. rewrite take_ge in Hnd, Hall by lia.
    split; [done |]. split; [done |]. intros f Hf. by apply Hall.
Qed.

Lemma and_then_cond (P : St -> Prop) (a b : M bool) s :
  wp a (fun ok s' => ok = true -> P s') s ->
  (forall s', P s' -> wp b (fun _ s'' => P s'') s') ->
  wp (a &&> b) (fun ok s' => ok = true -> P s') s.
Proof.
  intros Ha Hb. unfold and_then, wp. apply post_bind.
  eapply post_mono; [exact Ha | | auto].
  intros [|] s' H'; simpl.
  - eapply post_mono; [apply Hb; by apply H' | auto | auto].
  - by apply post_ret.
Qed.

Lemma build_all_fences s :
  wp (build_all MAX_FRAMES_IN_FLIGHT env) (fun ok s' => ok = true -> fences_ready MAX_FRAMES_IN_FLIGHT s') s.
Proof.
  unfold build_all.
  do 9 (apply and_then_right;
        [ apply (builds_returns MAX_FRAMES_IN_FLIGHT env); eauto with build_steps
        | intros ? ]).
  apply and_then_cond; [apply createSyncObjects_fences |].
  intros sk H. by apply post_ret.
Qed.

Lemma initialize_fences s :
  wp (initialize MAX_FRAMES_IN_FLIGHT env) (fun ok s' => ok = true -> fences_ready MAX_FRAMES_IN_FLIGHT s') s.
Proof.
  rewrite initialize_unfold. unfold wp.
  apply post_bind, post_this. post_step; [by post_run |].
  apply post_bind. eapply post_mono; [apply build_all_fences | | auto].
  intros [|] s1 H; cbn [negb]; [| by apply post_ret].
  apply post_bind, post_modify, post_ret. intros _. by apply H.
Qed.

End Fences.

(** ** First waits *)

Lemma first_wait_app f tr tr' :
  first_wait f (tr ++ tr') =
  match first_wait f tr with Some o => Some o | None => first_wait f tr' end.
Proof.
  induction tr as [|e tr IH]; simpl; [done |].
  destruct e; try done. by destruct (Nat.eqb _ _).
Qed.

Lemma first_wait_spared f g tail :
  Forall (fun e => spares_other_fences g e = true) tail -> first_wait f tail = None.
Proof.
  induction 1 as [|e tail He _ IH]; simpl; [done |]. by destruct e.
Qed.

Lemma fence_status_spared g tail : forall m f,
  Forall (fun e => spares_other_fences g e = true) tail -> f <> g ->
  foldl fence_step m tail !! f = m !! f.
Proof.
  induction tail as [|e tail IH]; intros m f Hall Hne; simpl; [done |].
  inversion Hall as [|? ? He Htail]; subst. rewrite IH by done.
  destruct e; simpl in He |- *; try done.
  - apply Nat.eqb_eq in He as ->. by rewrite lookup_alter_ne.
  - apply Nat.eqb_eq in He as ->. destruct (is_success r); [| done].
    by rewrite lookup_alter_ne.
Qed.

Lemma same_members_refl p : same_members p p.
Proof. by destruct p. Qed.

Lemma same_members_index p i : same_members p (set_currentImageIndex i p).
Proof. by destruct p. Qed.

Lemma same_members_fields p p' :
  same_members p p' ->
  inFlightFences p' = inFlightFences p /\
  currentFrame p' = currentFrame p /\
  state p' = state p /\
  lastError p' = lastError p /\
  commandBuffers p' = commandBuffers p /\
  imageAvailableSemaphores p' = imageAvailableSemaphores p /\
  renderFinishedSemaphores p' = renderFinishedSemaphores p.
Proof. unfold same_members. intros <-. by destruct p'. Qed.

Lemma same_members_mapped p p' :
  same_members p p' ->
  uniformBuffersMapped p' = uniformBuffersMapped p /\ framebuffers p' = framebuffers p.
Proof. unfold same_members. intros <-. by destruct p'. Qed.

Lemma post_vkWaitForFences f (Q : unit -> St -> Prop) (B : St -> Prop) s :
  (forall s',
     calls s' = calls s ++ [EvWaitForFences f (fence_status (calls s) !! f)] ->
     self s' = self s -> answers s' = answers s -> images s' = images s ->
     (fence_status (calls s) !! f <> Some Unsignaled -> Q tt s') /\
     (fence_status (calls s) !! f = Some Unsignaled -> B s')) ->
  post (vkWaitForFences f) Q B s.
Proof.
  intros H. unfold post, vkWaitForFences.
  destruct (H (log (EvWaitForFences f (fence_status (calls s) !! f)) s))
    as [HQ HB]; try done.
  destruct (fence_status (calls s) !! f) as [[| |]|]; auto; by apply HQ.
Qed.

Lemma post_vkAcquireNextImageKHR semaphore (Q : VkResult -> St -> Prop) B s :
  (forall r i s',
     r = next_answer s ->
     calls s' = calls s ++ [EvAcquireNextImage semaphore r i] ->
     same_members (self s) (self s') ->
     Q r s') ->
  post (vkAcquireNextImageKHR semaphore) Q B s.
Proof.
  intros H. unfold vkAcquireNextImageKHR. apply post_bind, post_answer.
  destruct (_ || _).
  - unfold post. eapply H; try done. apply same_members_index.
  - apply post_bind, post_emit, post_ret. eapply H; try done. apply same_members_refl.
Qed.

Section Frames.

Variable MAX_FRAMES_IN_FLIGHT : nat.

Variable env : Env.

Lemma first_waits_same fences s0 s s' :
  first_waits_signaled fences s0 s ->
  calls s' = calls s -> inFlightFences (self s') = inFlightFences (self s) ->
  first_waits_signaled fences s0 s'.
Proof.
  intros (Hf & new & Hc & Hall) Hc' Hf'. split; [congruence |].
  exists new. rewrite Hc'. by split.
Qed.

Lemma first_waits_extend fences s0 s s' g tail :
  first_waits_signaled fences s0 s ->
  calls s' = calls s ++ EvWaitForFences g (fence_status (calls s) !! g) :: tail ->
  Forall (fun e => spares_other_fences g e = true) tail ->
  inFlightFences (self s') = inFlightFences (self s) ->
  first_waits_signaled fences s0 s'.
Proof.
  intros (Hf & new & Hc & Hall) Hc' Htail Hf'. split; [congruence |].
  exists (new ++ EvWaitForFences g (fence_status (calls s) !! g) :: tail).
  split; [by rewrite Hc', Hc, app_assoc |].
  intros f Hin. specialize (Hall f Hin). rewrite first_wait_app.
  destruct (first_wait f new) as [o|]; [done |]. simpl.
  destruct (Nat.eqb_spec g f) as [-> | Hne]; [done |].
  rewrite (first_wait_spared f g tail Htail).
  rewrite Hc'. change (?a :: tail) with ([a] ++ tail).
  rewrite app_assoc, fence_status_app.
  rewrite (fence_status_spared g tail) by auto.
  rewrite fence_status_snoc. simpl. by rewrite lookup_alter_ne.
Qed.

Lemma frame_first_waits fences s0 s :
  first_waits_signaled fences s0 s ->
  post (frame MAX_FRAMES_IN_FLIGHT env) (fun _ s' => first_waits_signaled fences s0 s')
       (first_waits_signaled fences s0) s.
Proof.
  intros K. unfold frame, beginFrame.
  apply post_bind, post_bind, post_this.
  post_step.
  { post_run. eapply first_waits_same; eauto. }
  apply post_bind, post_vkWaitForFences. intros s1 Hc1 Hp1 _ _.
  remember (vec_at (inFlightFences (self s)) (currentFrame (self s))) as g eqn:Hg.
  assert (Hext : forall s',
            extends (spares_other_fences g) s1 s' ->
            inFlightFences (self s') = inFlightFences (self s1) ->
            first_waits_signaled fences s0 s').
  { intros s' (tail & Hc & Htail) Hf. eapply first_waits_extend; eauto.
    - by rewrite Hc, Hc1, <- app_assoc.
    - by rewrite Hf, Hp1. }
  split; [intros _ | intros _; apply Hext; [apply extends_refl | done]].
  apply post_bind, post_vkAcquireNextImageKHR.
  intros r i s2 _ Hc2 Hsame.
  destruct (same_members_fields _ _ Hsame) as (Hf2 & Hcf2 & Hst2 & _ & Hcb2 & Hia2 & Hrf2).
  assert (H12 : extends (spares_other_fences g) s1 s2).
  { exists [EvAcquireNextImage
              (vec_at (imageAvailableSemaphores (self s)) (currentFrame (self s))) r i].
    split; [done | by repeat constructor]. }
  unfold endFrame, updateUniformBuffer, vkCall, setError.
  repeat post_step;
    (apply Hext;
     [ proj_simpl; rewrite ?Hf2, ?Hcf2, ?Hp1, <- ?Hg; extends_tac
     | proj_simpl; by rewrite ?Hf2 ]).
Qed.

Lemma frames_first_waits fences s0 n : forall s,
  first_waits_signaled fences s0 s ->
  post (frames MAX_FRAMES_IN_FLIGHT env n) (fun _ s' => first_waits_signaled fences s0 s')
       (first_waits_signaled fences s0) s.
Proof.
  induction n as [|n IH]; intros s K; simpl; [by apply post_ret |].
  apply post_bind. eapply post_mono; [by apply frame_first_waits | | auto].
  intros [] s' K'. by apply IH.
Qed.

(** [beginFrame] waits at one place only: past a fence that is not left
    unsignaled, it does not block. *)
Lemma beginFrame_never_blocks s s1 :
  fence_status (calls s) !! vec_at (inFlightFences (self s)) (currentFrame (self s))
    <> Some Unsignaled ->
  beginFrame env s <> Blocks s1.
Proof.
  intros Hwait. unfold beginFrame, updateUniformBuffer, vkAcquireNextImageKHR, vkCall,
    setError, vkWaitForFences, bind, this, modify, emit, answer, ret, fault.
  repeat case_match; try discriminate; congruence.
Qed.

End Frames.

(** ** Objects that stay alive *)

Lemma grown_snoc new : forall tr e,
  grown tr new -> numbered (tr ++ new) e -> no_destroy e = true -> grown tr (new ++ [e]).
Proof.
  induction new as [|e0 new IH]; intros tr e Hg Hn Hd; simpl in *.
  - rewrite app_nil_r in Hn. by repeat split.
  - destruct Hg as (Hn0 & Hd0 & Hg). repeat split; [done | done |].
    apply IH; [done | | done]. by rewrite <- app_assoc.
Qed.

Lemma grown_app new1 : forall tr new2,
  grown tr new1 -> grown (tr ++ new1) new2 -> grown tr (new1 ++ new2).
Proof.
  induction new1 as [|e new1 IH]; intros tr new2 H1 H2; simpl in *.
  - by rewrite app_nil_r in H2.
  - destruct H1 as (Hn & Hd & H1). repeat split; [done | done |].
    apply IH; [done |]. by rewrite <- app_assoc.
Qed.

Lemma grows_refl s : grows s s.
Proof. exists []. by rewrite app_nil_r. Qed.

Lemma grows_log s s' e :
  grows s s' -> numbered (calls s') e -> no_destroy e = true -> grows s (log e s').
Proof.
  intros (new & Hc & Hg) Hn Hd. exists (new ++ [e]). simpl. rewrite Hc, app_assoc.
  split; [done |]. apply grown_snoc; [done | by rewrite <- Hc | done].
Qed.

Lemma grows_with_self s s' f : grows s s' -> grows s (with_self f s').
Proof. exact id. Qed.

Lemma grows_pop_answer s s' : grows s s' -> grows s (pop_answer s').
Proof. exact id. Qed.

Lemma grows_trans s1 s2 s3 : grows s1 s2 -> grows s2 s3 -> grows s1 s3.
Proof.
  intros (n1 & H1 & G1) (n2 & H2 & G2). exists (n1 ++ n2).
  rewrite H2, H1, app_assoc. split; [done |]. apply grown_app; [done | by rewrite <- H1].
Qed.

Lemma numbered_nothing tr e : created_by e = [] -> numbered tr e.
Proof. unfold numbered. by intros ->. Qed.

Lemma numbered_create tr k parent r :
  numbered tr (EvCreate k parent r (if is_success r then S (issued tr) else VK_NULL_HANDLE)).
Proof. unfold numbered. simpl. by destruct (is_success r). Qed.

Lemma lookup_foldr_insert_ne {V} (hs : list Handle) (x : V) (m : gmap Handle V) h :
  ~ In h hs -> foldr (fun h acc => <[h := x]> acc) m hs !! h = m !! h.
Proof.
  induction hs as [|h0 hs IH]; simpl; [done |]. intros Hn.
  rewrite lookup_insert_ne by tauto. apply IH. tauto.
Qed.

Lemma lookup_foldr_insert {V} (hs : list Handle) (x : V) (m : gmap Handle V) h :
  In h hs -> foldr (fun h acc => <[h := x]> acc) m hs !! h = Some x.
Proof.
  induction hs as [|h0 hs IH]; simpl; [done |]. intros [-> | Hin].
  - by rewrite lookup_insert_eq.
  - destruct (decide (h0 = h)) as [-> | Hne].
    + by rewrite lookup_insert_eq.
    + rewrite lookup_insert_ne by done. by apply IH.
Qed.

(** A call that destroys nothing and returns new handles leaves the older
    objects as they are. *)
Lemma live_numbered tr e h :
  numbered tr e -> no_destroy e = true -> h <= issued tr ->
  live (tr ++ [e]) !! h = live tr !! h.
Proof.
  unfold numbered. intros Hn Hd Hh. rewrite live_snoc.
  destruct e; simpl in *; try done; destruct (is_success r); try done.
  - injection Hn as ->. rewrite lookup_insert_ne; [done | lia].
  - injection Hn as ->. rewrite lookup_insert_ne; [done | lia].
  - apply lookup_foldr_insert_ne. rewrite Hn. rewrite in_seq. lia.
Qed.

Lemma issued_le_snoc tr e : issued tr <= issued (tr ++ [e]).
Proof. rewrite issued_snoc. lia. Qed.

Lemma held_numbered k v tr e :
  numbered tr e -> no_destroy e = true -> held k v tr -> held k v (tr ++ [e]).
Proof.
  intros Hn Hd [Hnd Hall]. split; [done |]. intros h Hh.
  destruct (Hall h Hh) as [Hle Hlive]. split.
  - pose proof (issued_le_snoc tr e). lia.
  - by rewrite live_numbered.
Qed.

Lemma held_grown k v new : forall tr, grown tr new -> held k v tr -> held k v (tr ++ new).
Proof.
  induction new as [|e new IH]; intros tr Hg Hh; simpl in Hg.
  - by rewrite app_nil_r.
  - destruct Hg as (Hn & Hd & Hg).
    replace (tr ++ e :: new) with ((tr ++ [e]) ++ new) by by rewrite <- app_assoc.
    apply IH; [done |]. by apply held_numbered.
Qed.

Lemma held_grows k v s s' : grows s s' -> held k v (calls s) -> held k v (calls s').
Proof. intros (new & -> & Hg). by apply held_grown. Qed.

Lemma held_nil k tr : held k [] tr.
Proof. split; [constructor | by intros ? []]. Qed.

Lemma held_perm k v v' tr : v ≡ₚ v' -> held k v tr -> held k v' tr.
Proof.
  intros Hp [Hnd Hall]. split; [by rewrite <- Hp |].
  intros h Hh. apply Hall. apply list_elem_of_In. rewrite Hp. by apply list_elem_of_In.
Qed.

(** One more object of the kind. *)
Lemma held_create k v tr parent r :
  is_success r = true -> held k v tr ->
  held k (v ++ [S (issued tr)]) (tr ++ [EvCreate k parent r (S (issued tr))]).
Proof.
  intros Hr [Hnd Hall]. split.
  - apply NoDup_app. split; [done |]. split; [| apply NoDup_singleton].
    intros h Hh%list_elem_of_In Hc%list_elem_of_In. destruct Hc as [<- | []].
    destruct (Hall _ Hh). lia.
  - intros h Hh. rewrite issued_snoc, live_snoc. simpl. rewrite Hr. simpl.
    apply in_app_iff in Hh as [Hh | [<- | []]].
    + destruct (Hall h Hh) as [Hle Hlive]. split; [lia |].
      rewrite lookup_insert_ne; [done | lia].
    + split; [lia |]. exists parent. by rewrite lookup_insert_eq.
Qed.

Lemma held_create_fence v tr flags r :
  is_success r = true -> held Fence v tr ->
  held Fence (v ++ [S (issued tr)]) (tr ++ [EvCreateFence flags r (S (issued tr))]).
Proof.
  intros Hr [Hnd Hall]. split.
  - apply NoDup_app. split; [done |]. split; [| apply NoDup_singleton].
    intros h Hh%list_elem_of_In Hc%list_elem_of_In. destruct Hc as [<- | []].
    destruct (Hall _ Hh). lia.
  - intros h Hh. rewrite issued_snoc, live_snoc. simpl. rewrite Hr. simpl.
    apply in_app_iff in Hh as [Hh | [<- | []]].
    + destruct (Hall h Hh) as [Hle Hlive]. split; [lia |].
      rewrite lookup_insert_ne; [done | lia].
    + split; [lia |]. exists VK_NULL_HANDLE. by rewrite lookup_insert_eq.
Qed.

Lemma held_allocate tr pool r count :
  is_success r = true ->
  held DescriptorSet (seq (S (issued tr)) count)
       (tr ++ [EvAllocateDescriptorSets pool r (seq (S (issued tr)) count)]).
Proof.
  intros Hr. split; [apply NoDup_seq |].
  intros h Hh. rewrite issued_snoc, live_snoc. simpl. rewrite Hr, length_seq.
  split; [apply in_seq in Hh; lia |].
  exists pool. by apply lookup_foldr_insert.
Qed.

Lemma take_S_insert {A} (v : list A) i h :
  i < length v -> take (S i) (<[i := h]> v) = take i v ++ [h].
Proof.
  intros Hi. rewrite (take_S_r _ _ h) by (by apply list_lookup_insert_eq).
  by rewrite take_insert_ge.
Qed.

Ltac numbered_tac :=
  unfold numbered; cbn [created_by];
  repeat match goal with H : is_success _ = _ |- _ => rewrite H end;
  cbn [length]; rewrite ?length_seq; reflexivity.

Ltac grows_tac :=
  repeat lazymatch goal with
    | |- grows _ (with_self _ _) => apply grows_with_self
    | |- grows _ (pop_answer _) => apply grows_pop_answer
    | |- grows _ (log _ _) => apply grows_log; [| solve [numbered_tac] | reflexivity]
    | |- grows ?s ?s => apply grows_refl
    | |- grows _ _ => eassumption
    end.

Lemma settled_refl fs s : settled fs s s.
Proof. split; [apply grows_refl | by apply Forall_forall]. Qed.

Ltac settled_leaf :=
  idtac;
  lazymatch goal with
  | H : settled ?fs ?s0 ?s1 |- settled ?fs ?s0 ?t =>
      lazymatch t with
      | context [s1] =>
          let Hg := fresh in
          let Hf := fresh in
          destruct H as [Hg Hf]; split;
          [ solve [grows_tac]
          | repeat match goal with
                   | Hx : Forall _ (_ :: _) |- _ => apply Forall_cons in Hx as [? Hx]
                   end;
            repeat constructor; proj_simpl; assumption ]
      end
  end.

Ltac settled_run :=
  idtac;
  lazymatch goal with
  | H : settled ?fs ?s0 _ |- _ => inv_run (settled fs s0) settled_leaf no_call
  end.

Lemma createUniformBuffers_settles n :
  Settles [commandBuffers] (createUniformBuffers n).
Proof. intros s0 s H. unfold createUniformBuffers. settled_run. Qed.

Lemma createDescriptorPool_settles :
  Settles [commandBuffers; uniformBuffers; uniformBuffersMemory] createDescriptorPool.
Proof. intros s0 s H. unfold createDescriptorPool. settled_run. Qed.

Lemma createDescriptorSets_settles n :
  Settles [commandBuffers; uniformBuffers; uniformBuffersMemory] (createDescriptorSets n).
Proof. intros s0 s H. unfold createDescriptorSets. settled_run. Qed.

Lemma createSyncObjects_settles n :
  Settles [commandBuffers; uniformBuffers; uniformBuffersMemory; descriptorSets]
          (createSyncObjects n).
Proof. intros s0 s H. unfold createSyncObjects. settled_run. Qed.

Lemma grows_snoc s s' e :
  calls s' = calls s ++ [e] -> numbered (calls s) e -> no_destroy e = true -> grows s s'.
Proof. intros Hc Hn Hd. exists [e]. split; [done |]. by repeat split. Qed.

Lemma held_snoc k v s s' e :
  calls s' = calls s ++ [e] -> numbered (calls s) e -> no_destroy e = true ->
  held k v (calls s) -> held k v (calls s').
Proof. intros -> Hn Hd. by apply held_numbered. Qed.

Lemma numbered_created tr k parent r :
  is_success r = true -> numbered tr (EvCreate k parent r (S (issued tr))).
Proof. unfold numbered. simpl. by intros ->. Qed.

Lemma numbered_created_fence tr flags r :
  is_success r = true -> numbered tr (EvCreateFence flags r (S (issued tr))).
Proof. unfold numbered. simpl. by intros ->. Qed.

Lemma post_vkAllocateDescriptorSets pool count (Q : VkResult -> St -> Prop) B s :
  (forall r s', is_success r = true ->
     calls s' = calls s ++
       [EvAllocateDescriptorSets pool r (seq (S (issued (calls s))) count)] ->
     self s' = set_descriptorSets (seq (S (issued (calls s))) count ++
                                   drop count (descriptorSets (self s))) (self s) ->
     Q r s') ->
  (forall r s', is_success r = false ->
     calls s' = calls s ++ [EvAllocateDescriptorSets pool r []] ->
     self s' = self s ->
     Q r s') ->
  post (vkAllocateDescriptorSets pool count) Q B s.
Proof.
  intros Hok Hfail. unfold vkAllocateDescriptorSets.
  repeat post_step; [by apply Hok | by apply Hfail].
Qed.

Section Holdings.

Variable MAX_FRAMES_IN_FLIGHT : nat.

Variable env : Env.

Lemma createCommandBuffers_held s :
  wp (createCommandBuffers MAX_FRAMES_IN_FLIGHT)
     (fun ok s' => ok = true ->
        held CommandBuffer (commandBuffers (self s')) (calls s')) s.
Proof.
  unfold createCommandBuffers, wp. apply post_bind, post_modify.
  eapply post_mono;
    [ apply (post_for_upto
        (fun i s' =>
           length (commandBuffers (self s')) = MAX_FRAMES_IN_FLIGHT /\
           held CommandBuffer (take i (commandBuffers (self s'))) (calls s'))
        (fun _ => True) (fun _ => False)) | | auto ].
  - split; [simpl; by rewrite length_resize | rewrite take_0; apply held_nil].
  - intros i s1 Hi (Hlen & Hheld).
    apply post_bind, post_this.
    apply post_bind, post_vkCreateInto; intros r s2 Hr Hc2 Hp2; [| by post_run].
    post_step. apply post_ret. rewrite Hp2, Hc2. proj_simpl.
    unfold Handle in *. split; [by rewrite length_insert |].
    rewrite take_S_insert by lia. by apply held_create.
  - intros [|] s' H; [| done]. intros _. destruct H as (Hlen & Hheld).
    simpl in Hheld. unfold Handle in *. by rewrite take_ge in Hheld by lia.
Qed.

Lemma createUniformBuffers_held s :
  wp (createUniformBuffers MAX_FRAMES_IN_FLIGHT)
     (fun ok s' => ok = true ->
        held Buffer (uniformBuffers (self s')) (calls s') /\
        held DeviceMemory (uniformBuffersMemory (self s')) (calls s')) s.
Proof.
  unfold createUniformBuffers, wp. do 3 (apply post_bind, post_modify).
  eapply post_mono;
    [ apply (post_for_upto
        (fun i s' =>
           length (uniformBuffers (self s')) = MAX_FRAMES_IN_FLIGHT /\
           length (uniformBuffersMemory (self s')) = MAX_FRAMES_IN_FLIGHT /\
           held Buffer (take i (uniformBuffers (self s'))) (calls s') /\
           held DeviceMemory (take i (uniformBuffersMemory (self s'))) (calls s'))
        (fun _ => True) (fun _ => False)) | | auto ].
  - simpl. rewrite !length_resize, !take_0. auto using held_nil.
  - intros i s1 Hi (Hlb & Hlm & Hb & Hm).
    apply post_bind, post_vkCreateInto; intros r1 s2 Hr1 Hc2 Hp2; [| by post_run].
    post_step. apply post_bind, post_this. apply post_bind, post_emit.
    apply post_bind, post_vkCreateInto; intros r2 s3 Hr2 Hc3 Hp3; [| by post_run].
    post_step. apply post_bind, post_this.
    assert (Hb2 : held Buffer (take (S i) (uniformBuffers (self s2))) (calls s2)).
    { rewrite Hp2, Hc2. proj_simpl. unfold Handle in *.
      rewrite take_S_insert by lia. by apply held_create. }
    assert (Hm2 : held DeviceMemory (take i (uniformBuffersMemory (self s2))) (calls s2)).
    { rewrite Hp2. proj_simpl. eapply held_snoc; eauto using numbered_created. }
    assert (Hb3 : held Buffer (take (S i) (uniformBuffers (self s3))) (calls s3)).
    { rewrite Hp3. proj_simpl.
      eapply held_snoc; [exact Hc3 | by apply numbered_created | done |].
      apply held_numbered; [by apply numbered_nothing | done | done]. }
    assert (Hm3 : held DeviceMemory (take (S i) (uniformBuffersMemory (self s3))) (calls s3)).
    { rewrite Hp3, Hc3. proj_simpl. unfold Handle in *.
      rewrite take_S_insert by (rewrite Hp2; proj_simpl; lia).
      apply held_create; [done |].
      apply held_numbered; [by apply numbered_nothing | done | done]. }
    assert (Hl3 : length (uniformBuffers (self s3)) = MAX_FRAMES_IN_FLIGHT /\
                  length (uniformBuffersMemory (self s3)) = MAX_FRAMES_IN_FLIGHT).
    { rewrite Hp3. proj_simpl. rewrite Hp2. proj_simpl. by rewrite !length_insert. }
    unfold vkCall.
    repeat post_step;
      (proj_simpl; split; [tauto |]; split; [tauto |]; split;
       repeat (apply held_numbered; [by apply numbered_nothing | done |]); done).
  - intros [|] s' H; [| done]. intros _. destruct H as (Hlb & Hlm & Hb & Hm).
    simpl in Hb, Hm. unfold Handle in *. rewrite take_ge in Hb, Hm by lia. by split.
Qed.

Lemma createDescriptorSets_held s :
  wp (createDescriptorSets MAX_FRAMES_IN_FLIGHT)
     (fun ok s' => ok = true ->
        held DescriptorSet (descriptorSets (self s')) (calls s')) s.
Proof.
  unfold createDescriptorSets, wp. apply post_bind, post_modify.
  apply post_bind, post_this.
  apply post_bind, post_vkAllocateDescriptorSets; intros r s2 Hr Hc2 Hp2; [| by post_run].
  post_step.
  assert (H2 : held DescriptorSet (descriptorSets (self s2)) (calls s2)).
  { rewrite Hp2, Hc2. proj_simpl.
    rewrite drop_ge by (by rewrite length_resize). rewrite app_nil_r.
    by apply held_allocate. }
  apply (post_for_each_inv
           (fun s' => held DescriptorSet (descriptorSets (self s')) (calls s')));
    [done | |].
  - intros i s3 H3. apply post_bind, post_this. apply post_emit. proj_simpl.
    apply held_numbered; [by apply numbered_nothing | done | done].
  - intros s3 H3. by apply post_ret.
Qed.

Lemma createSyncObjects_held s :
  wp (createSyncObjects MAX_FRAMES_IN_FLIGHT)
     (fun ok s' => ok = true ->
        held Semaphore (imageAvailableSemaphores (self s') ++
                        renderFinishedSemaphores (self s')) (calls s') /\
        held Fence (inFlightFences (self s')) (calls s')) s.
Proof.
  unfold createSyncObjects, wp. do 3 (apply post_bind, post_modify).
  eapply post_mono;
    [ apply (post_for_upto
        (fun i s' =>
           length (imageAvailableSemaphores (self s')) = MAX_FRAMES_IN_FLIGHT /\
           length (renderFinishedSemaphores (self s')) = MAX_FRAMES_IN_FLIGHT /\
           length (inFlightFences (self s')) = MAX_FRAMES_IN_FLIGHT /\
           held Semaphore (take i (imageAvailableSemaphores (self s')) ++
                           take i (renderFinishedSemaphores (self s'))) (calls s') /\
           held Fence (take i (inFlightFences (self s'))) (calls s'))
        (fun _ => True) (fun _ => False)) | | auto ].
  - simpl. rewrite !length_resize, !take_0. auto 10 using held_nil.
  - intros i s1 Hi (Hla & Hlr & Hlf & Hsem & Hfen).
    apply post_bind, post_vkCreateInto; intros r1 s2 Hr1 Hc2 Hp2; [| by post_run].
    post_step.
    apply post_bind, post_vkCreateInto; intros r2 s3 Hr2 Hc3 Hp3; [| by post_run].
    post_step.
    apply post_bind, post_vkCreateFenceInto; intros r3 s4 Hr3 Hc4 Hp4; [| by post_run].
    post_step. apply post_ret.
    rewrite Hp4, Hp3, Hp2. proj_simpl. unfold Handle in *.
    rewrite !length_insert, !take_S_insert by lia.
    split; [done |]. split; [done |]. split; [done |]. split.
    + eapply held_snoc; [exact Hc4 | by apply numbered_created_fence | done |].
      eapply held_perm;
        [| rewrite Hc3; apply held_create; [done |];
           rewrite Hc2; apply held_create; [done | exact Hsem] ].
      rewrite <- !app_assoc. apply Permutation_app_head, Permutation_app_swap_app.
    + rewrite Hc4. apply held_create_fence; [done |].
      eapply held_snoc; [exact Hc3 | by apply numbered_created | done |].
      eapply held_snoc; [exact Hc2 | by apply numbered_created | done | done].
  - intros [|] s' H; [| done]. intros _. destruct H as (Hla & Hlr & Hlf & Hsem & Hfen).
    simpl in Hsem, Hfen. unfold Handle in *.
    do 2 rewrite take_ge in Hsem by lia. rewrite take_ge in Hfen by lia. by split.
Qed.

End Holdings.

Lemma and_then_seq (P Q : St -> Prop) (a b : M bool) s :
  wp a (fun ok s' => ok = true -> P s') s ->
  (forall s', P s' -> wp b (fun ok s'' => ok = true -> Q s'') s') ->
  wp (a &&> b) (fun ok s'' => ok = true -> Q s'') s.
Proof.
  intros Ha Hb. unfold and_then, wp. apply post_bind.
  eapply post_mono; [exact Ha | | auto].
  intros [|] s' H'; simpl; [by apply Hb, H' | by apply post_ret].
Qed.

Lemma settles_from {A} fs (c : M A) s :
  Settles fs c -> wp c (fun _ s' => settled fs s s') s.
Proof. intros Hc. apply Hc, settled_refl. Qed.

(** What a later step finds held is still held after it. *)
Lemma held_settled k f fs s s' :
  settled fs s s' -> In f fs -> held k (f (self s)) (calls s) ->
  held k (f (self s')) (calls s').
Proof.
  intros [Hg Hf] Hin Hh. rewrite Forall_forall in Hf.
  rewrite (Hf f) by by apply list_elem_of_In. by eapply held_grows.
Qed.

Section HoldingsOfInitialize.

Variable MAX_FRAMES_IN_FLIGHT : nat.

Variable env : Env.

Lemma build_all_held s :
  wp (build_all MAX_FRAMES_IN_FLIGHT env)
     (fun ok s' => ok = true -> slots_held (self s') (calls s')) s.
Proof.
  unfold build_all.
  do 5 (apply and_then_right;
        [ apply (builds_returns MAX_FRAMES_IN_FLIGHT env); eauto with build_steps
        | intros ? ]).
  apply (and_then_seq (fun s' => held CommandBuffer (commandBuffers (self s')) (calls s')));
    [apply createCommandBuffers_held | intros s6 H6].
  apply (and_then_seq uniforms_held).
  { eapply wp_mono;
      [ apply wp_conj;
          [ apply createUniformBuffers_held
          | apply (settles_from _ _ _ (createUniformBuffers_settles MAX_FRAMES_IN_FLIGHT)) ]
      | ].
    intros ok s7 [Hnew Hset] Hok. split; [| by apply Hnew].
    apply (held_settled _ commandBuffers _ _ _ Hset); [simpl; tauto | done]. }
  intros s7 (Hc7 & Hb7 & Hm7).
  apply (and_then_seq uniforms_held).
  { eapply wp_mono; [apply (settles_from _ _ _ createDescriptorPool_settles) |].
    intros ok s8 Hset _. cbv beta in Hset. split; [| split].
    - apply (held_settled _ commandBuffers _ _ _ Hset); [simpl; tauto | done].
    - apply (held_settled _ uniformBuffers _ _ _ Hset); [simpl; tauto | done].
    - apply (held_settled _ uniformBuffersMemory _ _ _ Hset); [simpl; tauto | done]. }
  intros s8 (Hc8 & Hb8 & Hm8).
  apply (and_then_seq
           (fun s' => uniforms_held s' /\
                      held DescriptorSet (descriptorSets (self s')) (calls s'))).
  { eapply wp_mono;
      [ apply wp_conj;
          [ apply createDescriptorSets_held
          | apply (settles_from _ _ _ (createDescriptorSets_settles MAX_FRAMES_IN_FLIGHT)) ]
      | ].
    intros ok s9 [Hnew Hset] Hok. split; [| by apply Hnew]. split; [| split].
    - apply (held_settled _ commandBuffers _ _ _ Hset); [simpl; tauto | done].
    - apply (held_settled _ uniformBuffers _ _ _ Hset); [simpl; tauto | done].
    - apply (held_settled _ uniformBuffersMemory _ _ _ Hset); [simpl; tauto | done]. }
  intros s9 ((Hc9 & Hb9 & Hm9) & Hd9).
  apply (and_then_seq (fun s' => slots_held (self s') (calls s'))).
  { eapply wp_mono;
      [ apply wp_conj;
          [ apply createSyncObjects_held
          | apply (settles_from _ _ _ (createSyncObjects_settles MAX_FRAMES_IN_FLIGHT)) ]
      | ].
    intros ok s10 [Hnew Hset] Hok. destruct (Hnew Hok) as [Hsem Hfen].
    unfold slots_held. split; [| split; [| split; [| split; [| by split]]]].
    - apply (held_settled _ commandBuffers _ _ _ Hset); [simpl; tauto | done].
    - apply (held_settled _ uniformBuffers _ _ _ Hset); [simpl; tauto | done].
    - apply (held_settled _ uniformBuffersMemory _ _ _ Hset); [simpl; tauto | done].
    - apply (held_settled _ descriptorSets _ _ _ Hset); [simpl; tauto | done]. }
  intros s10 H10. by apply post_ret.
Qed.

Lemma initialize_held s :
  wp (initialize MAX_FRAMES_IN_FLIGHT env)
     (fun ok s' => ok = true -> slots_held (self s') (calls s')) s.
Proof.
  rewrite initialize_unfold. unfold wp.
  apply post_bind, post_this. post_step; [by post_run |].
  apply post_bind. eapply post_mono; [apply build_all_held | | auto].
  intros [|] s1 H; cbn [negb]; [| by apply post_ret].
  apply post_bind, post_modify, post_ret. intros _. by apply H.
Qed.

End HoldingsOfInitialize.

(** ** Consequences used more than once *)

Ltac case_results :=
  repeat match goal with
  | H : context [(?r =? ?c)%Z] |- _ => destruct (Z.eqb_spec r c); simpl in H; try discriminate
  | |- context [(?r =? ?c)%Z] => destruct (Z.eqb_spec r c); simpl; try discriminate
  end.

Lemma post_final {A} (c : M A) (P : St -> Prop) s :
  post c (fun _ s' => P s') P s -> P (final (c s)).
Proof. unfold post. by destruct (c s). Qed.

Section InitializeReturns.

Variable MAX_FRAMES_IN_FLIGHT : nat.

Variable env : Env.

(** [initialize] runs the build sequence and sets [READY] when it
    succeeded. *)
Lemma initialize_runs_build s :
  state (self s) = UNINITIALIZED ->
  exists ok s1,
    build_all MAX_FRAMES_IN_FLIGHT env s = Returns ok s1 /\
    builds MAX_FRAMES_IN_FLIGHT env s s1 /\
    initialize MAX_FRAMES_IN_FLIGHT env s =
      Returns ok (if ok then with_self (set_state READY) s1 else s1).
Proof.
  intros Hst.
  destruct (proj1 (wp_returns _ _ _)
              (build_all_builds MAX_FRAMES_IN_FLIGHT env s s (builds_refl _ _ s)))
    as (ok & s1 & Hrun & Hb).
  exists ok, s1. split; [done |]. split; [done |].
  rewrite initialize_unfold. unfold bind at 1, this.
  rewrite bool_decide_true by done. cbn [negb]. unfold bind at 1. rewrite Hrun.
  by destruct ok.
Qed.

Lemma initialize_returns s :
  state (self s) = UNINITIALIZED ->
  exists ok s',
    initialize MAX_FRAMES_IN_FLIGHT env s = Returns ok s' /\
    state (self s') = (if ok then READY else UNINITIALIZED) /\
    (ok = true ->
       slots_sized MAX_FRAMES_IN_FLIGHT (self s') /\
       length (framebuffers (self s')) = length (sc_images (swapChain env))).
Proof.
  intros Hst.
  destruct (proj1 (wp_returns _ _ _) (initialize_summary MAX_FRAMES_IN_FLIGHT env s Hst))
    as (ok & s' & Hrun & s1 & [Hshape _] & -> & Hsized).
  exists ok, (if ok then with_self (set_state READY) s1 else s1).
  split; [done |]. destruct Hshape as (Hstate & _).
  destruct ok; simpl; [split; [done |]; intros _; by apply Hsized |].
  split; [congruence | discriminate].
Qed.

End InitializeReturns.

(** * The specification, statement by statement *)

(** ** C1: a failed build step *)

Section InitializeFailure.

Variable MAX_FRAMES_IN_FLIGHT : nat.

Variable env : Env.

Lemma owned_no_shader p h : ~ In (ShaderModule, h) (owned p).
Proof.
  unfold owned. rewrite !in_app_iff, !in_map_iff. simpl.
  intros H. repeat destruct H as [H | H]; try done; by destruct H as (? & [=] & _).
Qed.


End InitializeFailure.



(** ** C2: what leads to [RECREATING] *)

Section Triggers.

Variable MAX_FRAMES_IN_FLIGHT : nat.

Variable env : Env.

Lemma beginFrame_trigger s :
  post (beginFrame env) (fun _ s' => recreating_by OpBeginFrame s s')
       (recreating_by OpBeginFrame s) s.
Proof.
  unfold beginFrame. apply post_bind, post_this. post_step; [post_run; by left |].
  apply post_bind, post_vkWaitForFences. intros s1 Hc1 Hp1 _ _.
  split; [intros _ | intros _; left; by rewrite Hp1].
  apply post_bind, post_vkAcquireNextImageKHR.
  intros r i s2 _ Hc2 Hsame.
  destruct (same_members_fields _ _ Hsame) as (_ & _ & Hst2 & _).
  post_step.
  - post_run. right. eexists _, _. proj_simpl. rewrite Hc2, Hc1, <- app_assoc.
    split; [reflexivity |]. simpl. by apply Z.eqb_eq.
  - unfold updateUniformBuffer, vkCall, setError.
    repeat post_step; left; proj_simpl; by rewrite Hst2, Hp1.
Qed.

Lemma endFrame_trigger s :
  wp (endFrame MAX_FRAMES_IN_FLIGHT) (fun _ s' => recreating_by OpEndFrame s s') s.
Proof.
  unfold endFrame, vkCall, setError. repeat post_step; try (by left).
  right. eexists [_; _; _], _. proj_simpl. rewrite <- !app_assoc.
  split; [reflexivity |]. simpl. unfold stale_surface. done.
Qed.

Lemma beginFrame_stale_acquisition s :
  state (self s) = READY ->
  fence_status (calls s) !! vec_at (inFlightFences (self s)) (currentFrame (self s))
    <> Some Unsignaled ->
  stale_surface (next_answer s) = true ->
  (next_answer s = VK_ERROR_OUT_OF_DATE_KHR \/
   nonnull (vec_at (uniformBuffersMapped (self s)) (currentFrame (self s))) = true) ->
  wp (beginFrame env)
     (fun ok s' =>
        (lastError (self s') = lastError (self s) \/
         lastError (self s') = "Failed to begin recording command buffer"%string) /\
        (next_answer s = VK_ERROR_OUT_OF_DATE_KHR ->
           ok = false /\ state (self s') = RECREATING /\
           lastError (self s') = lastError (self s)) /\
        (ok = true -> lastError (self s') = lastError (self s))) s.
Proof.
  intros Hst Hwait Hstale Hgo. unfold beginFrame, wp.
  apply post_bind, post_this. rewrite bool_decide_true by done. cbn [negb].
  apply post_bind, post_vkWaitForFences. intros s1 Hc1 Hp1 Ha1 _.
  split; [intros _ | done].
  apply post_bind, post_vkAcquireNextImageKHR.
  intros r i s2 Hr Hc2 Hsame.
  destruct (same_members_fields _ _ Hsame) as (_ & Hcf2 & _ & Herr2 & _).
  destruct (same_members_mapped _ _ Hsame) as (Hmap2 & _).
  assert (Hr' : r = next_answer s).
  { rewrite Hr. unfold next_answer. by rewrite Ha1. }
  rewrite <- Hr' in *. clear Hr Hr'. unfold stale_surface in Hstale.
  post_step.
  - post_run. proj_simpl. rewrite Herr2, Hp1. by repeat split; auto.
  - assert (Hsub : (r =? VK_SUBOPTIMAL_KHR)%Z = true).
    { by destruct (r =? VK_ERROR_OUT_OF_DATE_KHR)%Z. }
    rewrite Hsub, andb_false_r.
    assert (Hnot : r <> VK_ERROR_OUT_OF_DATE_KHR).
    { intros ->. discriminate. }
    destruct Hgo as [Hood | Hmapped]; [done |].
    unfold updateUniformBuffer, vkCall, setError.
    repeat post_step; proj_simpl; mapped_simpl;
      try (rewrite Hmap2, Hcf2, Hp1, Hmapped in *; discriminate);
      rewrite ?Herr2, ?Hp1;
      (split; [auto | split; [by intros ? | done]]).
Qed.

Lemma endFrame_stale_presentation s :
  state (self s) = READY ->
  is_success (answer_at 0 s) = true ->
  is_success (answer_at 1 s) = true ->
  stale_surface (answer_at 2 s) = true ->
  wp (endFrame MAX_FRAMES_IN_FLIGHT)
     (fun ok s' =>
        ok = true /\ state (self s') = RECREATING /\
        lastError (self s') = lastError (self s)) s.
Proof.
  unfold answer_at, endFrame, failed, is_success, stale_surface.
  destruct s as [p tr ans img]; simpl. intros Hst H0 H1 H2.
  post_run; simpl in *.
  all: destruct (bool_decide (state p = READY)) eqn:E;
    [| by apply bool_decide_eq_false in E]; simpl in *; try discriminate.
  all: destruct ans as [|a1 [|a2 [|a3 rest]]]; simpl in *; try discriminate.
  all: unfold next_answer in *; simpl in *.
  all: case_results; try done.
Qed.

(** C2.  The state becomes [RECREATING] only in [beginFrame], right after
    an acquisition that answered out-of-date, or in [endFrame], right after a
    presentation that answered out-of-date or suboptimal; no other operation
    and no other result leads there.  And neither answer is reported as an
    error: [beginFrame] leaves the error message alone on an out-of-date
    acquisition and goes on with the frame on a suboptimal one (the only
    message it can then set is that of a failed recording); [endFrame]
    reports success on a stale presentation.  Going on with the frame needs
    what any frame needs: the uniform block of the slot mapped, for the
    write of [updateUniformBuffer], and a framebuffer for the image the
    driver hands out. *)
Theorem stale_surface_only_trigger s :
  (forall op,
     state (self s) <> RECREATING ->
     state (self (run_op MAX_FRAMES_IN_FLIGHT env op s)) = RECREATING ->
     exists earlier e,
       calls (run_op MAX_FRAMES_IN_FLIGHT env op s) = calls s ++ earlier ++ [e] /\
       stale_report op e) /\
  (state (self s) = READY ->
   fence_status (calls s) !! vec_at (inFlightFences (self s)) (currentFrame (self s))
     <> Some Unsignaled ->
   stale_surface (next_answer s) = true ->
   (next_answer s = VK_ERROR_OUT_OF_DATE_KHR \/
    (nonnull (vec_at (uniformBuffersMapped (self s)) (currentFrame (self s))) = true /\
     next_image s < length (framebuffers (self s)))) ->
   exists ok s',
     beginFrame env s = Returns ok s' /\
     (lastError (self s') = lastError (self s) \/
      lastError (self s') = "Failed to begin recording command buffer"%string) /\
     (next_answer s = VK_ERROR_OUT_OF_DATE_KHR ->
        ok = false /\ state (self s') = RECREATING /\
        lastError (self s') = lastError (self s)) /\
     (ok = true -> lastError (self s') = lastError (self s))) /\
  (state (self s) = READY ->
   is_success (answer_at 0 s) = true ->
   is_success (answer_at 1 s) = true ->
   stale_surface (answer_at 2 s) = true ->
   exists s',
     endFrame MAX_FRAMES_IN_FLIGHT s = Returns true s' /\
     state (self s') = RECREATING /\
     lastError (self s') = lastError (self s)).
Proof.
  split; [| split].
  - intros op Hnot Hrec.
    assert (Hby : recreating_by op s (run_op MAX_FRAMES_IN_FLIGHT env op s)).
    { destruct op; unfold run_op.
      - left. destruct (decide (state (self s) = UNINITIALIZED)) as [Hu | Hu].
        + destruct (initialize_returns MAX_FRAMES_IN_FLIGHT env s Hu) as (ok & s' & Hrun & Hstate & _).
          exfalso. unfold run_op in Hrec. rewrite Hrun in Hrec. simpl in Hrec.
          destruct ok; congruence.
        + unfold initialize, bind, this. by rewrite bool_decide_false.
      - exfalso. unfold run_op in Hrec. by rewrite cleanup_spec in Hrec.
      - apply (post_final (beginFrame env) (recreating_by OpBeginFrame s)).
        apply beginFrame_trigger.
      - apply (post_final (endFrame MAX_FRAMES_IN_FLIGHT) (recreating_by OpEndFrame s)).
        apply wp_post, endFrame_trigger.
      - left. unfold recreateIfNeeded, bind, this. by rewrite bool_decide_false.
      - left. by rewrite waitIdle_spec. }
    destruct Hby as [Hsame | Hby]; [congruence | exact Hby].
  - intros Hst Hwait Hstale Hgo.
    assert (Hgo' : next_answer s = VK_ERROR_OUT_OF_DATE_KHR \/
                   nonnull (vec_at (uniformBuffersMapped (self s)) (currentFrame (self s)))
                   = true) by tauto.
    destruct (proj1 (wp_returns _ _ _)
                (beginFrame_stale_acquisition s Hst Hwait Hstale Hgo'))
      as (ok & s' & Hrun & H). by exists ok, s'.
  - intros Hst H0 H1 H2.
    destruct (proj1 (wp_returns _ _ _) (endFrame_stale_presentation s Hst H0 H1 H2))
      as (ok & s' & Hrun & -> & H). by exists s'.
Qed.

End Triggers.

(** On the sample machine: an out-of-date acquisition and a suboptimal
    presentation both lead to [RECREATING], and neither sets an error; a
    suboptimal acquisition is a frame like any other. *)
Lemma stale_surface_only_trigger_witness :
  (exists s',
     beginFrame sample_env (with_answers [VK_ERROR_OUT_OF_DATE_KHR] ready_machine)
       = Returns false s' /\
     state (self s') = RECREATING /\ lastError (self s') = ""%string) /\
  (exists s',
     beginFrame sample_env (with_answers [VK_SUBOPTIMAL_KHR] ready_machine)
       = Returns true s' /\
     state (self s') = READY /\ lastError (self s') = ""%string) /\
  (exists s',
     endFrame 2 (with_answers [VK_SUCCESS; VK_SUCCESS; VK_SUBOPTIMAL_KHR] ready_machine)
       = Returns true s' /\
     state (self s') = RECREATING /\ lastError (self s') = ""%string).
Proof.
  split; [| split].
  - destruct (stale_surface_only_trigger 2 sample_env
                (with_answers [VK_ERROR_OUT_OF_DATE_KHR] ready_machine))
      as (_ & Hbegin & _).
    destruct Hbegin as (ok & s' & Hrun & _ & Hood & _).
    + vm_compute. reflexivity.
    + vm_compute. discriminate.
    + vm_compute. reflexivity.
    + left. vm_compute. reflexivity.
    + destruct Hood as (-> & Hstate & Herr); [vm_compute; reflexivity |].
      exists s'. vm_compute in Hrun, Herr |- *. by repeat split.
  - destruct (stale_surface_only_trigger 2 sample_env
                (with_answers [VK_SUBOPTIMAL_KHR] ready_machine))
      as (_ & Hbegin & _).
    destruct Hbegin as (ok & s' & Hrun & _ & _ & _).
    + vm_compute. reflexivity.
    + vm_compute. discriminate.
    + vm_compute. reflexivity.
    + right. split; [vm_compute; reflexivity | vm_compute; lia].
    + vm_compute in Hrun. injection Hrun as <- <-.
      eexists. split; [vm_compute; reflexivity |]. by split; vm_compute.
  - destruct (stale_surface_only_trigger 2 sample_env
                (with_answers [VK_SUCCESS; VK_SUCCESS; VK_SUBOPTIMAL_KHR] ready_machine))
      as (_ & _ & Hend).
    destruct Hend as (s' & Hrun & Hstate & Herr); try (vm_compute; reflexivity).
    exists s'. vm_compute in Hrun, Herr |- *. by repeat split.
Defined.

(** ** C3: the slot index across [endFrame] *)

(** C3 (as amended).  With at least one slot (the remainder by zero is
    undefined in C++), [endFrame] moves the slot index from [i] to
    [(i + 1) mod N] exactly when it reports success: the state is [READY],
    recording ends, submission succeeds, and presentation answers success or
    a stale surface.  In every other case it reports failure and the slot
    index stays where it was. *)
Theorem endFrame_slot MAX_FRAMES_IN_FLIGHT s :
  0 < MAX_FRAMES_IN_FLIGHT ->
  exists ok s',
    endFrame MAX_FRAMES_IN_FLIGHT s = Returns ok s' /\
    ok = endFrame_succeeds s /\
    currentFrame (self s') =
      if ok then (currentFrame (self s) + 1) `mod` MAX_FRAMES_IN_FLIGHT
      else currentFrame (self s).
Proof.
  intros _. apply wp_returns.
  unfold endFrame_succeeds, answer_at, endFrame, failed, is_success, stale_surface.
  destruct s as [p tr ans img]; simpl.
  post_run; simpl in *.
  all: destruct (bool_decide (state p = READY)); simpl in *; try discriminate.
  all: destruct ans as [|a1 [|a2 [|a3 rest]]]; simpl in *; try discriminate.
  all: unfold next_answer in *; simpl in *.
  all: case_results; try done.
Qed.

(** After a successful frame on the sample machine the slot index goes from
    0 to 1. *)
Lemma endFrame_slot_witness :
  exists s',
    endFrame 2 ready_machine = Returns true s' /\
    currentFrame (self ready_machine) = 0 /\ currentFrame (self s') = 1.
Proof.
  destruct (endFrame_slot 2 ready_machine) as (ok & s' & Hrun & Hok & Hslot); [lia |].
  vm_compute in Hok. subst ok. exists s'.
  vm_compute in Hrun, Hslot |- *. by repeat split.
Defined.

(** C3 as stated fails.  When presentation fails for good (here: the device
    is lost), [endFrame] returns failure and the slot index, 0, is not moved
    to [(0 + 1) mod 2]. *)
Lemma endFrame_keeps_slot_on_failure :
  exists s',
    endFrame 2 (with_answers [VK_SUCCESS; VK_SUCCESS; VK_ERROR_DEVICE_LOST] ready_machine)
      = Returns false s' /\
    last (calls s') = Some (EvQueuePresent 22 0 VK_ERROR_DEVICE_LOST) /\
    currentFrame (self ready_machine) = 0 /\
    currentFrame (self s') = 0 /\
    (0 + 1) `mod` 2 = 1.
Proof. eexists. split; [vm_compute; reflexivity |]. vm_compute. by repeat split. Qed.

(** ** C4: [beginFrame] on an out-of-date surface *)

(** C4.  In state [READY], when the acquisition answers out-of-date,
    [beginFrame] sets the state to [RECREATING] and returns failure.  It has
    then made two calls, the wait on the fence of the slot and the
    acquisition: the fence is not reset (it is as the wait found it, or
    signaled by the work the wait was for), and no command buffer is reset
    or recorded to.  Nothing else of the object changes. *)
Theorem beginFrame_out_of_date env s :
  let p := self s in
  let fence := vec_at (inFlightFences p) (currentFrame p) in
  let semaphore := vec_at (imageAvailableSemaphores p) (currentFrame p) in
  let observed := fence_status (calls s) !! fence in
  state p = READY ->
  observed <> Some Unsignaled ->
  next_answer s = VK_ERROR_OUT_OF_DATE_KHR ->
  exists s',
    beginFrame env s = Returns false s' /\
    self s' = set_state RECREATING p /\
    calls s' = calls s ++ [EvWaitForFences fence observed;
                           EvAcquireNextImage semaphore VK_ERROR_OUT_OF_DATE_KHR 0] /\
    fence_status (calls s') = alter gpu_done fence (fence_status (calls s)) /\
    fence_status (calls s') !! fence <> Some Unsignaled /\
    recorders (calls s') = recorders (calls s).
Proof.
  intros p fence semaphore observed Hready Hwait Hood.
  assert (Hrun : beginFrame env s =
                 Returns false
                   (with_self (set_state RECREATING)
                      (log (EvAcquireNextImage semaphore VK_ERROR_OUT_OF_DATE_KHR 0)
                         (pop_answer (log (EvWaitForFences fence observed) s))))).
  { unfold beginFrame, bind, this. fold p. rewrite bool_decide_true by exact Hready. simpl.
    unfold vkWaitForFences. fold fence observed.
    destruct observed as [[| |]|] eqn:Hobs; try done;
      unfold vkAcquireNextImageKHR, bind, answer; simpl;
      change (next_answer (log _ s)) with (next_answer s); rewrite Hood; reflexivity. }
  eexists. split; [exact Hrun |]. simpl.
  assert (Hf : fence_status ((calls s ++ [EvWaitForFences fence observed]) ++
                 [EvAcquireNextImage semaphore VK_ERROR_OUT_OF_DATE_KHR 0])
               = alter gpu_done fence (fence_status (calls s))).
  { by rewrite !fence_status_snoc. }
  repeat split.
  - by rewrite <- app_assoc.
  - exact Hf.
  - rewrite Hf, lookup_alter_eq. fold observed.
    destruct observed as [[| |]|]; simpl; congruence.
  - by rewrite !recorders_snoc.
Qed.

(** On the sample machine, whose first fence is 23 and still signaled. *)
Lemma beginFrame_out_of_date_witness :
  exists s',
    beginFrame sample_env (with_answers [VK_ERROR_OUT_OF_DATE_KHR] ready_machine)
      = Returns false s' /\
    state (self s') = RECREATING /\
    calls s' = calls ready_machine ++
               [EvWaitForFences 23 (Some Signaled);
                EvAcquireNextImage 21 VK_ERROR_OUT_OF_DATE_KHR 0] /\
    recorders (calls s') = recorders (calls ready_machine).
Proof.
  destruct (beginFrame_out_of_date sample_env
              (with_answers [VK_ERROR_OUT_OF_DATE_KHR] ready_machine))
    as (s' & Hrun & Hself & Hcalls & _ & _ & Hrec).
  - vm_compute. reflexivity.
  - vm_compute. discriminate.
  - vm_compute. reflexivity.
  - exists s'. vm_compute in Hrun, Hself, Hcalls, Hrec |- *.
    rewrite Hself. by repeat split.
Defined.

(** ** C5: recreation *)

Section Recreate.

Variable MAX_FRAMES_IN_FLIGHT : nat.

Variable env : Env.

(** C5.  Unless the state is [RECREATING], [recreateIfNeeded] does nothing
    and reports success.  In state [RECREATING] it waits for the device to
    be idle, destroys the framebuffers it holds and forgets them, then runs
    [cleanup] and [initialize] and returns what [initialize] returned: after
    a failed rebuild the state is [UNINITIALIZED], after a successful one it
    is [READY] and there is one framebuffer per image of the swapchain as it
    is now. *)
Theorem recreateIfNeeded_rebuilds s :
  device env <> VK_NULL_HANDLE ->
  match state (self s) with
  | RECREATING =>
      exists s1 s2 ok s',
        s1 = log_all (EvDeviceWaitIdle :: release_each Framebuffer (framebuffers (self s)))
                     (with_self (set_framebuffers []) s) /\
        cleanup MAX_FRAMES_IN_FLIGHT env s1 = Returns tt s2 /\
        initialize MAX_FRAMES_IN_FLIGHT env s2 = Returns ok s' /\
        recreateIfNeeded MAX_FRAMES_IN_FLIGHT env s = Returns ok s' /\
        state (self s') = (if ok then READY else UNINITIALIZED) /\
        (ok = true ->
           length (framebuffers (self s')) = length (sc_images (swapChain env)))
  | _ => recreateIfNeeded MAX_FRAMES_IN_FLIGHT env s = Returns true s
  end.
Proof.
  intros Hdev.
  assert (Hidle : idle_wait env = [EvDeviceWaitIdle]).
  { unfold idle_wait. by rewrite nonnull_true. }
  destruct (state (self s)) eqn:Hst;
    try (unfold recreateIfNeeded; step; by rewrite Hst).
  set (s1 := log_all (EvDeviceWaitIdle :: release_each Framebuffer (framebuffers (self s)))
                     (with_self (set_framebuffers []) s)).
  pose proof (cleanup_spec MAX_FRAMES_IN_FLIGHT env s1) as Hclean.
  set (s2 := {| self := cleared (self s1); calls := _; answers := _; images := _ |}) in Hclean.
  destruct (initialize_returns MAX_FRAMES_IN_FLIGHT env s2 eq_refl)
    as (ok & s' & Hinit & Hstate & Hsized).
  exists s1, s2, ok, s'. split; [done |]. split; [done |]. split; [done |].
  split; [| split; [done | intros Hok; by apply Hsized]].
  unfold recreateIfNeeded. step. rewrite Hst. cbn [bool_decide decide_rel negb].
  rewrite bool_decide_true by done. cbn [negb].
  step_by ltac:(apply waitIdle_spec). rewrite Hidle. do 2 step.
  step_by ltac:(apply (for_each_emits
                  (fun _ i => release Framebuffer (vec_at (framebuffers (self s)) i)));
                intros; unfold vkDestroy; apply when_emit).
  assert (Hs1 : log_all (flat_map (fun i => release Framebuffer (vec_at (framebuffers (self s)) i))
                           (seq 0 (length (framebuffers (self s)))))
                  (with_self (set_framebuffers []) (log_all [EvDeviceWaitIdle] s)) = s1).
  { subst s1. apply St_eq; proj_simpl; try done. by rewrite <- app_assoc. }
  rewrite Hs1. step_by ltac:(exact Hclean). step_by ltac:(exact Hinit). reflexivity.
Qed.

End Recreate.

(** The sample machine after an out-of-date acquisition is rebuilt: the
    three framebuffers of before are destroyed, three new ones exist, and the
    state is [READY] again. *)
Lemma recreateIfNeeded_rebuilds_witness :
  exists s',
    recreateIfNeeded 2 sample_env
      (final (beginFrame sample_env (with_answers [VK_ERROR_OUT_OF_DATE_KHR] ready_machine)))
      = Returns true s' /\
    state (self s') = READY /\
    length (framebuffers (self s')) = 3.
Proof.
  assert (E : state (self (final (beginFrame sample_env
                (with_answers [VK_ERROR_OUT_OF_DATE_KHR] ready_machine)))) = RECREATING).
  { vm_compute. reflexivity. }
  pose proof (recreateIfNeeded_rebuilds 2 sample_env
    (final (beginFrame sample_env (with_answers [VK_ERROR_OUT_OF_DATE_KHR] ready_machine))))
    as H.
  rewrite E in H.
  destruct H as (s1 & s2 & ok & s' & _ & _ & _ & Hrun & Hstate & Hlen).
  - vm_compute. discriminate.
  - destruct ok; [| vm_compute in Hrun; discriminate Hrun].
    specialize (Hlen eq_refl). exists s'.
    vm_compute in Hrun, Hlen |- *. by repeat split.
Defined.

(** ** C6: operations called in the wrong state *)

(** C6.  [initialize] outside [UNINITIALIZED], and [beginFrame] or
    [endFrame] outside [READY], return failure and record the usage error.
    Nothing else happens: no call is made, so fences, live objects and
    command buffers are as before, and no driver result is consumed. *)
Theorem guard_rejects MAX_FRAMES_IN_FLIGHT env g s :
  state (self s) <> required_state g ->
  exists s',
    guarded_call MAX_FRAMES_IN_FLIGHT env g s = Returns false s' /\
    self s' = set_lastError (usage_error g) (self s) /\
    calls s' = calls s /\
    fence_status (calls s') = fence_status (calls s) /\
    live (calls s') = live (calls s) /\
    recorders (calls s') = recorders (calls s) /\
    answers s' = answers s /\ images s' = images s.
Proof.
  intros Hst. exists (with_self (set_lastError (usage_error g)) s).
  split; [| by repeat split].
  destruct g; simpl in Hst |- *;
    unfold initialize, beginFrame, endFrame, bind, this;
    rewrite bool_decide_false by exact Hst; reflexivity.
Qed.

(** [beginFrame] on a new object, and [initialize] on the sample machine. *)
Lemma guard_rejects_witness :
  (exists s',
     beginFrame sample_env (machine []) = Returns false s' /\
     lastError (self s') = "Pipeline is not in ready state"%string /\
     calls s' = []) /\
  (exists s',
     initialize 2 sample_env ready_machine = Returns false s' /\
     lastError (self s') = "Pipeline is already initialized"%string /\
     calls s' = calls ready_machine).
Proof.
  split.
  - destruct (guard_rejects 2 sample_env GBeginFrame (machine []))
      as (s' & Hrun & Hself & Hcalls & _); [discriminate |].
    exists s'. vm_compute in Hrun, Hself, Hcalls |- *. rewrite Hself. by repeat split.
  - destruct (guard_rejects 2 sample_env GInitialize ready_machine)
      as (s' & Hrun & Hself & Hcalls & _); [vm_compute; discriminate |].
    exists s'. vm_compute in Hrun, Hself, Hcalls |- *. rewrite Hself. by repeat split.
Defined.

(** ** C7: [cleanup] *)

Section CleanupTheorem.

Variable MAX_FRAMES_IN_FLIGHT : nat.

Variable env : Env.

(** C7 (as amended).  On a device, and with the slot vectors in step,
    [cleanup] first waits for the device to be idle, then only releases:
    every handle the object holds is destroyed and is dead afterwards,
    together with whatever was allocated from it; the descriptor pool goes
    before the descriptor set layout, every framebuffer before the render
    pass, and the synchronisation objects of the slots after the uniform
    buffers and before the command pools.  The object is left cleared in
    state [UNINITIALIZED]; a second [cleanup], or a [cleanup] of an object on
    which nothing was created, makes no call but the wait. *)
Theorem cleanup_releases_in_order s :
  device env <> VK_NULL_HANDLE ->
  slots_consistent MAX_FRAMES_IN_FLIGHT (self s) ->
  exists new s',
    cleanup MAX_FRAMES_IN_FLIGHT env s = Returns tt s' /\
    calls s' = calls s ++ EvDeviceWaitIdle :: new /\
    Forall creates_nothing new /\
    (forall k h, In (k, h) (owned (self s)) -> h <> VK_NULL_HANDLE ->
       In (EvDestroy k h) new /\
       live (calls s') !! h = None /\
       forall c kc, live (calls s) !! c = Some (kc, h) -> live (calls s') !! c = None) /\
    (descriptorPool (self s) <> VK_NULL_HANDLE ->
     descriptorSetLayout (self s) <> VK_NULL_HANDLE ->
     precedes (EvDestroy DescriptorPool (descriptorPool (self s)))
              (EvDestroy DescriptorSetLayout (descriptorSetLayout (self s))) new) /\
    (forall fb, In fb (framebuffers (self s)) -> fb <> VK_NULL_HANDLE ->
       renderPass (self s) <> VK_NULL_HANDLE ->
       precedes (EvDestroy Framebuffer fb) (EvDestroy RenderPass (renderPass (self s))) new) /\
    (forall i k h, i < MAX_FRAMES_IN_FLIGHT -> sync_of (self s) i k h ->
       (forall b, In b (uniformBuffers (self s)) -> b <> VK_NULL_HANDLE ->
          precedes (EvDestroy Buffer b) (EvDestroy k h) new) /\
       (forall c, In c (commandPools (self s)) -> c <> VK_NULL_HANDLE ->
          precedes (EvDestroy k h) (EvDestroy CommandPool c) new)) /\
    self s' = cleared (self s) /\
    state (self s') = UNINITIALIZED /\
    (self s = Pipeline_new -> new = []) /\
    cleanup MAX_FRAMES_IN_FLIGHT env s' = Returns tt (log EvDeviceWaitIdle s').
Proof.
  intros Hdev Hwf.
  assert (Hidle : idle_wait env = [EvDeviceWaitIdle]).
  { unfold idle_wait. by rewrite nonnull_true. }
  exists (cleanup_calls MAX_FRAMES_IN_FLIGHT (self s)). eexists.
  split; [apply cleanup_spec |]. cbn [self calls]. rewrite Hidle.
  pose proof (cleanup_creates_nothing MAX_FRAMES_IN_FLIGHT (self s)) as Hnothing.
  split; [done |]. split; [done |].
  split; [| split; [| split; [| split; [| split; [| split; [| split]]]]]].
  - intros k h Hin Hh.
    pose proof (owned_released _ _ _ _ Hwf Hin Hh) as Hrel.
    assert (Hdead : forall x, tied h x (live (calls s)) ->
              live (calls s ++ [EvDeviceWaitIdle] ++
                    cleanup_calls MAX_FRAMES_IN_FLIGHT (self s)) !! x = None).
    { intros x Hx. rewrite live_app. eapply foldl_live_released with (k := k); eauto.
      - constructor; [done | exact Hnothing].
      - by right. }
    split; [done |]. split; [apply Hdead; by left |].
    intros c kc Hc. apply Hdead. right. right. eauto.
  - intros Hp Hl. unfold cleanup_calls.
    apply precedes_app_tail, precedes_app_head; [by apply in_release |].
    apply in_app_iff. left. by apply in_release.
  - intros fb Hfb Hne Hrp. unfold cleanup_calls.
    do 7 apply precedes_app_tail.
    apply precedes_app_head; [by apply in_release_each |].
    rewrite !in_app_iff. right. right. by apply in_release.
  - intros i k h Hi Hsync. pose proof (sync_of_released _ _ _ _ _ Hi Hsync) as Hrel.
    split.
    + intros b Hb Hne. unfold cleanup_calls.
      apply precedes_app_head; [by apply in_uniforms_release_buffer |].
      rewrite !in_app_iff. do 4 right. by left.
    + intros c Hc Hne. unfold cleanup_calls.
      do 5 apply precedes_app_tail.
      apply precedes_app_head; [done |].
      rewrite !in_app_iff. left. by apply in_release_each.
  - done.
  - done.
  - intros ->. apply (cleanup_calls_cleared _ Pipeline_new).
  - rewrite cleanup_spec. cbn [self calls answers images].
    by rewrite cleanup_calls_cleared, Hidle.
Qed.

End CleanupTheorem.

(** On the sample machine: everything is released, pool before layout,
    framebuffers before render pass. *)
Lemma cleanup_releases_in_order_witness :
  exists new s',
    cleanup 2 sample_env ready_machine = Returns tt s' /\
    calls s' = calls ready_machine ++ EvDeviceWaitIdle :: new /\
    In (EvDestroy Fence 23) new /\
    live (calls s') !! 23 = None /\
    precedes (EvDestroy DescriptorPool 18) (EvDestroy DescriptorSetLayout 1) new /\
    precedes (EvDestroy Framebuffer 7) (EvDestroy RenderPass 2) new /\
    state (self s') = UNINITIALIZED.
Proof.
  destruct (cleanup_releases_in_order 2 sample_env ready_machine)
    as (new & s' & Hrun & Hcalls & _ & Howned & Hpool & Hfb & _ & _ & Hstate & _).
  - vm_compute. discriminate.
  - vm_compute. repeat split; lia.
  - exists new, s'.
    destruct (Howned Fence 23) as (Hin & Hdead & _).
    { vm_compute. tauto. }
    { discriminate. }
    assert (Hp : precedes (EvDestroy DescriptorPool 18) (EvDestroy DescriptorSetLayout 1) new).
    { apply Hpool; vm_compute; discriminate. }
    assert (Hf : precedes (EvDestroy Framebuffer 7) (EvDestroy RenderPass 2) new).
    { apply (Hfb 7); [vm_compute; tauto | discriminate | vm_compute; discriminate]. }
    vm_compute in Hrun |- *. by repeat split.
Defined.

(** C7 as stated fails.  The synchronisation objects are not the last of
    the per-slot resources to go: on the sample machine the semaphores and
    fences of both slots are destroyed before the command pools of the
    slots, 10 and 11. *)
Lemma cleanup_sync_objects_not_last :
  exists s',
    cleanup 2 sample_env ready_machine = Returns tt s' /\
    commandPools (self ready_machine) = [10; 11] /\
    inFlightFences (self ready_machine) = [23; 26] /\
    drop (length (calls ready_machine)) (calls s') =
      [EvDeviceWaitIdle;
       EvUnmapMemory 15; EvDestroy Buffer 14; EvDestroy DeviceMemory 15;
       EvUnmapMemory 17; EvDestroy Buffer 16; EvDestroy DeviceMemory 17;
       EvDestroy DescriptorPool 18; EvDestroy DescriptorSetLayout 1;
       EvDestroy Semaphore 21; EvDestroy Semaphore 22; EvDestroy Fence 23;
       EvDestroy Semaphore 24; EvDestroy Semaphore 25; EvDestroy Fence 26;
       EvDestroy CommandPool 10; EvDestroy CommandPool 11;
       EvDestroy Framebuffer 7; EvDestroy Framebuffer 8; EvDestroy Framebuffer 9;
       EvDestroy GraphicsPipeline 6; EvDestroy PipelineLayout 5;
       EvDestroy RenderPass 2].
Proof. eexists. split; [vm_compute; reflexivity |]. vm_compute. by repeat split. Qed.

(** ** C8: one entry per slot *)

(** C8.  From state [UNINITIALIZED], [initialize] returns, and when it
    returns success every collection indexed by slot has exactly
    [MAX_FRAMES_IN_FLIGHT] entries: command pools, command buffers, fences,
    both vectors of semaphores, uniform buffers with their memory and
    mappings, and descriptor sets.  The entries are objects that exist: the
    command buffers, the uniform buffers and their memory, the descriptor
    sets, the semaphores of both vectors taken together, and the fences are
    pairwise distinct and alive, each of its kind. *)
Theorem initialize_slots MAX_FRAMES_IN_FLIGHT env s :
  state (self s) = UNINITIALIZED ->
  exists ok s',
    initialize MAX_FRAMES_IN_FLIGHT env s = Returns ok s' /\
    (ok = true ->
       slots_sized MAX_FRAMES_IN_FLIGHT (self s') /\
       slots_held (self s') (calls s')).
Proof.
  intros Hst.
  destruct (initialize_returns MAX_FRAMES_IN_FLIGHT env s Hst)
    as (ok & s' & Hrun & _ & Hsized).
  exists ok, s'. split; [done |]. intros Hok. split; [by apply Hsized |].
  pose proof (initialize_held MAX_FRAMES_IN_FLIGHT env s) as H.
  apply wp_returns in H as (ok' & s'' & Hrun' & H).
  rewrite Hrun in Hrun'. injection Hrun' as <- <-. by apply H.
Qed.

(** With two slots and a driver that never fails. *)
Lemma initialize_slots_witness :
  exists s',
    initialize 2 sample_env (machine []) = Returns true s' /\
    slots_sized 2 (self s') /\
    slots_held (self s') (calls s').
Proof.
  destruct (initialize_slots 2 sample_env (machine []) eq_refl) as (ok & s' & Hrun & Hsized).
  destruct ok; [| vm_compute in Hrun; discriminate Hrun].
  exists s'. split; [exact Hrun | exact (Hsized eq_refl)].
Defined.

(** ** C10: the fences of the slots start signaled *)

Section FirstWaits.

Variable MAX_FRAMES_IN_FLIGHT : nat.

Variable env : Env.

Lemma fences_ready_first_waits s0 :
  fences_ready MAX_FRAMES_IN_FLIGHT s0 ->
  first_waits_signaled (inFlightFences (self s0)) s0 s0.
Proof.
  intros (_ & _ & Hsig). split; [done |]. exists []. split; [by rewrite app_nil_r |].
  intros f Hf. simpl. by apply Hsig.
Qed.

Lemma beginFrame_returns s :
  fence_status (calls s) !! vec_at (inFlightFences (self s)) (currentFrame (self s))
    <> Some Unsignaled ->
  nonnull (vec_at (uniformBuffersMapped (self s)) (currentFrame (self s))) = true ->
  wp (beginFrame env) (fun _ _ => True) s.
Proof.
  intros Hwait Hmapped. unfold beginFrame, wp.
  apply post_bind, post_this. post_step; [by post_run |].
  apply post_bind, post_vkWaitForFences. intros s1 _ Hp1 _ _. split; [intros _ | done].
  apply post_bind, post_vkAcquireNextImageKHR. intros r i s2 _ _ Hsame.
  destruct (same_members_fields _ _ Hsame) as (_ & Hcf2 & _).
  destruct (same_members_mapped _ _ Hsame) as (Hmap2 & _).
  unfold updateUniformBuffer, vkCall, setError.
  repeat post_step; mapped_simpl; try done.
  rewrite Hmap2, Hcf2, Hp1, Hmapped in *. discriminate.
Qed.

(** C10.  When [initialize] has returned success, every fence it created
    was created with [VK_FENCE_CREATE_SIGNALED_BIT], and every slot has its
    fence, signaled; so a [beginFrame] right after it does not block,
    whatever the slot, and it returns when the uniform block of the slot is
    mapped and the image the driver hands out has a framebuffer.  In any run
    of frames that follows, the first wait on the fence of each slot finds it
    signaled. *)
Theorem fences_start_signaled s s0 :
  initialize MAX_FRAMES_IN_FLIGHT env s = Returns true s0 ->
  (exists new,
     calls s0 = calls s ++ new /\
     forall flags r f, In (EvCreateFence flags r f) new ->
       flags = VK_FENCE_CREATE_SIGNALED_BIT) /\
  (forall i, i < MAX_FRAMES_IN_FLIGHT ->
     exists f, inFlightFences (self s0) !! i = Some f /\
               fence_status (calls s0) !! f = Some Signaled) /\
  (currentFrame (self s0) < MAX_FRAMES_IN_FLIGHT ->
   (forall s1, beginFrame env s0 <> Blocks s1) /\
   (nonnull (vec_at (uniformBuffersMapped (self s0)) (currentFrame (self s0))) = true ->
    next_image s0 < length (framebuffers (self s0)) ->
    exists ok s1, beginFrame env s0 = Returns ok s1)) /\
  (forall n i f, inFlightFences (self s0) !! i = Some f ->
     exists later,
       calls (final (frames MAX_FRAMES_IN_FLIGHT env n s0)) = calls s0 ++ later /\
       (first_wait f later = None \/ first_wait f later = Some (Some Signaled))).
Proof.
  intros Hrun.
  assert (Hst : state (self s) = UNINITIALIZED).
  { destruct (decide (state (self s) = UNINITIALIZED)) as [|Hne]; [done |].
    unfold initialize, bind, this in Hrun. by rewrite bool_decide_false in Hrun. }
  assert (Hready : fences_ready MAX_FRAMES_IN_FLIGHT s0).
  { pose proof (initialize_fences MAX_FRAMES_IN_FLIGHT env s) as H.
    apply wp_returns in H as (ok & s' & Hrun' & H).
    rewrite Hrun in Hrun'. injection Hrun' as <- <-. by apply H. }
  assert (Hslot : forall i, i < MAX_FRAMES_IN_FLIGHT ->
            exists f, inFlightFences (self s0) !! i = Some f /\
                      fence_status (calls s0) !! f = Some Signaled).
  { intros i Hi. destruct Hready as (Hlen & _ & Hsig).
    destruct (lookup_lt_is_Some_2 (inFlightFences (self s0)) i) as [f Hf].
    { unfold Handle in *. lia. }
    exists f. split; [done |]. eapply Hsig, in_lookup, Hf. }
  split; [| split; [exact Hslot | split]].
  - destruct (initialize_runs_build MAX_FRAMES_IN_FLIGHT env s Hst)
      as (ok & s1 & _ & [_ (new & Hcalls & Hnew)] & Hinit).
    rewrite Hrun in Hinit. injection Hinit as <- ->.
    exists new. split; [done |]. intros flags r f Hin.
    rewrite Forall_forall in Hnew. specialize (Hnew _ (proj2 (list_elem_of_In _ _) Hin)).
    simpl in Hnew. by apply Z.eqb_eq.
  - intros Hcur. destruct (Hslot _ Hcur) as (f & Hf & Hsig).
    assert (Hwait : fence_status (calls s0)
                      !! vec_at (inFlightFences (self s0)) (currentFrame (self s0))
                    <> Some Unsignaled).
    { rewrite (vec_at_lookup _ _ _ Hf), Hsig. discriminate. }
    split; [intros s1; by apply beginFrame_never_blocks |].
    intros Hmapped _.
    destruct (proj1 (wp_returns _ _ _) (beginFrame_returns s0 Hwait Hmapped))
      as (ok & s1 & Hbegin & _).
    by exists ok, s1.
  - intros n i f Hf.
    pose proof (post_final (frames MAX_FRAMES_IN_FLIGHT env n) _ s0
                  (frames_first_waits MAX_FRAMES_IN_FLIGHT env _ s0 n s0
                     (fences_ready_first_waits s0 Hready))) as (_ & later & Hcalls & Hall).
    exists later. split; [done |].
    specialize (Hall f (in_lookup _ _ _ Hf)).
    destruct (first_wait f later) as [observed|]; [right; by rewrite Hall | by left].
Qed.

End FirstWaits.

(** Two slots, three frames after [initialize]: the first [beginFrame]
    returns, and the first waits on the fences 23 and 26 both find them
    signaled. *)
Lemma fences_start_signaled_witness :
  exists s0,
    initialize 2 sample_env (machine []) = Returns true s0 /\
    inFlightFences (self s0) = [23; 26] /\
    fence_status (calls s0) !! 23 = Some Signaled /\
    fence_status (calls s0) !! 26 = Some Signaled /\
    (exists ok s1, beginFrame sample_env s0 = Returns ok s1) /\
    exists later,
      calls (final (frames 2 sample_env 3 s0)) = calls s0 ++ later /\
      first_wait 23 later = Some (Some Signaled) /\
      first_wait 26 later = Some (Some Signaled).
Proof.
  exists ready_machine.
  assert (Hrun : initialize 2 sample_env (machine []) = Returns true ready_machine).
  { vm_compute. reflexivity. }
  destruct (fences_start_signaled 2 sample_env (machine []) ready_machine Hrun)
    as (_ & _ & Hfirst & Hlater).
  split; [exact Hrun |].
  destruct Hfirst as (_ & Hreturns); [vm_compute; lia |].
  destruct (Hlater 3 0 23) as (later & Hcalls & _); [vm_compute; reflexivity |].
  assert (Hl : later = drop (length (calls ready_machine))
                          (calls (final (frames 2 sample_env 3 ready_machine)))).
  { rewrite Hcalls. by rewrite drop_app_length. }
  split; [vm_compute; reflexivity |].
  split; [vm_compute; reflexivity |].
  split; [vm_compute; reflexivity |].
  split; [apply Hreturns; [vm_compute; reflexivity | vm_compute; lia] |].
  exists later. split; [exact Hcalls |]. rewrite Hl. vm_compute. by split.
Defined.


(** * Further properties of the code *)

(** ** Driver results, by position on the tape *)

Lemma next_answer_at s : next_answer s = answer_at 0 s.
Proof. unfold next_answer, answer_at. by destruct (answers s). Qed.

Lemma answer_at_tail k s s' :
  answers s' = tail (answers s) -> answer_at k s' = answer_at (S k) s.
Proof. unfold answer_at. intros ->. by destruct (answers s). Qed.

Lemma answer_at_same k s s' : answers s' = answers s -> answer_at k s' = answer_at k s.
Proof. unfold answer_at. by intros ->. Qed.

Lemma answer_at_log k e s : answer_at k (log e s) = answer_at k s.
Proof. reflexivity. Qed.

Lemma answer_at_with_self k f s : answer_at k (with_self f s) = answer_at k s.
Proof. reflexivity. Qed.

Lemma answer_at_pop k s : answer_at k (pop_answer s) = answer_at (S k) s.
Proof. by apply answer_at_tail. Qed.

Ltac answers_norm :=
  rewrite ?next_answer_at in *;
  repeat first [ rewrite answer_at_log in * | rewrite answer_at_with_self in *
               | rewrite answer_at_pop in * ].

(** The acquisition, with all it does to the machine. *)
Lemma post_acquire semaphore (Q : VkResult -> St -> Prop) B s :
  (forall s',
     calls s' = calls s ++
       [EvAcquireNextImage semaphore (answer_at 0 s)
          (if acquired (answer_at 0 s) then next_image s else 0)] ->
     self s' = (if acquired (answer_at 0 s)
                then set_currentImageIndex (next_image s) (self s) else self s) ->
     answers s' = tail (answers s) ->
     Q (answer_at 0 s) s') ->
  post (vkAcquireNextImageKHR semaphore) Q B s.
Proof.
  intros H. unfold vkAcquireNextImageKHR. apply post_bind, post_answer.
  rewrite next_answer_at. fold (acquired (answer_at 0 s)).
  destruct (acquired (answer_at 0 s)) eqn:Hacq.
  - unfold post. apply H; try done; by rewrite Hacq.
  - apply post_bind, post_emit, post_ret. apply H; try done; by rewrite Hacq.
Qed.

Lemma acquired_not_out_of_date r :
  acquired r = true -> (r =? VK_ERROR_OUT_OF_DATE_KHR)%Z = false.
Proof.
  unfold acquired. intros [H | H]%orb_true_iff; apply Z.eqb_eq in H as ->; reflexivity.
Qed.

Lemma acquired_not_fatal r :
  acquired r = true -> negb (r =? VK_SUCCESS)%Z && negb (r =? VK_SUBOPTIMAL_KHR)%Z = false.
Proof.
  unfold acquired. intros [-> | ->]%orb_true_iff; [done | by rewrite andb_false_r].
Qed.

Section StuckFence.

Variable MAX_FRAMES_IN_FLIGHT : nat.

Variable env : Env.

(** What a [beginFrame] that gets past the acquisition has done to the
    fence of the slot before it starts recording.  When the recording
    begins, the frame goes on to write the uniform block of the slot, which
    must be mapped. *)
Lemma beginFrame_resets_fence s :
  state (self s) = READY ->
  (exists st, fence_status (calls s)
                !! vec_at (inFlightFences (self s)) (currentFrame (self s)) = Some st /\
              st <> Unsignaled) ->
  acquired (answer_at 0 s) = true ->
  (is_success (answer_at 1 s) = true ->
   nonnull (vec_at (uniformBuffersMapped (self s)) (currentFrame (self s))) = true) ->
  wp (beginFrame env)
     (fun ok s' =>
        ok = is_success (answer_at 1 s) /\
        state (self s') = READY /\
        inFlightFences (self s') = inFlightFences (self s) /\
        currentFrame (self s') = currentFrame (self s) /\
        commandBuffers (self s') = commandBuffers (self s) /\
        (forall k, answer_at k s' = answer_at (S (S k)) s) /\
        (ok = false ->
           lastError (self s') = "Failed to begin recording command buffer"%string) /\
        fence_status (calls s')
          !! vec_at (inFlightFences (self s)) (currentFrame (self s)) = Some Unsignaled) s.
Proof.
  intros Hst (st & Hf & Hne) Hacq Hmapped. unfold beginFrame, wp.
  apply post_bind, post_this. rewrite bool_decide_true by done. cbn [negb].
  apply post_bind, post_vkWaitForFences. intros s1 Hc1 Hp1 Ha1 Hi1.
  split; [intros _ | intros Hun; rewrite Hf in Hun; congruence].
  apply post_bind, post_acquire.
  rewrite (answer_at_same 0 s s1 Ha1), Hacq.
  intros s2 Hc2 Hp2 Ha2.
  rewrite (acquired_not_out_of_date _ Hacq), (acquired_not_fatal _ Hacq).
  assert (Hk : forall k, answer_at k s2 = answer_at (S k) s).
  { intros k. rewrite (answer_at_tail k s1 s2 Ha2). by apply answer_at_same. }
  assert (Hfs : alter (fun _ => Unsignaled)
                  (vec_at (inFlightFences (self s)) (currentFrame (self s)))
                  (fence_status (calls s2))
                  !! vec_at (inFlightFences (self s)) (currentFrame (self s))
                = Some Unsignaled).
  { rewrite Hc2, Hc1, !fence_status_snoc. cbn [fence_step].
    rewrite !lookup_alter_eq, Hf. reflexivity. }
  unfold updateUniformBuffer, vkCall, setError.
  repeat post_step; answers_norm; proj_simpl; mapped_simpl;
    try (rewrite Hp2, Hp1 in *; proj_simpl; mapped_simpl;
         rewrite Hk in *; rewrite Hmapped in * by done; discriminate);
    rewrite ?Hp2, ?Hp1; proj_simpl;
    (split; [by rewrite <- Hk |]); (split; [done |]); (split; [done |]);
    (split; [done |]); (split; [done |]);
    (split; [intros k; answers_norm; by rewrite Hk |]);
    (split; [done |]);
    rewrite !fence_status_snoc; cbn [fence_step]; exact Hfs.
Qed.


Lemma beginFrame_blocks env' s :
  state (self s) = READY ->
  fence_status (calls s) !! vec_at (inFlightFences (self s)) (currentFrame (self s))
    = Some Unsignaled ->
  beginFrame env' s =
    Blocks (log (EvWaitForFences
                   (vec_at (inFlightFences (self s)) (currentFrame (self s)))
                   (Some Unsignaled)) s).
Proof.
  intros Hst Hf. unfold beginFrame, bind, this. rewrite bool_decide_true by done.
  cbn [negb]. unfold vkWaitForFences. by rewrite Hf.
Qed.


(** X1.  When [beginFrame] has acquired an image and then fails to begin
    the recording, it returns failure with the state still [READY] and the
    fence of the slot already reset.  Nothing will signal that fence: the
    next [beginFrame] never returns from its wait. *)
Theorem failed_recording_blocks_next_frame env' s :
  state (self s) = READY ->
  (exists st, fence_status (calls s)
                !! vec_at (inFlightFences (self s)) (currentFrame (self s)) = Some st /\
              st <> Unsignaled) ->
  acquired (answer_at 0 s) = true ->
  is_success (answer_at 1 s) = false ->
  exists s1,
    beginFrame env s = Returns false s1 /\
    state (self s1) = READY /\
    lastError (self s1) = "Failed to begin recording command buffer"%string /\
    beginFrame env' s1 =
      Blocks (log (EvWaitForFences
                     (vec_at (inFlightFences (self s)) (currentFrame (self s)))
                     (Some Unsignaled)) s1).
Proof.
  intros Hst Hf Hacq Hrec.
  assert (Hmapped : is_success (answer_at 1 s) = true ->
            nonnull (vec_at (uniformBuffersMapped (self s)) (currentFrame (self s)))
            = true).
  { rewrite Hrec. discriminate. }
  destruct (proj1 (wp_returns _ _ _) (beginFrame_resets_fence s Hst Hf Hacq Hmapped))
    as (ok & s1 & Hrun & Hok & Hst1 & Hf1 & Hcf1 & _ & _ & Herr & Hfs).
  rewrite Hrec in Hok. subst ok. exists s1.
  split; [done |]. split; [done |]. split; [by apply Herr |].
  rewrite <- Hf1, <- Hcf1. apply beginFrame_blocks; [done |]. by rewrite Hf1, Hcf1.
Qed.


End StuckFence.

(** On the sample machine, the recording of the first frame refused: the
    second call to [beginFrame] waits on fence 23 for ever. *)
Lemma failed_recording_blocks_next_frame_witness :
  exists s1,
    beginFrame sample_env
      (with_answers [VK_SUCCESS; VK_ERROR_DEVICE_LOST] ready_machine) = Returns false s1 /\
    state (self s1) = READY /\
    beginFrame sample_env s1 = Blocks (log (EvWaitForFences 23 (Some Unsignaled)) s1).
Proof.
  destruct (failed_recording_blocks_next_frame sample_env sample_env
              (with_answers [VK_SUCCESS; VK_ERROR_DEVICE_LOST] ready_machine))
    as (s1 & Hrun & Hstate & _ & Hnext).
  - vm_compute. reflexivity.
  - exists Signaled. split; [vm_compute; reflexivity | discriminate].
  - vm_compute. reflexivity.
  - vm_compute. reflexivity.
  - exists s1. vm_compute in Hnext. by repeat split.
Defined.


(** ** What a frame records and submits *)

Section Recording.

Variable MAX_FRAMES_IN_FLIGHT : nat.

Variable env : Env.

Lemma beginFrame_starts_recording s rec :
  state (self s) = READY ->
  (exists st, fence_status (calls s)
                !! vec_at (inFlightFences (self s)) (currentFrame (self s)) = Some st /\
              st <> Unsignaled) ->
  nonnull (vec_at (uniformBuffersMapped (self s)) (currentFrame (self s))) = true ->
  acquired (answer_at 0 s) = true ->
  is_success (answer_at 1 s) = true ->
  recorders (calls s) !! getCurrentCommandBuffer (self s) = Some rec ->
  wp (beginFrame env)
     (fun ok s' =>
        ok = true /\
        self s' = set_currentImageIndex (next_image s) (self s) /\
        recorders (calls s') !! getCurrentCommandBuffer (self s) =
          Some {| rec_pool := rec_pool rec; rec_phase := RecRecording;
                  rec_cmds := frame_prologue env (self s) (next_image s) |} /\
        (forall cb, cb <> getCurrentCommandBuffer (self s) ->
           recorders (calls s') !! cb = recorders (calls s) !! cb) /\
        exists later,
          calls s' = calls s ++
            EvWaitForFences (vec_at (inFlightFences (self s)) (currentFrame (self s)))
              (fence_status (calls s)
                 !! vec_at (inFlightFences (self s)) (currentFrame (self s))) ::
            EvAcquireNextImage
              (vec_at (imageAvailableSemaphores (self s)) (currentFrame (self s)))
              (answer_at 0 s) (next_image s) :: later /\
          In (EvWriteUniform
                (vec_at (uniformBuffersMapped (self s)) (currentFrame (self s)))
                (sc_width (swapChain env)) (sc_height (swapChain env))) later) s.
Proof.
  intros Hst (st & Hf & Hne) Hmapped Hacq Hrec Hcb. unfold beginFrame, wp.
  apply post_bind, post_this. rewrite bool_decide_true by done. cbn [negb].
  apply post_bind, post_vkWaitForFences. intros s1 Hc1 Hp1 Ha1 Hi1.
  split; [intros _ | intros Hun; rewrite Hf in Hun; congruence].
  apply post_bind, post_acquire.
  rewrite (answer_at_same 0 s s1 Ha1), Hacq.
  intros s2 Hc2 Hp2 Ha2.
  rewrite (acquired_not_out_of_date _ Hacq), (acquired_not_fatal _ Hacq).
  assert (Hk : answer_at 0 s2 = answer_at 1 s).
  { rewrite (answer_at_tail 0 s1 s2 Ha2). by apply answer_at_same. }
  assert (Hi : next_image s1 = next_image s).
  { unfold next_image. by rewrite Hi1. }
  assert (Hr2 : recorders (calls s2) = recorders (calls s)).
  { by rewrite Hc2, Hc1, !recorders_snoc. }
  unfold updateUniformBuffer, vkCall, setError, getCurrentCommandBuffer in *.
  repeat post_step; answers_norm;
    try (rewrite Hk, Hrec in *; discriminate).
  2: { mapped_simpl. rewrite Hp2, Hp1 in *. proj_simpl. mapped_simpl.
       rewrite Hmapped in *. discriminate. }
  proj_simpl. rewrite Hp2, Hp1, Hi. proj_simpl.
  split; [done |]. split; [done |].
  rewrite !recorders_snoc. cbn [recorder_step]. rewrite Heqb, Hr2.
  split; [| split].
  - rewrite !lookup_alter_eq, Hcb. reflexivity.
  - intros cb Hne'. by rewrite !lookup_alter_ne.
  - eexists. rewrite Hc2, Hc1, Hi, <- !app_assoc. split; [reflexivity |].
    simpl. tauto.
Qed.


Lemma endFrame_submits s rec cmds st :
  state (self s) = READY ->
  is_success (answer_at 0 s) = true ->
  is_success (answer_at 1 s) = true ->
  is_success (answer_at 2 s) || stale_surface (answer_at 2 s) = true ->
  recorders (calls s) !! getCurrentCommandBuffer (self s) =
    Some {| rec_pool := rec; rec_phase := RecRecording; rec_cmds := cmds |} ->
  fence_status (calls s) !! vec_at (inFlightFences (self s)) (currentFrame (self s))
    = Some st ->
  wp (endFrame MAX_FRAMES_IN_FLIGHT)
     (fun ok s' =>
        ok = true /\
        self s' =
          set_currentFrame ((currentFrame (self s) + 1) `mod` MAX_FRAMES_IN_FLIGHT)
            (if stale_surface (answer_at 2 s)
             then set_state RECREATING (self s) else self s) /\
        recorders (calls s') !! getCurrentCommandBuffer (self s) =
          Some {| rec_pool := rec; rec_phase := RecExecutable;
                  rec_cmds := cmds ++ [CmdEndRenderPass] |} /\
        fence_status (calls s') !! vec_at (inFlightFences (self s)) (currentFrame (self s))
          = Some Pending /\
        calls s' = calls s ++
          [ EvCmd (getCurrentCommandBuffer (self s)) CmdEndRenderPass;
            EvEndCommandBuffer (getCurrentCommandBuffer (self s)) (answer_at 0 s);
            EvQueueSubmit (getCurrentCommandBuffer (self s))
              (vec_at (imageAvailableSemaphores (self s)) (currentFrame (self s)))
              (vec_at (renderFinishedSemaphores (self s)) (currentFrame (self s)))
              (vec_at (inFlightFences (self s)) (currentFrame (self s)))
              (answer_at 1 s);
            EvQueuePresent
              (vec_at (renderFinishedSemaphores (self s)) (currentFrame (self s)))
              (currentImageIndex (self s)) (answer_at 2 s) ]) s.
Proof.
  intros Hst H0 H1 H2 Hcb Hf. unfold endFrame, vkCall, setError, wp.
  apply post_bind, post_this. rewrite bool_decide_true by done. cbn [negb].
  unfold getCurrentCommandBuffer in *. fold (stale_surface (answer_at 2 s)).
  repeat post_step; answers_norm;
    try (rewrite ?H0, ?H1 in *; discriminate).
  all: fold (stale_surface (answer_at 2 s)) in *.
  all: try match goal with
           | H : negb (_ =? VK_SUCCESS)%Z = true |- _ =>
               unfold is_success in H2; rewrite Heqb1 in H2;
               apply negb_true_iff in H; rewrite H in H2; discriminate H2
           end.
  all: proj_simpl; rewrite ?Heqb1; (split; [done |]); (split; [done |]).
  all: rewrite !recorders_snoc, !fence_status_snoc; cbn [recorder_step fence_step];
       rewrite H0, H1, !lookup_alter_eq, Hcb, Hf; cbn;
       (split; [done |]); (split; [done |]); by rewrite <- !app_assoc.
Qed.

(** X3.  In state [READY], with the fence of the slot not waiting for a
    submission that was never made, the uniform block of the slot mapped
    and a framebuffer for the image the driver hands out, a [beginFrame]
    that acquires an image and begins recording returns success.  The
    command buffer of the slot, whatever it held, then holds exactly the
    prologue of the frame and is still recording; no other command buffer is
    touched; the image index is the one the driver gave; and the uniform
    block of the slot has been written with the extent of the swapchain. *)
Theorem beginFrame_records s rec :
  state (self s) = READY ->
  (exists st, fence_status (calls s)
                !! vec_at (inFlightFences (self s)) (currentFrame (self s)) = Some st /\
              st <> Unsignaled) ->
  nonnull (vec_at (uniformBuffersMapped (self s)) (currentFrame (self s))) = true ->
  next_image s < length (framebuffers (self s)) ->
  acquired (answer_at 0 s) = true ->
  is_success (answer_at 1 s) = true ->
  recorders (calls s) !! getCurrentCommandBuffer (self s) = Some rec ->
  exists s',
    beginFrame env s = Returns true s' /\
    self s' = set_currentImageIndex (next_image s) (self s) /\
    recorders (calls s') !! getCurrentCommandBuffer (self s') =
      Some {| rec_pool := rec_pool rec; rec_phase := RecRecording;
              rec_cmds := frame_prologue env (self s) (next_image s) |} /\
    (forall cb, cb <> getCurrentCommandBuffer (self s') ->
       recorders (calls s') !! cb = recorders (calls s) !! cb) /\
    In (EvWriteUniform (vec_at (uniformBuffersMapped (self s)) (currentFrame (self s)))
                       (sc_width (swapChain env)) (sc_height (swapChain env)))
       (calls s').
Proof.
  intros Hst Hf Hmapped _ Hacq Hrec Hcb.
  destruct (proj1 (wp_returns _ _ _)
              (beginFrame_starts_recording s rec Hst Hf Hmapped Hacq Hrec Hcb))
    as (ok & s' & Hrun & -> & Hself & Hnew & Hother & later & Hcalls & Hwrite).
  exists s'. split; [done |]. split; [done |].
  assert (Hsame : getCurrentCommandBuffer (self s') = getCurrentCommandBuffer (self s)).
  { by rewrite Hself. }
  rewrite Hsame. split; [done |]. split; [done |].
  rewrite Hcalls, in_app_iff. simpl. tauto.
Qed.

(** X4.  A frame that goes through: [beginFrame] acquires an image and
    records the prologue, [endFrame] ends the recording, submits it and
    presents.  The submission waits for the semaphore the acquisition was
    given and signals the one the presentation waits for; the image
    presented is the image acquired; the command buffer of the slot is left
    executable, holding the prologue and the end of the render pass; the
    fence of the slot is with the GPU; and the slot index has moved on.  A
    stale presentation changes nothing of this but the state.  The frame
    is drawn on a slot whose uniform block is mapped, with an image that has
    its framebuffer. *)
Theorem frame_goes_through s rec :
  state (self s) = READY ->
  (exists st, fence_status (calls s)
                !! vec_at (inFlightFences (self s)) (currentFrame (self s)) = Some st /\
              st <> Unsignaled) ->
  nonnull (vec_at (uniformBuffersMapped (self s)) (currentFrame (self s))) = true ->
  next_image s < length (framebuffers (self s)) ->
  acquired (answer_at 0 s) = true ->
  is_success (answer_at 1 s) = true ->
  is_success (answer_at 2 s) = true ->
  is_success (answer_at 3 s) = true ->
  is_success (answer_at 4 s) || stale_surface (answer_at 4 s) = true ->
  recorders (calls s) !! getCurrentCommandBuffer (self s) = Some rec ->
  exists s1 s2 earlier,
    beginFrame env s = Returns true s1 /\
    endFrame MAX_FRAMES_IN_FLIGHT s1 = Returns true s2 /\
    calls s1 = calls s ++
      EvWaitForFences (vec_at (inFlightFences (self s)) (currentFrame (self s)))
        (fence_status (calls s)
           !! vec_at (inFlightFences (self s)) (currentFrame (self s))) ::
      EvAcquireNextImage
        (vec_at (imageAvailableSemaphores (self s)) (currentFrame (self s)))
        (answer_at 0 s) (next_image s) :: earlier /\
    calls s2 = calls s1 ++
      [ EvCmd (getCurrentCommandBuffer (self s)) CmdEndRenderPass;
        EvEndCommandBuffer (getCurrentCommandBuffer (self s)) (answer_at 2 s);
        EvQueueSubmit (getCurrentCommandBuffer (self s))
          (vec_at (imageAvailableSemaphores (self s)) (currentFrame (self s)))
          (vec_at (renderFinishedSemaphores (self s)) (currentFrame (self s)))
          (vec_at (inFlightFences (self s)) (currentFrame (self s)))
          (answer_at 3 s);
        EvQueuePresent
          (vec_at (renderFinishedSemaphores (self s)) (currentFrame (self s)))
          (next_image s) (answer_at 4 s) ] /\
    recorders (calls s2) !! getCurrentCommandBuffer (self s) =
      Some {| rec_pool := rec_pool rec; rec_phase := RecExecutable;
              rec_cmds := frame_prologue env (self s) (next_image s) ++
                          [CmdEndRenderPass] |} /\
    fence_status (calls s2) !! vec_at (inFlightFences (self s)) (currentFrame (self s))
      = Some Pending /\
    currentFrame (self s2) = (currentFrame (self s) + 1) `mod` MAX_FRAMES_IN_FLIGHT /\
    state (self s2) = (if stale_surface (answer_at 4 s) then RECREATING else READY).
Proof.
  intros Hst Hf Hmapped _ Hacq H1 H2 H3 H4 Hcb.
  destruct (proj1 (wp_returns _ _ _)
              (beginFrame_starts_recording s rec Hst Hf Hmapped Hacq H1 Hcb))
    as (ok & s1 & Hrun & -> & Hself & Hnew & _ & later & Hcalls & _).
  destruct (proj1 (wp_returns _ _ _)
              (beginFrame_resets_fence env s Hst Hf Hacq (fun _ => Hmapped)))
    as (ok & s1' & Hrun' & _ & Hst1 & _ & _ & _ & Hk & _ & Hfs).
  rewrite Hrun in Hrun'. injection Hrun' as <- <-.
  assert (Hcb1 : getCurrentCommandBuffer (self s1) = getCurrentCommandBuffer (self s)).
  { by rewrite Hself. }
  assert (Hfields :
            vec_at (inFlightFences (self s1)) (currentFrame (self s1)) =
              vec_at (inFlightFences (self s)) (currentFrame (self s)) /\
            vec_at (imageAvailableSemaphores (self s1)) (currentFrame (self s1)) =
              vec_at (imageAvailableSemaphores (self s)) (currentFrame (self s)) /\
            vec_at (renderFinishedSemaphores (self s1)) (currentFrame (self s1)) =
              vec_at (renderFinishedSemaphores (self s)) (currentFrame (self s)) /\
            currentImageIndex (self s1) = next_image s /\
            currentFrame (self s1) = currentFrame (self s)).
  { by rewrite Hself. }
  destruct Hfields as (Ef & Ea & Er & Ei & Ec).
  rewrite <- Hcb1 in Hnew. rewrite <- Ef in Hfs.
  destruct (proj1 (wp_returns _ _ _)
              (endFrame_submits s1 _ _ _ Hst1
                 ltac:(by rewrite Hk) ltac:(by rewrite Hk) ltac:(by rewrite Hk) Hnew Hfs))
    as (ok & s2 & Hrun2 & -> & Hself2 & Hrec2 & Hfence2 & Hcalls2).
  exists s1, s2, later. split; [done |]. split; [done |]. split; [done |].
  rewrite Hcb1, Ef, Ea, Er, Ei, !Hk in *. split; [done |]. split; [done |].
  split; [done |]. rewrite Hself2, Ec.
  split; [reflexivity |]. destruct (stale_surface (answer_at 4 s)); [done |].
  cbn. exact Hst1.
Qed.

End Recording.

(** On the sample machine, image 2 acquired: command buffer 12 holds the
    render pass on framebuffer 9, the pipeline and descriptor set 19. *)
Lemma beginFrame_records_witness :
  exists s',
    beginFrame sample_env
      {| self := self ready_machine; calls := calls ready_machine;
         answers := []; images := [2] |} = Returns true s' /\
    currentImageIndex (self s') = 2 /\
    recorders (calls s') !! 12 =
      Some {| rec_pool := 10; rec_phase := RecRecording;
              rec_cmds := [CmdBeginRenderPass 2 9 1920 1080; CmdBindPipeline 6;
                           CmdBindDescriptorSets 5 19] |}.
Proof.
  destruct (beginFrame_records sample_env
              {| self := self ready_machine; calls := calls ready_machine;
                 answers := []; images := [2] |}
              {| rec_pool := 10; rec_phase := RecInitial; rec_cmds := [] |})
    as (s' & Hrun & Hself & Hrec & _ & _).
  - vm_compute. reflexivity.
  - exists Signaled. split; [vm_compute; reflexivity | discriminate].
  - vm_compute. reflexivity.
  - vm_compute. lia.
  - vm_compute. reflexivity.
  - vm_compute. reflexivity.
  - vm_compute. reflexivity.
  - exists s'. rewrite Hself in Hrec |- *. vm_compute in Hrec |- *. by repeat split.
Defined.

(** On the sample machine, a first frame on image 1 presented as
    suboptimal: slot 1 is next and the state is [RECREATING]. *)
Lemma frame_goes_through_witness :
  exists s1 s2,
    beginFrame sample_env
      {| self := self ready_machine; calls := calls ready_machine;
         answers := [VK_SUCCESS; VK_SUCCESS; VK_SUCCESS; VK_SUCCESS; VK_SUBOPTIMAL_KHR];
         images := [1] |} = Returns true s1 /\
    endFrame 2 s1 = Returns true s2 /\
    fence_status (calls s2) !! 23 = Some Pending /\
    currentFrame (self s2) = 1 /\
    state (self s2) = RECREATING.
Proof.
  destruct (frame_goes_through 2 sample_env
              {| self := self ready_machine; calls := calls ready_machine;
                 answers := [VK_SUCCESS; VK_SUCCESS; VK_SUCCESS; VK_SUCCESS;
                             VK_SUBOPTIMAL_KHR];
                 images := [1] |}
              {| rec_pool := 10; rec_phase := RecInitial; rec_cmds := [] |})
    as (s1 & s2 & earlier & Hbegin & Hend & _ & _ & _ & Hfence & Hslot & Hstate).
  - vm_compute. reflexivity.
  - exists Signaled. split; [vm_compute; reflexivity | discriminate].
  - vm_compute. reflexivity.
  - vm_compute. lia.
  - vm_compute. reflexivity.
  - vm_compute. reflexivity.
  - vm_compute. reflexivity.
  - vm_compute. reflexivity.
  - vm_compute. reflexivity.
  - vm_compute. reflexivity.
  - exists s1, s2. vm_compute in Hfence, Hslot, Hstate. by repeat split.
Defined.

(** ** How a failed frame call reports *)

Section Reports.

Variable MAX_FRAMES_IN_FLIGHT : nat.

Variable env : Env.

Lemma beginFrame_reports s :
  post (beginFrame env)
       (fun ok s' => ok = false ->
          exists bad, last_call bad s s' /\ beginFrame_report bad (self s) (self s'))
       (fun _ => True) s.
Proof.
  unfold beginFrame. apply post_bind, post_this. post_step.
  { apply negb_true_iff, bool_decide_eq_false in Heqb. post_run. intros _. by exists None. }
  apply negb_false_iff, bool_decide_eq_true in Heqb.
  apply post_bind, post_vkWaitForFences. intros s1 Hc1 Hp1 Ha1 Hi1.
  split; [intros _ | done].
  apply post_bind, post_acquire. intros s2 Hc2 Hp2 Ha2.
  fold (acquired (answer_at 0 s1)) in *.
  destruct (answer_at 0 s1 =? VK_ERROR_OUT_OF_DATE_KHR)%Z eqn:Hood.
  { assert (Hacq : acquired (answer_at 0 s1) = false).
    { apply Z.eqb_eq in Hood. by rewrite Hood. }
    rewrite Hacq in *. post_run. intros _. eexists (Some _). split.
    - exists [EvWaitForFences
                (vec_at (inFlightFences (self s)) (currentFrame (self s)))
                (fence_status (calls s)
                   !! vec_at (inFlightFences (self s)) (currentFrame (self s)))].
      proj_simpl. by rewrite Hc2, Hc1, <- app_assoc.
    - simpl. rewrite Hood. proj_simpl. by rewrite Hp2, Hp1. }
  assert (Hfatal : negb (answer_at 0 s1 =? VK_SUCCESS)%Z &&
                   negb (answer_at 0 s1 =? VK_SUBOPTIMAL_KHR)%Z =
                   negb (acquired (answer_at 0 s1))).
  { unfold acquired. by rewrite negb_orb. }
  rewrite Hfatal. destruct (acquired (answer_at 0 s1)) eqn:Hacq; cbn [negb].
  - unfold updateUniformBuffer, vkCall, setError.
    repeat post_step; try done. intros _. eexists (Some _). split.
    + eexists [_; _; _; _]. proj_simpl. rewrite Hc2, Hc1, <- !app_assoc. reflexivity.
    + simpl. answers_norm. rewrite Heqb0. proj_simpl. rewrite Hp2, Hp1.
      split; [done |]. split; [done |]. by eexists.
  - post_run. intros _. eexists (Some _). split.
    + eexists [_]. proj_simpl. rewrite Hc2, Hc1, <- !app_assoc. reflexivity.
    + simpl. rewrite Hood, Hacq. proj_simpl. by rewrite Hp2, Hp1.
Qed.

Lemma endFrame_reports s :
  wp (endFrame MAX_FRAMES_IN_FLIGHT)
     (fun ok s' => ok = false ->
        exists bad, last_call bad s s' /\ endFrame_report bad (self s) (self s')) s.
Proof.
  unfold endFrame, vkCall, setError, wp. apply post_bind, post_this. post_step.
  { apply negb_true_iff, bool_decide_eq_false in Heqb. post_run. intros _. by exists None. }
  apply negb_false_iff, bool_decide_eq_true in Heqb.
  repeat post_step; try done; answers_norm; intros _; eexists (Some _); (split;
    [ unfold last_call; proj_simpl; rewrite <- ?app_assoc;
      first [ by eexists [_] | by eexists [_; _] | by eexists [_; _; _] ]
    | simpl; proj_simpl; answers_norm ]).
  all: repeat match goal with H : negb _ = true |- _ => apply negb_true_iff in H end.
  all: unfold is_success, stale_surface in *; by repeat split.
Qed.

(** X5.  A [beginFrame] that returns failure has done one of four things.
    Called outside [READY], it made no call and set the usage error.  On an
    out-of-date acquisition it set the state to [RECREATING] and no error.
    On any other failed acquisition, and on a failure to begin recording, it
    set the error of that call and left the state at [READY].  The failed
    call is the last one it made, and nothing else of the object changed but
    the image index. *)
Theorem beginFrame_failure_reported s s' :
  beginFrame env s = Returns false s' ->
  exists bad, last_call bad s s' /\ beginFrame_report bad (self s) (self s').
Proof.
  intros Hrun. pose proof (beginFrame_reports s) as H. unfold post in H.
  rewrite Hrun in H. by apply H.
Qed.

(** X6.  An [endFrame] that returns failure either was called outside
    [READY] and made no call, or stopped at the first of its calls that
    failed: ending the recording, the submission, or a presentation that is
    neither successful nor stale.  It set the error of that call and changed
    nothing else of the object. *)
Theorem endFrame_failure_reported s s' :
  endFrame MAX_FRAMES_IN_FLIGHT s = Returns false s' ->
  exists bad, last_call bad s s' /\ endFrame_report bad (self s) (self s').
Proof.
  intros Hrun. pose proof (endFrame_reports s) as H. unfold wp, post in H.
  rewrite Hrun in H. by apply H.
Qed.

End Reports.

(** On the sample machine, an acquisition answered with a lost surface. *)
Lemma beginFrame_failure_reported_witness :
  exists s',
    beginFrame sample_env (with_answers [VK_ERROR_SURFACE_LOST_KHR] ready_machine)
      = Returns false s' /\
    exists bad,
      last_call bad (with_answers [VK_ERROR_SURFACE_LOST_KHR] ready_machine) s' /\
      beginFrame_report bad
        (self (with_answers [VK_ERROR_SURFACE_LOST_KHR] ready_machine)) (self s').
Proof.
  destruct (beginFrame sample_env (with_answers [VK_ERROR_SURFACE_LOST_KHR] ready_machine))
    as [[|] s' | s' | s'] eqn:Hrun.
  - vm_compute in Hrun. discriminate Hrun.
  - exists s'. split; [reflexivity |].
    exact (beginFrame_failure_reported sample_env _ s' Hrun).
  - vm_compute in Hrun. discriminate Hrun.
  - vm_compute in Hrun. discriminate Hrun.
Defined.

(** On the sample machine, a frame whose presentation loses the device. *)
Lemma endFrame_failure_reported_witness :
  exists s1 s',
    beginFrame sample_env
      (with_answers [VK_SUCCESS; VK_SUCCESS; VK_SUCCESS; VK_SUCCESS; VK_ERROR_DEVICE_LOST]
         ready_machine) = Returns true s1 /\
    endFrame 2 s1 = Returns false s' /\
    exists bad, last_call bad s1 s' /\ endFrame_report bad (self s1) (self s').
Proof.
  pose (s1 := final (beginFrame sample_env
                       (with_answers [VK_SUCCESS; VK_SUCCESS; VK_SUCCESS; VK_SUCCESS;
                                      VK_ERROR_DEVICE_LOST] ready_machine))).
  pose (s' := final (endFrame 2 s1)).
  assert (Hend : endFrame 2 s1 = Returns false s') by (vm_compute; reflexivity).
  exists s1, s'. split; [vm_compute; reflexivity |]. split; [exact Hend |].
  exact (endFrame_failure_reported 2 s1 s' Hend).
Defined.

(** ** The slot index over any sequence of operations *)

Lemma same_slots_refl p : same_slots p p.
Proof. by destruct p. Qed.

Lemma same_slots_sized n p p' : same_slots p p' -> slots_sized n p -> slots_sized n p'.
Proof. unfold same_slots. intros <-. by destruct p'. Qed.

Section Bounds.

Variable MAX_FRAMES_IN_FLIGHT : nat.

Lemma beginFrame_same_slots env s :
  post (beginFrame env)
       (fun _ s' => same_slots (self s) (self s') /\
                    currentFrame (self s') = currentFrame (self s) /\
                    (state (self s') = state (self s) \/
                     state (self s) = READY /\ state (self s') = RECREATING))
       (fun s' => same_slots (self s) (self s') /\
                  currentFrame (self s') = currentFrame (self s) /\
                  state (self s') = state (self s)) s.
Proof.
  unfold beginFrame. apply post_bind, post_this. post_step.
  { post_run. proj_simpl. split; [by destruct (self s) |]. auto. }
  apply negb_false_iff, bool_decide_eq_true in Heqb.
  apply post_bind, post_vkWaitForFences. intros s1 Hc1 Hp1 Ha1 Hi1.
  split; [intros _ | intros _; rewrite Hp1; split; [apply same_slots_refl | done]].
  apply post_bind, post_acquire. intros s2 Hc2 Hp2 Ha2.
  assert (Hs2 : same_slots (self s) (self s2) /\
                currentFrame (self s2) = currentFrame (self s) /\
                state (self s2) = READY).
  { rewrite Hp2, Hp1. destruct (acquired _); by destruct (self s). }
  clear Hp2. destruct Hs2 as (Hs2 & Hcf2 & Hst2).
  unfold updateUniformBuffer, vkCall, setError.
  repeat post_step; proj_simpl; rewrite ?Hcf2, ?Hst2, ?Heqb;
    (split; [| by auto]); revert Hs2; unfold same_slots; clear;
    destruct (self s2), (self s); simpl; intros Hs2; by simplify_eq.
Qed.

Lemma endFrame_same_slots s :
  wp (endFrame MAX_FRAMES_IN_FLIGHT)
     (fun _ s' => same_slots (self s) (self s') /\
                  (currentFrame (self s') = currentFrame (self s) \/
                   currentFrame (self s') =
                     (currentFrame (self s) + 1) `mod` MAX_FRAMES_IN_FLIGHT) /\
                  (state (self s') = state (self s) \/
                   state (self s) = READY /\ state (self s') = RECREATING)) s.
Proof.
  unfold endFrame, vkCall, setError, wp. apply post_bind, post_this. post_step.
  { post_run. proj_simpl. split; [by destruct (self s) |]. auto. }
  apply negb_false_iff, bool_decide_eq_true in Heqb.
  repeat post_step; proj_simpl; rewrite ?Heqb;
    (split; [| by auto 6]); by destruct (self s).
Qed.

Lemma recreateIfNeeded_unfold env s :
  state (self s) = RECREATING ->
  exists s2,
    self s2 = cleared (self s) /\
    recreateIfNeeded MAX_FRAMES_IN_FLIGHT env s = initialize MAX_FRAMES_IN_FLIGHT env s2.
Proof.
  intros Hst.
  set (s1 := log_all (idle_wait env ++
                      release_each Framebuffer (framebuffers (self s)))
                     (with_self (set_framebuffers []) s)).
  pose proof (cleanup_spec MAX_FRAMES_IN_FLIGHT env s1) as Hclean.
  set (s2 := {| self := cleared (self s1); calls := _; answers := _; images := _ |}) in Hclean.
  exists s2. split; [subst s2 s1; unfold log_all; by proj_simpl |].
  unfold recreateIfNeeded. step. rewrite Hst. cbn [bool_decide decide_rel negb].
  rewrite bool_decide_true by done. cbn [negb].
  step_by ltac:(apply waitIdle_spec). do 2 step.
  step_by ltac:(apply (for_each_emits
                  (fun _ i => release Framebuffer (vec_at (framebuffers (self s)) i)));
                intros; unfold vkDestroy; apply when_emit).
  assert (Hs1 : log_all (flat_map (fun i => release Framebuffer (vec_at (framebuffers (self s)) i))
                           (seq 0 (length (framebuffers (self s)))))
                  (with_self (set_framebuffers []) (log_all (idle_wait env) s)) = s1).
  { subst s1. apply St_eq; proj_simpl; try done. by rewrite <- app_assoc. }
  rewrite Hs1. step_by ltac:(exact Hclean).
  unfold bind, ret.
  by destruct (initialize MAX_FRAMES_IN_FLIGHT env s2) as [ok s'|s'|s'].
Qed.

Lemma initialize_in_bounds env s :
  in_bounds MAX_FRAMES_IN_FLIGHT (self s) ->
  in_bounds MAX_FRAMES_IN_FLIGHT (self (final (initialize MAX_FRAMES_IN_FLIGHT env s))).
Proof.
  intros [Hcf Hsized].
  destruct (decide (state (self s) = UNINITIALIZED)) as [Hu | Hu].
  - destruct (proj1 (wp_returns _ _ _)
                (initialize_summary MAX_FRAMES_IN_FLIGHT env s Hu))
      as (ok & s' & Hrun & s1 & [(Hstate & Hcur & _) _] & -> & Hok).
    rewrite Hrun. destruct ok; cbn [final].
    + destruct (Hok eq_refl) as [Hs _]. unfold in_bounds, slots_sized in *.
      proj_simpl. by rewrite Hcur.
    + split; [by rewrite Hcur |]. intros Hne. congruence.
  - unfold initialize, bind, this. rewrite bool_decide_false by done. simpl.
    split; [done |]. intros _. specialize (Hsized Hu). by destruct (self s).
Qed.

Lemma in_bounds_same_slots p p' :
  0 < MAX_FRAMES_IN_FLIGHT ->
  in_bounds MAX_FRAMES_IN_FLIGHT p ->
  same_slots p p' ->
  (currentFrame p' = currentFrame p \/
   currentFrame p' = (currentFrame p + 1) `mod` MAX_FRAMES_IN_FLIGHT) ->
  (state p' = state p \/ state p = READY /\ state p' = RECREATING) ->
  in_bounds MAX_FRAMES_IN_FLIGHT p'.
Proof.
  intros Hn [Hcf Hsized] Hsame Hcur Hstate. split.
  - destruct Hcur as [-> | ->]; [done |]. by apply Nat.mod_upper_bound, Nat.neq_0_lt_0.
  - intros Hne. eapply same_slots_sized; [exact Hsame |]. apply Hsized.
    destruct Hstate as [<- | [-> _]]; done.
Qed.

(** X7.  Whatever operations are called, in whatever order and with
    whatever answers from the driver, the slot index stays below the number
    of slots, and whenever the object is not uninitialised every collection
    indexed by slot has exactly one entry per slot.  So no operation ever
    indexes a slot collection out of range. *)
Theorem slot_index_stays_in_bounds (ops : list (Env * Op)) s :
  0 < MAX_FRAMES_IN_FLIGHT ->
  in_bounds MAX_FRAMES_IN_FLIGHT (self s) ->
  in_bounds MAX_FRAMES_IN_FLIGHT (self (run_ops MAX_FRAMES_IN_FLIGHT ops s)).
Proof.
  intros Hn. revert s. induction ops as [|[env op] ops IH]; intros s Hin; [done |].
  simpl. apply IH. clear IH. destruct op; unfold run_op.
  - by apply initialize_in_bounds.
  - rewrite cleanup_spec. simpl. destruct Hin as [Hcf _]. by split.
  - apply (post_final (beginFrame env)
             (fun s' => in_bounds MAX_FRAMES_IN_FLIGHT (self s'))).
    eapply post_mono; [apply beginFrame_same_slots | |].
    + intros _ s' (Hsame & Hcur & Hstate). eapply in_bounds_same_slots; eauto.
    + intros s' (Hsame & Hcur & Hstate). eapply in_bounds_same_slots; eauto.
  - apply (post_final (endFrame MAX_FRAMES_IN_FLIGHT)
             (fun s' => in_bounds MAX_FRAMES_IN_FLIGHT (self s'))).
    apply wp_post. eapply wp_mono; [apply endFrame_same_slots |].
    intros _ s' (Hsame & Hcur & Hstate). eapply in_bounds_same_slots; eauto.
  - destruct (decide (state (self s) = RECREATING)) as [Hr | Hr].
    + destruct (recreateIfNeeded_unfold env s Hr) as (s2 & Hself & ->).
      apply initialize_in_bounds. rewrite Hself. destruct Hin as [Hcf _]. by split.
    + unfold recreateIfNeeded, bind, this. by rewrite bool_decide_false.
  - by rewrite waitIdle_spec.
Qed.

End Bounds.

(** Two slots on the sample machine: initialised, a frame drawn, recreated
    and cleaned up, the slot index never leaves the two slots. *)
Lemma slot_index_stays_in_bounds_witness :
  in_bounds 2 (self (machine [])) /\
  in_bounds 2
    (self (run_ops 2 [(sample_env, OpInitialize); (sample_env, OpBeginFrame);
                      (sample_env, OpEndFrame); (sample_env, OpRecreateIfNeeded);
                      (sample_env, OpCleanup)] (machine []))).
Proof.
  assert (H : in_bounds 2 (self (machine []))).
  { split; [vm_compute; lia | intros Hne; by destruct Hne]. }
  split; [exact H |]. apply slot_index_stays_in_bounds; [lia | exact H].
Defined.

(** ** The failure [initialize] reports *)

Lemma find_app_None {A} (f : A -> bool) l l' :
  find f l = None -> find f (l ++ l') = find f l'.
Proof. induction l as [|a l IH]; simpl; [done |]. destruct (f a); [done | exact IH]. Qed.

Lemma build_outcome_refl s : build_outcome true s s.
Proof. exists []. by rewrite app_nil_r. Qed.

Lemma build_outcome_same s s' : calls s' = calls s -> build_outcome true s s'.
Proof. intros Hc. exists []. by rewrite app_nil_r. Qed.

Lemma build_outcome_trans ok s s1 s2 :
  build_outcome true s s1 -> build_outcome ok s1 s2 -> build_outcome ok s s2.
Proof.
  intros (new1 & Hc1 & H1) (new2 & Hc2 & H2). exists (new1 ++ new2).
  split; [by rewrite Hc2, Hc1, app_assoc |].
  destruct (find creation_failed new1) eqn:Hf; [by destruct H1 |].
  by rewrite find_app_None.
Qed.

Lemma post_createShaderModule code (Q : Handle -> St -> Prop) B s :
  (forall r s', is_success r = true ->
     calls s' = calls s ++ [EvCreate ShaderModule VK_NULL_HANDLE r (S (issued (calls s)))] ->
     self s' = self s ->
     Q (S (issued (calls s))) s') ->
  (forall r s', is_success r = false ->
     calls s' = calls s ++ [EvCreate ShaderModule VK_NULL_HANDLE r VK_NULL_HANDLE] ->
     self s' = self s ->
     Q VK_NULL_HANDLE s') ->
  post (createShaderModule code) Q B s.
Proof.
  intros Hok Hfail. unfold createShaderModule, vkCreate.
  repeat post_step; [eapply Hok | eapply Hfail]; first [eassumption | reflexivity].
Qed.

(** The outcome of straight-line code, read off the calls it made. *)
Ltac outcome_leaf :=
  unfold build_outcome; proj_simpl;
  repeat match goal with
         | H : calls _ = _ |- _ => rewrite H; clear H; proj_simpl
         end;
  rewrite <- ?app_assoc;
  eexists; split; [reflexivity |];
  cbn [app find creation_failed]; rewrite ?failed_spec;
  repeat match goal with
         | H : is_success _ = _ |- _ => rewrite H
         end;
  cbn [negb find creation_failed build_error]; done.

Ltac outcome_from H :=
  lazymatch type of H with
  | build_outcome true ?s ?s1 => apply (build_outcome_trans _ s s1 _ H); outcome_leaf
  end.

Lemma and_then_reports a b : Reports a -> Reports b -> Reports (a &&> b).
Proof.
  intros Ha Hb s. unfold and_then, wp. apply post_bind.
  eapply post_mono; [apply Ha | | auto].
  intros [|] s1 H1; simpl.
  - eapply post_mono; [apply Hb | | auto].
    intros ok s2 H2. by apply (build_outcome_trans _ _ s1).
  - by apply post_ret.
Qed.

Lemma for_upto_reports count body s :
  (forall i s1, build_outcome true s s1 ->
     wp (body i) (fun ok s2 => build_outcome ok s s2) s1) ->
  forall s1, build_outcome true s s1 ->
    wp (for_upto count 0 body) (fun ok s2 => build_outcome ok s s2) s1.
Proof.
  intros Hbody s1 H1. unfold wp.
  eapply post_mono;
    [ apply (post_for_upto (fun _ => build_outcome true s) (build_outcome false s)
               (fun _ => False) body count 0 s1 H1)
    | | auto ].
  - intros i s2 _ H2. eapply post_mono; [apply Hbody, H2 | | auto].
    by intros [|] s3.
  - by intros [|] s3.
Qed.

Section Reporting.

Variable MAX_FRAMES_IN_FLIGHT : nat.

Variable env : Env.

Lemma createDescriptorSetLayout_reports : Reports createDescriptorSetLayout.
Proof.
  intros s. unfold createDescriptorSetLayout, wp.
  apply post_bind, post_vkCreateInto; intros r s1 Hr Hc1 Hp1; post_run; outcome_leaf.
Qed.

Lemma createRenderPass_reports : Reports createRenderPass.
Proof.
  intros s. unfold createRenderPass, wp.
  apply post_bind, post_vkCreateInto; intros r s1 Hr Hc1 Hp1; post_run; outcome_leaf.
Qed.

Lemma createDescriptorPool_reports : Reports createDescriptorPool.
Proof.
  intros s. unfold createDescriptorPool, wp.
  apply post_bind, post_vkCreateInto; intros r s1 Hr Hc1 Hp1; post_run; outcome_leaf.
Qed.

Lemma createGraphicsPipeline_reports : Reports (createGraphicsPipeline env).
Proof.
  intros s. unfold createGraphicsPipeline, wp.
  apply post_bind.
  apply (post_mono _ (fun _ s0 => calls s0 = calls s) _ (fun _ => False));
    [unfold readFile; post_run; done | | done].
  intros vert s0 Hc0. apply post_bind.
  apply (post_mono _ (fun _ s0' => calls s0' = calls s) _ (fun _ => False));
    [unfold readFile; post_run; done | | done].
  clear s0 Hc0. intros frag s0 Hc0.
  apply post_bind, post_createShaderModule; intros r1 s1 Hr1 Hc1 Hp1;
    (apply post_bind, post_createShaderModule; intros r2 s2 Hr2 Hc2 Hp2);
    cbn [Nat.eqb orb VK_NULL_HANDLE]; try (post_run; outcome_leaf).
  all: apply post_bind, post_vkCreateInto; intros r3 s3 Hr3 Hc3 Hp3;
    [| post_run; outcome_leaf].
  all: post_step.
  all: apply post_bind, post_vkCreateInto; intros r4 s4 Hr4 Hc4 Hp4;
    post_run; outcome_leaf.
Qed.

Lemma createFramebuffers_reports : Reports (createFramebuffers env).
Proof.
  intros s. unfold createFramebuffers, wp. apply post_bind, post_modify.
  apply for_upto_reports; [| by apply build_outcome_same].
  intros i s1 H1. unfold wp.
  apply post_bind, post_vkCreateInto; intros r s2 Hr Hc2 Hp2; post_run; outcome_from H1.
Qed.

Lemma createCommandPools_reports : Reports (createCommandPools MAX_FRAMES_IN_FLIGHT).
Proof.
  intros s. unfold createCommandPools, wp. apply post_bind, post_modify.
  apply for_upto_reports; [| by apply build_outcome_same].
  intros i s1 H1. unfold wp.
  apply post_bind, post_vkCreateInto; intros r s2 Hr Hc2 Hp2; post_run; outcome_from H1.
Qed.

Lemma createCommandBuffers_reports : Reports (createCommandBuffers MAX_FRAMES_IN_FLIGHT).
Proof.
  intros s. unfold createCommandBuffers, wp. apply post_bind, post_modify.
  apply for_upto_reports; [| by apply build_outcome_same].
  intros i s1 H1. unfold wp. apply post_bind, post_this.
  apply post_bind, post_vkCreateInto; intros r s2 Hr Hc2 Hp2; post_run; outcome_from H1.
Qed.

Lemma createUniformBuffers_reports : Reports (createUniformBuffers MAX_FRAMES_IN_FLIGHT).
Proof.
  intros s. unfold createUniformBuffers, wp. do 3 (apply post_bind, post_modify).
  apply for_upto_reports; [| by apply build_outcome_same].
  intros i s1 H1. unfold wp.
  apply post_bind, post_vkCreateInto; intros r1 s2 Hr1 Hc2 Hp2;
    [| post_run; outcome_from H1].
  post_step. apply post_bind, post_this. apply post_bind, post_emit.
  apply post_bind, post_vkCreateInto; intros r2 s3 Hr2 Hc3 Hp3;
    [| post_run; outcome_from H1].
  post_run; outcome_from H1.
Qed.

Lemma createDescriptorSets_reports : Reports (createDescriptorSets MAX_FRAMES_IN_FLIGHT).
Proof.
  intros s. unfold createDescriptorSets, wp. apply post_bind, post_modify.
  apply post_bind, post_this.
  apply post_bind, post_vkAllocateDescriptorSets; intros r s2 Hr Hc2 Hp2;
    [| post_run; outcome_leaf].
  post_step.
  apply (post_for_each_inv (build_outcome true s)); [by outcome_leaf | |].
  - intros i s3 H3. post_run. outcome_from H3.
  - intros s3 H3. by apply post_ret.
Qed.

Lemma createSyncObjects_reports : Reports (createSyncObjects MAX_FRAMES_IN_FLIGHT).
Proof.
  intros s. unfold createSyncObjects, wp. do 3 (apply post_bind, post_modify).
  apply for_upto_reports; [| by apply build_outcome_same].
  intros i s1 H1. unfold wp.
  apply post_bind, post_vkCreateInto; intros r1 s2 Hr1 Hc2 Hp2;
    [| post_run; outcome_from H1].
  post_step.
  apply post_bind, post_vkCreateInto; intros r2 s3 Hr2 Hc3 Hp3;
    [| post_run; outcome_from H1].
  post_step.
  apply post_bind, post_vkCreateFenceInto; intros r3 s4 Hr3 Hc4 Hp4;
    post_run; outcome_from H1.
Qed.

Lemma createVertexBuffer_reports : Reports createVertexBuffer.
Proof. intros s. apply build_outcome_refl. Qed.

Lemma build_all_reports : Reports (build_all MAX_FRAMES_IN_FLIGHT env).
Proof.
  unfold build_all.
  repeat first
    [ apply and_then_reports
    | apply createDescriptorSetLayout_reports | apply createRenderPass_reports
    | apply createGraphicsPipeline_reports | apply createFramebuffers_reports
    | apply createCommandPools_reports | apply createCommandBuffers_reports
    | apply createUniformBuffers_reports | apply createDescriptorPool_reports
    | apply createDescriptorSets_reports | apply createSyncObjects_reports
    | apply createVertexBuffer_reports ].
Qed.

(** X8.  [initialize], called on an uninitialised object, returns failure
    exactly when one of its creation or allocation calls failed, and the
    error it leaves is the message of the build step for the first call that
    failed; the state is then still [UNINITIALIZED].  When none failed it
    returns success in state [READY].  Nothing else makes it fail: not a
    shader file that cannot be read, not a failure to bind or to map the
    memory of a uniform buffer. *)
Theorem initialize_reports_first_failure s :
  state (self s) = UNINITIALIZED ->
  exists ok s' new,
    initialize MAX_FRAMES_IN_FLIGHT env s = Returns ok s' /\
    calls s' = calls s ++ new /\
    match find creation_failed new with
    | None => ok = true /\ state (self s') = READY
    | Some e =>
        ok = false /\ state (self s') = UNINITIALIZED /\
        lastError (self s') = build_error e
    end.
Proof.
  intros Hst.
  destruct (initialize_runs_build MAX_FRAMES_IN_FLIGHT env s Hst)
    as (ok & s1 & Hbuild & [(Hstate & _) _] & Hinit).
  pose proof (build_all_reports s) as Hrep. unfold wp, post in Hrep.
  rewrite Hbuild in Hrep. destruct Hrep as (new & Hc & Hf).
  exists ok, (if ok then with_self (set_state READY) s1 else s1), new.
  split; [done |]. split; [by destruct ok |].
  destruct (find creation_failed new) as [e|].
  - destruct Hf as [-> Herr]. split; [done |]. split; [congruence | done].
  - subst ok. by split.
Qed.

End Reporting.

(** On the sample machine, the eighth call of the driver failing: it is the
    creation of the second framebuffer. *)
Lemma initialize_reports_first_failure_witness :
  exists s',
    initialize 2 sample_env (machine (failing_at 7)) = Returns false s' /\
    state (self s') = UNINITIALIZED /\
    lastError (self s') = "Failed to create framebuffer"%string.
Proof.
  destruct (initialize_reports_first_failure 2 sample_env (machine (failing_at 7)))
    as (ok & s' & new & Hrun & Hcalls & Hf); [vm_compute; reflexivity |].
  vm_compute in Hrun. injection Hrun as <- <-.
  vm_compute in Hcalls. subst new. vm_compute in Hf.
  destruct Hf as (_ & Hstate & Herr).
  eexists. split; [vm_compute; reflexivity |]. by split.
Defined.

(** ** The wiring of the slots *)

Lemma wp_run {A} (c : M A) Q s a s' : wp c Q s -> c s = Returns a s' -> Q a s'.
Proof. unfold wp, post. intros H Hrun. by rewrite Hrun in H. Qed.

Lemma and_then_true (a b : M bool) s s' :
  (a &&> b) s = Returns true s' ->
  exists s1, a s = Returns true s1 /\ b s1 = Returns true s'.
Proof.
  unfold and_then, bind. destruct (a s) as [[|] s1|s1|s1]; [eauto | | |]; discriminate.
Qed.

Lemma vec_at_insert_eq (v : list Handle) i h : i < length v -> vec_at (<[i := h]> v) i = h.
Proof. intros Hi. unfold vec_at. by rewrite list_lookup_insert_eq. Qed.

Lemma vec_at_insert_ne (v : list Handle) i j h : i <> j -> vec_at (<[i := h]> v) j = vec_at v j.
Proof. intros Hi. unfold vec_at. by rewrite list_lookup_insert_ne. Qed.

Lemma vec_at_resize (v : list Handle) n i :
  i < n -> vec_at (resize n VK_NULL_HANDLE v) i = vec_at v i.
Proof.
  intros Hi. unfold vec_at. destruct (decide (i < length v)) as [Hl | Hl].
  - by rewrite lookup_resize.
  - rewrite lookup_resize_new by lia. by rewrite lookup_ge_None_2 by lia.
Qed.

Lemma since_later s s1 s2 e :
  since s s1 e -> (exists new, calls s2 = calls s1 ++ new) -> since s s2 e.
Proof.
  intros (new1 & Hc1 & Hin) (new2 & Hc2). exists (new1 ++ new2).
  split; [by rewrite Hc2, Hc1, app_assoc | apply in_app_iff; by left].
Qed.

Lemma since_earlier s s1 s2 e :
  (exists new, calls s1 = calls s ++ new) -> since s1 s2 e -> since s s2 e.
Proof.
  intros (new1 & Hc1) (new2 & Hc2 & Hin). exists (new1 ++ new2).
  split; [by rewrite Hc2, Hc1, app_assoc | apply in_app_iff; by right].
Qed.

Lemma since_log s e : since s (log e s) e.
Proof. exists [e]. split; [done | by left]. Qed.

Lemma carried_refl fs s : carried fs s s.
Proof. split; [exists []; by rewrite app_nil_r | by apply Forall_forall]. Qed.

Lemma carried_trans fs s1 s2 s3 : carried fs s1 s2 -> carried fs s2 s3 -> carried fs s1 s3.
Proof.
  intros [(n1 & H1) F1] [(n2 & H2) F2]. split.
  - exists (n1 ++ n2). by rewrite H2, H1, app_assoc.
  - rewrite Forall_forall in *. intros f Hf. by rewrite F2, F1.
Qed.

Lemma carried_field fs f s s' : carried fs s s' -> In f fs -> f (self s') = f (self s).
Proof. intros [_ Hf] Hin. rewrite Forall_forall in Hf. by apply Hf, list_elem_of_In. Qed.

Lemma settled_carried fs fs' s s' :
  (forall f, In f fs' -> In f fs) -> settled fs s s' -> carried fs' s s'.
Proof.
  intros Hsub [(new & Hc & _) Hf]. split; [by exists new |].
  rewrite Forall_forall in *. intros f Hin%list_elem_of_In. by apply Hf, list_elem_of_In, Hsub.
Qed.

Ltac carried_leaf :=
  idtac;
  lazymatch goal with
  | H : carried ?fs ?s0 ?s1 |- carried ?fs ?s0 ?t =>
      lazymatch t with
      | context [s1] =>
          let new := fresh "new" in
          let Hc := fresh in
          let Hf := fresh in
          destruct H as [[new Hc] Hf]; split;
          [ proj_simpl; rewrite Hc, <- ?app_assoc; eexists; reflexivity
          | repeat match goal with
                   | Hx : Forall _ (_ :: _) |- _ => apply Forall_cons in Hx as [? Hx]
                   end;
            repeat constructor; proj_simpl; assumption ]
      end
  end.

Ltac carried_run :=
  idtac;
  lazymatch goal with
  | H : carried ?fs ?s0 _ |- _ => inv_run (carried fs s0) carried_leaf no_call
  end.

Section Wiring.

Variable MAX_FRAMES_IN_FLIGHT : nat.

Variable env : Env.

Lemma readFile_carries fn s0 s :
  carried [uniformBuffersMapped] s0 s ->
  wp (readFile env fn) (fun _ s' => carried [uniformBuffersMapped] s0 s') s.
Proof. intros H. unfold readFile. carried_run. Qed.

(** The steps before the uniform buffers leave the mapped pointers alone. *)
Lemma early_steps_carry s s1 s2 s3 s4 s5 s6 :
  createDescriptorSetLayout s = Returns true s1 ->
  createRenderPass s1 = Returns true s2 ->
  createGraphicsPipeline env s2 = Returns true s3 ->
  createFramebuffers env s3 = Returns true s4 ->
  createCommandPools MAX_FRAMES_IN_FLIGHT s4 = Returns true s5 ->
  createCommandBuffers MAX_FRAMES_IN_FLIGHT s5 = Returns true s6 ->
  carried [uniformBuffersMapped] s s6.
Proof.
  intros H1 H2 H3 H4 H5 H6.
  assert (K : forall (c : M bool) t t',
            (forall t0, carried [uniformBuffersMapped] t0 t ->
               wp c (fun _ t' => carried [uniformBuffersMapped] t0 t') t) ->
            c t = Returns true t' -> carried [uniformBuffersMapped] t t').
  { intros c t t' Hc Hrun. exact (wp_run _ _ _ _ _ (Hc t (carried_refl _ t)) Hrun). }
  assert (C1 : carried [uniformBuffersMapped] s s1).
  { eapply K; [| exact H1]. intros t0 H. unfold createDescriptorSetLayout. carried_run. }
  assert (C2 : carried [uniformBuffersMapped] s1 s2).
  { eapply K; [| exact H2]. intros t0 H. unfold createRenderPass. carried_run. }
  assert (C3 : carried [uniformBuffersMapped] s2 s3).
  { eapply K; [| exact H3]. intros t0 H. unfold createGraphicsPipeline.
    do 2 (apply (post_call (carried [uniformBuffersMapped] t0));
          [by apply readFile_carries | clear H; intros ? ? H]).
    carried_run. }
  assert (C4 : carried [uniformBuffersMapped] s3 s4).
  { eapply K; [| exact H4]. intros t0 H. unfold createFramebuffers. carried_run. }
  assert (C5 : carried [uniformBuffersMapped] s4 s5).
  { eapply K; [| exact H5]. intros t0 H. unfold createCommandPools. carried_run. }
  assert (C6 : carried [uniformBuffersMapped] s5 s6).
  { eapply K; [| exact H6]. intros t0 H. unfold createCommandBuffers. carried_run. }
  repeat (eapply carried_trans; [eassumption |]). apply carried_refl.
Qed.

Lemma live_grown new : forall tr h,
  grown tr new -> h <= issued tr ->
  live (tr ++ new) !! h = live tr !! h /\ h <= issued (tr ++ new).
Proof.
  induction new as [|e new IH]; intros tr h Hg Hh; simpl in Hg.
  - by rewrite app_nil_r.
  - destruct Hg as (Hn & Hd & Hg).
    replace (tr ++ e :: new) with ((tr ++ [e]) ++ new) by by rewrite <- app_assoc.
    pose proof (issued_le_snoc tr e) as Hle.
    destruct (IH (tr ++ [e]) h Hg ltac:(lia)) as [Hl Hi].
    split; [| done]. by rewrite Hl, live_numbered.
Qed.

Lemma buffers_paired_settled n s s' :
  settled [commandPools; commandBuffers] s s' -> buffers_paired n s -> buffers_paired n s'.
Proof.
  intros [(new & Hc & Hg) Hf] Hp i Hi.
  apply Forall_cons in Hf as [Hpools Hf]. apply Forall_cons in Hf as [Hbufs _].
  rewrite Hpools, Hbufs, Hc. destruct (Hp i Hi) as [Hle Hlive].
  destruct (live_grown new (calls s) _ Hg Hle) as [Hl Hle']. split; [done |].
  etrans; [exact Hl | exact Hlive].
Qed.

Lemma createCommandBuffers_paired s :
  wp (createCommandBuffers MAX_FRAMES_IN_FLIGHT)
     (fun ok s' => ok = true -> buffers_paired MAX_FRAMES_IN_FLIGHT s') s.
Proof.
  unfold createCommandBuffers, wp. apply post_bind, post_modify.
  eapply post_mono;
    [ apply (post_for_upto
        (fun i s' =>
           length (commandBuffers (self s')) = MAX_FRAMES_IN_FLIGHT /\
           buffers_paired i s')
        (fun _ => True) (fun _ => False)) | | auto ].
  - split; [simpl; by rewrite length_resize | intros i Hi; lia].
  - intros i s1 Hi (Hlen & Hp).
    apply post_bind, post_this.
    apply post_bind, post_vkCreateInto; intros r s2 Hr Hc2 Hp2; [| by post_run].
    post_step. apply post_ret. split.
    + rewrite Hp2. proj_simpl. by rewrite length_insert.
    + intros j Hj. rewrite Hp2, Hc2. proj_simpl. rewrite issued_snoc, live_snoc.
      simpl. rewrite Hr. simpl. unfold Handle in *.
      destruct (decide (j = i)) as [-> | Hne].
      * rewrite vec_at_insert_eq by (unfold Handle in *; lia).
        split; [lia |]. by rewrite lookup_insert_eq.
      * rewrite vec_at_insert_ne by done.
        destruct (Hp j ltac:(lia)) as [Hle Hl]. split; [lia |].
        rewrite lookup_insert_ne by lia. done.
  - intros [|] s' H; [| done]. intros _. by destruct H.
Qed.

Lemma createDescriptorSets_written s :
  wp (createDescriptorSets MAX_FRAMES_IN_FLIGHT)
     (fun ok s' => ok = true ->
        forall i, i < MAX_FRAMES_IN_FLIGHT -> descriptor_written s s' i) s.
Proof.
  unfold createDescriptorSets, wp. apply post_bind, post_modify.
  apply post_bind, post_this.
  apply post_bind, post_vkAllocateDescriptorSets; intros r s2 Hr Hc2 Hp2; [| by post_run].
  post_step. apply post_bind.
  eapply post_mono;
    [ apply (post_for_each
        (fun i s3 =>
           self s3 = self s2 /\ (exists new, calls s3 = calls s ++ new) /\
           forall j, j < i -> descriptor_written s s3 j)
        (fun _ => False)) | | auto ].
  - split; [done |]. split; [eexists; exact Hc2 |]. intros j Hj. lia.
  - intros i s3 Hi (Hself & Hnew & Hw). apply post_bind, post_this. apply post_emit.
    split; [done |]. split.
    { destruct Hnew as [new Hnew]. exists (new ++ [EvUpdateDescriptorSets
        (vec_at (descriptorSets (self s3)) i) (vec_at (uniformBuffers (self s3)) i)]).
      simpl. by rewrite Hnew, app_assoc. }
    intros j Hj. unfold descriptor_written. proj_simpl.
    destruct (decide (j = i)) as [-> | Hne].
    + eapply since_earlier; [exact Hnew | apply since_log].
    + eapply since_later; [apply Hw; lia | by eexists [_]].
  - intros [] s3 (Hself & Hnew & Hw). apply post_ret. intros _ i Hi. by apply Hw.
Qed.

Lemma createUniformBuffers_bound s :
  wp (createUniformBuffers MAX_FRAMES_IN_FLIGHT)
     (fun ok s' => ok = true ->
        forall i, i < MAX_FRAMES_IN_FLIGHT -> uniform_bound (self s) s s' i) s.
Proof.
  unfold createUniformBuffers, wp. do 3 (apply post_bind, post_modify).
  eapply post_mono;
    [ apply (post_for_upto
        (fun i s' =>
           length (uniformBuffers (self s')) = MAX_FRAMES_IN_FLIGHT /\
           length (uniformBuffersMemory (self s')) = MAX_FRAMES_IN_FLIGHT /\
           length (uniformBuffersMapped (self s')) = MAX_FRAMES_IN_FLIGHT /\
           (exists new, calls s' = calls s ++ new) /\
           (forall j, i <= j < MAX_FRAMES_IN_FLIGHT ->
              vec_at (uniformBuffersMapped (self s')) j =
              vec_at (uniformBuffersMapped (self s)) j) /\
           forall j, j < i -> uniform_bound (self s) s s' j)
        (fun _ => True) (fun _ => False)) | | auto ].
  - proj_simpl. rewrite !length_resize.
    split; [done |]. split; [done |]. split; [done |].
    split; [exists []; by rewrite app_nil_r |].
    split; [intros j Hj; apply vec_at_resize; lia | intros j Hj; lia].
  - intros i s1 Hi (Hlb & Hlm & Hlp & Hnew & Hrest & Hdone).
    apply post_bind, post_vkCreateInto; intros r1 s2 Hr1 Hc2 Hp2; [| by post_run].
    post_step. apply post_bind, post_this. apply post_bind, post_emit.
    apply post_bind, post_vkCreateInto; intros r2 s3 Hr2 Hc3 Hp3; [| by post_run].
    post_step. apply post_bind, post_this.
    cbn [self calls log] in Hc3, Hp3.
    assert (Hub3 : uniformBuffers (self s3) = <[i := S (issued (calls s1))]> (uniformBuffers (self s1))).
    { rewrite Hp3. proj_simpl. rewrite Hp2. by proj_simpl. }
    assert (Hmp3 : uniformBuffersMapped (self s3) = uniformBuffersMapped (self s1)).
    { rewrite Hp3. proj_simpl. rewrite Hp2. by proj_simpl. }
    assert (Hl3 : length (uniformBuffers (self s3)) = MAX_FRAMES_IN_FLIGHT /\
                  length (uniformBuffersMemory (self s3)) = MAX_FRAMES_IN_FLIGHT).
    { rewrite Hp3. proj_simpl. rewrite Hp2. proj_simpl. by rewrite !length_insert. }
    destruct Hl3 as [Hlb3 Hlm3].
    assert (Hnew3 : exists new, calls s3 = calls s ++ new).
    { destruct Hnew as [new Hnew]. eexists. rewrite Hc3, Hc2, Hnew.
      rewrite <- !app_assoc. reflexivity. }
    assert (Hold : forall j, j <> i ->
              vec_at (uniformBuffers (self s3)) j = vec_at (uniformBuffers (self s1)) j /\
              vec_at (uniformBuffersMemory (self s3)) j =
                vec_at (uniformBuffersMemory (self s1)) j).
    { intros j Hj. rewrite Hp3. proj_simpl. rewrite Hp2. proj_simpl.
      by rewrite !vec_at_insert_ne. }
    assert (Hc31 : exists new, calls s3 = calls s1 ++ new).
    { eexists. rewrite Hc3, Hc2, <- !app_assoc. reflexivity. }
    clear Hc2 Hp2 Hc3 Hp3 Hub3.
    assert (Hfin : forall t rb rm,
              calls t = calls s3 ++
                [EvBindBufferMemory (vec_at (uniformBuffers (self s3)) i)
                                    (vec_at (uniformBuffersMemory (self s3)) i) rb;
                 EvMapMemory (vec_at (uniformBuffersMemory (self s3)) i) rm] ->
              uniformBuffers (self t) = uniformBuffers (self s3) ->
              uniformBuffersMemory (self t) = uniformBuffersMemory (self s3) ->
              uniformBuffersMapped (self t) =
                (if is_success rm
                 then <[i := vec_at (uniformBuffersMemory (self s3)) i]>
                        (uniformBuffersMapped (self s3))
                 else uniformBuffersMapped (self s3)) ->
              length (uniformBuffers (self t)) = MAX_FRAMES_IN_FLIGHT /\
              length (uniformBuffersMemory (self t)) = MAX_FRAMES_IN_FLIGHT /\
              length (uniformBuffersMapped (self t)) = MAX_FRAMES_IN_FLIGHT /\
              (exists new, calls t = calls s ++ new) /\
              (forall j, S i <= j < MAX_FRAMES_IN_FLIGHT ->
                 vec_at (uniformBuffersMapped (self t)) j =
                 vec_at (uniformBuffersMapped (self s)) j) /\
              forall j, j < S i -> uniform_bound (self s) s t j).
    { intros t rb rm Hc Hb Hm Hp.
      assert (Hct : exists new, calls t = calls s3 ++ new) by (by eexists).
      assert (Hlt : length (uniformBuffersMapped (self t)) = MAX_FRAMES_IN_FLIGHT).
      { rewrite Hp, Hmp3. destruct (is_success rm); by rewrite ?length_insert. }
      assert (Hother : forall j, j <> i ->
                vec_at (uniformBuffersMapped (self t)) j =
                vec_at (uniformBuffersMapped (self s1)) j).
      { intros j Hj. rewrite Hp, Hmp3.
        destruct (is_success rm); by rewrite ?vec_at_insert_ne. }
      split; [by rewrite Hb |]. split; [by rewrite Hm |]. split; [done |].
      split.
      { destruct Hnew3 as [n3 Hn3]. eexists. rewrite Hc, Hn3, <- app_assoc. reflexivity. }
      split.
      { intros j Hj. rewrite Hother by lia. apply Hrest. lia. }
      intros j Hj. destruct (decide (j = i)) as [-> | Hne].
      - unfold uniform_bound. rewrite Hb, Hm. split.
        + exists rb. apply (since_earlier _ s3); [done |].
          eexists. split; [exact Hc | by left].
        + exists rm. split.
          * apply (since_earlier _ s3); [done |].
            eexists. split; [exact Hc | right; by left].
          * rewrite Hp, Hmp3. destruct (is_success rm).
            -- apply vec_at_insert_eq. unfold Handle in *. lia.
            -- apply Hrest. lia.
      - assert (Hc1 : exists new, calls t = calls s1 ++ new).
        { destruct Hc31 as [n31 Hn31]. eexists. rewrite Hc, Hn31, <- app_assoc.
          reflexivity. }
        destruct (Hdone j ltac:(lia)) as [(rb' & Hbind) (rm' & Hmap & Hval)].
        destruct (Hold j Hne) as [Hbj Hmj].
        unfold uniform_bound. rewrite Hb, Hm, Hbj, Hmj, Hother by done. split.
        + exists rb'. by apply (since_later _ s1).
        + exists rm'. split; [by apply (since_later _ s1) | done]. }
    unfold vkCall, when.
    repeat post_step;
      (eapply Hfin;
       [ proj_simpl; rewrite <- app_assoc; reflexivity
       | reflexivity | reflexivity
       | match goal with H : is_success _ = _ |- _ => rewrite H end; reflexivity ]).
  - intros [|] s' H; [| done]. intros _ i Hi.
    destruct H as (_ & _ & _ & _ & _ & H). by apply H.
Qed.

(** The steps after the command buffers destroy nothing and leave the
    vectors they do not fill as they are. *)
Lemma createUniformBuffers_settles_pairs :
  Settles [commandPools; commandBuffers] (createUniformBuffers MAX_FRAMES_IN_FLIGHT).
Proof. intros s0 s H. unfold createUniformBuffers. settled_run. Qed.

Lemma createDescriptorPool_settles_slots :
  Settles [commandPools; commandBuffers; uniformBuffers; uniformBuffersMemory;
           uniformBuffersMapped] createDescriptorPool.
Proof. intros s0 s H. unfold createDescriptorPool. settled_run. Qed.

Lemma createDescriptorSets_settles_slots :
  Settles [commandPools; commandBuffers; uniformBuffers; uniformBuffersMemory;
           uniformBuffersMapped] (createDescriptorSets MAX_FRAMES_IN_FLIGHT).
Proof. intros s0 s H. unfold createDescriptorSets. settled_run. Qed.

Lemma createSyncObjects_settles_slots :
  Settles [commandPools; commandBuffers; uniformBuffers; uniformBuffersMemory;
           uniformBuffersMapped; descriptorSets] (createSyncObjects MAX_FRAMES_IN_FLIGHT).
Proof. intros s0 s H. unfold createSyncObjects. settled_run. Qed.

Lemma settles_run fs (c : M bool) s ok s' :
  Settles fs c -> c s = Returns ok s' -> settled fs s s'.
Proof. intros Hc Hrun. exact (wp_run _ _ _ _ _ (Hc s s (settled_refl fs s)) Hrun). Qed.

Lemma settled_weaken fs fs' s s' :
  (forall f, In f fs' -> In f fs) -> settled fs s s' -> settled fs' s s'.
Proof.
  intros Hsub [Hg Hf]. split; [done |].
  rewrite Forall_forall in *. intros f Hin%list_elem_of_In. by apply Hf, list_elem_of_In, Hsub.
Qed.

Lemma settled_trans fs s1 s2 s3 : settled fs s1 s2 -> settled fs s2 s3 -> settled fs s1 s3.
Proof.
  intros [G1 F1] [G2 F2]. split; [by eapply grows_trans |].
  rewrite Forall_forall in *. intros f Hf. by rewrite F2, F1.
Qed.

Lemma uniform_bound_carried p0 s s1 s2 i :
  carried [uniformBuffers; uniformBuffersMemory; uniformBuffersMapped] s1 s2 ->
  uniform_bound p0 s s1 i -> uniform_bound p0 s s2 i.
Proof.
  intros Hc [(rb & Hbind) (rm & Hmap & Hval)].
  pose proof (carried_field _ uniformBuffers _ _ Hc ltac:(simpl; auto)) as Hb.
  pose proof (carried_field _ uniformBuffersMemory _ _ Hc ltac:(simpl; auto)) as Hm.
  pose proof (carried_field _ uniformBuffersMapped _ _ Hc ltac:(simpl; auto)) as Hp.
  destruct Hc as [Hnew _]. unfold uniform_bound. rewrite Hb, Hm, Hp. split.
  - exists rb. by apply (since_later _ s1).
  - exists rm. split; [by apply (since_later _ s1) | done].
Qed.

Lemma build_all_wires s s' i :
  build_all MAX_FRAMES_IN_FLIGHT env s = Returns true s' ->
  i < MAX_FRAMES_IN_FLIGHT ->
  slot_wired s s' i.
Proof.
  intros Hrun Hi. unfold build_all in Hrun.
  apply and_then_true in Hrun as (s1 & H1 & Hrun).
  apply and_then_true in Hrun as (s2 & H2 & Hrun).
  apply and_then_true in Hrun as (s3 & H3 & Hrun).
  apply and_then_true in Hrun as (s4 & H4 & Hrun).
  apply and_then_true in Hrun as (s5 & H5 & Hrun).
  apply and_then_true in Hrun as (s6 & H6 & Hrun).
  apply and_then_true in Hrun as (s7 & H7 & Hrun).
  apply and_then_true in Hrun as (s8 & H8 & Hrun).
  apply and_then_true in Hrun as (s9 & H9 & Hrun).
  apply and_then_true in Hrun as (s10 & H10 & Hrun).
  injection Hrun as <-.
  pose proof (early_steps_carry _ _ _ _ _ _ _ H1 H2 H3 H4 H5 H6) as C6.
  pose proof (settles_run _ _ _ _ _ createUniformBuffers_settles_pairs H7) as S7.
  pose proof (settles_run _ _ _ _ _ createDescriptorPool_settles_slots H8) as S8.
  pose proof (settles_run _ _ _ _ _ createDescriptorSets_settles_slots H9) as S9.
  pose proof (settles_run _ _ _ _ _ createSyncObjects_settles_slots H10) as S10.
  split; [| split].
  - assert (P6 : buffers_paired MAX_FRAMES_IN_FLIGHT s6).
    { exact (wp_run _ _ _ _ _ (createCommandBuffers_paired s5) H6 eq_refl). }
    assert (S : settled [commandPools; commandBuffers] s6 s10).
    { eapply settled_trans; [exact S7 |].
      eapply settled_trans; [eapply settled_weaken; [| exact S8]; simpl; tauto |].
      eapply settled_trans; [eapply settled_weaken; [| exact S9]; simpl; tauto |].
      eapply settled_weaken; [| exact S10]. simpl; tauto. }
    by apply (buffers_paired_settled _ _ _ S P6).
  - assert (W9 : descriptor_written s8 s9 i).
    { exact (wp_run _ _ _ _ _ (createDescriptorSets_written s8) H9 eq_refl i Hi). }
    assert (C10 : carried [descriptorSets; uniformBuffers] s9 s10).
    { eapply settled_carried; [| exact S10]. simpl; tauto. }
    assert (C8 : exists new, calls s8 = calls s ++ new).
    { destruct C6 as [[n6 E6] _]. destruct S7 as [(n7 & E7 & _) _].
      destruct S8 as [(n8 & E8 & _) _]. eexists.
      rewrite E8, E7, E6, <- !app_assoc. reflexivity. }
    unfold descriptor_written in *.
    rewrite (carried_field _ descriptorSets _ _ C10) by (simpl; auto).
    rewrite (carried_field _ uniformBuffers _ _ C10) by (simpl; auto).
    apply (since_earlier _ s8); [done |]. apply (since_later _ s9); [done |].
    by destruct C10.
  - assert (B7 : uniform_bound (self s6) s6 s7 i).
    { exact (wp_run _ _ _ _ _ (createUniformBuffers_bound s6) H7 eq_refl i Hi). }
    assert (C : carried [uniformBuffers; uniformBuffersMemory; uniformBuffersMapped] s7 s10).
    { eapply carried_trans; [eapply settled_carried; [| exact S8]; simpl; tauto |].
      eapply carried_trans; [eapply settled_carried; [| exact S9]; simpl; tauto |].
      eapply settled_carried; [| exact S10]. simpl; tauto. }
    apply (uniform_bound_carried _ _ _ _ _ C) in B7.
    destruct B7 as [(rb & Hbind) (rm & Hmap & Hval)].
    rewrite (carried_field _ uniformBuffersMapped _ _ C6) in Hval by (simpl; auto).
    destruct C6 as [Hn6 _]. split.
    + exists rb. by apply (since_earlier _ s6).
    + exists rm. split; [by apply (since_earlier _ s6) | done].
Qed.

(** X9.  After a successful [initialize], every slot is wired to itself:
    its command buffer is alive and was allocated from the command pool of
    the slot; its descriptor set was written to refer to the uniform buffer
    of the slot; that buffer was bound to the memory of the slot; and the
    pointer through which [updateUniformBuffer] writes the slot is the
    mapping of that same memory.  The results of the binding and of the
    mapping are not looked at: when the driver refuses the mapping,
    [initialize] succeeds all the same and the pointer of the slot is left
    as it was before the call, null on a new object. *)
Theorem initialize_wires_slots s s' i :
  state (self s) = UNINITIALIZED ->
  initialize MAX_FRAMES_IN_FLIGHT env s = Returns true s' ->
  i < MAX_FRAMES_IN_FLIGHT ->
  slot_wired s s' i.
Proof.
  intros Hst Hrun Hi.
  destruct (initialize_runs_build MAX_FRAMES_IN_FLIGHT env s Hst)
    as (ok & s1 & Hbuild & _ & Hinit).
  rewrite Hinit in Hrun. injection Hrun as -> <-.
  pose proof (build_all_wires s s1 i Hbuild Hi) as H.
  unfold slot_wired, descriptor_written, uniform_bound, since in *.
  proj_simpl. exact H.
Qed.

End Wiring.

(** On the sample machine, with the driver refusing to map the memory of
    the first uniform buffer: [initialize] succeeds, and the pointer of slot
    0 is null. *)
Lemma initialize_wires_slots_witness :
  exists s',
    initialize 2 sample_env (machine (failing_at 16)) = Returns true s' /\
    uniformBuffersMapped (self s') = [VK_NULL_HANDLE; 17] /\
    slot_wired (machine (failing_at 16)) s' 0 /\
    slot_wired (machine (failing_at 16)) s' 1.
Proof.
  pose (s' := final (initialize 2 sample_env (machine (failing_at 16)))).
  assert (Hrun : initialize 2 sample_env (machine (failing_at 16)) = Returns true s')
    by (vm_compute; reflexivity).
  exists s'. split; [exact Hrun |]. split; [vm_compute; reflexivity |].
  split; apply (initialize_wires_slots 2 sample_env _ s');
    first [exact Hrun | vm_compute; reflexivity | lia].
Defined.

(** ** A render loop that keeps going *)

Lemma fence_after_frame (m : gmap Handle FenceStatus) f st :
  m !! f = Some st ->
  alter (fun _ => Pending) f (alter (fun _ => Unsignaled) f (alter gpu_done f m))
  = <[f := Pending]> m.
Proof.
  intros Hf. apply map_eq. intros g. destruct (decide (g = f)) as [-> | Hne].
  - rewrite !lookup_alter_eq, lookup_insert_eq, Hf. reflexivity.
  - rewrite !lookup_alter_ne, lookup_insert_ne by done. reflexivity.
Qed.

(** The acquisition, with the image it takes from the driver. *)
Lemma post_acquire_image semaphore (Q : VkResult -> St -> Prop) B s :
  (forall s',
     calls s' = calls s ++
       [EvAcquireNextImage semaphore (answer_at 0 s)
          (if acquired (answer_at 0 s) then next_image s else 0)] ->
     self s' = (if acquired (answer_at 0 s)
                then set_currentImageIndex (next_image s) (self s) else self s) ->
     answers s' = tail (answers s) ->
     images s' = (if acquired (answer_at 0 s) then tail (images s) else images s) ->
     Q (answer_at 0 s) s') ->
  post (vkAcquireNextImageKHR semaphore) Q B s.
Proof.
  intros H. unfold vkAcquireNextImageKHR. apply post_bind, post_answer.
  rewrite next_answer_at. fold (acquired (answer_at 0 s)).
  destruct (acquired (answer_at 0 s)) eqn:Hacq.
  - unfold post. apply H; try done; by rewrite Hacq.
  - apply post_bind, post_emit, post_ret. apply H; try done; by rewrite Hacq.
Qed.

Lemma image_at_tail k s s' :
  images s' = tail (images s) -> image_at k s' = image_at (S k) s.
Proof. unfold image_at. intros ->. by destruct (images s). Qed.

Section Loop.

Variable MAX_FRAMES_IN_FLIGHT : nat.

Variable env : Env.

(** One frame with a driver that fails nothing. *)
Lemma frame_completes s :
  state (self s) = READY ->
  (exists st, fence_status (calls s)
                !! vec_at (inFlightFences (self s)) (currentFrame (self s)) = Some st /\
              st <> Unsignaled) ->
  nonnull (vec_at (uniformBuffersMapped (self s)) (currentFrame (self s))) = true ->
  never_fails s ->
  wp (frame MAX_FRAMES_IN_FLIGHT env)
     (fun _ s' =>
        self s' = set_currentFrame ((currentFrame (self s) + 1) `mod` MAX_FRAMES_IN_FLIGHT)
                    (set_currentImageIndex (next_image s) (self s)) /\
        fence_status (calls s') =
          <[vec_at (inFlightFences (self s)) (currentFrame (self s)) := Pending]>
            (fence_status (calls s)) /\
        images s' = tail (images s) /\
        never_fails s') s.
Proof.
  intros Hst (st & Hf & Hne) Hmapped Hall. unfold frame, wp. apply post_bind.
  unfold beginFrame. apply post_bind, post_this. rewrite bool_decide_true by done.
  cbn [negb].
  apply post_bind, post_vkWaitForFences. intros s1 Hc1 Hp1 Ha1 Hi1.
  split; [intros _ | intros Hun; rewrite Hf in Hun; congruence].
  apply post_bind, post_acquire_image.
  rewrite (answer_at_same 0 s s1 Ha1), (Hall 0).
  change (acquired VK_SUCCESS) with true. cbn iota.
  intros s2 Hc2 Hp2 Ha2 Hi2.
  change (VK_SUCCESS =? VK_ERROR_OUT_OF_DATE_KHR)%Z with false.
  change (negb (VK_SUCCESS =? VK_SUCCESS)%Z && negb (VK_SUCCESS =? VK_SUBOPTIMAL_KHR)%Z)
    with false.
  cbn iota.
  assert (Hk : forall k, answer_at k s2 = VK_SUCCESS).
  { intros k. rewrite (answer_at_tail k s1 s2 Ha2), (answer_at_same _ s s1 Ha1).
    apply Hall. }
  unfold endFrame, updateUniformBuffer, vkCall, setError.
  repeat lazymatch goal with
    | |- post (bind _ _) _ _ _ => apply post_bind
    | |- post (ret _) _ _ _ => apply post_ret
    | |- post this _ _ _ => apply post_this
    | |- post (modify _) _ _ _ => apply post_modify
    | |- post (emit _) _ _ _ => apply post_emit
    | |- post answer _ _ _ => apply post_answer; answers_norm; rewrite ?Hk
    | |- post (if failed VK_SUCCESS then _ else _) _ _ _ =>
        change (failed VK_SUCCESS) with false; cbn iota
    | |- post (if negb (bool_decide _) then _ else _) _ _ _ =>
        rewrite bool_decide_true by (proj_simpl; by rewrite Hp2, Hp1); cbn [negb]
    | |- post (if (VK_SUCCESS =? _)%Z || _ then _ else _) _ _ _ =>
        change ((VK_SUCCESS =? VK_ERROR_OUT_OF_DATE_KHR)%Z
                || (VK_SUCCESS =? VK_SUBOPTIMAL_KHR)%Z) with false; cbn iota
    | |- post (if negb (VK_SUCCESS =? VK_SUCCESS)%Z then _ else _) _ _ _ =>
        change (negb (VK_SUCCESS =? VK_SUCCESS)%Z) with false; cbn iota
    | |- post (if true then _ else _) _ _ _ => cbn iota
    | |- post (if nonnull _ then _ else _) _ _ _ =>
        proj_simpl; rewrite Hp2, Hp1; proj_simpl; rewrite Hmapped; cbn iota
    end.
  proj_simpl. rewrite !Hp2, !Hp1. proj_simpl.
  split; [| split; [| split]].
  - unfold next_image. by rewrite Hi1.
  - rewrite Hc2, Hc1, !fence_status_snoc. cbn [fence_step].
    change (is_success VK_SUCCESS) with true. cbn iota.
    by apply (fence_after_frame _ _ st).
  - by rewrite Hi2, Hi1.
  - intros k. answers_norm. apply Hk.
Qed.

(** X10.  A render loop with a driver that fails no call, and hands out
    only images that have a framebuffer, never stops: from a state in which
    the object can draw, with the uniform block of every slot mapped, any
    number of frames, each a [beginFrame] followed by an [endFrame], all
    return, none waits for ever on a fence, and the object can draw again,
    the slot index having gone round the slots once per frame. *)
Theorem frames_never_block n : forall s,
  0 < MAX_FRAMES_IN_FLIGHT ->
  can_draw MAX_FRAMES_IN_FLIGHT s ->
  never_fails s ->
  images_in_range s ->
  exists s',
    frames MAX_FRAMES_IN_FLIGHT env n s = Returns tt s' /\
    can_draw MAX_FRAMES_IN_FLIGHT s' /\
    never_fails s' /\
    images_in_range s' /\
    inFlightFences (self s') = inFlightFences (self s) /\
    currentFrame (self s') = (currentFrame (self s) + n) `mod` MAX_FRAMES_IN_FLIGHT.
Proof.
  induction n as [|n IH]; intros s Hn Hcan Hall Himg.
  - exists s. split; [done |]. split; [done |]. split; [done |]. split; [done |].
    split; [done |].
    destruct Hcan as (_ & Hcf & _). rewrite Nat.add_0_r. by rewrite Nat.mod_small.
  - destruct Hcan as (Hst & Hcf & Hfences & Hmapped).
    destruct (proj1 (wp_returns _ _ _)
                (frame_completes s Hst (Hfences _ Hcf) (Hmapped _ Hcf) Hall))
      as ([] & s1 & Hrun & Hself & Hstatus & Himages & Hall1).
    assert (Hcan1 : can_draw MAX_FRAMES_IN_FLIGHT s1).
    { unfold can_draw. rewrite !Hself. proj_simpl. split; [done |]. split; [| split].
      - apply Nat.mod_upper_bound. lia.
      - intros i Hi. rewrite Hstatus.
        destruct (decide (vec_at (inFlightFences (self s)) i =
                          vec_at (inFlightFences (self s)) (currentFrame (self s))))
          as [-> | Hne].
        + exists Pending. by rewrite lookup_insert_eq.
        + rewrite lookup_insert_ne by done. by apply Hfences.
      - exact Hmapped. }
    assert (Himg1 : images_in_range s1).
    { intros k. rewrite (image_at_tail k s s1 Himages), Hself. proj_simpl. apply Himg. }
    destruct (IH s1 Hn Hcan1 Hall1 Himg1)
      as (s' & Hrest & Hcan' & Hall' & Himg' & Hf' & Hcf').
    exists s'. split.
    { cbn [frames]. unfold bind. by rewrite Hrun. }
    split; [done |]. split; [done |]. split; [done |]. split.
    { rewrite Hf', Hself. by proj_simpl. }
    rewrite Hcf', Hself. proj_simpl. rewrite Nat.Div0.add_mod_idemp_l.
    f_equal. lia.
Qed.

End Loop.

(** On the sample machine: five frames on two slots leave slot 1 next. *)
Lemma frames_never_block_witness :
  exists s',
    frames 2 sample_env 5 ready_machine = Returns tt s' /\
    can_draw 2 s' /\
    currentFrame (self s') = 1.
Proof.
  destruct (frames_never_block 2 sample_env 5 ready_machine)
    as (s' & Hrun & Hcan & _ & _ & _ & Hslot).
  - lia.
  - split; [vm_compute; reflexivity |]. split; [vm_compute; lia |]. split.
    + intros i Hi. exists Signaled. split; [| discriminate].
      destruct i as [|[|i]]; [vm_compute; reflexivity | vm_compute; reflexivity | lia].
    + intros i Hi.
      destruct i as [|[|i]]; [vm_compute; reflexivity | vm_compute; reflexivity | lia].
  - intros k. unfold answer_at. change (answers ready_machine) with (@nil VkResult).
    by rewrite lookup_nil.
  - intros k. unfold image_at. change (images ready_machine) with (@nil nat).
    rewrite lookup_nil. vm_compute. lia.
  - exists s'. split; [exact Hrun |]. split; [exact Hcan |].
    rewrite Hslot. vm_compute. reflexivity.
Defined.

(** ** A slot whose uniform block was never mapped *)

(** A computation that neither returns nor blocks has faulted. *)
Lemma post_faults {A} (c : M A) (B : St -> Prop) s :
  post c (fun _ _ => False) B s ->
  (forall s', c s <> Blocks s') ->
  exists s', c s = Faults s' /\ B s'.
Proof.
  unfold post. destruct (c s) as [a s'|s'|s']; intros H Hnb.
  - contradiction.
  - by destruct (Hnb s').
  - by exists s'.
Qed.

Section Unmapped.

Variable env : Env.

Lemma beginFrame_stops_at_write s :
  state (self s) = READY ->
  fence_status (calls s) !! vec_at (inFlightFences (self s)) (currentFrame (self s))
    <> Some Unsignaled ->
  acquired (answer_at 0 s) = true ->
  is_success (answer_at 1 s) = true ->
  nonnull (vec_at (uniformBuffersMapped (self s)) (currentFrame (self s))) = false ->
  post (beginFrame env) (fun _ _ => False)
       (fun s' =>
          self s' = set_currentImageIndex (next_image s) (self s) /\
          calls s' = calls s ++
            [ EvWaitForFences (vec_at (inFlightFences (self s)) (currentFrame (self s)))
                (fence_status (calls s)
                   !! vec_at (inFlightFences (self s)) (currentFrame (self s)));
              EvAcquireNextImage
                (vec_at (imageAvailableSemaphores (self s)) (currentFrame (self s)))
                (answer_at 0 s) (next_image s);
              EvResetFences (vec_at (inFlightFences (self s)) (currentFrame (self s)));
              EvResetCommandBuffer (getCurrentCommandBuffer (self s));
              EvBeginCommandBuffer (getCurrentCommandBuffer (self s)) (answer_at 1 s);
              EvCmd (getCurrentCommandBuffer (self s))
                (CmdBeginRenderPass (renderPass (self s))
                   (vec_at (framebuffers (self s)) (next_image s))
                   (sc_width (swapChain env)) (sc_height (swapChain env)));
              EvCmd (getCurrentCommandBuffer (self s))
                (CmdBindPipeline (graphicsPipeline (self s))) ]) s.
Proof.
  intros Hst Hwait Hacq Hrec Hnull. unfold beginFrame.
  apply post_bind, post_this. rewrite bool_decide_true by done. cbn [negb].
  apply post_bind, post_vkWaitForFences. intros s1 Hc1 Hp1 Ha1 Hi1.
  split; [intros _ | done].
  apply post_bind, post_acquire.
  rewrite (answer_at_same 0 s s1 Ha1), Hacq.
  intros s2 Hc2 Hp2 Ha2.
  rewrite (acquired_not_out_of_date _ Hacq), (acquired_not_fatal _ Hacq).
  assert (Hk : answer_at 0 s2 = answer_at 1 s).
  { rewrite (answer_at_tail 0 s1 s2 Ha2). by apply answer_at_same. }
  assert (Hi : next_image s1 = next_image s).
  { unfold next_image. by rewrite Hi1. }
  unfold updateUniformBuffer, vkCall, setError, getCurrentCommandBuffer.
  repeat post_step; answers_norm;
    try (rewrite Hk, Hrec in *; discriminate).
  - mapped_simpl. rewrite Hp2, Hp1 in *. proj_simpl. mapped_simpl.
    rewrite Hnull in *. discriminate.
  - proj_simpl. rewrite Hp2, Hp1, Hi. proj_simpl. split; [done |].
    rewrite Hc2, Hc1, Hi, Hk, <- !app_assoc. reflexivity.
Qed.

(** X17.  [createUniformBuffers] does not look at the result of
    [vkMapMemory], and [updateUniformBuffer] copies to the mapped pointer of
    the slot without looking at it.  So in state [READY], on a slot whose
    uniform block is not mapped, a [beginFrame] that gets past its wait,
    acquires an image that has a framebuffer and begins recording does not
    return: it stops in [updateUniformBuffer], at the copy to a null
    pointer, having reset the fence of the slot, begun the render pass and
    bound the pipeline; the descriptor set is never bound. *)
Theorem beginFrame_unmapped_faults s :
  state (self s) = READY ->
  fence_status (calls s) !! vec_at (inFlightFences (self s)) (currentFrame (self s))
    <> Some Unsignaled ->
  next_image s < length (framebuffers (self s)) ->
  acquired (answer_at 0 s) = true ->
  is_success (answer_at 1 s) = true ->
  nonnull (vec_at (uniformBuffersMapped (self s)) (currentFrame (self s))) = false ->
  exists s',
    beginFrame env s = Faults s' /\
    self s' = set_currentImageIndex (next_image s) (self s) /\
    calls s' = calls s ++
      [ EvWaitForFences (vec_at (inFlightFences (self s)) (currentFrame (self s)))
          (fence_status (calls s)
             !! vec_at (inFlightFences (self s)) (currentFrame (self s)));
        EvAcquireNextImage
          (vec_at (imageAvailableSemaphores (self s)) (currentFrame (self s)))
          (answer_at 0 s) (next_image s);
        EvResetFences (vec_at (inFlightFences (self s)) (currentFrame (self s)));
        EvResetCommandBuffer (getCurrentCommandBuffer (self s));
        EvBeginCommandBuffer (getCurrentCommandBuffer (self s)) (answer_at 1 s);
        EvCmd (getCurrentCommandBuffer (self s))
          (CmdBeginRenderPass (renderPass (self s))
             (vec_at (framebuffers (self s)) (next_image s))
             (sc_width (swapChain env)) (sc_height (swapChain env)));
        EvCmd (getCurrentCommandBuffer (self s))
          (CmdBindPipeline (graphicsPipeline (self s))) ].
Proof.
  intros Hst Hwait _ Hacq Hrec Hnull.
  apply post_faults.
  - by apply beginFrame_stops_at_write.
  - intros s'. by apply beginFrame_never_blocks.
Qed.

End Unmapped.

(** On the sample machine, with the mapping of the first uniform block
    refused (the driver's call number 16): [initialize] returns success all
    the same, slot 0 is left without a mapped block, and the first
    [beginFrame] stops at the write. *)
Lemma beginFrame_unmapped_faults_witness :
  exists s0 s',
    initialize 2 sample_env (machine (failing_at 16)) = Returns true s0 /\
    state (self s0) = READY /\
    uniformBuffersMapped (self s0) = [0; 17] /\
    beginFrame sample_env s0 = Faults s' /\
    last (calls s') = Some (EvCmd 12 (CmdBindPipeline 6)).
Proof.
  pose (s0 := final (initialize 2 sample_env (machine (failing_at 16)))).
  destruct (beginFrame_unmapped_faults sample_env s0)
    as (s' & Hrun & _ & Hcalls).
  - vm_compute. reflexivity.
  - vm_compute. discriminate.
  - vm_compute. lia.
  - vm_compute. reflexivity.
  - vm_compute. reflexivity.
  - vm_compute. reflexivity.
  - exists s0, s'. split; [vm_compute; reflexivity |].
    split; [vm_compute; reflexivity |]. split; [vm_compute; reflexivity |].
    split; [exact Hrun |]. rewrite Hcalls. vm_compute. reflexivity.
Defined.

(** ** What [initialize] leaves for [cleanup] *)

Lemma live_quiet tr e :
  created_by e = [] -> no_destroy e = true -> live (tr ++ [e]) = live tr.
Proof.
  intros Hc Hd. rewrite live_snoc.
  destruct e; simpl in *; try done; destruct (is_success r); try done.
  by subst.
Qed.

Lemma issued_quiet tr e : created_by e = [] -> issued (tr ++ [e]) = issued tr.
Proof. intros Hc. rewrite issued_snoc, Hc. simpl. lia. Qed.

Lemma live_step_Some m e x v :
  creates_nothing e -> live_step m e !! x = Some v -> m !! x = Some v.
Proof.
  unfold creates_nothing. intros He.
  destruct e; cbn [live_step created_by] in *; try done;
    try (destruct (is_success r); [subst |]; done).
  case_decide; [done |]. intros Hx. by apply map_lookup_filter_Some in Hx as [Hx _].
Qed.

Lemma foldl_live_Some new : forall m x v,
  Forall creates_nothing new -> foldl live_step m new !! x = Some v -> m !! x = Some v.
Proof.
  induction new as [|e new IH]; intros m x v Hall Hx; simpl in *; [done |].
  inversion Hall; subst. eapply live_step_Some; [eassumption |]. by eapply IH.
Qed.

Section Accounting.

Variable tr0 : list Event.

Lemma acc_keeps sh p p' tr :
  accounted tr0 sh p tr -> keeps_fresh tr0 p p' -> accounted tr0 sh p' tr.
Proof.
  intros [Hle Hacc] Hk. split; [done |]. intros h k parent Hl.
  destruct (Hacc _ _ _ Hl) as [Hold | [Hh [Hown | [(kp & Hown & Hp) | Hs]]]]; [by left | | |].
  - right. split; [done |]. left. by apply Hk.
  - right. split; [done |]. right. left. exists kp. split; [by apply Hk | done].
  - right. split; [done |]. right. by right.
Qed.

Lemma acc_more sh sh' p tr :
  accounted tr0 sh p tr -> (forall x, In x sh -> In x sh') -> accounted tr0 sh' p tr.
Proof.
  intros [Hle Hacc] Hincl. split; [done |]. intros h k parent Hl.
  destruct (Hacc _ _ _ Hl) as [Hold | [Hh [Hown | [Hch | [Hk Hs]]]]]; auto 10.
Qed.

Lemma acc_quiet sh p tr e :
  accounted tr0 sh p tr -> created_by e = [] -> no_destroy e = true ->
  accounted tr0 sh p (tr ++ [e]).
Proof.
  intros [Hle Hacc] Hc Hd. split; [by rewrite issued_quiet |].
  by rewrite live_quiet.
Qed.

Lemma acc_create sh p tr k parent r :
  accounted tr0 sh p tr -> is_success r = true ->
  In (k, S (issued tr)) (owned p) \/
  (exists kp, In (kp, parent) (owned p) /\ issued tr0 < parent) \/
  (k = ShaderModule /\ In (S (issued tr)) sh) ->
  accounted tr0 sh p (tr ++ [EvCreate k parent r (S (issued tr))]).
Proof.
  intros [Hle Hacc] Hr Hnew. split; [rewrite issued_snoc; lia |].
  intros h k' parent'. rewrite live_snoc. cbn [live_step]. rewrite Hr.
  destruct (decide (h = S (issued tr))) as [-> | Hne].
  - rewrite lookup_insert_eq. intros [= <- <-]. right. split; [lia | done].
  - rewrite lookup_insert_ne by done. apply Hacc.
Qed.

Lemma acc_shader sh p tr r :
  accounted tr0 sh p tr -> is_success r = true ->
  accounted tr0 (S (issued tr) :: sh) p
    (tr ++ [EvCreate ShaderModule VK_NULL_HANDLE r (S (issued tr))]).
Proof.
  intros Ha Hr. apply acc_create; [| done | right; right; split; [done | by left]].
  apply (acc_more _ _ _ _ Ha). intros x Hx. by right.
Qed.

Lemma acc_failed sh p tr k parent r h :
  is_success r = false -> accounted tr0 sh p tr ->
  accounted tr0 sh p (tr ++ [EvCreate k parent r h]).
Proof. intros Hr Ha. apply acc_quiet; [done | by (simpl; rewrite Hr) | done]. Qed.

Lemma acc_create_fence sh p tr flags r :
  accounted tr0 sh p tr -> is_success r = true ->
  In (Fence, S (issued tr)) (owned p) ->
  accounted tr0 sh p (tr ++ [EvCreateFence flags r (S (issued tr))]).
Proof.
  intros [Hle Hacc] Hr Hnew. split; [rewrite issued_snoc; lia |].
  intros h k' parent'. rewrite live_snoc. cbn [live_step]. rewrite Hr.
  destruct (decide (h = S (issued tr))) as [-> | Hne].
  - rewrite lookup_insert_eq. intros [= <- <-]. right. split; [lia | by left].
  - rewrite lookup_insert_ne by done. apply Hacc.
Qed.

Lemma acc_allocate sh p tr pool r count kp :
  accounted tr0 sh p tr -> is_success r = true ->
  In (kp, pool) (owned p) -> issued tr0 < pool ->
  accounted tr0 sh p
    (tr ++ [EvAllocateDescriptorSets pool r (seq (S (issued tr)) count)]).
Proof.
  intros [Hle Hacc] Hr Hpool Hfresh. split; [rewrite issued_snoc; lia |].
  intros h k' parent'. rewrite live_snoc. cbn [live_step]. rewrite Hr.
  destruct (in_dec Nat.eq_dec h (seq (S (issued tr)) count)) as [Hin | Hout].
  - rewrite lookup_foldr_insert by done. intros [= <- <-].
    apply in_seq in Hin. right. split; [lia |]. right. left. eauto.
  - rewrite lookup_foldr_insert_ne by done. apply Hacc.
Qed.

Lemma acc_destroy sh sh' p tr k hd :
  accounted tr0 sh p tr ->
  (forall x, In x sh -> (x = hd /\ hd <> VK_NULL_HANDLE) \/ In x sh') ->
  accounted tr0 sh' p (tr ++ [EvDestroy k hd]).
Proof.
  intros [Hle Hacc] Hsh. split; [by rewrite issued_quiet |].
  intros h k' parent'. rewrite live_snoc. cbn [live_step].
  intros Hl.
  assert (Hbefore : live tr !! h = Some (k', parent')).
  { case_decide; [done |]. by apply map_lookup_filter_Some in Hl as [Hl _]. }
  destruct (Hacc _ _ _ Hbefore) as [Hold | [Hh [Hown | [Hch | [Hk Hs]]]]]; auto 10.
  destruct (Hsh _ Hs) as [[-> Hnn] | Hin]; [| auto 10].
  rewrite decide_False in Hl by done.
  apply map_lookup_filter_Some in Hl as [_ [Hne _]]. by destruct Hne.
Qed.

Lemma keeps_fresh_same p p' : owned p' = owned p -> keeps_fresh tr0 p p'.
Proof. intros H k h Hin _. by rewrite H. Qed.

Lemma keeps_fresh_trans p1 p2 p3 :
  keeps_fresh tr0 p1 p2 -> keeps_fresh tr0 p2 p3 -> keeps_fresh tr0 p1 p3.
Proof. intros H1 H2 k h Hin Hh. apply H2; [by apply H1 | done]. Qed.

End Accounting.

Ltac fresh_tac :=
  let Hold := fresh "Hold" in
  let Hin := fresh "Hin" in
  let Hh := fresh "Hh" in
  intros Hold ? ? Hin Hh; unfold owned in *; proj_simpl;
  rewrite !in_app_iff in *; rewrite !in_map_iff in *; simpl in *;
  repeat destruct Hin as [Hin | Hin];
  first [ contradiction
        | by auto 20
        | injection Hin as <- <-; lia
        | destruct Hin as (? & [= <- <-] & Hin); eauto 20 ].

Section Setters.

Variable tr0 : list Event.

Lemma keeps_fresh_descriptorSetLayout p h' :
  descriptorSetLayout p <= issued tr0 -> keeps_fresh tr0 p (set_descriptorSetLayout h' p).
Proof. fresh_tac. Qed.

Lemma keeps_fresh_renderPass p h' :
  renderPass p <= issued tr0 -> keeps_fresh tr0 p (set_renderPass h' p).
Proof. fresh_tac. Qed.

Lemma keeps_fresh_pipelineLayout p h' :
  pipelineLayout p <= issued tr0 -> keeps_fresh tr0 p (set_pipelineLayout h' p).
Proof. fresh_tac. Qed.

Lemma keeps_fresh_graphicsPipeline p h' :
  graphicsPipeline p <= issued tr0 -> keeps_fresh tr0 p (set_graphicsPipeline h' p).
Proof. fresh_tac. Qed.

Lemma keeps_fresh_descriptorPool p h' :
  descriptorPool p <= issued tr0 -> keeps_fresh tr0 p (set_descriptorPool h' p).
Proof. fresh_tac. Qed.

Lemma keeps_fresh_framebuffers p v' :
  (forall x, In x (framebuffers p) -> issued tr0 < x -> In x v') ->
  keeps_fresh tr0 p (set_framebuffers v' p).
Proof. fresh_tac. Qed.

Lemma keeps_fresh_commandPools p v' :
  (forall x, In x (commandPools p) -> issued tr0 < x -> In x v') ->
  keeps_fresh tr0 p (set_commandPools v' p).
Proof. fresh_tac. Qed.

Lemma keeps_fresh_uniformBuffers p v' :
  (forall x, In x (uniformBuffers p) -> issued tr0 < x -> In x v') ->
  keeps_fresh tr0 p (set_uniformBuffers v' p).
Proof. fresh_tac. Qed.

Lemma keeps_fresh_uniformBuffersMemory p v' :
  (forall x, In x (uniformBuffersMemory p) -> issued tr0 < x -> In x v') ->
  keeps_fresh tr0 p (set_uniformBuffersMemory v' p).
Proof. fresh_tac. Qed.

Lemma keeps_fresh_imageAvailableSemaphores p v' :
  (forall x, In x (imageAvailableSemaphores p) -> issued tr0 < x -> In x v') ->
  keeps_fresh tr0 p (set_imageAvailableSemaphores v' p).
Proof. fresh_tac. Qed.

Lemma keeps_fresh_renderFinishedSemaphores p v' :
  (forall x, In x (renderFinishedSemaphores p) -> issued tr0 < x -> In x v') ->
  keeps_fresh tr0 p (set_renderFinishedSemaphores v' p).
Proof. fresh_tac. Qed.

Lemma keeps_fresh_inFlightFences p v' :
  (forall x, In x (inFlightFences p) -> issued tr0 < x -> In x v') ->
  keeps_fresh tr0 p (set_inFlightFences v' p).
Proof. fresh_tac. Qed.

(** Overwriting a vector that holds nothing new, or one slot of its part
    that holds nothing new. *)
Lemma fresh_none (v v' : list Handle) x :
  Forall (fun h => h <= issued tr0) v -> In x v -> issued tr0 < x -> In x v'.
Proof.
  intros Hall Hin Hx. rewrite Forall_forall in Hall.
  apply list_elem_of_In, Hall in Hin. lia.
Qed.

Lemma fresh_insert (v : list Handle) i h x :
  Forall (fun h => h <= issued tr0) (drop i v) ->
  In x v -> issued tr0 < x -> In x (<[i := h]> v).
Proof.
  intros Hall Hin Hx. apply list_elem_of_In, list_elem_of_lookup in Hin as [j Hj].
  destruct (decide (j = i)) as [-> | Hne].
  - rewrite Forall_forall in Hall.
    assert (x ∈ drop i v) as Hd.
    { apply list_elem_of_lookup. exists 0. by rewrite lookup_drop, Nat.add_0_r. }
    apply Hall in Hd. lia.
  - apply list_elem_of_In, list_elem_of_lookup. exists j.
    by rewrite list_lookup_insert_ne.
Qed.

Lemma old_resize (v : list Handle) n :
  Forall (fun h => h <= issued tr0) v ->
  Forall (fun h => h <= issued tr0) (drop 0 (resize n VK_NULL_HANDLE v)).
Proof.
  intros Hall. rewrite drop_0. apply Forall_resize; [| done].
  unfold VK_NULL_HANDLE. lia.
Qed.

Lemma old_next (v : list Handle) i h :
  Forall (fun h => h <= issued tr0) (drop i v) ->
  Forall (fun h => h <= issued tr0) (drop (S i) (<[i := h]> v)).
Proof.
  intros Hall. rewrite drop_insert_lt by lia.
  replace (S i) with (i + 1) by lia. rewrite <- drop_drop. by apply Forall_drop.
Qed.

Lemma in_insert (v : list Handle) i h : i < length v -> In h (<[i := h]> v).
Proof.
  intros Hi. apply list_elem_of_In, list_elem_of_lookup. exists i.
  by apply list_lookup_insert_eq.
Qed.

Lemma in_vec_at (v : list Handle) i : i < length v -> In (vec_at v i) v.
Proof.
  intros Hi. destruct (lookup_lt_is_Some_2 v i Hi) as [h Hh].
  rewrite (vec_at_lookup _ _ _ Hh). by eapply in_lookup.
Qed.

Lemma owned_framebuffer p h : In h (framebuffers p) -> In (Framebuffer, h) (owned p).
Proof. unfold owned. rewrite !in_app_iff, !in_map_iff. eauto 20. Qed.

Lemma owned_commandPool p h : In h (commandPools p) -> In (CommandPool, h) (owned p).
Proof. unfold owned. rewrite !in_app_iff, !in_map_iff. eauto 20. Qed.

Lemma owned_uniformBuffer p h : In h (uniformBuffers p) -> In (Buffer, h) (owned p).
Proof. unfold owned. rewrite !in_app_iff, !in_map_iff. eauto 20. Qed.

Lemma owned_uniformBufferMemory p h :
  In h (uniformBuffersMemory p) -> In (DeviceMemory, h) (owned p).
Proof. unfold owned. rewrite !in_app_iff, !in_map_iff. eauto 20. Qed.

Lemma owned_imageAvailableSemaphore p h :
  In h (imageAvailableSemaphores p) -> In (Semaphore, h) (owned p).
Proof. unfold owned. rewrite !in_app_iff, !in_map_iff. eauto 20. Qed.

Lemma owned_renderFinishedSemaphore p h :
  In h (renderFinishedSemaphores p) -> In (Semaphore, h) (owned p).
Proof. unfold owned. rewrite !in_app_iff, !in_map_iff. eauto 20. Qed.

Lemma owned_inFlightFence p h : In h (inFlightFences p) -> In (Fence, h) (owned p).
Proof. unfold owned. rewrite !in_app_iff, !in_map_iff. eauto 20. Qed.

End Setters.

Ltac split_unwritten :=
  unfold in_hand, unwritten, to_write in *; cbn [skipn] in *;
  repeat match goal with
         | Hx : Forall _ (_ :: _) |- _ => apply Forall_cons in Hx as [? Hx]
         | Hx : Forall _ [] |- _ => clear Hx
         end;
  cbv beta in *.

Ltac unwritten_tac :=
  split_unwritten;
  repeat lazymatch goal with
         | |- Forall _ (_ :: _) => constructor
         | |- Forall _ [] => constructor
         end;
  cbv beta; proj_simpl; try assumption.

(** A creation that failed, and the error message that follows. *)
Ltac failed_tac Ha :=
  lazymatch goal with
  | Hc : calls ?s2 = _ ++ [_], Hp : self ?s2 = _, Hr : is_success _ = false |- _ =>
      repeat post_step; hnf; eexists; proj_simpl; rewrite Hc, Hp;
      eapply acc_keeps;
      [ apply acc_quiet; [exact Ha | by (simpl; rewrite Hr) | done]
      | by apply keeps_fresh_same ]
  end.

Section Stages.

Variable MAX_FRAMES_IN_FLIGHT : nat.

Variable env : Env.

Variable tr0 : list Event.

Lemma createDescriptorSetLayout_accounts s :
  in_hand tr0 to_write s ->
  wp createDescriptorSetLayout (accounts tr0 (drop 1 to_write)) s.
Proof.
  intros [Ha Hu]. unfold createDescriptorSetLayout, wp.
  apply post_bind, post_vkCreateInto; intros r s2 Hr Hc Hp; [| failed_tac Ha].
  post_step. apply post_ret. split.
  - rewrite Hp, Hc. apply acc_create; [| done |].
    + apply (acc_keeps _ _ _ _ _ Ha). apply keeps_fresh_descriptorSetLayout.
      by split_unwritten.
    + left. unfold owned. simpl. auto.
  - rewrite Hp. unwritten_tac.
Qed.

Lemma createRenderPass_accounts s :
  in_hand tr0 (drop 1 to_write) s ->
  wp createRenderPass (accounts tr0 (drop 2 to_write)) s.
Proof.
  intros [Ha Hu]. unfold createRenderPass, wp.
  apply post_bind, post_vkCreateInto; intros r s2 Hr Hc Hp; [| failed_tac Ha].
  post_step. apply post_ret. split.
  - rewrite Hp, Hc. apply acc_create; [| done |].
    + apply (acc_keeps _ _ _ _ _ Ha). apply keeps_fresh_renderPass.
      by split_unwritten.
    + left. unfold owned. simpl. auto 10.
  - rewrite Hp. unwritten_tac.
Qed.

Lemma readFile_accounts fn s :
  in_hand tr0 (drop 2 to_write) s ->
  wp (readFile env fn) (fun _ s' => in_hand tr0 (drop 2 to_write) s') s.
Proof.
  intros [Ha Hu]. unfold readFile, wp. destruct (files env fn); [by apply post_ret |].
  repeat post_step. split.
  - proj_simpl. apply (acc_keeps _ _ _ _ _ Ha). by apply keeps_fresh_same.
  - proj_simpl. unwritten_tac.
Qed.

Lemma createGraphicsPipeline_accounts s :
  in_hand tr0 (drop 2 to_write) s ->
  wp (createGraphicsPipeline env) (accounts tr0 (drop 4 to_write)) s.
Proof.
  intros H. unfold createGraphicsPipeline, wp.
  apply (post_call (in_hand tr0 (drop 2 to_write))); [by apply readFile_accounts |].
  clear s H. intros vertShaderCode s H.
  apply (post_call (in_hand tr0 (drop 2 to_write))); [by apply readFile_accounts |].
  clear s H. intros fragShaderCode s [Ha Hu].
  apply post_bind, post_createShaderModule; intros r1 s1 Hr1 Hc1 Hp1.
  all: apply post_bind, post_createShaderModule; intros r2 s2 Hr2 Hc2 Hp2.
  all: cbn [Nat.eqb VK_NULL_HANDLE orb].
  all: try (repeat post_step; hnf; eexists; proj_simpl; rewrite Hp2, Hp1, Hc2, Hc1;
            eapply acc_keeps; [| by apply keeps_fresh_same];
            repeat first [ exact Ha
                         | apply acc_shader; [| done]
                         | apply acc_failed; [done |] ]).
  assert (A2 : accounted tr0 [S (issued (calls s1)); S (issued (calls s))]
                 (self s2) (calls s2)).
  { rewrite Hp2, Hp1, Hc2. apply acc_shader; [| done].
    rewrite Hc1. by apply acc_shader. }
  assert (Hu2 : unwritten tr0 (drop 2 to_write) (self s2)) by (by rewrite Hp2, Hp1).
  clear Ha Hu Hc1 Hc2 Hp1 Hp2.
  apply post_bind, post_vkCreateInto; intros r3 s3 Hr3 Hc3 Hp3; [| failed_tac A2].
  post_step.
  assert (A3 : accounted tr0 [S (issued (calls s1)); S (issued (calls s))]
                 (self s3) (calls s3)).
  { rewrite Hp3, Hc3. apply acc_create; [| done |].
    - apply (acc_keeps _ _ _ _ _ A2). apply keeps_fresh_pipelineLayout.
      by split_unwritten.
    - left. unfold owned. simpl. auto 10. }
  assert (Hu3 : unwritten tr0 (drop 3 to_write) (self s3)).
  { rewrite Hp3. unwritten_tac. }
  clear A2 Hu2 Hc3 Hp3.
  apply post_bind, post_vkCreateInto; intros r4 s4 Hr4 Hc4 Hp4.
  - post_step. unfold vkDestroy. apply post_bind, post_emit, post_bind, post_emit, post_ret.
    split; proj_simpl.
    + apply (acc_destroy _ [S (issued (calls s))] []).
      * apply (acc_destroy _ [S (issued (calls s1)); S (issued (calls s))]
                           [S (issued (calls s))]).
        -- rewrite Hp4, Hc4. apply acc_create; [| done |].
           ++ apply (acc_keeps _ _ _ _ _ A3). apply keeps_fresh_graphicsPipeline.
              by split_unwritten.
           ++ left. unfold owned. simpl. auto 10.
        -- intros x [<- | Hx]; [by left | by right].
      * intros x [<- | []]. by left.
    + rewrite Hp4. unwritten_tac.
  - repeat post_step. hnf. eexists. proj_simpl. rewrite Hc4, Hp4.
    apply (acc_destroy _ _ _ _ _ _ _
             (acc_destroy _ _ _ _ _ _ _
                (acc_keeps _ _ _ _ _ (acc_failed _ _ _ _ _ _ _ _ Hr4 A3)
                   (keeps_fresh_same _ _ _ eq_refl))
                (fun x Hx => or_intror Hx))
             (fun x Hx => or_intror Hx)).
Qed.

Lemma createFramebuffers_accounts s :
  in_hand tr0 (drop 4 to_write) s ->
  wp (createFramebuffers env) (accounts tr0 (drop 5 to_write)) s.
Proof.
  intros [Ha Hu]. unfold createFramebuffers, wp. apply post_bind, post_modify.
  eapply post_mono;
    [ apply (post_for_upto
        (fun i s' =>
           accounted tr0 [] (self s') (calls s') /\
           length (framebuffers (self s')) = length (sc_images (swapChain env)) /\
           unwritten tr0 ((fun p => drop i (framebuffers p)) :: drop 5 to_write) (self s'))
        (fun s' => exists shaders, accounted tr0 shaders (self s') (calls s'))
        (fun _ => False)) | | auto ].
  - proj_simpl. split; [| split].
    + apply (acc_keeps _ _ _ _ _ Ha), keeps_fresh_framebuffers.
      intros x. apply fresh_none. by split_unwritten.
    + by rewrite length_resize.
    + unwritten_tac. apply old_resize. by split_unwritten.
  - intros i s1 Hi (Ha1 & Hlen & Hu1).
    apply post_bind, post_vkCreateInto; intros r s2 Hr Hc Hp; [| failed_tac Ha1].
    post_step. apply post_ret. rewrite Hp, Hc. proj_simpl. split; [| split].
    + apply acc_create; [| done |].
      * apply (acc_keeps _ _ _ _ _ Ha1), keeps_fresh_framebuffers.
        intros x. apply fresh_insert. by split_unwritten.
      * left. apply owned_framebuffer. proj_simpl. apply in_insert.
        unfold Handle in *. lia.
    + by rewrite length_insert.
    + unwritten_tac. apply old_next. by split_unwritten.
  - intros [|] s' H; [| exact H]. destruct H as (Ha' & _ & Hu'). split; [done |].
    unwritten_tac.
Qed.

Lemma createCommandPools_accounts s :
  in_hand tr0 (drop 5 to_write) s ->
  wp (createCommandPools MAX_FRAMES_IN_FLIGHT)
     (fun ok s' =>
        if ok
        then in_hand tr0 (drop 6 to_write) s' /\
             length (commandPools (self s')) = MAX_FRAMES_IN_FLIGHT /\
             Forall (fun h => issued tr0 < h) (commandPools (self s'))
        else exists shaders, accounted tr0 shaders (self s') (calls s')) s.
Proof.
  intros [Ha Hu]. unfold createCommandPools, wp. apply post_bind, post_modify.
  eapply post_mono;
    [ apply (post_for_upto
        (fun i s' =>
           accounted tr0 [] (self s') (calls s') /\
           length (commandPools (self s')) = MAX_FRAMES_IN_FLIGHT /\
           Forall (fun h => issued tr0 < h) (take i (commandPools (self s'))) /\
           unwritten tr0 ((fun p => drop i (commandPools p)) :: drop 6 to_write) (self s'))
        (fun s' => exists shaders, accounted tr0 shaders (self s') (calls s'))
        (fun _ => False)) | | auto ].
  - proj_simpl. split; [| split; [| split]].
    + apply (acc_keeps _ _ _ _ _ Ha), keeps_fresh_commandPools.
      intros x. apply fresh_none. by split_unwritten.
    + by rewrite length_resize.
    + by rewrite take_0.
    + unwritten_tac. apply old_resize. by split_unwritten.
  - intros i s1 Hi (Ha1 & Hlen & Hfresh & Hu1).
    apply post_bind, post_vkCreateInto; intros r s2 Hr Hc Hp; [| failed_tac Ha1].
    post_step. apply post_ret. rewrite Hp, Hc. proj_simpl.
    unfold Handle in *. split; [| split; [| split]].
    + apply acc_create; [| done |].
      * apply (acc_keeps _ _ _ _ _ Ha1), keeps_fresh_commandPools.
        intros x. apply fresh_insert. by split_unwritten.
      * left. apply owned_commandPool. proj_simpl. apply in_insert.
        unfold Handle in *. lia.
    + by rewrite length_insert.
    + rewrite take_S_insert by lia. apply Forall_app. split; [done |].
      apply Forall_singleton. destruct Ha1 as [Hle _]. lia.
    + unwritten_tac. apply old_next. by split_unwritten.
  - intros [|] s' H; [| exact H]. destruct H as (Ha' & Hlen & Hfresh & Hu').
    simpl in Hfresh. unfold Handle in *. rewrite take_ge in Hfresh by lia.
    split; [split; [done | unwritten_tac] | done].
Qed.

Lemma createCommandBuffers_accounts s :
  in_hand tr0 (drop 6 to_write) s ->
  length (commandPools (self s)) = MAX_FRAMES_IN_FLIGHT ->
  Forall (fun h => issued tr0 < h) (commandPools (self s)) ->
  wp (createCommandBuffers MAX_FRAMES_IN_FLIGHT) (accounts tr0 (drop 6 to_write)) s.
Proof.
  intros [Ha Hu] Hlen Hfresh. unfold createCommandBuffers, wp. apply post_bind, post_modify.
  eapply post_mono;
    [ apply (post_for_upto
        (fun _ s' =>
           in_hand tr0 (drop 6 to_write) s' /\
           commandPools (self s') = commandPools (self s))
        (fun s' => exists shaders, accounted tr0 shaders (self s') (calls s'))
        (fun _ => False)) | | auto ].
  - proj_simpl. split; [| done]. split.
    + apply (acc_keeps _ _ _ _ _ Ha). by apply keeps_fresh_same.
    + unwritten_tac.
  - intros i s1 Hi ([Ha1 Hu1] & Hpools).
    apply post_bind, post_this.
    apply post_bind, post_vkCreateInto; intros r s2 Hr Hc Hp; [| failed_tac Ha1].
    post_step. apply post_ret. split; [| by rewrite Hp].
    split; rewrite Hp, ?Hc; proj_simpl.
    + apply acc_create; [| done |].
      * apply (acc_keeps _ _ _ _ _ Ha1). by apply keeps_fresh_same.
      * right. left. exists CommandPool.
        assert (Hin : In (vec_at (commandPools (self s1)) i) (commandPools (self s1))).
        { apply in_vec_at. rewrite Hpools. unfold Handle in *. lia. }
        split; [by apply owned_commandPool |].
        rewrite Hpools in Hin. rewrite Forall_forall in Hfresh.
        rewrite Hpools. by apply Hfresh, list_elem_of_In.
    + unwritten_tac.
  - intros [|] s' H; [| exact H]. by destruct H as [H _].
Qed.

Lemma createUniformBuffers_accounts s :
  in_hand tr0 (drop 6 to_write) s ->
  wp (createUniformBuffers MAX_FRAMES_IN_FLIGHT) (accounts tr0 (drop 8 to_write)) s.
Proof.
  intros [Ha Hu]. unfold createUniformBuffers, wp. do 3 (apply post_bind, post_modify).
  eapply post_mono;
    [ apply (post_for_upto
        (fun i s' =>
           accounted tr0 [] (self s') (calls s') /\
           length (uniformBuffers (self s')) = MAX_FRAMES_IN_FLIGHT /\
           length (uniformBuffersMemory (self s')) = MAX_FRAMES_IN_FLIGHT /\
           unwritten tr0 ((fun p => drop i (uniformBuffers p)) ::
                          (fun p => drop i (uniformBuffersMemory p)) ::
                          drop 8 to_write) (self s'))
        (fun s' => exists shaders, accounted tr0 shaders (self s') (calls s'))
        (fun _ => False)) | | auto ].
  - proj_simpl. rewrite !length_resize. split; [| split; [done | split; [done |]]].
    + apply (acc_keeps _ _ _ _ _ Ha).
      eapply keeps_fresh_trans;
        [ apply keeps_fresh_uniformBuffers; intros x; apply fresh_none; by split_unwritten |].
      eapply keeps_fresh_trans;
        [ apply keeps_fresh_uniformBuffersMemory; intros x; apply fresh_none;
          by split_unwritten |].
      by apply keeps_fresh_same.
    + unwritten_tac; apply old_resize; by split_unwritten.
  - intros i s1 Hi (Ha1 & Hlb & Hlm & Hu1).
    apply post_bind, post_vkCreateInto; intros r1 s2 Hr1 Hc2 Hp2; [| failed_tac Ha1].
    post_step. apply post_bind, post_this. apply post_bind, post_emit.
    assert (A2 : accounted tr0 [] (self s2)
                   (calls s2 ++ [EvGetBufferMemoryRequirements
                                   (vec_at (uniformBuffers (self s2)) i)])).
    { apply acc_quiet; [| done | done]. rewrite Hp2, Hc2. apply acc_create; [| done |].
      - apply (acc_keeps _ _ _ _ _ Ha1), keeps_fresh_uniformBuffers.
        intros x. apply fresh_insert. by split_unwritten.
      - left. apply owned_uniformBuffer. proj_simpl. apply in_insert.
        unfold Handle in *. lia. }
    apply post_bind, post_vkCreateInto; intros r2 s3 Hr2 Hc3 Hp3; [| failed_tac A2].
    post_step. apply post_bind, post_this.
    cbn [self calls log] in Hc3, Hp3.
    assert (A3 : accounted tr0 [] (self s3) (calls s3)).
    { rewrite Hp3, Hc3. apply acc_create; [| done |].
      - apply (acc_keeps _ _ _ _ _ A2), keeps_fresh_uniformBuffersMemory.
        intros x. apply fresh_insert. rewrite Hp2. by split_unwritten.
      - left. apply owned_uniformBufferMemory. proj_simpl. apply in_insert.
        rewrite Hp2. proj_simpl. unfold Handle in *. lia. }
    assert (U3 : unwritten tr0 ((fun p => drop (S i) (uniformBuffers p)) ::
                                (fun p => drop (S i) (uniformBuffersMemory p)) ::
                                drop 8 to_write) (self s3)).
    { rewrite Hp3, Hp2. unwritten_tac; apply old_next; by split_unwritten. }
    assert (Hl3 : length (uniformBuffers (self s3)) = MAX_FRAMES_IN_FLIGHT /\
                  length (uniformBuffersMemory (self s3)) = MAX_FRAMES_IN_FLIGHT).
    { rewrite Hp3. proj_simpl. rewrite Hp2. proj_simpl. by rewrite !length_insert. }
    destruct Hl3 as [Hlb3 Hlm3].
    unfold vkCall.
    repeat post_step;
      (proj_simpl; split; [| split; [done | split; [done |]]];
       [ eapply acc_keeps;
           [ apply acc_quiet; [apply acc_quiet; [exact A3 | done | done] | done | done]
           | by apply keeps_fresh_same ]
       | revert U3; clear; intros U3; unwritten_tac ]).
  - intros [|] s' H; [| exact H]. destruct H as (Ha' & _ & _ & Hu'). split; [done |].
    unwritten_tac.
Qed.

Lemma createDescriptorPool_accounts s :
  in_hand tr0 (drop 8 to_write) s ->
  wp createDescriptorPool
     (fun ok s' =>
        if ok
        then in_hand tr0 (drop 9 to_write) s' /\ issued tr0 < descriptorPool (self s')
        else exists shaders, accounted tr0 shaders (self s') (calls s')) s.
Proof.
  intros [Ha Hu]. unfold createDescriptorPool, wp.
  apply post_bind, post_vkCreateInto; intros r s2 Hr Hc Hp; [| failed_tac Ha].
  post_step. apply post_ret. split; [split |].
  - rewrite Hp, Hc. apply acc_create; [| done |].
    + apply (acc_keeps _ _ _ _ _ Ha). apply keeps_fresh_descriptorPool.
      by split_unwritten.
    + left. unfold owned. simpl. auto 10.
  - rewrite Hp. unwritten_tac.
  - rewrite Hp. proj_simpl. destruct Ha as [Hle _]. lia.
Qed.

Lemma createDescriptorSets_accounts s :
  in_hand tr0 (drop 9 to_write) s ->
  issued tr0 < descriptorPool (self s) ->
  wp (createDescriptorSets MAX_FRAMES_IN_FLIGHT) (accounts tr0 (drop 9 to_write)) s.
Proof.
  intros [Ha Hu] Hpool. unfold createDescriptorSets, wp. apply post_bind, post_modify.
  apply post_bind, post_this. proj_simpl.
  set (s1 := with_self _ s).
  assert (A1 : accounted tr0 [] (self s1) (calls s1)).
  { subst s1. proj_simpl. apply (acc_keeps _ _ _ _ _ Ha). by apply keeps_fresh_same. }
  assert (U1 : unwritten tr0 (drop 9 to_write) (self s1)).
  { subst s1. proj_simpl. unwritten_tac. }
  assert (Hp1 : descriptorPool (self s1) = descriptorPool (self s)) by done.
  clearbody s1. clear Ha Hu.
  apply post_bind, post_vkAllocateDescriptorSets; intros r s2 Hr Hc Hp.
  - post_step.
    assert (H2 : in_hand tr0 (drop 9 to_write) s2).
    { split.
      - rewrite Hp, Hc. apply (acc_allocate _ _ _ _ _ _ _ DescriptorPool); [| done | | lia].
        + apply (acc_keeps _ _ _ _ _ A1). by apply keeps_fresh_same.
        + unfold owned. proj_simpl. rewrite Hp1. simpl. auto 10.
      - rewrite Hp. unwritten_tac. }
    apply (post_for_each_inv (in_hand tr0 (drop 9 to_write))); [done | |].
    + intros i s3 [A3 U3]. apply post_bind, post_this. apply post_emit. proj_simpl.
      split; [by apply acc_quiet | done].
    + intros s3 H3. by apply post_ret.
  - repeat post_step. hnf. eexists. proj_simpl. rewrite Hc, Hp.
    eapply acc_keeps; [| by apply keeps_fresh_same].
    apply acc_quiet; [exact A1 | by (simpl; rewrite Hr) | done].
Qed.

Lemma createSyncObjects_accounts s :
  in_hand tr0 (drop 9 to_write) s ->
  wp (createSyncObjects MAX_FRAMES_IN_FLIGHT) (accounts tr0 []) s.
Proof.
  intros [Ha Hu]. unfold createSyncObjects, wp. do 3 (apply post_bind, post_modify).
  eapply post_mono;
    [ apply (post_for_upto
        (fun i s' =>
           accounted tr0 [] (self s') (calls s') /\
           length (imageAvailableSemaphores (self s')) = MAX_FRAMES_IN_FLIGHT /\
           length (renderFinishedSemaphores (self s')) = MAX_FRAMES_IN_FLIGHT /\
           length (inFlightFences (self s')) = MAX_FRAMES_IN_FLIGHT /\
           unwritten tr0 [ (fun p => drop i (imageAvailableSemaphores p));
                           (fun p => drop i (renderFinishedSemaphores p));
                           (fun p => drop i (inFlightFences p)) ] (self s'))
        (fun s' => exists shaders, accounted tr0 shaders (self s') (calls s'))
        (fun _ => False)) | | auto ].
  - proj_simpl. rewrite !length_resize.
    split; [| split; [done | split; [done | split; [done |]]]].
    + apply (acc_keeps _ _ _ _ _ Ha).
      eapply keeps_fresh_trans;
        [ apply keeps_fresh_imageAvailableSemaphores; intros x; apply fresh_none;
          by split_unwritten |].
      eapply keeps_fresh_trans;
        [ apply keeps_fresh_renderFinishedSemaphores; intros x; apply fresh_none;
          by split_unwritten |].
      apply keeps_fresh_inFlightFences; intros x; apply fresh_none.
      by split_unwritten.
    + unwritten_tac; apply old_resize; by split_unwritten.
  - intros i s1 Hi (Ha1 & Hla & Hlr & Hlf & Hu1).
    apply post_bind, post_vkCreateInto; intros r1 s2 Hr1 Hc2 Hp2; [| failed_tac Ha1].
    post_step.
    assert (A2 : accounted tr0 [] (self s2) (calls s2)).
    { rewrite Hp2, Hc2. apply acc_create; [| done |].
      - apply (acc_keeps _ _ _ _ _ Ha1), keeps_fresh_imageAvailableSemaphores.
        intros x. apply fresh_insert. by split_unwritten.
      - left. apply owned_imageAvailableSemaphore. proj_simpl. apply in_insert.
        unfold Handle in *. lia. }
    apply post_bind, post_vkCreateInto; intros r2 s3 Hr2 Hc3 Hp3; [| failed_tac A2].
    post_step.
    assert (A3 : accounted tr0 [] (self s3) (calls s3)).
    { rewrite Hp3, Hc3. apply acc_create; [| done |].
      - apply (acc_keeps _ _ _ _ _ A2), keeps_fresh_renderFinishedSemaphores.
        intros x. apply fresh_insert. rewrite Hp2. by split_unwritten.
      - left. apply owned_renderFinishedSemaphore. proj_simpl. apply in_insert.
        rewrite Hp2. proj_simpl. unfold Handle in *. lia. }
    apply post_bind, post_vkCreateFenceInto; intros r3 s4 Hr3 Hc4 Hp4.
    + post_step. apply post_ret. split; [| split; [| split; [| split]]].
      * rewrite Hp4, Hc4. apply acc_create_fence; [| done |].
        -- apply (acc_keeps _ _ _ _ _ A3), keeps_fresh_inFlightFences.
           intros x. apply fresh_insert. rewrite Hp3, Hp2. by split_unwritten.
        -- apply owned_inFlightFence. proj_simpl. apply in_insert.
           rewrite Hp3, Hp2. proj_simpl. unfold Handle in *. lia.
      * rewrite Hp4, Hp3, Hp2. proj_simpl. by rewrite length_insert.
      * rewrite Hp4, Hp3, Hp2. proj_simpl. by rewrite length_insert.
      * rewrite Hp4, Hp3, Hp2. proj_simpl. by rewrite length_insert.
      * rewrite Hp4, Hp3, Hp2. unwritten_tac; apply old_next; by split_unwritten.
    + repeat post_step. hnf. eexists. proj_simpl. rewrite Hc4, Hp4.
      eapply acc_keeps; [| by apply keeps_fresh_same].
      apply acc_quiet; [exact A3 | by (simpl; rewrite Hr3) | done].
  - intros [|] s' H; [| exact H]. destruct H as (Ha' & _ & _ & _ & Hu').
    split; [done | constructor].
Qed.

Lemma and_then_accounts (P F : St -> Prop) (Q : bool -> St -> Prop) (a b : M bool) s :
  wp a (fun ok s' => if ok then P s' else F s') s ->
  (forall s', P s' -> wp b Q s') ->
  (forall s', F s' -> Q false s') ->
  wp (a &&> b) Q s.
Proof.
  intros Ha Hb Hf. unfold and_then, wp. apply post_bind.
  eapply post_mono; [exact Ha | | auto].
  intros [|] s' H'; [by apply Hb | by apply post_ret, Hf].
Qed.

Lemma build_all_accounts s :
  in_hand tr0 to_write s ->
  wp (build_all MAX_FRAMES_IN_FLIGHT env) (accounts tr0 []) s.
Proof.
  intros H0. unfold build_all.
  eapply and_then_accounts; [by apply createDescriptorSetLayout_accounts | | done].
  intros s1 H1.
  eapply and_then_accounts; [by apply createRenderPass_accounts | | done].
  intros s2 H2.
  eapply and_then_accounts; [by apply createGraphicsPipeline_accounts | | done].
  intros s3 H3.
  eapply and_then_accounts; [by apply createFramebuffers_accounts | | done].
  intros s4 H4.
  eapply and_then_accounts; [by apply createCommandPools_accounts | | done].
  intros s5 (H5 & Hlen & Hfresh).
  eapply and_then_accounts; [by apply createCommandBuffers_accounts | | done].
  intros s6 H6.
  eapply and_then_accounts; [by apply createUniformBuffers_accounts | | done].
  intros s7 H7.
  eapply and_then_accounts; [by apply createDescriptorPool_accounts | | done].
  intros s8 [H8 Hpool].
  eapply and_then_accounts; [by apply createDescriptorSets_accounts | | done].
  intros s9 H9.
  eapply and_then_accounts; [by apply createSyncObjects_accounts | | done].
  intros s10 [A10 _]. unfold createVertexBuffer. apply post_ret.
  split; [done | constructor].
Qed.

End Stages.

Section InitializeThenCleanup.

Variable MAX_FRAMES_IN_FLIGHT : nat.

Variable env : Env.

Lemma owned_old_unwritten tr0 p :
  Forall (fun kh => kh.2 <= issued tr0) (owned p) -> unwritten tr0 to_write p.
Proof.
  intros Hall. rewrite Forall_forall in Hall.
  assert (Hin : forall k h, In (k, h) (owned p) -> h <= issued tr0).
  { intros k h Hkh. by apply list_elem_of_In, Hall in Hkh. }
  clear Hall. unfold unwritten, to_write.
  repeat lazymatch goal with
         | |- Forall _ (_ :: _) => constructor
         | |- Forall _ [] => constructor
         end;
    cbv beta;
    try (lazymatch goal with
         | |- descriptorSetLayout _ <= _ => apply (Hin DescriptorSetLayout)
         | |- renderPass _ <= _ => apply (Hin RenderPass)
         | |- pipelineLayout _ <= _ => apply (Hin PipelineLayout)
         | |- graphicsPipeline _ <= _ => apply (Hin GraphicsPipeline)
         | |- descriptorPool _ <= _ => apply (Hin DescriptorPool)
         end; unfold owned; simpl; by auto 10);
    apply Forall_forall; intros h Hh%list_elem_of_In.
  - apply (Hin Framebuffer). by apply owned_framebuffer.
  - apply (Hin CommandPool). by apply owned_commandPool.
  - apply (Hin Buffer). by apply owned_uniformBuffer.
  - apply (Hin DeviceMemory). by apply owned_uniformBufferMemory.
  - apply (Hin Semaphore). by apply owned_imageAvailableSemaphore.
  - apply (Hin Semaphore). by apply owned_renderFinishedSemaphore.
  - apply (Hin Fence). by apply owned_inFlightFence.
Qed.

Lemma initialize_accounts s :
  slots_consistent MAX_FRAMES_IN_FLIGHT (self s) ->
  Forall (fun kh => kh.2 <= issued (calls s)) (owned (self s)) ->
  wp (initialize MAX_FRAMES_IN_FLIGHT env)
     (fun ok s' =>
        slots_consistent MAX_FRAMES_IN_FLIGHT (self s') /\
        exists shaders,
          accounted (calls s) shaders (self s') (calls s') /\
          (ok = true -> shaders = [])) s.
Proof.
  intros Hsc Hold.
  assert (H0 : in_hand (calls s) to_write s).
  { split; [| by apply owned_old_unwritten]. split; [lia | by left]. }
  rewrite initialize_unfold. unfold wp. apply post_bind, post_this.
  post_step.
  - repeat post_step. proj_simpl. split; [done |]. exists []. split; [| done].
    destruct H0 as [Ha _]. apply (acc_keeps _ _ _ _ _ Ha). by apply keeps_fresh_same.
  - apply post_bind.
    eapply post_mono;
      [ apply wp_conj;
          [ apply (build_all_accounts _ _ _ _ H0)
          | apply (build_all_builds MAX_FRAMES_IN_FLIGHT env s s), builds_refl ]
      | | auto ].
    intros ok s1 [Hacc [Hshape _]].
    assert (Hsc1 : slots_consistent MAX_FRAMES_IN_FLIGHT (self s1)).
    { destruct Hshape as (_ & _ & _ & _ & _ & Hkeep & _). by apply Hkeep. }
    destruct ok; cbn [negb].
    + apply post_bind, post_modify, post_ret. proj_simpl. split; [done |].
      exists []. split; [| done]. destruct Hacc as [Ha _].
      apply (acc_keeps _ _ _ _ _ Ha). by apply keeps_fresh_same.
    + apply post_ret. split; [done |]. destruct Hacc as [sh Ha]. by exists sh.
Qed.

(** X11.  An [initialize] followed by a [cleanup] leaks nothing but shader
    modules.  On an object whose slot vectors are in step and that holds no
    handle yet to be issued, whatever the driver answers, [initialize]
    returns and the [cleanup] after it returns; whatever is alive afterwards
    was alive before the [initialize], or is a shader module that a failed
    [initialize] created and left behind: the object does not keep the
    handles of the shader modules, so [cleanup] cannot release them. *)
Theorem initialize_then_cleanup_leaks_only_shaders s :
  slots_consistent MAX_FRAMES_IN_FLIGHT (self s) ->
  Forall (fun kh => kh.2 <= issued (calls s)) (owned (self s)) ->
  exists ok s1 s2,
    initialize MAX_FRAMES_IN_FLIGHT env s = Returns ok s1 /\
    cleanup MAX_FRAMES_IN_FLIGHT env s1 = Returns tt s2 /\
    forall h k parent, live (calls s2) !! h = Some (k, parent) ->
      live (calls s) !! h = Some (k, parent) \/
      (ok = false /\ k = ShaderModule /\ issued (calls s) < h).
Proof.
  intros Hsc Hold.
  destruct (proj1 (wp_returns _ _ _) (initialize_accounts s Hsc Hold))
    as (ok & s1 & Hrun & Hsc1 & sh & [_ Hacc] & Hok).
  exists ok, s1. eexists. split; [exact Hrun |]. split; [apply cleanup_spec |].
  cbn [calls]. intros h k parent. rewrite live_app. intros Hlive.
  assert (Hnothing : Forall creates_nothing
                       (idle_wait env ++ cleanup_calls MAX_FRAMES_IN_FLIGHT (self s1))).
  { apply Forall_app. split; [| apply cleanup_creates_nothing].
    unfold idle_wait. destruct (nonnull _); by repeat constructor. }
  pose proof (foldl_live_Some _ _ _ _ Hnothing Hlive) as Hbefore.
  assert (Hdead : forall kx x, In (kx, x) (owned (self s1)) -> issued (calls s) < x ->
            tied x h (live (calls s1)) -> False).
  { intros kx x Hown Hx Htied.
    assert (Hnn : x <> VK_NULL_HANDLE) by (unfold VK_NULL_HANDLE; lia).
    pose proof (owned_released _ _ _ _ Hsc1 Hown Hnn) as Hrel.
    assert (Hnone : foldl live_step (live (calls s1))
                      (idle_wait env ++ cleanup_calls MAX_FRAMES_IN_FLIGHT (self s1)) !! h
                    = None).
    { apply (foldl_live_released _ _ x h kx Hnn Hnothing Htied).
      apply in_app_iff. by right. }
    enough (Some (k, parent) = None) by done.
    etrans; [symmetry; exact Hlive | exact Hnone]. }
  destruct (Hacc _ _ _ Hbefore) as [Hwas | [Hh [Hown | [(kp & Hown & Hp) | [-> Hs]]]]].
  - by left.
  - destruct (Hdead _ _ Hown Hh). by left.
  - destruct (Hdead _ _ Hown Hp). right. right. by exists k.
  - right. split; [| done]. destruct ok; [| done]. rewrite Hok in Hs by done. destruct Hs.
Qed.

End InitializeThenCleanup.

(** On a new object with two slots, when the creation of the pipeline layout
    fails: the two shader modules created just before are still alive after
    the [cleanup], and nothing else is. *)
Lemma initialize_then_cleanup_leaks_only_shaders_witness :
  exists s1 s2,
    initialize 2 sample_env (machine (failing_at 4)) = Returns false s1 /\
    cleanup 2 sample_env s1 = Returns tt s2 /\
    live (calls s2) =
      {[ 3 := (ShaderModule, VK_NULL_HANDLE); 4 := (ShaderModule, VK_NULL_HANDLE) ]} /\
    (live (calls (machine (failing_at 4))) !! 3 = Some (ShaderModule, VK_NULL_HANDLE) \/
     (false = false /\ ShaderModule = ShaderModule /\
      issued (calls (machine (failing_at 4))) < 3)).
Proof.
  destruct (initialize_then_cleanup_leaks_only_shaders 2 sample_env (machine (failing_at 4)))
    as (ok & s1 & s2 & Hrun & Hclean & Hleak).
  - vm_compute. repeat split; lia.
  - vm_compute. repeat constructor.
  - destruct ok; [vm_compute in Hrun; discriminate Hrun |].
    exists s1, s2. split; [exact Hrun |]. split; [exact Hclean |].
    vm_compute in Hrun. injection Hrun as <-.
    vm_compute in Hclean. injection Hclean as <-.
    split; [by vm_compute |].
    apply Hleak. by vm_compute.
Defined.

(** ** Objects the pipeline holds, and the destroy calls it makes *)

Lemma NoDup_sub {A} (l k : list A) : l ⊆+ k -> NoDup k -> NoDup l.
Proof.
  intros Hsub Hnd. apply submseteq_sublist_l in Hsub as (l2 & Hs & Hp).
  eapply sublist_NoDup; [| exact Hs]. by rewrite Hp.
Qed.

Lemma in_sub {A} (l k : list A) x : l ⊆+ k -> In x l -> In x k.
Proof.
  intros Hsub Hin. apply list_elem_of_In.
  eapply elem_of_submseteq; [| exact Hsub]. by apply list_elem_of_In.
Qed.

Lemma valid_destroys_nil : valid_destroys [].
Proof. intros [|? ?] k h rest H; discriminate H. Qed.

Lemma valid_destroys_app tr evs :
  valid_destroys tr ->
  (forall before k h rest, evs = before ++ EvDestroy k h :: rest ->
     h = VK_NULL_HANDLE \/ live (tr ++ before) !! h = Some (k, VK_NULL_HANDLE)) ->
  valid_destroys (tr ++ evs).
Proof.
  intros Htr Hevs before k h rest Heq.
  destruct (decide (length before < length tr)) as [Hlt | Hge].
  - apply (Htr before k h (take (length tr - S (length before)) rest)).
    rewrite <- (take_app_length tr evs) at 1. rewrite Heq.
    rewrite take_app_ge by lia. f_equal.
    replace (length tr - length before) with (S (length tr - S (length before))) by lia.
    done.
  - assert (Hb : before = tr ++ drop (length tr) before).
    { rewrite <- (take_app_length tr evs) at 1. rewrite Heq.
      rewrite take_app_le by lia. by rewrite take_drop. }
    rewrite Hb. apply (Hevs _ _ _ rest).
    rewrite Hb, <- app_assoc in Heq. by apply app_inv_head in Heq.
Qed.

Lemma valid_destroys_quiet tr e :
  no_destroy e = true -> valid_destroys tr -> valid_destroys (tr ++ [e]).
Proof.
  intros Hd Htr. apply valid_destroys_app; [done |].
  intros [|e' [|? ?]] k h rest H; try discriminate H.
  injection H as -> _. discriminate Hd.
Qed.

Lemma valid_destroys_destroy tr k h :
  h = VK_NULL_HANDLE \/ live tr !! h = Some (k, VK_NULL_HANDLE) ->
  valid_destroys tr -> valid_destroys (tr ++ [EvDestroy k h]).
Proof.
  intros Hh Htr. apply valid_destroys_app; [done |].
  intros [|e' [|? ?]] k' h' rest H; try discriminate H.
  injection H as -> -> _. by rewrite app_nil_r.
Qed.

Lemma well_held_step p tr e :
  numbered tr e -> no_destroy e = true -> well_held p tr -> well_held p (tr ++ [e]).
Proof.
  intros Hn Hd [Hnd Hall]. split; [done |]. intros k h Hin.
  destruct (Hall k h Hin) as [Hle Hlive]. split.
  - pose proof (issued_le_snoc tr e). lia.
  - by rewrite live_numbered.
Qed.

Lemma well_held_sub p p' tr :
  held_objects p' ⊆+ held_objects p -> well_held p tr -> well_held p' tr.
Proof.
  intros Hsub [Hnd Hall]. split; [by eapply NoDup_sub |].
  intros k h Hin. apply Hall. by eapply in_sub.
Qed.

Lemma well_held_new p p' tr e k :
  held_objects p' ⊆+ (k, S (issued tr)) :: held_objects p ->
  created_by e = [S (issued tr)] -> no_destroy e = true ->
  live (tr ++ [e]) !! S (issued tr) = Some (k, VK_NULL_HANDLE) ->
  well_held p tr -> well_held p' (tr ++ [e]).
Proof.
  intros Hsub Hc Hd Hnew [Hnd Hall].
  assert (Hn : numbered tr e) by (unfold numbered; by rewrite Hc).
  split.
  - eapply NoDup_sub; [exact Hsub |]. constructor; [| done].
    intros Hin%list_elem_of_In. apply Hall in Hin as [Hle _]. lia.
  - intros k' h Hin. apply (in_sub _ _ _ Hsub) in Hin as [[= <- <-] | Hin].
    + split; [rewrite issued_snoc, Hc; simpl; lia | done].
    + destruct (Hall _ _ Hin) as [Hle Hlive]. split.
      * pose proof (issued_le_snoc tr e). lia.
      * by rewrite live_numbered.
Qed.

Lemma well_held_created p p' tr k r :
  is_success r = true ->
  held_objects p' ⊆+ (k, S (issued tr)) :: held_objects p ->
  well_held p tr ->
  well_held p' (tr ++ [EvCreate k VK_NULL_HANDLE r (S (issued tr))]).
Proof.
  intros Hr Hsub. apply (well_held_new _ _ _ _ k); [done | | done |].
  - simpl. by rewrite Hr.
  - rewrite live_snoc. simpl. rewrite Hr. by rewrite lookup_insert_eq.
Qed.

Lemma well_held_created_fence p p' tr flags r :
  is_success r = true ->
  held_objects p' ⊆+ (Fence, S (issued tr)) :: held_objects p ->
  well_held p tr ->
  well_held p' (tr ++ [EvCreateFence flags r (S (issued tr))]).
Proof.
  intros Hr Hsub. apply (well_held_new _ _ _ _ Fence); [done | | done |].
  - simpl. by rewrite Hr.
  - rewrite live_snoc. simpl. rewrite Hr. by rewrite lookup_insert_eq.
Qed.

Lemma well_held_destroy p tr k hd :
  (forall k', ~ In (k', hd) (held_objects p)) ->
  well_held p tr -> well_held p (tr ++ [EvDestroy k hd]).
Proof.
  intros Hout [Hnd Hall]. split; [done |]. intros k' h Hin.
  destruct (Hall _ _ Hin) as [Hle Hlive].
  rewrite issued_quiet by done. split; [done |].
  rewrite live_snoc. cbn [live_step]. case_decide; [done |].
  apply map_lookup_filter_Some. split; [done |]. simpl. split; [| done].
  intros ->. by apply (Hout k').
Qed.

Lemma held_objects_owned p k h : In (k, h) (held_objects p) -> In (k, h) (owned p).
Proof.
  unfold held_objects. intros H%list_elem_of_In.
  apply list_elem_of_filter in H as [_ H]. by apply list_elem_of_In.
Qed.

(** A live shader module is none of the objects held. *)
Lemma shader_not_held p tr hd parent :
  well_held p tr -> live tr !! hd = Some (ShaderModule, parent) ->
  forall k', ~ In (k', hd) (held_objects p).
Proof.
  intros [_ Hall] Hlive k' Hin. destruct (Hall _ _ Hin) as [_ Hl].
  rewrite Hl in Hlive. injection Hlive as -> _.
  by apply held_objects_owned, owned_no_shader in Hin.
Qed.

(** *** Transient objects *)

Lemma rooted_nil k tr : rooted k [] tr.
Proof. split; [constructor | by intros ? []]. Qed.

Lemma rooted_step k v tr e :
  numbered tr e -> no_destroy e = true -> rooted k v tr -> rooted k v (tr ++ [e]).
Proof.
  intros Hn Hd [Hnd Hall]. split; [done |]. intros h Hh.
  destruct (Hall h Hh) as (Hnn & Hle & Hlive). split; [done |]. split.
  - pose proof (issued_le_snoc tr e). lia.
  - by rewrite live_numbered.
Qed.

Lemma rooted_create k v tr r :
  is_success r = true -> rooted k v tr ->
  rooted k (v ++ [S (issued tr)]) (tr ++ [EvCreate k VK_NULL_HANDLE r (S (issued tr))]).
Proof.
  intros Hr [Hnd Hall]. split.
  - apply NoDup_app. split; [done |]. split; [| apply NoDup_singleton].
    intros h Hh%list_elem_of_In Hc%list_elem_of_In. destruct Hc as [<- | []].
    destruct (Hall _ Hh) as (_ & Hle & _). lia.
  - intros h Hh. rewrite issued_snoc, live_snoc. simpl. rewrite Hr. simpl.
    apply in_app_iff in Hh as [Hh | [<- | []]].
    + destruct (Hall h Hh) as (Hnn & Hle & Hlive). split; [done |]. split; [lia |].
      rewrite lookup_insert_ne; [done | lia].
    + split; [done |]. split; [lia |]. by rewrite lookup_insert_eq.
Qed.

Lemma rooted_destroy k v tr k' hd :
  ~ In hd v -> rooted k v tr -> rooted k v (tr ++ [EvDestroy k' hd]).
Proof.
  intros Hout [Hnd Hall]. split; [done |]. intros h Hh.
  destruct (Hall h Hh) as (Hnn & Hle & Hlive). split; [done |].
  rewrite issued_quiet by done. split; [done |].
  rewrite live_snoc. cbn [live_step]. case_decide; [done |].
  apply map_lookup_filter_Some. split; [done |]. simpl. split; [| done].
  intros ->. by apply Hout.
Qed.


(** *** How the assignments change what is held *)

Lemma owned_blocks p :
  owned p =
  [(DescriptorPool, descriptorPool p)] ++ [(DescriptorSetLayout, descriptorSetLayout p)] ++
  [(Buffer, vertexBuffer p)] ++ [(DeviceMemory, vertexBufferMemory p)] ++
  [(GraphicsPipeline, graphicsPipeline p)] ++ [(PipelineLayout, pipelineLayout p)] ++
  [(RenderPass, renderPass p)] ++
  map (pair Buffer) (uniformBuffers p) ++
  map (pair DeviceMemory) (uniformBuffersMemory p) ++
  map (pair Semaphore) (imageAvailableSemaphores p) ++
  map (pair Semaphore) (renderFinishedSemaphores p) ++
  map (pair Fence) (inFlightFences p) ++
  map (pair CommandPool) (commandPools p) ++
  map (pair Framebuffer) (framebuffers p).
Proof. reflexivity. Qed.

Lemma blk_scalar (k : ObjKind) (h h0 : Handle) :
  filter (fun kh => kh.2 <> VK_NULL_HANDLE) [(k, h)] ⊆+
  (k, h) :: filter (fun kh => kh.2 <> VK_NULL_HANDLE) [(k, h0)].
Proof.
  etrans; [apply sublist_submseteq, sublist_filter |].
  apply submseteq_skip, submseteq_nil_l.
Qed.

Lemma blk_insert (k : ObjKind) (v : list Handle) i h :
  filter (fun kh => kh.2 <> VK_NULL_HANDLE) (map (pair k) (<[i := h]> v)) ⊆+
  (k, h) :: filter (fun kh => kh.2 <> VK_NULL_HANDLE) (map (pair k) v).
Proof.
  destruct (v !! i) as [x|] eqn:E.
  - rewrite insert_take_drop by (by eapply lookup_lt_Some).
    rewrite <- (take_drop_middle v i x E) at 3.
    rewrite !map_app, !filter_app. simpl map.
    apply (submseteq_app_middle _ _ [(k, h)]).
    change ((k, h) :: map (pair k) (drop (S i) v))
      with ([(k, h)] ++ map (pair k) (drop (S i) v)).
    change ((k, x) :: map (pair k) (drop (S i) v))
      with ([(k, x)] ++ map (pair k) (drop (S i) v)).
    rewrite !filter_app. apply submseteq_app.
    + apply sublist_submseteq, sublist_filter.
    + apply submseteq_inserts_l. reflexivity.
  - rewrite list_insert_ge by (by apply lookup_ge_None). by apply submseteq_cons.
Qed.

Lemma blk_resize (k : ObjKind) (v : list Handle) n :
  filter (fun kh => kh.2 <> VK_NULL_HANDLE) (map (pair k) (resize n VK_NULL_HANDLE v)) ⊆+
  filter (fun kh => kh.2 <> VK_NULL_HANDLE) (map (pair k) v).
Proof.
  rewrite resize_spec, map_app, filter_app.
  assert (Hnull : filter (fun kh : ObjKind * Handle => kh.2 <> VK_NULL_HANDLE)
                    (map (pair k) (replicate (n - length v) VK_NULL_HANDLE)) = []).
  { induction (n - length v) as [|m IH]; simpl; [done |].
    rewrite filter_cons_False; [done | simpl; auto]. }
  rewrite Hnull, app_nil_r.
  rewrite <- (take_drop n v) at 2. rewrite map_app, filter_app.
  apply submseteq_inserts_r. reflexivity.
Qed.

Lemma blk_nil (k : ObjKind) (v : list Handle) :
  filter (fun kh => kh.2 <> VK_NULL_HANDLE) (map (pair k) []) ⊆+
  filter (fun kh => kh.2 <> VK_NULL_HANDLE) (map (pair k) v).
Proof. apply submseteq_nil_l. Qed.

Lemma sub_head {A} (a y z : list A) x : y ⊆+ x :: z -> a ++ y ⊆+ x :: a ++ z.
Proof. apply (submseteq_app_middle a y [x] z). Qed.

Lemma sub_here {A} (b' b r : list A) x : b' ⊆+ x :: b -> b' ++ r ⊆+ x :: b ++ r.
Proof. apply (submseteq_skips_r r b' (x :: b)). Qed.

(** [held_objects p' ⊆+ held_objects p], block by block. *)
Ltac shrink_tac :=
  unfold held_objects; rewrite !owned_blocks; proj_simpl; rewrite !filter_app;
  repeat (apply submseteq_app; [first [reflexivity | apply blk_resize | apply blk_nil] |]);
  first [reflexivity | apply blk_resize | apply blk_nil].

(** [held_objects p' ⊆+ x :: held_objects p], where one block has taken
    [x]. *)
Ltac grow_tac :=
  unfold held_objects; rewrite !owned_blocks; proj_simpl; rewrite !filter_app;
  repeat first [ apply blk_insert | apply blk_scalar
               | apply sub_here; first [apply blk_insert | apply blk_scalar]
               | apply sub_head ].

(** *** Steps that keep the pipeline sound *)

Lemma sound_with_self f s :
  held_objects (f (self s)) ⊆+ held_objects (self s) -> sound s -> sound (with_self f s).
Proof. intros Hsub [Hw Hv]. split; [exact (well_held_sub _ _ _ Hsub Hw) | done]. Qed.

Lemma sound_log e s :
  numbered (calls s) e -> no_destroy e = true -> sound s -> sound (log e s).
Proof.
  intros Hn Hd [Hw Hv]. split; [by apply well_held_step | by apply valid_destroys_quiet].
Qed.

Lemma sound_pop_answer s : sound s -> sound (pop_answer s).
Proof. exact id. Qed.

Lemma sound_pop_image s : sound s -> sound (pop_image s).
Proof. exact id. Qed.

Lemma sound_created s s' k r :
  is_success r = true ->
  calls s' = calls s ++ [EvCreate k VK_NULL_HANDLE r (S (issued (calls s)))] ->
  held_objects (self s') ⊆+ (k, S (issued (calls s))) :: held_objects (self s) ->
  sound s -> sound s'.
Proof.
  intros Hr Hc Hsub [Hw Hv]. split; rewrite Hc.
  - by apply (well_held_created (self s)).
  - by apply valid_destroys_quiet.
Qed.

Lemma sound_created_fence s s' flags r :
  is_success r = true ->
  calls s' = calls s ++ [EvCreateFence flags r (S (issued (calls s)))] ->
  held_objects (self s') ⊆+ (Fence, S (issued (calls s))) :: held_objects (self s) ->
  sound s -> sound s'.
Proof.
  intros Hr Hc Hsub [Hw Hv]. split; rewrite Hc.
  - by apply (well_held_created_fence (self s)).
  - by apply valid_destroys_quiet.
Qed.

Lemma sound_quiet s s' e :
  calls s' = calls s ++ [e] -> numbered (calls s) e -> no_destroy e = true ->
  held_objects (self s') ⊆+ held_objects (self s) ->
  sound s -> sound s'.
Proof.
  intros Hc Hn Hd Hsub [Hw Hv]. split; rewrite Hc.
  - apply (well_held_sub (self s)); [exact Hsub |]. by apply well_held_step.
  - by apply valid_destroys_quiet.
Qed.

(** The two shader modules are destroyed, the second created first. *)
Lemma shaders_released s hv hf :
  sound s -> rooted ShaderModule [hv; hf] (calls s) ->
  sound (log (EvDestroy ShaderModule hv) (log (EvDestroy ShaderModule hf) s)).
Proof.
  intros [Hw Hv] Hsh.
  assert (Hf : live (calls s) !! hf = Some (ShaderModule, VK_NULL_HANDLE)).
  { destruct Hsh as [_ Hall]. destruct (Hall hf) as (_ & _ & ?); [simpl; auto | done]. }
  assert (Hsh' : rooted ShaderModule [hv] (calls s ++ [EvDestroy ShaderModule hf])).
  { apply rooted_destroy.
    - destruct Hsh as [Hnd _]. apply NoDup_cons in Hnd as [Hne _].
      intros [<- | []]. apply Hne. by left.
    - destruct Hsh as [Hnd Hall]. split.
      + apply NoDup_singleton.
      + intros h [<- | []]. apply Hall. by left. }
  assert (Hvl : live (calls s ++ [EvDestroy ShaderModule hf]) !! hv
                = Some (ShaderModule, VK_NULL_HANDLE)).
  { destruct Hsh' as [_ Hall]. destruct (Hall hv) as (_ & _ & ?); [by left | done]. }
  split; simpl.
  - apply well_held_destroy.
    { apply (shader_not_held _ _ _ _ (well_held_destroy _ _ _ _
               (shader_not_held _ _ _ _ Hw Hf) Hw) Hvl). }
    apply well_held_destroy; [| done]. by eapply shader_not_held.
  - apply valid_destroys_destroy; [by right |].
    apply valid_destroys_destroy; [by right | done].
Qed.

Ltac sound_tac :=
  repeat lazymatch goal with
    | |- sound (with_self _ _) => apply sound_with_self; [solve [shrink_tac] |]
    | |- sound (log _ _) => apply sound_log; [solve [numbered_tac] | reflexivity |]
    | |- sound (pop_answer _) => apply sound_pop_answer
    | |- sound (pop_image _) => apply sound_pop_image
    | |- sound _ => assumption
    end.

(** A creation whose handle goes into a member, or a creation that fails. *)
Ltac create_step :=
  lazymatch goal with
  | |- post (bind (vkCreateInto _ _ _) _) _ _ ?s =>
      let r := fresh "r" in
      let s' := fresh "s" in
      let Hr := fresh "Hr" in
      let Hc := fresh "Hc" in
      let Hp := fresh "Hp" in
      let Hs := fresh "Hs" in
      assert (Hs : sound s) by sound_tac;
      apply post_bind, post_vkCreateInto; intros r s' Hr Hc Hp;
      [ assert (sound s') by
          first [ eapply sound_created;
                    [exact Hr | exact Hc | rewrite Hp; solve [grow_tac] | exact Hs]
                | eapply sound_quiet;
                    [ exact Hc | solve [numbered_tac] | reflexivity
                    | rewrite Hp; solve [shrink_tac] | exact Hs ] ]
      | assert (sound s') by
          (eapply sound_quiet;
             [ exact Hc | solve [numbered_tac] | reflexivity
             | rewrite Hp; reflexivity | exact Hs ]) ];
      clear Hc Hp
  | |- post (bind (vkCreateFenceInto _ _) _) _ _ ?s =>
      let r := fresh "r" in
      let s' := fresh "s" in
      let Hr := fresh "Hr" in
      let Hc := fresh "Hc" in
      let Hp := fresh "Hp" in
      let Hs := fresh "Hs" in
      assert (Hs : sound s) by sound_tac;
      apply post_bind, post_vkCreateFenceInto; intros r s' Hr Hc Hp;
      [ assert (sound s') by
          (eapply sound_created_fence;
             [exact Hr | exact Hc | rewrite Hp; solve [grow_tac] | exact Hs])
      | assert (sound s') by
          (eapply sound_quiet;
             [ exact Hc | solve [numbered_tac] | reflexivity
             | rewrite Hp; reflexivity | exact Hs ]) ];
      clear Hc Hp
  | |- post (bind (vkAllocateDescriptorSets _ _) _) _ _ ?s =>
      let r := fresh "r" in
      let s' := fresh "s" in
      let Hr := fresh "Hr" in
      let Hc := fresh "Hc" in
      let Hp := fresh "Hp" in
      let Hs := fresh "Hs" in
      assert (Hs : sound s) by sound_tac;
      apply post_bind, post_vkAllocateDescriptorSets; intros r s' Hr Hc Hp;
      [ assert (sound s') by
          (eapply sound_quiet;
             [ exact Hc | solve [numbered_tac] | reflexivity
             | rewrite Hp; solve [shrink_tac] | exact Hs ])
      | assert (sound s') by
          (eapply sound_quiet;
             [ exact Hc | solve [numbered_tac] | reflexivity
             | rewrite Hp; reflexivity | exact Hs ]) ];
      clear Hc Hp
  end.

Ltac sound_loop :=
  lazymatch goal with
  | |- post (bind (for_upto _ _ _) _) _ _ _ =>
      apply (post_for_upto_inv sound); [sound_tac | intros ? ? ? | intros ? ? ?]
  | |- post (bind (for_each _ _ _) _) _ _ _ =>
      apply (post_for_each_inv sound); [sound_tac | intros ? ? ? | intros ? ?]
  | |- post (for_upto _ _ _) _ _ _ =>
      apply (post_for_upto_tail sound); [sound_tac | intros ? ? ? | intros ? ? ?]
  | |- post (for_each _ _ _) _ _ _ =>
      apply (post_for_each_tail sound); [sound_tac | intros ? ? ? | intros ? ?]
  end.

Ltac sound_run :=
  unfold setError, vkCall, wp;
  repeat first [sound_loop | create_step | post_step];
  try solve [sound_tac].

Section BuildSound.

Variable MAX_FRAMES_IN_FLIGHT : nat.

Variable env : Env.

Lemma createDescriptorSetLayout_sound s :
  sound s -> wp createDescriptorSetLayout (fun _ s' => sound s') s.
Proof. intros H. unfold createDescriptorSetLayout. sound_run. Qed.

Lemma createRenderPass_sound s :
  sound s -> wp createRenderPass (fun _ s' => sound s') s.
Proof. intros H. unfold createRenderPass. sound_run. Qed.

Lemma createFramebuffers_sound s :
  sound s -> wp (createFramebuffers env) (fun _ s' => sound s') s.
Proof. intros H. unfold createFramebuffers. sound_run. Qed.

Lemma createCommandPools_sound s :
  sound s -> wp (createCommandPools MAX_FRAMES_IN_FLIGHT) (fun _ s' => sound s') s.
Proof. intros H. unfold createCommandPools. sound_run. Qed.

Lemma createCommandBuffers_sound s :
  sound s -> wp (createCommandBuffers MAX_FRAMES_IN_FLIGHT) (fun _ s' => sound s') s.
Proof. intros H. unfold createCommandBuffers. sound_run. Qed.

Lemma createUniformBuffers_sound s :
  sound s -> wp (createUniformBuffers MAX_FRAMES_IN_FLIGHT) (fun _ s' => sound s') s.
Proof. intros H. unfold createUniformBuffers. sound_run. Qed.

Lemma createDescriptorPool_sound s :
  sound s -> wp createDescriptorPool (fun _ s' => sound s') s.
Proof. intros H. unfold createDescriptorPool. sound_run. Qed.

Lemma createDescriptorSets_sound s :
  sound s -> wp (createDescriptorSets MAX_FRAMES_IN_FLIGHT) (fun _ s' => sound s') s.
Proof. intros H. unfold createDescriptorSets. sound_run. Qed.

Lemma createSyncObjects_sound s :
  sound s -> wp (createSyncObjects MAX_FRAMES_IN_FLIGHT) (fun _ s' => sound s') s.
Proof. intros H. unfold createSyncObjects. sound_run. Qed.

Lemma readFile_sound fn s :
  sound s -> wp (readFile env fn) (fun _ s' => sound s') s.
Proof. intros H. unfold readFile. destruct (files env fn); sound_run. Qed.

Lemma createGraphicsPipeline_sound s :
  sound s -> wp (createGraphicsPipeline env) (fun _ s' => sound s') s.
Proof.
  intros H. unfold createGraphicsPipeline, wp.
  apply (post_call sound); [by apply readFile_sound |].
  clear s H. intros vertShaderCode s H.
  apply (post_call sound); [by apply readFile_sound |].
  clear s H. intros fragShaderCode s H.
  apply post_bind, post_createShaderModule; intros r1 s1 Hr1 Hc1 Hp1;
    (assert (H1 : sound s1) by
       (eapply sound_quiet;
          [exact Hc1 | solve [numbered_tac] | reflexivity | by rewrite Hp1 | exact H])).
  all: apply post_bind, post_createShaderModule; intros r2 s2 Hr2 Hc2 Hp2;
    (assert (H2 : sound s2) by
       (eapply sound_quiet;
          [exact Hc2 | solve [numbered_tac] | reflexivity | by rewrite Hp2 | exact H1])).
  all: cbn [Nat.eqb VK_NULL_HANDLE orb].
  all: try by sound_run.
  assert (S2 : rooted ShaderModule [S (issued (calls s)); S (issued (calls s1))] (calls s2)).
  { rewrite Hc2. apply (rooted_create _ [_]); [done |].
    rewrite Hc1. exact (rooted_create _ [] _ _ Hr1 (rooted_nil _ _)). }
  clear H H1 Hc1 Hp1 Hc2 Hp2.
  apply post_bind, post_vkCreateInto; intros r3 s3 Hr3 Hc3 Hp3.
  2: { assert (sound s3) by
         (eapply sound_quiet;
            [exact Hc3 | solve [numbered_tac] | reflexivity | by rewrite Hp3 | exact H2]).
       sound_run. }
  assert (H3 : sound s3) by
    (eapply sound_created; [exact Hr3 | exact Hc3 | rewrite Hp3; solve [grow_tac] | exact H2]).
  assert (S3 : rooted ShaderModule [S (issued (calls s)); S (issued (calls s1))] (calls s3)).
  { rewrite Hc3. apply rooted_step; [numbered_tac | done | done]. }
  clear H2 S2 Hc3 Hp3. post_step.
  apply post_bind, post_vkCreateInto; intros r4 s4 Hr4 Hc4 Hp4.
  - assert (H4 : sound s4) by
      (eapply sound_created;
         [exact Hr4 | exact Hc4 | rewrite Hp4; solve [grow_tac] | exact H3]).
    assert (S4 : rooted ShaderModule [S (issued (calls s)); S (issued (calls s1))]
                   (calls s4)).
    { rewrite Hc4. apply rooted_step; [numbered_tac | done | done]. }
    post_step. unfold vkDestroy. apply post_bind, post_emit, post_bind, post_emit, post_ret.
    by apply shaders_released.
  - assert (H4 : sound s4) by
      (eapply sound_quiet;
         [exact Hc4 | solve [numbered_tac] | reflexivity | by rewrite Hp4 | exact H3]).
    assert (S4 : rooted ShaderModule [S (issued (calls s)); S (issued (calls s1))]
                   (calls s4)).
    { rewrite Hc4. apply rooted_step; [numbered_tac | done | done]. }
    post_step. unfold setError, vkDestroy.
    apply post_bind, post_modify, post_bind, post_emit, post_bind, post_emit, post_ret.
    apply (shaders_released (with_self _ s4)); [by sound_tac | done].
Qed.

Lemma and_then_sound (a b : M bool) :
  (forall s, sound s -> wp a (fun _ s' => sound s') s) ->
  (forall s, sound s -> wp b (fun _ s' => sound s') s) ->
  forall s, sound s -> wp (a &&> b) (fun _ s' => sound s') s.
Proof.
  intros Ha Hb s H. unfold and_then, wp. apply post_bind.
  eapply post_mono; [by apply Ha | | auto].
  intros [|] s' H'; [by apply Hb | by apply post_ret].
Qed.

Lemma build_all_sound s :
  sound s -> wp (build_all MAX_FRAMES_IN_FLIGHT env) (fun _ s' => sound s') s.
Proof.
  revert s. unfold build_all.
  repeat (apply and_then_sound;
          [ first [ apply createDescriptorSetLayout_sound | apply createRenderPass_sound
                  | apply createGraphicsPipeline_sound | apply createFramebuffers_sound
                  | apply createCommandPools_sound | apply createCommandBuffers_sound
                  | apply createUniformBuffers_sound | apply createDescriptorPool_sound
                  | apply createDescriptorSets_sound | apply createSyncObjects_sound ] |]).
  intros s H. unfold createVertexBuffer. by apply post_ret.
Qed.

Lemma initialize_sound s :
  sound s -> wp (initialize MAX_FRAMES_IN_FLIGHT env) (fun _ s' => sound s') s.
Proof.
  intros H. rewrite initialize_unfold. unfold wp.
  apply post_bind, post_this. post_step; [by sound_run |].
  apply (post_call sound); [by apply build_all_sound |].
  intros ok s1 H1. sound_run.
Qed.

End BuildSound.

(** *** Frames *)

Section FramesSound.

Variable MAX_FRAMES_IN_FLIGHT : nat.

Variable env : Env.

Lemma waitIdle_sound s : sound s -> wp (waitIdle env) (fun _ s' => sound s') s.
Proof. intros H. unfold waitIdle, vkDeviceWaitIdle. sound_run. Qed.

Lemma beginFrame_sound s :
  sound s -> post (beginFrame env) (fun _ s' => sound s') sound s.
Proof.
  intros H. unfold beginFrame. apply post_bind, post_this. post_step; [by sound_run |].
  apply post_bind, post_vkWaitForFences. intros s1 Hc1 Hp1 _ _.
  assert (H1 : sound s1) by
    (eapply sound_quiet;
       [exact Hc1 | solve [numbered_tac] | reflexivity | by rewrite Hp1 | exact H]).
  split; [intros _ | done].
  apply post_bind, post_acquire. intros s2 Hc2 Hp2 _.
  assert (H2 : sound s2).
  { eapply sound_quiet; [exact Hc2 | solve [numbered_tac] | reflexivity | | exact H1].
    rewrite Hp2. destruct (acquired _); [shrink_tac | reflexivity]. }
  clear H H1 Hc1 Hp1 Hc2 Hp2. unfold updateUniformBuffer. sound_run.
Qed.

Lemma endFrame_sound s :
  sound s -> wp (endFrame MAX_FRAMES_IN_FLIGHT) (fun _ s' => sound s') s.
Proof. intros H. unfold endFrame. sound_run. Qed.

End FramesSound.

(** *** What [cleanup] destroys *)

Lemma targets_app l1 l2 : targets (l1 ++ l2) = targets l1 ++ targets l2.
Proof. apply omap_app. Qed.

Lemma targets_release k h :
  targets (release k h) = if nonnull h then [(k, h)] else [].
Proof. unfold release. destruct (nonnull h) eqn:E; [| done]. simpl. by rewrite E. Qed.

Lemma nonnull_inv h : nonnull h = true -> h <> VK_NULL_HANDLE.
Proof. intros E ->. discriminate E. Qed.

Lemma in_targets_release k h x :
  In x (targets (release k h)) -> x = (k, h) /\ h <> VK_NULL_HANDLE.
Proof.
  rewrite targets_release. destruct (nonnull h) eqn:E; [| done].
  intros [<- | []]. split; [done | by apply nonnull_inv].
Qed.

Lemma in_targets_destroy k h x :
  In x (targets [EvDestroy k h]) -> x = (k, h) /\ h <> VK_NULL_HANDLE.
Proof.
  simpl. destruct (nonnull h) eqn:E; [| done].
  intros [<- | []]. split; [done | by apply nonnull_inv].
Qed.

Lemma NoDup_targets_release k h : NoDup (targets (release k h)).
Proof.
  rewrite targets_release. destruct (nonnull h); repeat constructor.
  apply not_elem_of_nil.
Qed.

Lemma in_targets k h evs : In (k, h) (targets evs) -> h <> VK_NULL_HANDLE.
Proof.
  induction evs as [|e evs IH]; simpl; [done |].
  destruct e; simpl; try done. destruct (nonnull h0) eqn:E; simpl; [| done].
  intros [[= <- <-] | Hin]; [by apply nonnull_inv | by apply IH].
Qed.

Lemma in_targets_flat_map (g : nat -> list Event) l x :
  In x (targets (flat_map g l)) -> exists i, In i l /\ In x (targets (g i)).
Proof.
  induction l as [|a l IH]; simpl; [done |].
  rewrite targets_app, in_app_iff. intros [H | H]; [by eauto |].
  destruct (IH H) as (i & Hi & Hx). eauto.
Qed.

Lemma NoDup_targets_flat_map (g : nat -> list Event) n : forall a,
  (forall i, a <= i < a + n -> NoDup (targets (g i))) ->
  (forall i j x, a <= i < a + n -> a <= j < a + n ->
     In x (targets (g i)) -> In x (targets (g j)) -> i = j) ->
  NoDup (targets (flat_map g (seq a n))).
Proof.
  induction n as [|n IH]; intros a Hnd Hinj; simpl; [constructor |].
  rewrite targets_app. apply NoDup_app. split; [apply Hnd; lia |]. split.
  - intros x Hx%list_elem_of_In Hy%list_elem_of_In.
    apply in_targets_flat_map in Hy as (j & Hj & Hy). apply in_seq in Hj.
    assert (a = j) by (apply (Hinj a j x); [lia | lia | done | done]). lia.
  - apply IH.
    + intros i Hi. apply Hnd. lia.
    + intros i j x Hi Hj. apply Hinj; lia.
Qed.

Lemma vec_at_nonnull (v : list Handle) i :
  vec_at v i <> VK_NULL_HANDLE -> v !! i = Some (vec_at v i).
Proof. unfold vec_at. destruct (v !! i); [done |]. simpl. by intros []. Qed.

(** Distinct objects in a vector sit at distinct indices. *)
Lemma held_in (k : ObjKind) (v : list Handle) h :
  In h v -> h <> VK_NULL_HANDLE ->
  (k, h) ∈ filter (fun kh : ObjKind * Handle => kh.2 <> VK_NULL_HANDLE) (map (pair k) v).
Proof.
  intros Hin Hnn. apply list_elem_of_filter. split; [done |].
  apply list_elem_of_In, in_map_iff. eauto.
Qed.

Lemma held_inj (k : ObjKind) (v : list Handle) :
  NoDup (filter (fun kh : ObjKind * Handle => kh.2 <> VK_NULL_HANDLE) (map (pair k) v)) ->
  forall i j h, v !! i = Some h -> v !! j = Some h -> h <> VK_NULL_HANDLE -> i = j.
Proof.
  induction v as [|x v IH]; intros Hnd i j h Hi Hj Hnn; [done |].
  simpl in Hnd. rewrite filter_cons in Hnd.
  destruct i as [|i], j as [|j]; simpl in Hi, Hj; [done | | |].
  - injection Hi as ->. rewrite decide_True in Hnd by done.
    apply NoDup_cons in Hnd as [Hout _]. destruct Hout.
    apply held_in; [by eapply in_lookup | done].
  - injection Hj as ->. rewrite decide_True in Hnd by done.
    apply NoDup_cons in Hnd as [Hout _]. destruct Hout.
    apply held_in; [by eapply in_lookup | done].
  - f_equal. apply (IH (ltac:(case_decide; [by apply NoDup_cons in Hnd as [_ ?] | done]))
                       i j h Hi Hj Hnn).
Qed.

Ltac split_held H :=
  unfold held_objects in H; rewrite owned_blocks, !filter_app in H;
  let go H N D := (apply NoDup_app in H as (N & D & H)) in
  let N1 := fresh "Ndp" in let D1 := fresh "Ddp" in go H N1 D1;
  let N2 := fresh "Ndsl" in let D2 := fresh "Ddsl" in go H N2 D2;
  let N3 := fresh "Nvb" in let D3 := fresh "Dvb" in go H N3 D3;
  let N4 := fresh "Nvm" in let D4 := fresh "Dvm" in go H N4 D4;
  let N5 := fresh "Ngp" in let D5 := fresh "Dgp" in go H N5 D5;
  let N6 := fresh "Npl" in let D6 := fresh "Dpl" in go H N6 D6;
  let N7 := fresh "Nrp" in let D7 := fresh "Drp" in go H N7 D7;
  let N8 := fresh "Nub" in let D8 := fresh "Dub" in go H N8 D8;
  let N9 := fresh "Num" in let D9 := fresh "Dum" in go H N9 D9;
  let N10 := fresh "Nias" in let D10 := fresh "Dias" in go H N10 D10;
  let N11 := fresh "Nrfs" in let D11 := fresh "Drfs" in go H N11 D11;
  let N12 := fresh "Nfn" in let D12 := fresh "Dfn" in go H N12 D12;
  let N13 := fresh "Npools" in let D13 := fresh "Dpools" in go H N13 D13.

Section Held.

Variable p : Pipeline.

Hypothesis Hnd : NoDup (held_objects p).

Lemma uniformBuffers_inj i j h :
  uniformBuffers p !! i = Some h -> uniformBuffers p !! j = Some h ->
  h <> VK_NULL_HANDLE -> i = j.
Proof. pose proof Hnd as H. split_held H. by apply (held_inj Buffer (uniformBuffers p)). Qed.

Lemma uniformBuffersMemory_inj i j h :
  uniformBuffersMemory p !! i = Some h -> uniformBuffersMemory p !! j = Some h ->
  h <> VK_NULL_HANDLE -> i = j.
Proof. pose proof Hnd as H. split_held H. by apply (held_inj DeviceMemory (uniformBuffersMemory p)). Qed.

Lemma imageAvailableSemaphores_inj i j h :
  imageAvailableSemaphores p !! i = Some h -> imageAvailableSemaphores p !! j = Some h ->
  h <> VK_NULL_HANDLE -> i = j.
Proof. pose proof Hnd as H. split_held H. by apply (held_inj Semaphore (imageAvailableSemaphores p)). Qed.

Lemma renderFinishedSemaphores_inj i j h :
  renderFinishedSemaphores p !! i = Some h -> renderFinishedSemaphores p !! j = Some h ->
  h <> VK_NULL_HANDLE -> i = j.
Proof. pose proof Hnd as H. split_held H. by apply (held_inj Semaphore (renderFinishedSemaphores p)). Qed.

Lemma inFlightFences_inj i j h :
  inFlightFences p !! i = Some h -> inFlightFences p !! j = Some h ->
  h <> VK_NULL_HANDLE -> i = j.
Proof. pose proof Hnd as H. split_held H. by apply (held_inj Fence (inFlightFences p)). Qed.

Lemma commandPools_inj i j h :
  commandPools p !! i = Some h -> commandPools p !! j = Some h ->
  h <> VK_NULL_HANDLE -> i = j.
Proof. pose proof Hnd as H. split_held H. by apply (held_inj CommandPool (commandPools p)). Qed.

Lemma framebuffers_inj i j h :
  framebuffers p !! i = Some h -> framebuffers p !! j = Some h ->
  h <> VK_NULL_HANDLE -> i = j.
Proof. pose proof Hnd as H. split_held H. by apply (held_inj Framebuffer (framebuffers p)). Qed.

Lemma semaphores_apart h :
  h <> VK_NULL_HANDLE -> In h (imageAvailableSemaphores p) ->
  ~ In h (renderFinishedSemaphores p).
Proof.
  pose proof Hnd as H. split_held H. intros Hnn Hin Hin'.
  apply (Dias (Semaphore, h)); [by apply held_in |].
  rewrite elem_of_app. left. by apply held_in.
Qed.

Lemma vertexBuffer_apart :
  vertexBuffer p <> VK_NULL_HANDLE -> ~ In (vertexBuffer p) (uniformBuffers p).
Proof.
  pose proof Hnd as H. split_held H. intros Hnn Hin.
  apply (Dvb (Buffer, vertexBuffer p)).
  - apply (held_in Buffer [_]); [by left | done].
  - rewrite !elem_of_app. do 4 right. left. by apply held_in.
Qed.

Lemma vertexBufferMemory_apart :
  vertexBufferMemory p <> VK_NULL_HANDLE ->
  ~ In (vertexBufferMemory p) (uniformBuffersMemory p).
Proof.
  pose proof Hnd as H. split_held H. intros Hnn Hin.
  apply (Dvm (DeviceMemory, vertexBufferMemory p)).
  - apply (held_in DeviceMemory [_]); [by left | done].
  - rewrite !elem_of_app. do 4 right. left. by apply held_in.
Qed.

End Held.

Section CleanupTargets.

Variable p : Pipeline.

Hypothesis Hnd : NoDup (held_objects p).

Lemma in_targets_uniform i x :
  In x (targets (uniform_release p i)) ->
  x.2 <> VK_NULL_HANDLE /\
  ((x.1 = Buffer /\ uniformBuffers p !! i = Some x.2) \/
   (x.1 = DeviceMemory /\ uniformBuffersMemory p !! i = Some x.2)).
Proof.
  unfold uniform_release. rewrite !targets_app, !in_app_iff.
  intros [H | [H | H]].
  - by destruct (nonnull _).
  - apply in_targets_release in H as [-> Hnn]. split; [done |]. left. split; [done |].
    by apply vec_at_nonnull.
  - apply in_targets_release in H as [-> Hnn]. split; [done |]. right. split; [done |].
    by apply vec_at_nonnull.
Qed.

Lemma in_targets_sync i x :
  In x (targets (sync_release p i)) ->
  x.2 <> VK_NULL_HANDLE /\
  ((x.1 = Semaphore /\ imageAvailableSemaphores p !! i = Some x.2) \/
   (x.1 = Semaphore /\ renderFinishedSemaphores p !! i = Some x.2) \/
   (x.1 = Fence /\ inFlightFences p !! i = Some x.2)).
Proof.
  unfold sync_release. rewrite !targets_app, !in_app_iff.
  intros [H | [H | H]]; destruct (Nat.ltb _ _); try done;
    apply in_targets_destroy in H as [-> Hnn]; (split; [done |]); simpl;
    auto using vec_at_nonnull.
Qed.

Lemma in_targets_each k v i x :
  In x (targets (release k (vec_at v i))) ->
  x.2 <> VK_NULL_HANDLE /\ x.1 = k /\ v !! i = Some x.2.
Proof.
  intros H. apply in_targets_release in H as [-> Hnn]. split; [done |]. split; [done |].
  by apply vec_at_nonnull.
Qed.

Lemma NoDup_short (x y z : list (ObjKind * Handle)) :
  (forall a, In a x -> x = [a]) -> (forall a, In a y -> y = [a]) ->
  (forall a, In a z -> z = [a]) ->
  (forall a, In a x -> ~ In a y) -> (forall a, In a x -> ~ In a z) ->
  (forall a, In a y -> ~ In a z) ->
  NoDup (x ++ y ++ z).
Proof.
  intros Hx Hy Hz Hxy Hxz Hyz.
  assert (Hone : forall l : list (ObjKind * Handle),
            (forall a, In a l -> l = [a]) -> NoDup l).
  { intros [|a l] Hl; [constructor |]. rewrite (Hl a) by by left.
    apply NoDup_singleton. }
  apply NoDup_app. split; [by apply Hone |]. split.
  - intros a Ha%list_elem_of_In Hin%list_elem_of_In. apply in_app_iff in Hin as [Hin | Hin].
    + by apply (Hxy a).
    + by apply (Hxz a).
  - apply NoDup_app. split; [by apply Hone |]. split; [| by apply Hone].
    intros a Ha%list_elem_of_In Hin%list_elem_of_In. by apply (Hyz a).
Qed.

Lemma one_release k h a : In a (targets (release k h)) -> targets (release k h) = [a].
Proof.
  rewrite targets_release. destruct (nonnull h); [| done]. by intros [<- | []].
Qed.

Lemma one_destroy (b : bool) k h a :
  In a (targets (if b then [EvDestroy k h] else [])) ->
  targets (if b then [EvDestroy k h] else []) = [a].
Proof.
  destruct b; [| done]. simpl. destruct (nonnull h); [| done]. by intros [<- | []].
Qed.

Lemma in_one_destroy (b : bool) k h a :
  In a (targets (if b then [EvDestroy k h] else [])) -> a = (k, h) /\ h <> VK_NULL_HANDLE.
Proof. destruct b; [| done]. apply in_targets_destroy. Qed.

Lemma NoDup_uniforms : NoDup (targets (uniforms_release p)).
Proof.
  unfold uniforms_release. apply NoDup_targets_flat_map.
  - intros i _. unfold uniform_release. rewrite !targets_app.
    apply NoDup_short; try apply one_release.
    + intros a H. by destruct (nonnull _).
    + intros a H. by destruct (nonnull _).
    + intros a H. by destruct (nonnull _).
    + intros a [-> _]%in_targets_release [[=] _]%in_targets_release.
  - intros i j x _ _ Hi Hj.
    apply in_targets_uniform in Hi as (Hnn & [[Hk Hi] | [Hk Hi]]);
      apply in_targets_uniform in Hj as (_ & [[Hk' Hj] | [Hk' Hj]]);
      try congruence.
    + by apply (uniformBuffers_inj p Hnd i j x.2).
    + by apply (uniformBuffersMemory_inj p Hnd i j x.2).
Qed.

Lemma NoDup_syncs n : NoDup (targets (syncs_release n p)).
Proof.
  unfold syncs_release. apply NoDup_targets_flat_map.
  - intros i _. unfold sync_release. rewrite !targets_app.
    apply NoDup_short; try apply one_destroy.
    + intros a [-> Hnn]%in_one_destroy [[= Heq] _]%in_one_destroy.
      destruct (semaphores_apart p Hnd (vec_at (imageAvailableSemaphores p) i)); [done | |].
      * by eapply in_lookup, vec_at_nonnull.
      * rewrite Heq. eapply in_lookup, vec_at_nonnull. by rewrite <- Heq.
    + intros a [-> _]%in_one_destroy [[=] _]%in_one_destroy.
    + intros a [-> _]%in_one_destroy [[=] _]%in_one_destroy.
  - intros i j x _ _ Hi Hj.
    apply in_targets_sync in Hi as (Hnn & [[Hk Hi] | [[Hk Hi] | [Hk Hi]]]);
      apply in_targets_sync in Hj as (_ & [[Hk' Hj] | [[Hk' Hj] | [Hk' Hj]]]);
      try congruence.
    + by apply (imageAvailableSemaphores_inj p Hnd i j x.2).
    + destruct (semaphores_apart p Hnd x.2 Hnn); by eapply in_lookup.
    + destruct (semaphores_apart p Hnd x.2 Hnn); by eapply in_lookup.
    + by apply (renderFinishedSemaphores_inj p Hnd i j x.2).
    + by apply (inFlightFences_inj p Hnd i j x.2).
Qed.

Lemma NoDup_each k v :
  (forall i j h, v !! i = Some h -> v !! j = Some h -> h <> VK_NULL_HANDLE -> i = j) ->
  NoDup (targets (release_each k v)).
Proof.
  intros Hinj. unfold release_each. apply NoDup_targets_flat_map.
  - intros i _. apply NoDup_targets_release.
  - intros i j x _ _ Hi Hj.
    apply in_targets_each in Hi as (Hnn & _ & Hi).
    apply in_targets_each in Hj as (_ & _ & Hj). by apply (Hinj i j x.2).
Qed.

Lemma kind_uniforms x :
  In x (targets (uniforms_release p)) ->
  x.2 <> VK_NULL_HANDLE /\
  ((x.1 = Buffer /\ In x.2 (uniformBuffers p)) \/
   (x.1 = DeviceMemory /\ In x.2 (uniformBuffersMemory p))).
Proof.
  intros H. apply in_targets_flat_map in H as (i & _ & H).
  apply in_targets_uniform in H as (Hnn & [[Hk H] | [Hk H]]);
    eauto 6 using in_lookup.
Qed.

Lemma kind_syncs n x :
  In x (targets (syncs_release n p)) ->
  x.2 <> VK_NULL_HANDLE /\
  ((x.1 = Semaphore /\ In x.2 (imageAvailableSemaphores p)) \/
   (x.1 = Semaphore /\ In x.2 (renderFinishedSemaphores p)) \/
   (x.1 = Fence /\ In x.2 (inFlightFences p))).
Proof.
  intros H. apply in_targets_flat_map in H as (i & _ & H).
  apply in_targets_sync in H as (Hnn & [[Hk H] | [[Hk H] | [Hk H]]]);
    eauto 8 using in_lookup.
Qed.

Lemma kind_each k v x :
  In x (targets (release_each k v)) -> x.2 <> VK_NULL_HANDLE /\ x.1 = k /\ In x.2 v.
Proof.
  intros H. apply in_targets_flat_map in H as (i & _ & H).
  apply in_targets_each in H as (Hnn & Hk & H). eauto using in_lookup.
Qed.

Lemma kind_release k h x :
  In x (targets (release k h)) -> x.2 <> VK_NULL_HANDLE /\ x.1 = k /\ In x.2 [h].
Proof.
  intros H. apply in_targets_release in H as [-> Hnn]. split; [done |].
  split; [done | by left].
Qed.

End CleanupTargets.

Ltac kind_of p H :=
  let Hnn := fresh "Hnn" in
  first [ apply (kind_uniforms p) in H as (Hnn & [[H ?] | [H ?]])
        | apply (kind_syncs p) in H as (Hnn & [[H ?] | [[H ?] | [H ?]]])
        | apply kind_each in H as (Hnn & H & ?)
        | apply kind_release in H as (Hnn & H & ?) ].

Section CleanupValid.

Variable n : nat.

Variable p : Pipeline.

Hypothesis Hnd : NoDup (held_objects p).

Lemma vertexBuffer_alone (x : ObjKind * Handle) :
  In x.2 (uniformBuffers p) -> x.2 <> VK_NULL_HANDLE -> In x.2 [vertexBuffer p] -> False.
Proof.
  intros Hin Hnn [Heq | []]. apply (vertexBuffer_apart p Hnd); by rewrite Heq.
Qed.

Lemma vertexBufferMemory_alone (x : ObjKind * Handle) :
  In x.2 (uniformBuffersMemory p) -> x.2 <> VK_NULL_HANDLE ->
  In x.2 [vertexBufferMemory p] -> False.
Proof.
  intros Hin Hnn [Heq | []]. apply (vertexBufferMemory_apart p Hnd); by rewrite Heq.
Qed.

Lemma NoDup_cleanup : NoDup (targets (cleanup_calls n p)).
Proof.
  unfold cleanup_calls. rewrite !targets_app.
  repeat (apply NoDup_app; split; [| split]).
  all: try apply NoDup_targets_release.
  all: try by apply NoDup_uniforms.
  all: try by apply NoDup_syncs.
  all: try (apply NoDup_each; first [ by apply commandPools_inj
                                    | by apply framebuffers_inj ]).
  all: intros x Hx%list_elem_of_In Hy%list_elem_of_In;
    rewrite ?in_app_iff in Hy; kind_of p Hx;
    repeat (destruct Hy as [Hy | Hy]); kind_of p Hy;
    first [ congruence
          | by eapply vertexBuffer_alone
          | by eapply vertexBufferMemory_alone ].
Qed.

Lemma cleanup_held k h :
  In (k, h) (targets (cleanup_calls n p)) -> In (k, h) (held_objects p).
Proof.
  intros H.
  assert (Hnn : h <> VK_NULL_HANDLE) by (by eapply in_targets).
  apply list_elem_of_In, list_elem_of_filter. split; [done |]. apply list_elem_of_In.
  revert H. unfold cleanup_calls. rewrite !targets_app, !in_app_iff. intros H.
  repeat (destruct H as [H | H]); kind_of p H; simpl in *; subst k;
    first [ by apply owned_uniformBuffer | by apply owned_uniformBufferMemory
          | by apply owned_imageAvailableSemaphore
          | by apply owned_renderFinishedSemaphore
          | by apply owned_inFlightFence | by apply owned_commandPool
          | by apply owned_framebuffer
          | match goal with
            | Hin : _ \/ False |- _ =>
                destruct Hin as [<- | []]; unfold owned; simpl; auto 10
            end ].
Qed.

End CleanupValid.

Lemma live_step_quiet m e :
  creates_nothing e -> no_destroy e = true -> live_step m e = m.
Proof.
  unfold creates_nothing. intros Hc Hd.
  destruct e; simpl in *; try done; destruct (is_success r); try done. by subst.
Qed.

Lemma destroys_valid evs : forall m,
  Forall creates_nothing evs ->
  NoDup (targets evs) ->
  (forall k h, In (k, h) (targets evs) -> m !! h = Some (k, VK_NULL_HANDLE)) ->
  forall before k h rest, evs = before ++ EvDestroy k h :: rest ->
    h = VK_NULL_HANDLE \/ foldl live_step m before !! h = Some (k, VK_NULL_HANDLE).
Proof.
  induction evs as [|e evs IH]; intros m Hcn Hnd Hty before k h rest Heq.
  { by destruct before. }
  destruct before as [|e' before]; simpl in Heq; injection Heq as He Hevs; subst e evs.
  - simpl. destruct (decide (h = VK_NULL_HANDLE)) as [| Hnn]; [by left | right].
    apply Hty. simpl. rewrite nonnull_true by done. by left.
  - rename e' into e. simpl. inversion Hcn as [|? ? He Hcn']; subst.
    apply (IH (live_step m e)) with (rest := rest); [done | | | done].
    + destruct e; simpl in Hnd; try done.
      destruct (nonnull h0); [by inversion Hnd | done].
    + intros k2 h2 Hin.
      destruct (no_destroy e) eqn:Hd.
      * rewrite live_step_quiet by done. apply Hty. by destruct e.
      * destruct e; try discriminate Hd.
        cbn [live_step]. case_decide as Hz.
        { subst. apply Hty. exact Hin. }
        simpl in Hnd, Hty. rewrite nonnull_true in Hnd, Hty by done.
        inversion Hnd as [|? ? Hout Hnd']; subst.
        pose proof (Hty k2 h2 (or_intror Hin)) as Hm2.
        pose proof (Hty k0 h0 (or_introl eq_refl)) as Hm0.
        apply map_lookup_filter_Some. split; [done |]. simpl. split; [| done].
        intros ->. rewrite Hm0 in Hm2. injection Hm2 as ->.
        by apply Hout, list_elem_of_In.
Qed.

(** *** Every operation keeps the pipeline sound *)

Lemma held_cleared p : held_objects (cleared p) = [].
Proof. reflexivity. Qed.

Lemma held_nonnull p k h : In (k, h) (held_objects p) -> h <> VK_NULL_HANDLE.
Proof.
  unfold held_objects. intros H%list_elem_of_In.
  by apply list_elem_of_filter in H as [H _].
Qed.

Lemma well_held_released p evs : forall tr,
  Forall creates_nothing evs ->
  (forall k h, In (k, h) (targets evs) -> forall k', ~ In (k', h) (held_objects p)) ->
  well_held p tr -> well_held p (tr ++ evs).
Proof.
  induction evs as [|e evs IH]; intros tr Hcn Hout Hw; [by rewrite app_nil_r |].
  inversion Hcn as [|? ? He Hcn']; subst.
  replace (tr ++ e :: evs) with ((tr ++ [e]) ++ evs) by (by rewrite <- app_assoc).
  apply IH; [done | |].
  - intros k h Hin. apply (Hout k h). destruct e; simpl; try done.
    destruct (nonnull h0); [by right | done].
  - destruct (no_destroy e) eqn:Hd.
    + apply well_held_step; [by apply numbered_nothing | done | done].
    + destruct e; try discriminate Hd. apply well_held_destroy; [| done].
      intros k' Hin. pose proof (held_nonnull _ _ _ Hin) as Hnn.
      refine (Hout k h _ k' Hin). simpl. rewrite nonnull_true by done. by left.
Qed.

Lemma idle_wait_quiet env :
  Forall creates_nothing (idle_wait env) /\ targets (idle_wait env) = [].
Proof. unfold idle_wait. destruct (nonnull _); split; by repeat constructor. Qed.

Lemma no_framebuffer_left p h :
  ~ In (Framebuffer, h) (held_objects (set_framebuffers [] p)).
Proof.
  intros H%held_objects_owned. revert H. unfold owned. proj_simpl.
  rewrite !in_app_iff, !in_map_iff. simpl.
  intros H. repeat destruct H as [H | H]; try done;
    destruct H as (? & Heq & Hin); first [discriminate Heq | contradiction].
Qed.

Section Operations.

Variable MAX_FRAMES_IN_FLIGHT : nat.

Variable env : Env.

Lemma cleanup_sound s :
  sound s -> sound (final (cleanup MAX_FRAMES_IN_FLIGHT env s)).
Proof.
  intros [[Hnd Hty] Hv]. rewrite cleanup_spec. cbn [final]. split; cbn [self calls].
  - split; rewrite held_cleared; [constructor | by intros ? ? []].
  - apply valid_destroys_app; [done |]. intros before k h rest Heq.
    rewrite live_app. revert before k h rest Heq. apply destroys_valid.
    + apply Forall_app. split; [apply idle_wait_quiet | apply cleanup_creates_nothing].
    + rewrite targets_app, (proj2 (idle_wait_quiet env)). by apply NoDup_cleanup.
    + intros k h. rewrite targets_app, (proj2 (idle_wait_quiet env)). simpl.
      intros Hin. by apply Hty, (cleanup_held MAX_FRAMES_IN_FLIGHT).
Qed.

Lemma framebuffers_released s :
  sound s ->
  sound (log_all (idle_wait env ++ release_each Framebuffer (framebuffers (self s)))
                 (with_self (set_framebuffers []) s)).
Proof.
  intros [[Hnd Hty] Hv].
  assert (Hin : forall k h,
            In (k, h) (targets (idle_wait env ++
                                release_each Framebuffer (framebuffers (self s)))) ->
            In (k, h) (held_objects (self s)) /\ k = Framebuffer).
  { intros k h. rewrite targets_app, (proj2 (idle_wait_quiet env)). simpl.
    intros H. apply kind_each in H as (Hnn & Hk & H). simpl in *. subst k.
    split; [| done]. apply list_elem_of_In, list_elem_of_filter. split; [done |].
    by apply list_elem_of_In, owned_framebuffer. }
  assert (Hcn : Forall creates_nothing
                  (idle_wait env ++ release_each Framebuffer (framebuffers (self s)))).
  { apply Forall_app. split; [apply idle_wait_quiet |].
    unfold release_each. apply Forall_flat_map'. intros i. apply release_creates_nothing. }
  split; cbn [self calls log_all with_self].
  - apply well_held_released; [done | |].
    + intros k h Hkh k' Hheld. destruct (Hin k h Hkh) as [Hwas ->].
      assert (Hwas' : In (k', h) (held_objects (self s))).
      { eapply in_sub; [| exact Hheld]. shrink_tac. }
      destruct (Hty _ _ Hwas) as [_ E1]. destruct (Hty _ _ Hwas') as [_ E2].
      rewrite E1 in E2. injection E2 as <-. by apply no_framebuffer_left in Hheld.
    + apply (well_held_sub (self s)); [shrink_tac | by split].
  - apply valid_destroys_app; [done |]. intros before k h rest Heq.
    rewrite live_app. revert before k h rest Heq. apply destroys_valid; [done | |].
    + rewrite targets_app, (proj2 (idle_wait_quiet env)). simpl.
      apply NoDup_each. by apply framebuffers_inj.
    + intros k h Hkh. by apply Hty, Hin.
Qed.

Lemma recreateIfNeeded_steps s :
  state (self s) = RECREATING ->
  recreateIfNeeded MAX_FRAMES_IN_FLIGHT env s =
  initialize MAX_FRAMES_IN_FLIGHT env
    (final (cleanup MAX_FRAMES_IN_FLIGHT env
              (log_all (idle_wait env ++ release_each Framebuffer (framebuffers (self s)))
                       (with_self (set_framebuffers []) s)))).
Proof.
  intros Hst.
  set (s1 := log_all (idle_wait env ++
                      release_each Framebuffer (framebuffers (self s)))
                     (with_self (set_framebuffers []) s)).
  pose proof (cleanup_spec MAX_FRAMES_IN_FLIGHT env s1) as Hclean.
  rewrite Hclean. cbn [final].
  unfold recreateIfNeeded. step. rewrite Hst. cbn [bool_decide decide_rel negb].
  rewrite bool_decide_true by done. cbn [negb].
  step_by ltac:(apply waitIdle_spec). do 2 step.
  step_by ltac:(apply (for_each_emits
                  (fun _ i => release Framebuffer (vec_at (framebuffers (self s)) i)));
                intros; unfold vkDestroy; apply when_emit).
  assert (Hs1 : log_all (flat_map (fun i => release Framebuffer (vec_at (framebuffers (self s)) i))
                           (seq 0 (length (framebuffers (self s)))))
                  (with_self (set_framebuffers []) (log_all (idle_wait env) s)) = s1).
  { subst s1. apply St_eq; proj_simpl; try done. by rewrite <- app_assoc. }
  rewrite Hs1. step_by ltac:(exact Hclean).
  unfold bind, ret.
  by destruct (initialize MAX_FRAMES_IN_FLIGHT env _) as [ok s'|s'|s'].
Qed.

Lemma run_op_sound op s :
  sound s -> sound (run_op MAX_FRAMES_IN_FLIGHT env op s).
Proof.
  intros H. destruct op; unfold run_op.
  - apply (post_final (initialize MAX_FRAMES_IN_FLIGHT env) sound).
    by apply wp_post, initialize_sound.
  - by apply cleanup_sound.
  - apply (post_final (beginFrame env) sound). by apply beginFrame_sound.
  - apply (post_final (endFrame MAX_FRAMES_IN_FLIGHT) sound).
    by apply wp_post, endFrame_sound.
  - destruct (decide (state (self s) = RECREATING)) as [Hr | Hr].
    + rewrite recreateIfNeeded_steps by done.
      apply (post_final (initialize MAX_FRAMES_IN_FLIGHT env) sound).
      apply wp_post, initialize_sound. by apply cleanup_sound, framebuffers_released.
    + unfold recreateIfNeeded, bind, this. by rewrite bool_decide_false.
  - apply (post_final (waitIdle env) sound). by apply wp_post, waitIdle_sound.
Qed.

End Operations.

(** X12.  Whatever operations are called on a pipeline, in whatever order,
    with whatever swapchain and whatever answers from the driver, every
    destroy call it makes is given the null handle or an object of the kind
    the call destroys that is alive at that moment: nothing is destroyed
    twice, and nothing after the pool it was allocated from.  Along the way
    the handles the pipeline holds stay those of distinct live objects of the
    kinds of their members.  This holds from a new pipeline on, and from any
    state in which it held before. *)
Theorem destroy_calls_stay_valid MAX_FRAMES_IN_FLIGHT (ops : list (Env * Op)) s :
  sound s -> sound (run_ops MAX_FRAMES_IN_FLIGHT ops s).
Proof.
  revert s. induction ops as [|[env op] ops IH]; intros s H; [done |].
  simpl. apply IH. by apply run_op_sound.
Qed.

(** A new pipeline is sound, and so it is after [initialize], a frame, a
    recreation and [cleanup] on the sample machine; the last call of all
    destroys the render pass, which is alive until then. *)
Lemma destroy_calls_stay_valid_witness :
  sound (machine []) /\
  sound (run_ops 2 [(sample_env, OpInitialize); (sample_env, OpBeginFrame);
                    (sample_env, OpEndFrame); (sample_env, OpRecreateIfNeeded);
                    (sample_env, OpCleanup)] (machine [])).
Proof.
  assert (H : sound (machine [])).
  { split; [split |].
    - vm_compute. constructor.
    - intros k h Hin. vm_compute in Hin. destruct Hin.
    - apply valid_destroys_nil. }
  split; [exact H |]. by apply destroy_calls_stay_valid.
Defined.

(** ** The Vulkan context: the choice of a GPU *)

Section ContextChoice.

Variable deviceExtensions : list string.

Lemma elem_of_erase_all (required : gset string) (available : list string) x :
  x ∈ foldl (fun s e => s ∖ {[e]}) required available <-> x ∈ required /\ x ∉ available.
Proof.
  revert required. induction available as [|a l IH]; intros required; simpl.
  - split; [intros H; split; [done | apply not_elem_of_nil] | by intros [H _]].
  - rewrite IH, elem_of_difference, elem_of_singleton, not_elem_of_cons. tauto.
Qed.

Lemma missingExtensions_empty gpu :
  VulkanContext.missingExtensions deviceExtensions gpu = ∅ <->
  forall e, e ∈ deviceExtensions -> e ∈ VulkanContext.availableExtensions gpu.
Proof.
  unfold VulkanContext.missingExtensions. split.
  - intros Hempty e He.
    destruct (decide (e ∈ VulkanContext.availableExtensions gpu)) as [|Hn]; [done |].
    assert (H : e ∈ (∅ : gset string)); [| by apply elem_of_empty in H].
    rewrite <- Hempty. apply elem_of_erase_all. split; [by apply elem_of_list_to_set | done].
  - intros Hall. apply set_eq. intros x. rewrite elem_of_erase_all, elem_of_list_to_set.
    split; [| by intros H%elem_of_empty]. intros [Hx Hn]. destruct Hn. by apply Hall.
Qed.

Lemma suitable_spec gpu :
  suitable deviceExtensions gpu =
  bool_decide (VulkanContext.missingExtensions deviceExtensions gpu = ∅) &&
  (VulkanContext.deviceType gpu =? VulkanContext.VK_PHYSICAL_DEVICE_TYPE_DISCRETE_GPU)%Z.
Proof.
  unfold suitable. f_equal. apply eq_true_iff_eq.
  rewrite forallb_forall, bool_decide_eq_true, missingExtensions_empty.
  split; intros H e He.
  - apply list_elem_of_In in He. specialize (H e He).
    apply existsb_exists in H as (x & Hx & Heq). apply String.eqb_eq in Heq. subst x.
    by apply list_elem_of_In.
  - apply list_elem_of_In, H, list_elem_of_In in He.
    apply existsb_exists. exists e. split; [done | apply String.eqb_refl].
Qed.

Lemma pickLoop_find devices old :
  VulkanContext.pickLoop deviceExtensions devices old =
  match find (suitable deviceExtensions) devices with
  | Some gpu => VulkanContext.pd_handle gpu
  | None => old
  end.
Proof.
  induction devices as [|gpu rest IH]; simpl; [done |].
  rewrite suitable_spec.
  destruct (bool_decide (VulkanContext.missingExtensions deviceExtensions gpu = ∅));
    simpl; [| exact IH].
  by destruct (VulkanContext.deviceType gpu =? _)%Z.
Qed.

Variable host : VulkanContext.Host.

(** X13.  With no GPU chosen yet, [pickPhysicalDevice] fails exactly when
    the instance enumerates no GPU.  Otherwise it succeeds and chooses the
    first discrete GPU that has every required extension; when there is
    none it chooses the first GPU enumerated, whatever its type and whether
    or not it has the required extensions.  It makes no call that creates
    or destroys. *)
Theorem pickPhysicalDevice_choice w :
  VulkanContext.physicalDevice (VulkanContext.self w) = VK_NULL_HANDLE ->
  Forall (fun gpu => VulkanContext.pd_handle gpu <> VK_NULL_HANDLE)
         (VulkanContext.enumeratePhysicalDevices host
            (VulkanContext.instance (VulkanContext.self w))) ->
  match VulkanContext.enumeratePhysicalDevices host
          (VulkanContext.instance (VulkanContext.self w)) with
  | [] => VulkanContext.pickPhysicalDevice deviceExtensions host w
          = VulkanContext.Returned false w
  | first :: rest =>
      exists w',
        VulkanContext.pickPhysicalDevice deviceExtensions host w
          = VulkanContext.Returned true w' /\
        VulkanContext.calls w' = VulkanContext.calls w /\
        VulkanContext.self w' =
          VulkanContext.set_physicalDevice
            (match find (suitable deviceExtensions) (first :: rest) with
             | Some gpu => VulkanContext.pd_handle gpu
             | None => VulkanContext.pd_handle first
             end)
            (VulkanContext.self w)
  end.
Proof.
  intros Hnone Hhandles.
  unfold VulkanContext.pickPhysicalDevice, VulkanContext.bind, VulkanContext.this,
    VulkanContext.modify, VulkanContext.when, VulkanContext.ret.
  destruct (VulkanContext.enumeratePhysicalDevices host _) as [|first rest] eqn:Hd;
    [done |].
  cbn [length Nat.eqb VulkanContext.self VulkanContext.with_self].
  rewrite pickLoop_find, Hnone.
  destruct (find (suitable deviceExtensions) (first :: rest)) as [gpu|] eqn:Hfind.
  - apply find_some in Hfind as [Hin _].
    rewrite Forall_forall in Hhandles. apply list_elem_of_In, Hhandles in Hin.
    apply Nat.eqb_neq in Hin. unfold VK_NULL_HANDLE in *. simpl. rewrite Hin. simpl.
    rewrite Hin. simpl. eexists. split; [reflexivity |]. split; reflexivity.
  - apply Forall_cons in Hhandles as [Hfirst _].
    apply Nat.eqb_neq in Hfirst. unfold VK_NULL_HANDLE in *. simpl. rewrite Hfirst.
    simpl. eexists. split; [reflexivity |]. split; reflexivity.
Qed.

End ContextChoice.

(** On the sample machine, asking for an extension no GPU has: the first
    GPU enumerated is chosen, an integrated one without the extension. *)
Lemma pickPhysicalDevice_choice_witness :
  exists w',
    VulkanContext.pickPhysicalDevice ["VK_KHR_ray_query"%string] sample_host (new_context [])
      = VulkanContext.Returned true w' /\
    VulkanContext.physicalDevice (VulkanContext.self w') = 201.
Proof.
  assert (Hhandles :
            Forall (fun gpu => VulkanContext.pd_handle gpu <> VK_NULL_HANDLE)
                   (VulkanContext.enumeratePhysicalDevices sample_host
                      (VulkanContext.instance (VulkanContext.self (new_context []))))).
  { repeat constructor; discriminate. }
  pose proof (pickPhysicalDevice_choice ["VK_KHR_ray_query"%string] sample_host
                (new_context []) eq_refl Hhandles) as H.
  cbn [VulkanContext.enumeratePhysicalDevices sample_host] in H.
  destruct H as (w' & Hrun & _ & Hself).
  exists w'. split; [exact Hrun |]. rewrite Hself. vm_compute. reflexivity.
Defined.

(** ** The Vulkan context: the queue families *)

Section ContextFamilies.

Variable host : VulkanContext.Host.

Lemma findQueueFamilies_spec gpu surf fams : forall i q,
  let q' := VulkanContext.findQueueFamilies both_found host gpu surf i fams q in
  (forall g, VulkanContext.graphicsFamily q' = Some g ->
     VulkanContext.graphicsFamily q = Some g \/
     exists j queueFlags,
       g = i + j /\ fams !! j = Some queueFlags /\
       (Z.land queueFlags VulkanContext.VK_QUEUE_GRAPHICS_BIT =? 0)%Z = false) /\
  (forall p, VulkanContext.presentFamily q' = Some p ->
     VulkanContext.presentFamily q = Some p \/
     exists j, p = i + j /\ j < length fams /\
               VulkanContext.surfaceSupport host gpu p surf = true) /\
  (VulkanContext.graphicsFamily q' = None ->
     VulkanContext.graphicsFamily q = None /\
     forall j queueFlags, fams !! j = Some queueFlags ->
       (Z.land queueFlags VulkanContext.VK_QUEUE_GRAPHICS_BIT =? 0)%Z = true) /\
  (VulkanContext.presentFamily q' = None ->
     VulkanContext.presentFamily q = None /\
     forall j, j < length fams ->
       VulkanContext.surfaceSupport host gpu (i + j) surf = false).
Proof.
  induction fams as [|queueFlags rest IH]; intros i q; simpl.
  - repeat split; auto; try (intros; lia). intros j ? Hj. by rewrite lookup_nil in Hj.
  - set (q1 := if negb (Z.land queueFlags VulkanContext.VK_QUEUE_GRAPHICS_BIT =? 0)%Z
               then _ else q).
    set (q2 := if VulkanContext.surfaceSupport host gpu i surf then _ else q1).
    assert (Hg1 : forall g, VulkanContext.graphicsFamily q2 = Some g ->
              VulkanContext.graphicsFamily q = Some g \/
              (g = i /\ (Z.land queueFlags VulkanContext.VK_QUEUE_GRAPHICS_BIT =? 0)%Z = false)).
    { subst q2 q1. intros g.
      destruct (VulkanContext.surfaceSupport host gpu i surf),
               (Z.land queueFlags VulkanContext.VK_QUEUE_GRAPHICS_BIT =? 0)%Z;
        simpl; intros H; auto; injection H as <-; auto. }
    assert (Hp1 : forall p, VulkanContext.presentFamily q2 = Some p ->
              VulkanContext.presentFamily q = Some p \/
              (p = i /\ VulkanContext.surfaceSupport host gpu i surf = true)).
    { subst q2 q1. intros p.
      destruct (VulkanContext.surfaceSupport host gpu i surf),
               (Z.land queueFlags VulkanContext.VK_QUEUE_GRAPHICS_BIT =? 0)%Z;
        simpl; intros H; auto; injection H as <-; auto. }
    assert (Hg0 : VulkanContext.graphicsFamily q2 = None ->
              VulkanContext.graphicsFamily q = None /\
              (Z.land queueFlags VulkanContext.VK_QUEUE_GRAPHICS_BIT =? 0)%Z = true).
    { subst q2 q1.
      destruct (VulkanContext.surfaceSupport host gpu i surf),
               (Z.land queueFlags VulkanContext.VK_QUEUE_GRAPHICS_BIT =? 0)%Z;
        simpl; intros H; auto; discriminate. }
    assert (Hp0 : VulkanContext.presentFamily q2 = None ->
              VulkanContext.presentFamily q = None /\
              VulkanContext.surfaceSupport host gpu i surf = false).
    { subst q2 q1.
      destruct (VulkanContext.surfaceSupport host gpu i surf),
               (Z.land queueFlags VulkanContext.VK_QUEUE_GRAPHICS_BIT =? 0)%Z;
        simpl; intros H; auto; discriminate. }
    clearbody q2. clear q1.
    destruct (both_found q2) eqn:Hboth.
    + unfold both_found in Hboth. apply andb_true_iff in Hboth as [Hsg Hsp].
      apply bool_decide_eq_true in Hsg as [g0 Hsg], Hsp as [p0 Hsp].
      split; [| split; [| split]].
      * intros g Hg. destruct (Hg1 g Hg) as [|[-> Hf]]; [by left |]. right.
        exists 0, queueFlags. by rewrite Nat.add_0_r.
      * intros p Hp. destruct (Hp1 p Hp) as [|[-> Hs]]; [by left |]. right.
        exists 0. rewrite Nat.add_0_r. split; [done |]. split; [lia | done].
      * intros Hn. congruence.
      * intros Hn. congruence.
    + destruct (IH (S i) q2) as (IHg & IHp & IHg0 & IHp0).
      split; [| split; [| split]].
      * intros g Hg. destruct (IHg g Hg) as [Hq2 | (j & fl & -> & Hj & Hf)].
        -- destruct (Hg1 g Hq2) as [|[-> Hf]]; [by left |]. right.
           exists 0, queueFlags. by rewrite Nat.add_0_r.
        -- right. exists (S j), fl. split; [lia | by split].
      * intros p Hp. destruct (IHp p Hp) as [Hq2 | (j & -> & Hj & Hs)].
        -- destruct (Hp1 p Hq2) as [|[-> Hs]]; [by left |]. right.
           exists 0. rewrite Nat.add_0_r. split; [done |]. split; [lia | done].
        -- right. exists (S j). split; [lia |]. split; [lia | done].
      * intros Hn. destruct (IHg0 Hn) as [Hq2 Hrest]. destruct (Hg0 Hq2) as [Hq Hf].
        split; [done |]. intros [|j] fl Hj; simpl in Hj; [by injection Hj as <- | eauto].
      * intros Hn. destruct (IHp0 Hn) as [Hq2 Hrest]. destruct (Hp0 Hq2) as [Hq Hs].
        split; [done |]. intros [|j] Hj; [by rewrite Nat.add_0_r |].
        replace (i + S j) with (S i + j) by lia. apply Hrest. lia.
Qed.

(** X14.  With [isComplete] read as "both indices have a value" and no
    index found yet, [createLogicalDevice] leaves by the exception of
    [std::optional::value], having created nothing, exactly when the GPU has
    no family with graphics queues or none that can present to the surface:
    it does not return [false] then.  Otherwise it asks for a device with
    queues of a family that has graphics queues and of one that can present,
    returns whether the driver created it, and on success keeps the device
    and the queue of each of the two families. *)
Theorem createLogicalDevice_families w :
  VulkanContext.queueFamilyIndices (VulkanContext.self w) =
    {| VulkanContext.graphicsFamily := None; VulkanContext.presentFamily := None |} ->
  let gpu := VulkanContext.physicalDevice (VulkanContext.self w) in
  let surf := VulkanContext.surface (VulkanContext.self w) in
  match VulkanContext.createLogicalDevice both_found host w with
  | VulkanContext.Threw w' =>
      VulkanContext.calls w' = VulkanContext.calls w /\
      ((forall i, has_graphics host gpu i = false) \/
       (forall i, can_present host gpu surf i = false))
  | VulkanContext.Returned ok w' =>
      exists g p r h,
        has_graphics host gpu g = true /\
        can_present host gpu surf p = true /\
        VulkanContext.queueFamilyIndices (VulkanContext.self w') =
          {| VulkanContext.graphicsFamily := Some g;
             VulkanContext.presentFamily := Some p |} /\
        VulkanContext.calls w' =
          VulkanContext.calls w ++
          VulkanContext.VkCreateDevice gpu (VulkanContext.uniqueQueueFamilies g p) r h ::
          (if ok then [VulkanContext.VkGetDeviceQueue h g;
                       VulkanContext.VkGetDeviceQueue h p] else []) /\
        ok = is_success r /\
        (ok = true ->
           VulkanContext.device (VulkanContext.self w') = h /\
           VulkanContext.graphicsQueue (VulkanContext.self w')
             = VulkanContext.deviceQueue host h g /\
           VulkanContext.presentQueue (VulkanContext.self w')
             = VulkanContext.deviceQueue host h p)
  end.
Proof.
  intros Hq gpu surf.
  pose proof (findQueueFamilies_spec gpu surf
                (VulkanContext.queueFamilyProperties host gpu) 0
                (VulkanContext.queueFamilyIndices (VulkanContext.self w)))
    as (Hg & Hp & Hg0 & Hp0).
  rewrite Hq in Hg, Hp, Hg0, Hp0. simpl in Hg, Hp.
  unfold VulkanContext.createLogicalDevice, VulkanContext.bind at 1, VulkanContext.this.
  fold gpu surf. rewrite Hq.
  set (q' := VulkanContext.findQueueFamilies both_found host gpu surf 0 _ _) in *.
  unfold VulkanContext.bind at 1, VulkanContext.modify.
  unfold VulkanContext.bind at 1. cbn [VulkanContext.self VulkanContext.with_self
    VulkanContext.queueFamilyIndices VulkanContext.set_queueFamilyIndices
    VulkanContext.physicalDevice].
  destruct (VulkanContext.graphicsFamily q') as [g|] eqn:Eg; simpl.
  2:{ split; [done |]. left. intros i. destruct (Hg0 eq_refl) as [_ Hnone].
      unfold has_graphics.
      destruct (VulkanContext.queueFamilyProperties host gpu !! i) as [fl|] eqn:Hi;
        [| done].
      by rewrite (Hnone i fl Hi). }
  destruct (VulkanContext.presentFamily q') as [p|] eqn:Ep; simpl.
  2:{ split; [done |]. right. intros i. destruct (Hp0 eq_refl) as [_ Hnone].
      unfold can_present.
      destruct (decide (i < length (VulkanContext.queueFamilyProperties host gpu)))
        as [Hi | Hi].
      - rewrite bool_decide_true by done. simpl. by apply (Hnone i).
      - by rewrite bool_decide_false. }
  assert (Hgg : has_graphics host gpu g = true).
  { destruct (Hg g eq_refl) as [| (j & fl & -> & Hj & Hf)]; [done |].
    unfold has_graphics. simpl. by rewrite Hj, Hf. }
  assert (Hpp : can_present host gpu surf p = true).
  { destruct (Hp p eq_refl) as [| (j & -> & Hj & Hs)]; [done |].
    unfold can_present. simpl in *. rewrite bool_decide_true by done. by rewrite Hs. }
  assert (Hq' : q' = {| VulkanContext.graphicsFamily := Some g;
                       VulkanContext.presentFamily := Some p |}).
  { destruct q'. simpl in *. by subst. }
  unfold VulkanContext.vkCreate, VulkanContext.bind, VulkanContext.answer,
    VulkanContext.fresh, VulkanContext.emit, VulkanContext.modify, VulkanContext.ret.
  simpl.
  destruct (is_success _) eqn:Hr; simpl.
  - rewrite failed_spec, Hr. simpl. rewrite Eg, Ep. simpl.
    eexists g, p, _, _. split; [done |]. split; [done |]. split; [done |].
    split; [by rewrite <- !app_assoc |]. split; [by rewrite Hr |]. done.
  - rewrite failed_spec, Hr. simpl.
    eexists g, p, _, _. split; [done |]. split; [done |]. split; [done |].
    split; [reflexivity |]. split; [by rewrite Hr |]. done.
Qed.

End ContextFamilies.

(** On the sample machine: family 0 has graphics queues and can present. *)
Lemma createLogicalDevice_families_witness :
  exists w' g p,
    VulkanContext.createLogicalDevice both_found sample_host (new_context [])
      = VulkanContext.Returned true w' /\
    has_graphics sample_host VK_NULL_HANDLE g = true /\
    can_present sample_host VK_NULL_HANDLE VK_NULL_HANDLE p = true /\
    VulkanContext.queueFamilyIndices (VulkanContext.self w') =
      {| VulkanContext.graphicsFamily := Some g; VulkanContext.presentFamily := Some p |}.
Proof.
  pose proof (createLogicalDevice_families sample_host (new_context []) eq_refl) as H.
  destruct (VulkanContext.createLogicalDevice both_found sample_host (new_context []))
    as [[|] w' | w'] eqn:Hrun.
  - destruct H as (g & p & r & h & Hg & Hp & Hq & _). by exists w', g, p.
  - vm_compute in Hrun. discriminate Hrun.
  - vm_compute in Hrun. discriminate Hrun.
Defined.

(** ** The Vulkan context: what it creates, [cleanup] destroys *)

Lemma context_alive_snoc tr e :
  VulkanContext.alive (tr ++ [e]) = VulkanContext.alive_step (VulkanContext.alive tr) e.
Proof. unfold VulkanContext.alive. by rewrite foldl_app. Qed.

Lemma context_issued_snoc tr e :
  VulkanContext.issued (tr ++ [e]) =
  VulkanContext.issued tr + length (option_list (VulkanContext.created e)).
Proof.
  unfold VulkanContext.issued. rewrite omap_app, length_app. simpl.
  by destruct (VulkanContext.created e).
Qed.

Lemma context_alive_app tr l :
  VulkanContext.alive (tr ++ l) = foldl VulkanContext.alive_step (VulkanContext.alive tr) l.
Proof. unfold VulkanContext.alive. by rewrite foldl_app. Qed.

Lemma context_issued_app tr l :
  VulkanContext.issued (tr ++ l) =
  VulkanContext.issued tr + length (omap VulkanContext.created l).
Proof. unfold VulkanContext.issued. by rewrite omap_app, length_app. Qed.

Lemma created_then_destroyed (A : gset Handle) h : h ∉ A -> (A ∪ {[h]}) ∖ {[h]} = A.
Proof.
  intros Hh. apply set_eq. intros x.
  rewrite elem_of_difference, elem_of_union, elem_of_singleton.
  split; [tauto |]. intros Hx. split; [by left |]. by intros ->.
Qed.

Section ContextLifecycle.

Variable enableValidationLayers : bool.
Variable deviceExtensions : list string.
Variable isComplete : VulkanContext.QueueFamilyIndices -> bool.
Variable host : VulkanContext.Host.

(** [pickPhysicalDevice] makes no call and changes the chosen GPU only. *)
Lemma pickPhysicalDevice_frame w :
  exists ok gpu,
    VulkanContext.pickPhysicalDevice deviceExtensions host w =
    VulkanContext.Returned ok
      {| VulkanContext.self := VulkanContext.set_physicalDevice gpu (VulkanContext.self w);
         VulkanContext.calls := VulkanContext.calls w;
         VulkanContext.answers := VulkanContext.answers w |}.
Proof.
  unfold VulkanContext.pickPhysicalDevice, VulkanContext.bind, VulkanContext.this,
    VulkanContext.modify, VulkanContext.when, VulkanContext.ret.
  destruct w as [c tr ans]. simpl.
  destruct (length _ =? 0).
  - exists false, (VulkanContext.physicalDevice c). by destruct c.
  - destruct (VulkanContext.pickLoop _ _ _ =? VK_NULL_HANDLE); simpl; eauto.
Qed.

(** The three ways [createLogicalDevice] ends. *)
Lemma createLogicalDevice_frame w :
  let c := VulkanContext.self w in
  let tr := VulkanContext.calls w in
  exists q,
    (exists ans,
       VulkanContext.createLogicalDevice isComplete host w =
       VulkanContext.Threw
         {| VulkanContext.self := VulkanContext.set_queueFamilyIndices q c;
            VulkanContext.calls := tr; VulkanContext.answers := ans |}) \/
    (exists fams r ans,
       is_success r = false /\
       VulkanContext.createLogicalDevice isComplete host w =
       VulkanContext.Returned false
         {| VulkanContext.self := VulkanContext.set_queueFamilyIndices q c;
            VulkanContext.calls :=
              tr ++ [VulkanContext.VkCreateDevice (VulkanContext.physicalDevice c)
                       fams r VK_NULL_HANDLE];
            VulkanContext.answers := ans |}) \/
    (exists fams r g p gq pq ans,
       is_success r = true /\
       VulkanContext.createLogicalDevice isComplete host w =
       VulkanContext.Returned true
         {| VulkanContext.self :=
              VulkanContext.set_presentQueue pq
                (VulkanContext.set_graphicsQueue gq
                   (VulkanContext.set_device (S (VulkanContext.issued tr))
                      (VulkanContext.set_queueFamilyIndices q c)));
            VulkanContext.calls :=
              tr ++ [VulkanContext.VkCreateDevice (VulkanContext.physicalDevice c)
                       fams r (S (VulkanContext.issued tr));
                     VulkanContext.VkGetDeviceQueue (S (VulkanContext.issued tr)) g;
                     VulkanContext.VkGetDeviceQueue (S (VulkanContext.issued tr)) p];
            VulkanContext.answers := ans |}).
Proof.
  intros c tr. subst c tr.
  unfold VulkanContext.createLogicalDevice, VulkanContext.vkCreate, VulkanContext.bind,
    VulkanContext.this, VulkanContext.answer, VulkanContext.fresh, VulkanContext.emit,
    VulkanContext.modify, VulkanContext.ret.
  simpl.
  match goal with
  | |- context [VulkanContext.findQueueFamilies ?a ?b ?c ?d ?e ?f ?g] =>
      set (q := VulkanContext.findQueueFamilies a b c d e f g)
  end.
  exists q. clearbody q.
  destruct (VulkanContext.graphicsFamily q) as [g|] eqn:Eg; simpl; [| left; eauto].
  destruct (VulkanContext.presentFamily q) as [p|] eqn:Ep; simpl; [| left; eauto].
  right.
  match goal with |- context [is_success ?r] => destruct (is_success r) eqn:Hr end;
    simpl; rewrite ?failed_spec, ?Hr; simpl.
  - right. rewrite ?Eg, ?Ep. unfold VulkanContext.with_self, VulkanContext.log. simpl.
    rewrite <- ?app_assoc. simpl. do 7 eexists. split; [exact Hr | reflexivity].
  - left. unfold VulkanContext.with_self, VulkanContext.log. simpl.
    do 3 eexists. split; [exact Hr | reflexivity].
Qed.

Lemma vkCreate_frame mk out w :
  exists r ans,
    (is_success r = true /\
     VulkanContext.vkCreate mk out w =
     VulkanContext.Returned r
       {| VulkanContext.self :=
            out (S (VulkanContext.issued (VulkanContext.calls w))) (VulkanContext.self w);
          VulkanContext.calls :=
            VulkanContext.calls w ++
            [mk r (S (VulkanContext.issued (VulkanContext.calls w)))];
          VulkanContext.answers := ans |}) \/
    (is_success r = false /\
     VulkanContext.vkCreate mk out w =
     VulkanContext.Returned r
       {| VulkanContext.self := VulkanContext.self w;
          VulkanContext.calls := VulkanContext.calls w ++ [mk r VK_NULL_HANDLE];
          VulkanContext.answers := ans |}).
Proof.
  unfold VulkanContext.vkCreate, VulkanContext.bind, VulkanContext.answer,
    VulkanContext.fresh, VulkanContext.emit, VulkanContext.modify, VulkanContext.ret.
  simpl.
  match goal with |- context [is_success ?r] => destruct (is_success r) eqn:Hr end;
    do 2 eexists; [left | right]; (split; [exact Hr | reflexivity]).
Qed.

Ltac context_step :=
  match goal with
  | |- context [VulkanContext.vkCreate ?mk ?out ?w] =>
      let r := fresh "r" in
      let ans := fresh "ans" in
      let Hr := fresh "Hr" in
      let H := fresh in
      destruct (vkCreate_frame mk out w) as (r & ans & [[Hr H] | [Hr H]]);
      rewrite H; clear H; rewrite ?failed_spec, ?Hr
  | |- context [VulkanContext.pickPhysicalDevice ?d ?h ?w] =>
      let ok := fresh "ok" in
      let gpu := fresh "gpu" in
      let H := fresh in
      destruct (pickPhysicalDevice_frame w) as (ok & gpu & H);
      rewrite H; clear H; destruct ok
  | |- context [VulkanContext.createLogicalDevice ?i ?h ?w] =>
      let H := fresh in
      let Hr := fresh "Hr" in
      destruct (createLogicalDevice_frame w)
        as (? & [(? & H) | [(? & ? & ? & Hr & H) | (? & ? & ? & ? & ? & ? & ? & Hr & H)]]);
      rewrite H; clear H
  | |- context [negb (VulkanContext.instanceProcAddr ?h ?i ?n)] =>
      let Hf := fresh "Hfunc" in
      destruct (VulkanContext.instanceProcAddr h i n) eqn:Hf
  end;
  cbn [VulkanContext.ret VulkanContext.this VulkanContext.final
       VulkanContext.self VulkanContext.calls VulkanContext.answers negb].

(** X15.  Whatever [initialize] did on a new context, and however it
    ended (success, failure at any stage, or the exception of
    [createLogicalDevice]), a [cleanup] afterwards destroys every object
    that [initialize] created: the objects alive are those of before.  The
    four handles are null again, and a further [cleanup] makes no call.
    With validation enabled this needs the loader to know the function that
    destroys a debug messenger whenever it knows the one that creates it. *)
Theorem cleanup_after_initialize w :
  VulkanContext.self w = VulkanContext.VulkanContext_new ->
  (forall h, h ∈ VulkanContext.alive (VulkanContext.calls w) ->
     h <= VulkanContext.issued (VulkanContext.calls w)) ->
  (forall inst,
     VulkanContext.instanceProcAddr host inst "vkCreateDebugUtilsMessengerEXT" = true ->
     VulkanContext.instanceProcAddr host inst "vkDestroyDebugUtilsMessengerEXT" = true) ->
  exists w2,
    VulkanContext.cleanup enableValidationLayers host
      (VulkanContext.final
         (VulkanContext.initialize enableValidationLayers deviceExtensions isComplete
            host w))
      = VulkanContext.Returned tt w2 /\
    VulkanContext.alive (VulkanContext.calls w2) = VulkanContext.alive (VulkanContext.calls w) /\
    VulkanContext.instance (VulkanContext.self w2) = VK_NULL_HANDLE /\
    VulkanContext.debugMessenger (VulkanContext.self w2) = VK_NULL_HANDLE /\
    VulkanContext.surface (VulkanContext.self w2) = VK_NULL_HANDLE /\
    VulkanContext.device (VulkanContext.self w2) = VK_NULL_HANDLE /\
    VulkanContext.cleanup enableValidationLayers host w2 = VulkanContext.Returned tt w2.
Proof.
  intros Hnew Hfresh Hproc.
  unfold VulkanContext.initialize, VulkanContext.createInstance,
    VulkanContext.setupDebugMessenger, VulkanContext.createSurface, VulkanContext.bind.
  destruct enableValidationLayers; cbn [negb]; cbv beta; repeat context_step.
  all: unfold VulkanContext.cleanup, VulkanContext.bind, VulkanContext.this,
         VulkanContext.when, VulkanContext.emit, VulkanContext.modify,
         VulkanContext.ret, VulkanContext.with_self, VulkanContext.log;
       rewrite ?Hnew; simpl.
  all: try match goal with
           | H : VulkanContext.instanceProcAddr _ _ _ = true |- _ =>
               simpl in H; rewrite (Hproc _ H)
           end.
  all: eexists; split; [reflexivity |]; simpl.
  all: split; [| by repeat split].
  all: rewrite ?context_alive_app, ?context_issued_app;
       unfold VulkanContext.alive_step, VulkanContext.created, VulkanContext.destroyed;
       simpl;
       repeat (match goal with H : is_success _ = _ |- _ => rewrite H end; simpl).
  all: rewrite ?created_then_destroyed; [reflexivity | ..].
  all: rewrite ?not_elem_of_union, ?elem_of_singleton; repeat split; try lia.
  all: intros Hin; apply Hfresh in Hin; lia.
Qed.

(** [pickPhysicalDevice] keeps the GPU it finds chosen unless it finds a
    suitable one. *)
Lemma pickPhysicalDevice_keeps w :
  VulkanContext.physicalDevice (VulkanContext.self w) <> VK_NULL_HANDLE ->
  Forall (fun gpu => VulkanContext.pd_handle gpu <> VK_NULL_HANDLE)
         (VulkanContext.enumeratePhysicalDevices host
            (VulkanContext.instance (VulkanContext.self w))) ->
  exists ok gpu,
    VulkanContext.pickPhysicalDevice deviceExtensions host w =
    VulkanContext.Returned ok
      {| VulkanContext.self := VulkanContext.set_physicalDevice gpu (VulkanContext.self w);
         VulkanContext.calls := VulkanContext.calls w;
         VulkanContext.answers := VulkanContext.answers w |} /\
    (gpu = VulkanContext.physicalDevice (VulkanContext.self w) \/
     exists found,
       found ∈ VulkanContext.enumeratePhysicalDevices host
                 (VulkanContext.instance (VulkanContext.self w)) /\
       suitable deviceExtensions found = true /\
       gpu = VulkanContext.pd_handle found).
Proof.
  intros Hold Hhandles.
  unfold VulkanContext.pickPhysicalDevice, VulkanContext.bind, VulkanContext.this,
    VulkanContext.modify, VulkanContext.when, VulkanContext.ret.
  simpl. destruct (length _ =? 0).
  - exists false, (VulkanContext.physicalDevice (VulkanContext.self w)).
    split; [| by left]. by destruct w as [[] ? ?].
  - rewrite pickLoop_find.
    destruct (find (suitable deviceExtensions) _) as [found|] eqn:Hfind.
    + apply find_some in Hfind as [Hin Hs]. apply list_elem_of_In in Hin.
      rewrite Forall_forall in Hhandles. pose proof (Hhandles _ Hin) as Hne.
      apply Nat.eqb_neq in Hne. unfold VK_NULL_HANDLE in *. rewrite Hne. simpl.
      eexists _, _. split; [reflexivity |]. right. eauto.
    + apply Nat.eqb_neq in Hold. unfold VK_NULL_HANDLE in *. rewrite Hold. simpl.
      eexists _, _. split; [reflexivity |]. by left.
Qed.

(** X16.  [cleanup] does not forget the GPU that was chosen, and
    [pickPhysicalDevice] falls back to the first GPU enumerated only when
    none is chosen.  So once a GPU has been chosen, a [cleanup] followed by
    a new [initialize], however that ends, leaves either that same GPU
    chosen, whether or not the new instance still enumerates it, or a
    discrete GPU with every required extension. *)
Theorem reinitialize_keeps_gpu w :
  VulkanContext.physicalDevice (VulkanContext.self w) <> VK_NULL_HANDLE ->
  (forall inst,
     Forall (fun gpu => VulkanContext.pd_handle gpu <> VK_NULL_HANDLE)
            (VulkanContext.enumeratePhysicalDevices host inst)) ->
  let w1 := VulkanContext.final (VulkanContext.cleanup enableValidationLayers host w) in
  let w2 := VulkanContext.final
              (VulkanContext.initialize enableValidationLayers deviceExtensions
                 isComplete host w1) in
  VulkanContext.physicalDevice (VulkanContext.self w2)
    = VulkanContext.physicalDevice (VulkanContext.self w) \/
  exists inst found,
    found ∈ VulkanContext.enumeratePhysicalDevices host inst /\
    suitable deviceExtensions found = true /\
    VulkanContext.physicalDevice (VulkanContext.self w2) = VulkanContext.pd_handle found.
Proof.
  intros Hold Hhandles w1 w2.
  assert (H1 : VulkanContext.physicalDevice (VulkanContext.self w1)
               = VulkanContext.physicalDevice (VulkanContext.self w)).
  { subst w1.
    unfold VulkanContext.cleanup, VulkanContext.bind, VulkanContext.this,
      VulkanContext.when, VulkanContext.emit, VulkanContext.modify, VulkanContext.ret.
    destruct w as [c tr ans]. simpl.
    destruct (VulkanContext.device c =? VK_NULL_HANDLE); simpl;
      destruct (VulkanContext.surface c =? VK_NULL_HANDLE); simpl;
      destruct enableValidationLayers; simpl;
      destruct (VulkanContext.debugMessenger c =? VK_NULL_HANDLE); simpl;
      try destruct (VulkanContext.instanceProcAddr host _ _); simpl;
      destruct (VulkanContext.instance c =? VK_NULL_HANDLE); reflexivity. }
  rewrite <- H1 in *. clearbody w1. clear H1. subst w2.
  unfold VulkanContext.initialize, VulkanContext.createInstance,
    VulkanContext.setupDebugMessenger, VulkanContext.createSurface, VulkanContext.bind.
  destruct enableValidationLayers; cbn [negb]; cbv beta.
  all: repeat first
         [ match goal with
           | |- context [VulkanContext.pickPhysicalDevice ?d ?h ?w0] =>
               let H := fresh in
               let Hc := fresh "Hchoice" in
               destruct (pickPhysicalDevice_keeps w0) as (ok & gpu & H & Hc);
               [ exact Hold | apply Hhandles | ];
               rewrite H; clear H; destruct ok;
               cbn [VulkanContext.ret VulkanContext.this VulkanContext.final
                    VulkanContext.self VulkanContext.calls VulkanContext.answers negb]
           end
         | context_step ].
  all: cbn [VulkanContext.physicalDevice VulkanContext.set_presentQueue
            VulkanContext.set_graphicsQueue VulkanContext.set_device
            VulkanContext.set_queueFamilyIndices VulkanContext.set_physicalDevice
            VulkanContext.set_surface VulkanContext.set_debugMessenger
            VulkanContext.set_instance] in *.
  all: try (by left).
  all: destruct Hchoice as [-> | (found & Hin & Hs & ->)]; [by left | right; eauto].
Qed.

End ContextLifecycle.

(** On the sample machine, with the driver refusing the device: the
    instance, the messenger and the surface are destroyed. *)
Lemma cleanup_after_initialize_witness :
  exists w2,
    VulkanContext.cleanup true sample_host
      (VulkanContext.final
         (VulkanContext.initialize true ["VK_KHR_swapchain"%string] both_found sample_host
            (new_context [VK_SUCCESS; VK_SUCCESS; VK_SUCCESS; VK_ERROR_DEVICE_LOST])))
      = VulkanContext.Returned tt w2 /\
    VulkanContext.alive (VulkanContext.calls w2) = ∅ /\
    length (VulkanContext.calls w2) = 7.
Proof.
  destruct (cleanup_after_initialize true ["VK_KHR_swapchain"%string] both_found sample_host
              (new_context [VK_SUCCESS; VK_SUCCESS; VK_SUCCESS; VK_ERROR_DEVICE_LOST]))
    as (w2 & Hrun & Halive & _).
  - reflexivity.
  - intros h Hh. by apply elem_of_empty in Hh.
  - reflexivity.
  - exists w2. split; [exact Hrun |]. split; [exact Halive |].
    vm_compute in Hrun. injection Hrun as <-. reflexivity.
Defined.

(** On the sample machine, asking for an extension no GPU has: the GPU
    chosen by the first [initialize] is still chosen after the second. *)
Lemma reinitialize_keeps_gpu_witness :
  VulkanContext.physicalDevice
    (VulkanContext.self
       (VulkanContext.final
          (VulkanContext.initialize true ["VK_KHR_ray_query"%string] both_found sample_host
             (VulkanContext.final
                (VulkanContext.cleanup true sample_host
                   (VulkanContext.final
                      (VulkanContext.initialize true ["VK_KHR_ray_query"%string]
                         both_found sample_host (new_context []))))))))
    = 201.
Proof.
  destruct (reinitialize_keeps_gpu true ["VK_KHR_ray_query"%string] both_found sample_host
              (VulkanContext.final
                 (VulkanContext.initialize true ["VK_KHR_ray_query"%string]
                    both_found sample_host (new_context []))))
    as [Hkept | (inst & found & Hin & Hs & _)].
  - vm_compute. discriminate.
  - intros inst. repeat constructor; discriminate.
  - rewrite Hkept. vm_compute. reflexivity.
  - cbn [VulkanContext.enumeratePhysicalDevices sample_host] in Hin.
    apply elem_of_cons in Hin as [-> | Hin]; [vm_compute in Hs; discriminate Hs |].
    apply elem_of_cons in Hin as [-> | Hin]; [vm_compute in Hs; discriminate Hs |].
    by apply elem_of_nil in Hin.
Defined.
